(* ===== verification/_CoqProject ===== *)
-Q . S2P
Prelude.v
Std.v
BufferPool.v
BytesBuffer.v
Wire.v
WireRef.v
FbBuffer.v
Connector.v
ConnectorSpec.v
ConnectorPeer.v
OutputMsgSet.v
WaitfreeArrayQueue.v
Chrono.v
VsgAddress.v
Config.v
ConfigSpec.v
ConfigRef.v
Error.v
LibcTimer.v
Timer.v
TimerProcess.v
TimerProcessSpec.v
TimerProcessLive.v
PosixRef.v
TimerQemu.v
TimerKvm.v
Context.v
ContextSpec.v
DeadlineSpec.v
ContextInit.v
TestActor.v
ActorSpec.v
TestHelpers.v
ScriptSpec.v
HandleDeadline.v
ContextFine.v
Cosim.v
CosimSpec.v
ConnectorTests.v
ConnectorPacketTest.v
CosimRun.v
CosimDelayed.v
Handlers.v
Lifetime.v
SeqLock.v
SlotScan.v
BufferPoolConc.v
OutputMsgSetConc.v
Capi.v
TestRun.v
TestRunSpec.v
TestScripts.v
TestBodies.v
ContextTests.v
ContextTestsSpec.v
ContextTestProps.v
CapiTests.v
CapiTestsSpec.v
Fixtures.v
ContextProps.v
ContextFineProps.v
CosimProps.v
ConcProps.v
WireProps.v
TimerProps.v
ConfigProps.v
CapiProps.v
CapiTestProps.v
LifetimeProps.v
