(* ===== verification/Prelude.v ===== *)
(** * The TANSIV client, modelled and verified

    TANSIV couples virtual machines or plain processes with a network
    simulator (SimGrid).  Every node links the client library of
    [src/src/client], in Rust; a coordinator tells it, over a UNIX socket, how
    far it may run.  Between two deadlines the application sends packets,
    which the library time-stamps and keeps; at a deadline the library stops
    the node, sends the packets of the slice, notifies the coordinator,
    receives the packets delivered to this node and the next deadline, and
    lets the node run again.

    This library models that client and proves what it promises.  It is a
    shallow embedding: a Rust function is a Rocq function of the same name,
    prefixed by its type where two functions share a name.  Code that mutates
    runs in the state monad [M] of this file, over an [outcome] that is a
    value, a panic or a lack of fuel; [Result] is [result] and the [?]
    operator is [try], written with a question mark in the binding.  Integers
    are [Z] with the casts of their width written out; [usize] is 64 bits.
    Rust drops are explicit calls.

    ** Parts of the program and their models

    - Standard library: [Prelude] (panics, results, the monad, machine
      integers) and [Std] (durations, I/O errors, socket streams).
    - Buffers: [buffer_pool.rs] is [BufferPool], a pool against the
      [InnerBuffer] interface; its two implementations are [bytes_buffer.rs],
      [BytesBuffer], and [flatbuilder_buffer.rs], [FbBuffer].
      [BufferPoolConc] interleaves the atomic accesses of several threads.
    - Protocol: [Wire] is the interface of the FlatBuffers runtime and of the
      code generated from [packets.fbs]; [Connector] is the client side of
      [connector/mod.rs] and [connector/unix.rs], [ConnectorPeer] the other
      side, and [ConnectorSpec] the reference reader and the frames.
    - Messages: [output_msg_set.rs] is [OutputMsgSet], with its concurrent
      accesses in [OutputMsgSetConc]; [waitfree_array_queue.rs] is
      [WaitfreeArrayQueue], over the interface of crossbeam's queue.
    - Time: [Timer] is the interface between the context and its timer;
      [timer/process.rs] is [TimerProcess] (its laws in [TimerProcessSpec],
      that it never panics in [TimerProcessLive]),
      [timer/qemu/mod.rs] is [TimerQemu] and [timer/qemukvm/mod.rs] is
      [TimerKvm].  They use [Chrono] (the interface of the chrono crate),
      [LibcTimer] ([rust-deps/libc_timer]) and [SeqLock]
      ([rust-deps/seq_lock]).  Their deadline handlers are in [Handlers].
    - Context: [lib.rs] is [Context]; [ContextSpec], [DeadlineSpec] and
      [ContextInit] specify its operations on the abstract state (messages of
      the slice, messages stamped beyond a deadline, packets to read).
      [HandleDeadline] is what the deadline handlers share, and what one
      deadline does to each pending message, whether the simulation goes on or
      ends.  [ContextFine] is the step relation of threads that send and receive
      and of the deadline handler.  It splits the calls into their parts (a send
      records its time, allocates, asks the timer whether it is late, queues; a
      reception takes a packet, reads it), which the handler and other calls
      may separate; a call under way holds a buffer, and the specifications of
      [ContextSpec] and [DeadlineSpec] count such buffers.  Writes may fail and a
      deadline may end the simulation.  [reachable_by] are the states reached by
      steps of a given kind: any ([fine_reachable]), those whose deadlines do not
      go back ([forward]), and the [orderly] ones, where moreover nothing comes
      between the check of a late message and its queueing.  The state is the
      record [Context]; each of its fields is the field of the Rust structure,
      plus the list of the callbacks made.
    - Configuration: [config.rs] is [Config], over the interface of clap, with
      its lemmas in [ConfigSpec] and a concrete clap in [ConfigRef].
    - C interface: [capi/src/lib.rs] and the function [init] are [Capi];
      [Error] and [VsgAddress] are [error.rs] and [vsg_address.rs].
    - Lifetimes: [Lifetime] counts the references to contexts that [vsg_init],
      [vsg_cleanup] and the deadline handlers hold, with the registration of
      each timer and the raw pointer that the handler of KVM follows; its step
      relation interleaves them.
    - Test coordinator: [TestActor] is the actor process of
      [connector/unix.rs], whose scripts are interaction trees, and
      [TestHelpers] the scripts and notifiers of [lib.rs]; [ActorSpec] and
      [ScriptSpec] say what they do.  [Cosim] runs a client against such an
      actor: the pair is a [world], and a receive of the client that has to
      wait gives the turn to the actor.  [CosimSpec], [CosimRun] and
      [CosimDelayed] are its lemmas and the invariants of whole simulations.
      [ConnectorTests] are the tests of [connector/unix.rs], and
      [ConnectorPacketTest] the one that compares two parsed messages.
    - Tests of the client: [TestRun] is the state of a test, in which the
      deadline signals of the process timer interrupt the application before
      any of its calls and while it sleeps; [ContextTests] are the tests of
      [lib.rs] and [CapiTests] those of [capi/src/lib.rs].  [TestRunSpec] has
      the reasoning on fuel and signals, [TestScripts] and [TestBodies] the
      phases of a test against each script, [ContextTestsSpec] and
      [CapiTestsSpec] the result of each test.  The notifier of the tests of
      the C interface is the flag [RecvNotifier] of [TestHelpers].

    The context depends on the timer, the serializer, the queue and chrono
    through type classes ([Timer], [FlatBuffers], [ArrayQueue], [Chrono]) with
    their laws; the three timers are proved to be instances.  [SlotScan] has
    the counting argument both concurrent structures share.

    ** What is proved

    - [ContextFineProps] (C1 to C3, C5 to C7): in every interleaving of the
      parts of calls and the deadlines the accepted messages are the packets on
      the wire, those waiting and, once a deadline has ended the simulation, at
      most one that is lost; every call can go on.  With the timers of a process
      and of QEMU a packet leaves with a time of the slice that ends; with that
      of KVM, two late sends that overlap may break this.  After orderly runs it
      holds with every timer, late messages are in order, and with the timer of
      KVM all messages that are due leave.  Data is well typed and each buffer
      has one owner in every reachable state.
    - [ContextProps] (C4, C8 to C13): [at_deadline] refines its specification
      whatever bytes arrive and whichever writes fail; delivered packets are read
      in order; a full queue and a packet of the largest size end the simulation;
      every branch of [send], [recv], [start] and [new].
    - [CosimProps] (C14, C15): whole simulations against two scripts, for an
      application that sends and receives as it likes, provided the frames of
      its messages fit the buffer of the actor ([answerable]): the client starts,
      the deadlines follow the schedule of the script, the handler of each of
      them returns, and the packet of the script arrives if the messages sent
      are in time ([in_time]).  A deadline against a live actor is a deadline on
      recorded bytes ([live_at_deadline_recorded]).
    - [LifetimeProps] (C16, C17): contexts live exactly as long as they are
      referred to; the pointers of the KVM handler dangle in known cases only;
      after the clean-up of a process nothing revives its context.
    - [ContextTestProps] (C18): the tests of the context pass whenever the
      deadline signals come; those that read the clock end as their assertion
      on the time does.
    - [ConcProps] (C19 to C21): the sequence lock never returns a torn value,
      loses no update and never fails an assertion; buffers and slots have
      one owner; no message of the set is lost or duplicated; allocations and
      inserts do not fail while the slots suffice.
    - [TimerProps] (C22 to C28): references to the shared timers, the alarms,
      simulation time and the time of day over any number of slices, the
      handlers on every branch, and overflow of the counter arithmetic.
    - [WireProps] (C29 to C35): isolation of buffers, the reader of the
      protocol as a refinement, round trips of messages and addresses, the
      times of the wire, and that the tests of the connector pass.
    - [ConfigProps] (C36): the configuration of a command line.
    - [CapiProps] (C37 to C39): the arguments, codes and outputs of the C
      functions.
    - [CapiTestProps] (C40): the tests of the C interface pass.

    Theorems with hypotheses have a witness of the same name with the suffix
    [_witness], which runs them on the data of [Fixtures], over the concrete
    serializer of [WireRef] and the operating system of [PosixRef].

    ** Bounds and fuel

    - [send_outgoing] runs with one turn more than the set has slots: each
      turn takes the message of a later slot.  [send_upcoming] runs with one
      turn more than there are waiting messages, and [recv_loop] with one more
      than there are bytes to receive, since each message has a four-byte
      prefix.  [at_deadline_spec] shows that none runs out.
    - [Process_stop] waits for a flag the deadline handler sets.  Its fuel is
      the number of turns it waits; [process_handler_branches] says that it
      returns at the first turn once the flag is set and at no turn before.
    - [run_actor] and the live versions of the deadline take fuel for the steps
      of the script and the messages received.  More fuel never changes a
      result, and the theorems on whole simulations give an amount from which
      on the call returns.  A script that waits is a value ([Blocked]), not a
      lack of fuel.
    - The tests take fuel for their loops and those of the actor; the theorems
      give an amount from which on a test returns.  Tests whose script goes on
      until it gets a message see at most [MAX_SIGNALS] = 2^32 - 4 signals
      before that, which keeps the number of slices within 32 bits.
    - In [ContextFine] a step is a whole part of a call or a whole deadline, and
      a theorem says that each part of a call returns; runs of steps are finite
      and of any length, without a bound on the calls under way.
    - The theorems on the sequence lock are about fewer than 2^63 writes,
      after which its 64-bit counter wraps.
    - The class [TimerProgress] says up to which time ([tc_limit]) the
      operations of a timer return; the QEMU and the process timers are
      instances.  For the process timer the clocks are within [CLOCK_RANGE],
      2^70 ns, of their epochs, well inside the dates of chrono ([NDT_RANGE]).
    - Durations range over what [std::time::Duration] holds; messages over
      what FlatBuffers can hold ([payload_wf]).

    ** What is not modelled

    - Generated and third-party code: FlatBuffers, crossbeam, chrono, libc and
      nix, structopt, QEMU and the kernel module are parameters with named
      laws.  The coordinator and the kernel module of the repository are not
      Rust.
    - Weak memory: interleavings are sequentially consistent.  In
      [ContextFine] a deadline handler is one step, since it stops the node
      (a process: its timer asserts that no time is read meanwhile), and so is
      each access to the pools, the set and the queue: the pools and the set
      are split further in [BufferPoolConc] and [OutputMsgSetConc], the queue
      is a library.
    - Logging, [Debug] output, and the [Display] of messages and buffers.
    - The matching of arguments with options: clap is a parameter; its laws are
      about options given by their letter.  So is the parser of dates.
    - The clocks of the tests of the context: the time of day is whatever the
      operating system says, so that the assertions on it are part of the
      result.
    - The tests of allocations inside FlatBuffers, and the build script, which
      generates bindings. *)
From stdpp Require Import base option list strings sorting.
From Stdlib Require Import ZArith Lia.

Declare Scope rust_scope.
Delimit Scope rust_scope with rust.

(** ** Panics

    A Rust function either returns, panics or, for a model that takes fuel,
    runs out of it.  [OutOfFuel] is never the behaviour of the program: the
    loops of the context come with a theorem that their fuel is enough, and for
    the waiting loop of [Process_stop] it means that the wait goes on.
    [DanglingPointer] is the use of memory that was freed. *)
Inductive panic_reason :=
  | IndexOutOfBounds
  | CapacityOverflow
  | ArithmeticOverflow
  | DurationOverflow
  | UnwrapOnNone
  | UnwrapOnErr
  | AssertionFailed
  | ExplicitPanic
  | NotImplemented
  | DanglingPointer.

Inductive outcome (A : Type) :=
  | Ret (a : A)
  | Panic (why : panic_reason)
  | OutOfFuel.
Arguments Ret {_} _.
Arguments Panic {_} _.
Arguments OutOfFuel {_}.

#[export] Instance outcome_ret : MRet outcome := @Ret.
#[export] Instance outcome_bind : MBind outcome := λ A B f m,
  match m with
  | Ret a => f a
  | Panic why => Panic why
  | OutOfFuel => OutOfFuel
  end.
#[export] Instance outcome_fmap : FMap outcome := λ A B f m, m ≫= λ a, Ret (f a).

(** [Option::unwrap] and [Result::unwrap]. *)
Definition unwrap {A} (o : option A) : outcome A :=
  match o with Some a => Ret a | None => Panic UnwrapOnNone end.

(** ** Results *)
Inductive result (A E : Type) :=
  | Ok (a : A)
  | Err (e : E).
Arguments Ok {_ _} _.
Arguments Err {_ _} _.

Definition unwrap_ok {A E} (r : result A E) : outcome A :=
  match r with Ok a => Ret a | Err _ => Panic UnwrapOnErr end.

Definition is_ok {A E} (r : result A E) : bool :=
  match r with Ok _ => true | Err _ => false end.

Definition map_err {A E E'} (f : E → E') (r : result A E) : result A E' :=
  match r with Ok a => Ok a | Err e => Err (f e) end.

Definition ok_or {A E} (o : option A) (e : E) : result A E :=
  match o with Some a => Ok a | None => Err e end.

(** The conversion the [?] operator applies to an error. *)
Class From (E E' : Type) := from : E → E'.
#[export] Instance from_refl E : From E E | 10 := λ e, e.

(** ** Code that mutates a state of type [St] *)
Definition M (St A : Type) : Type := St → outcome (A * St).

#[export] Instance M_ret St : MRet (M St) := λ A a s, Ret (a, s).
#[export] Instance M_bind St : MBind (M St) := λ A B f m s,
  match m s with
  | Ret (a, s') => f a s'
  | Panic why => Panic why
  | OutOfFuel => OutOfFuel
  end.

Section state_monad.
Context {St : Type}.

Definition gets {A} (f : St → A) : M St A := λ s, Ret (f s, s).
Definition modify (f : St → St) : M St unit := λ s, Ret (tt, f s).
Definition lift {A} (m : outcome A) : M St A := λ s, a ← m; Ret (a, s).
Definition panic {A} (why : panic_reason) : M St A := λ _, Panic why.
Definition out_of_fuel {A} : M St A := λ _, OutOfFuel.

(** [assert!] and friends. *)
Definition assert (b : bool) : M St unit :=
  if b then mret tt else panic AssertionFailed.

(** The same, outside of the state. *)
Definition require (b : bool) : outcome unit := if b then Ret tt else Panic AssertionFailed.

(** The [?] operator: go on with the value of an [Ok], return the converted
    error of an [Err]. *)
Definition try {A B E E'} `{From E E'} (m : M St (result A E))
    (k : A → M St (result B E')) : M St (result B E') :=
  r ← m; match r with Ok a => k a | Err e => mret (Err (from e)) end.

(** A call on a field of the state. *)
Definition zoom {T A} (get : St → T) (set : T → St → St) (m : M T A) : M St A :=
  λ s, match m (get s) with
       | Ret (a, t) => Ret (a, set t s)
       | Panic why => Panic why
       | OutOfFuel => OutOfFuel
       end.
End state_monad.

(** Executing a step whose outcome is known. *)
Section run.
Context {St : Type}.
Implicit Types s : St.

Lemma bind_run {A B} (m : M St A) (f : A → M St B) a s s' :
  m s = Ret (a, s') → (m ≫= f) s = f a s'.
Proof. unfold mbind, M_bind. by intros ->. Qed.

Lemma try_run_Ok {A B E E'} `{From E E'} (m : M St (result A E))
    (k : A → M St (result B E')) a s s' :
  m s = Ret (Ok a, s') → try m k s = k a s'.
Proof. unfold try, mbind, M_bind. by intros ->. Qed.

Lemma try_run_Err {A B E E'} `{From E E'} (m : M St (result A E))
    (k : A → M St (result B E')) e s s' :
  m s = Ret (Err e, s') → try m k s = Ret (Err (from e), s').
Proof. unfold try, mbind, M_bind. by intros ->. Qed.

Lemma zoom_run {T A} (get : St → T) (set : T → St → St) (m : M T A) a s t :
  m (get s) = Ret (a, t) → zoom get set m s = Ret (a, set t s).
Proof. unfold zoom. by intros ->. Qed.

(** What is known of the steps of code that returned. *)
Lemma bind_inv {A B} (m : M St A) (f : A → M St B) s r :
  (m ≫= f) s = Ret r → ∃ a s', m s = Ret (a, s') ∧ f a s' = Ret r.
Proof. unfold mbind, M_bind. destruct (m s) as [[a s']| |]; naive_solver. Qed.

Lemma try_inv {A B E E'} `{From E E'} (m : M St (result A E))
    (k : A → M St (result B E')) s b s' :
  try m k s = Ret (Ok b, s') → ∃ a s1, m s = Ret (Ok a, s1) ∧ k a s1 = Ret (Ok b, s').
Proof. intros ([a|e]&s1&?&?)%bind_inv; [by eauto|done]. Qed.

Lemma lift_inv {A} (m : outcome A) s a s' :
  lift m s = Ret (a, s') → m = Ret a ∧ s' = s.
Proof. unfold lift. destruct m; naive_solver. Qed.

Lemma gets_inv {A} (f : St → A) s a s' : gets f s = Ret (a, s') → a = f s ∧ s' = s.
Proof. unfold gets. naive_solver. Qed.

Lemma modify_inv f s a s' : modify f s = Ret (a, s') → s' = f s.
Proof. unfold modify. naive_solver. Qed.

Lemma ret_inv {A} (a b : A) s s' : mret (M := M St) a s = Ret (b, s') → b = a ∧ s' = s.
Proof. unfold mret, M_ret. naive_solver. Qed.

Lemma assert_inv b s u s' : assert b s = Ret (u, s') → b = true ∧ s' = s.
Proof. by destruct b; intros [= <- <-]. Qed.

Lemma zoom_inv {T A} (get : St → T) (set : T → St → St) (m : M T A) s a s' :
  zoom get set m s = Ret (a, s') → ∃ t, m (get s) = Ret (a, t) ∧ s' = set t s.
Proof. unfold zoom. destruct (m (get s)) as [[]| |]; naive_solver. Qed.
End run.

(** Decomposes hypotheses that say that code returned. *)
Ltac run_inv1 :=
  match goal with
  | H : (_ ≫= _) _ = Ret _ |- _ => apply bind_inv in H as (?&?&?&H)
  | H : try _ _ _ = Ret (Ok _, _) |- _ => apply try_inv in H as (?&?&?&H)
  | H : lift _ _ = Ret (_, _) |- _ => apply lift_inv in H as [? ?]
  | H : gets _ _ = Ret (_, _) |- _ => apply gets_inv in H as [? ?]
  | H : modify _ _ = Ret (_, _) |- _ => apply modify_inv in H
  | H : mret _ _ = Ret (_, _) |- _ => apply ret_inv in H as [? ?]
  | H : assert _ _ = Ret (_, _) |- _ => apply assert_inv in H as [? ?]
  | H : zoom _ _ _ _ = Ret (_, _) |- _ => apply zoom_inv in H as (?&?&?)
  end.
Ltac run_inv := repeat (run_inv1; simplify_eq).

Notation "x '←?' m ; k" := (try m (λ x, k))
  (at level 20, m at level 100, k at level 200, right associativity,
   format "x  '←?'  m ;  '/' k") : rust_scope.

Open Scope rust_scope.

(** Facts the components give to [eauto]. *)
Create HintDb tansiv discriminated.

(** ** Total correctness

    [wp m Q s] says that [m] run in [s] returns, without a panic, a value and
    a state that satisfy [Q]. *)
Definition wp {St A} (m : M St A) (Q : A → St → Prop) (s : St) : Prop :=
  match m s with Ret (a, s') => Q a s' | _ => False end.

Section wp.
Context {St : Type}.
Implicit Types s : St.

Lemma wp_run {A} (m : M St A) Q s :
  wp m Q s ↔ ∃ a s', m s = Ret (a, s') ∧ Q a s'.
Proof.
  unfold wp. destruct (m s) as [[a s']| |]; split; try done; [eauto|..];
    intros (?&?&?&?); simplify_eq; done.
Qed.

Lemma wp_mono {A} (m : M St A) (Q Q' : A → St → Prop) s :
  wp m Q s → (∀ a s', Q a s' → Q' a s') → wp m Q' s.
Proof. unfold wp. destruct (m s) as [[a s']| |]; eauto. Qed.

Lemma wp_conj {A} (m : M St A) (Q Q' : A → St → Prop) s :
  wp m Q s → wp m Q' s → wp m (λ a s', Q a s' ∧ Q' a s') s.
Proof. unfold wp. destruct (m s) as [[a s']| |]; eauto. Qed.

Lemma wp_bind {A B} (m : M St A) (f : A → M St B) Q s :
  wp (m ≫= f) Q s ↔ wp m (λ a, wp (f a) Q) s.
Proof. unfold wp, mbind, M_bind. by destruct (m s) as [[a s']| |]. Qed.

Lemma wp_ret {A} (a : A) Q s : wp (mret a) Q s ↔ Q a s.
Proof. done. Qed.

Lemma wp_gets {A} (f : St → A) Q s : wp (gets f) Q s ↔ Q (f s) s.
Proof. done. Qed.

Lemma wp_modify f Q s : wp (modify f) Q s ↔ Q tt (f s).
Proof. done. Qed.

Lemma wp_lift {A} (m : outcome A) (a : A) Q s :
  m = Ret a → wp (lift m) Q s ↔ Q a s.
Proof. by intros ->. Qed.

Lemma wp_assert b Q s : b = true → wp (assert b) Q s ↔ Q tt s.
Proof. by intros ->. Qed.

Lemma wp_try {A B E E'} `{From E E'} (m : M St (result A E))
    (k : A → M St (result B E')) Q s :
  wp (try m k) Q s ↔
  wp m (λ r s', match r with
                | Ok a => wp (k a) Q s'
                | Err e => Q (Err (from e)) s'
                end) s.
Proof.
  unfold try. rewrite wp_bind. unfold wp.
  by destruct (m s) as [[[a|e] s']| |].
Qed.

Lemma wp_zoom {T A} (get : St → T) (set : T → St → St) (m : M T A) Q s :
  wp (zoom get set m) Q s ↔ wp m (λ a t, Q a (set t s)) (get s).
Proof. unfold wp, zoom. by destruct (m (get s)) as [[a t]| |]. Qed.
End wp.

Create Rewrite HintDb wp.
#[export] Hint Rewrite @wp_bind @wp_ret @wp_gets @wp_modify @wp_try @wp_zoom : wp.

(** Pushes [wp] through the structure of the code, one call at a time. *)
Ltac wp_simpl := autorewrite with wp; cbn beta.

(** ** Lists *)

(** Replacing one element of a list, seen through [omap]. *)
Lemma omap_insert_perm {A B} (f : A → option B) (l : list A) t x x' :
  l !! t = Some x →
  ∃ L, omap f l ≡ₚ option_list (f x) ++ L ∧
    omap f (<[t := x']> l) ≡ₚ option_list (f x') ++ L ∧
    ∀ t' b, t' ≠ t → l !! t' ≫= f = Some b → b ∈ L.
Proof.
  intros Ht. exists (omap f (take t l) ++ omap f (drop (S t) l)). split_and!.
  - rewrite <- (take_drop_middle l t x Ht) at 1. rewrite omap_app. csimpl.
    destruct (f x); simpl; [by rewrite Permutation_middle|done].
  - rewrite insert_take_drop by (by eapply lookup_lt_Some). rewrite omap_app. csimpl.
    destruct (f x'); simpl; [by rewrite Permutation_middle|done].
  - intros t' b Hne Hb. apply bind_Some in Hb as (y&Hy&Hb).
    apply elem_of_app. rewrite !list_elem_of_omap. destruct (decide (t' < t)).
    + left. exists y. split; [|done]. apply (list_elem_of_lookup_2 _ t').
      by rewrite lookup_take_lt.
    + right. exists y. split; [|done]. apply (list_elem_of_lookup_2 _ (t' - S t)).
      rewrite lookup_drop. by replace (S t + (t' - S t)) with t' by lia.
Qed.

(** ** Machine integers *)
Definition u8_max : Z := 2 ^ 8 - 1.
Definition u32_max : Z := 2 ^ 32 - 1.
Definition u64_max : Z := 2 ^ 64 - 1.
Definition i64_max : Z := 2 ^ 63 - 1.
Definition isize_max : Z := 2 ^ 63 - 1.

Definition in_u8 (z : Z) : Prop := (0 ≤ z ≤ u8_max)%Z.
Definition in_u32 (z : Z) : Prop := (0 ≤ z ≤ u32_max)%Z.
Definition in_u64 (z : Z) : Prop := (0 ≤ z ≤ u64_max)%Z.
Definition in_i64 (z : Z) : Prop := (- 2 ^ 63 ≤ z ≤ i64_max)%Z.

(** The casts [z as u32], [z as u64] and [z as i64]. *)
Definition as_u32 (z : Z) : Z := (z mod 2 ^ 32)%Z.
Definition as_u64 (z : Z) : Z := (z mod 2 ^ 64)%Z.
Definition as_i64 (z : Z) : Z := ((z + 2 ^ 63) mod 2 ^ 64 - 2 ^ 63)%Z.

Lemma as_u32_id z : in_u32 z → as_u32 z = z.
Proof. unfold in_u32, as_u32, u32_max. intros. apply Z.mod_small. lia. Qed.

Lemma as_u64_id z : in_u64 z → as_u64 z = z.
Proof. unfold in_u64, as_u64, u64_max. intros. apply Z.mod_small. lia. Qed.

Lemma as_i64_id z : in_i64 z → as_i64 z = z.
Proof.
  unfold in_i64, as_i64, i64_max. intros. rewrite Z.mod_small; lia.
Qed.

Lemma as_u64_as_i64 z : in_u64 z → as_u64 (as_i64 z) = z.
Proof.
  unfold in_u64, as_u64, as_i64, u64_max. intros.
  rewrite Zminus_mod_idemp_l, Z.add_simpl_r. apply Z.mod_small. lia.
Qed.
