(* ===== verification/Std.v ===== *)
(** * Std: the parts of the Rust standard library the client uses

    [std::time::Duration], [std::io::Error], byte slices and the byte stream
    of a connected UNIX socket ([Read::read_exact], [Write::write_all]). *)
From S2P Require Import Prelude.
From stdpp Require Import base option list strings.
From Stdlib Require Import ZArith Lia Strings.Byte.

Local Open Scope Z_scope.

(** ** std::time::Duration

    A duration is its number of nanoseconds; [Duration_MAX] is the largest
    value of a ([u64] seconds, [u32] nanoseconds below 10^9) pair. *)
Definition Duration : Type := Z.
Definition NANOS_PER_SEC : Z := 1000000000.
Definition Duration_MAX : Duration := 2 ^ 64 * NANOS_PER_SEC - 1.
Definition Duration_wf (d : Duration) : Prop := 0 ≤ d ≤ Duration_MAX.

Definition Duration_new (secs nanos : Z) : outcome Duration :=
  let d := secs * NANOS_PER_SEC + nanos in
  if d <=? Duration_MAX then Ret d else Panic DurationOverflow.

Definition as_secs (d : Duration) : Z := d / NANOS_PER_SEC.
Definition subsec_nanos (d : Duration) : Z := d mod NANOS_PER_SEC.
Definition as_nanos (d : Duration) : Z := d.

(** [a - b] and [a + b] panic when the result is not a duration. *)
Definition Duration_sub (a b : Duration) : outcome Duration :=
  if b <=? a then Ret (a - b) else Panic DurationOverflow.
Definition Duration_mul (a : Duration) (n : Z) : outcome Duration :=
  if a * n <=? Duration_MAX then Ret (a * n) else Panic DurationOverflow.
Definition Duration_add (a b : Duration) : outcome Duration :=
  if a + b <=? Duration_MAX then Ret (a + b) else Panic DurationOverflow.

Lemma Duration_new_parts d :
  Duration_wf d → Duration_new (as_secs d) (subsec_nanos d) = Ret d.
Proof.
  unfold Duration_wf, Duration_new, as_secs, subsec_nanos. intros Hd.
  replace (_ + _) with d by (rewrite (Z.div_mod d NANOS_PER_SEC) at 1; unfold NANOS_PER_SEC; lia).
  by rewrite (proj2 (Z.leb_le _ _)) by lia.
Qed.

Lemma as_secs_range d : Duration_wf d → in_u64 (as_secs d).
Proof.
  unfold Duration_wf, Duration_MAX, as_secs, in_u64, u64_max, NANOS_PER_SEC. intros.
  split; [apply Z.div_pos; lia|]. apply Z.lt_succ_r, Z.div_lt_upper_bound; lia.
Qed.

Lemma subsec_nanos_range d : 0 ≤ subsec_nanos d < NANOS_PER_SEC.
Proof. apply Z.mod_pos_bound. done. Qed.

Lemma Duration_sub_Ret a b : b ≤ a → Duration_sub a b = Ret (a - b).
Proof. unfold Duration_sub. intros. by rewrite (proj2 (Z.leb_le _ _)). Qed.

Lemma Duration_sub_Panic a b : a < b → Duration_sub a b = Panic DurationOverflow.
Proof. unfold Duration_sub. intros. by rewrite (proj2 (Z.leb_gt _ _)). Qed.

Lemma Duration_add_Ret a b : a + b ≤ Duration_MAX → Duration_add a b = Ret (a + b).
Proof. unfold Duration_add. intros. by rewrite (proj2 (Z.leb_le _ _)). Qed.

(** [Duration::from_micros] *)
Definition from_micros (z : Z) : Duration := z * 1000.

Lemma from_micros_wf z : in_u64 z → Duration_wf (from_micros z).
Proof.
  unfold in_u64, u64_max, Duration_wf, Duration_MAX, from_micros, NANOS_PER_SEC. lia.
Qed.

(** ** Arithmetic on [u64]

    [overflow_checks] says whether the build checks integer arithmetic (debug)
    or wraps (release). *)
Class Profile := overflow_checks : bool.

Definition add_u64 `{Profile} (a b : Z) : outcome Z :=
  if overflow_checks && (u64_max <? a + b) then Panic ArithmeticOverflow else Ret (as_u64 (a + b)).
Definition mul_u64 `{Profile} (a b : Z) : outcome Z :=
  if overflow_checks && (u64_max <? a * b) then Panic ArithmeticOverflow else Ret (as_u64 (a * b)).
Definition sub_u64 `{Profile} (a b : Z) : outcome Z :=
  if overflow_checks && (a <? b) then Panic ArithmeticOverflow else Ret (as_u64 (a - b)).

(** Checked or not, an operation that returns is exact modulo 2^64. *)
Lemma sub_u64_inv `{Profile} a b c : sub_u64 a b = Ret c → c = as_u64 (a - b).
Proof. unfold sub_u64. destruct (_ && _); naive_solver. Qed.
Lemma add_u64_inv `{Profile} a b c : add_u64 a b = Ret c → c = as_u64 (a + b).
Proof. unfold add_u64. destruct (_ && _); naive_solver. Qed.

Lemma add_u64_Ret `{Profile} a b : in_u64 (a + b) → add_u64 a b = Ret (a + b).
Proof.
  intros Hab. unfold add_u64. rewrite as_u64_id by done. destruct Hab as [_ Hab].
  by rewrite (proj2 (Z.ltb_ge _ _)), andb_false_r.
Qed.

(** ** std::io::Error *)
Inductive ErrorKind :=
  | InvalidData
  | UnexpectedEof
  | NotFound
  | InvalidInput
  | Interrupted
  | Other.

Inductive io_error :=
  | Custom (kind : ErrorKind) (msg : string)
  | Os (code : Z).

#[export] Instance ErrorKind_eq_dec : EqDecision ErrorKind.
Proof. solve_decision. Defined.
#[export] Instance io_error_eq_dec : EqDecision io_error.
Proof. solve_decision. Defined.

(** The trait [PartialEq] *)
Class PartialEq (A : Type) := partial_eq : A → A → bool.

(** ** Bytes and the little-endian [u32] of the size prefix *)
Abbreviation bytes := (list byte).

#[export] Instance byte_eq_decision : EqDecision byte := Byte.byte_eq_dec.

Definition byte_of_Z (z : Z) : byte := default x00 (Byte.of_N (Z.to_N (z mod 256))).
Definition Z_of_byte (b : byte) : Z := Z.of_N (Byte.to_N b).

Definition u32_to_le (z : Z) : bytes :=
  [byte_of_Z z; byte_of_Z (z / 2 ^ 8); byte_of_Z (z / 2 ^ 16); byte_of_Z (z / 2 ^ 24)].

Definition u32_of_le (l : bytes) : Z :=
  foldr (λ b acc, Z_of_byte b + 256 * acc) 0 l.

Lemma Z_of_byte_range b : 0 ≤ Z_of_byte b < 256.
Proof. unfold Z_of_byte. pose proof (Byte.to_N_bounded b). lia. Qed.

Lemma Z_of_byte_of_Z z : Z_of_byte (byte_of_Z z) = z mod 256.
Proof.
  unfold Z_of_byte, byte_of_Z.
  pose proof (Z.mod_pos_bound z 256 ltac:(lia)) as Hz.
  destruct (Byte.of_N (Z.to_N (z mod 256))) as [b|] eqn:Hb; simpl.
  - apply Byte.to_of_N in Hb. rewrite Hb. lia.
  - apply Byte.of_N_None_iff in Hb. lia.
Qed.

Lemma u32_of_to_le z : in_u32 z → u32_of_le (u32_to_le z) = z.
Proof.
  unfold in_u32, u32_max, u32_to_le, u32_of_le. intros Hz. simpl foldr.
  rewrite !Z_of_byte_of_Z.
  change (2 ^ 24) with (256 * 256 * 256). change (2 ^ 16) with (256 * 256).
  change (2 ^ 8) with 256. rewrite <- !Z.div_div by lia.
  pose proof (Z.div_mod z 256). pose proof (Z.div_mod (z / 256) 256).
  pose proof (Z.div_mod (z / 256 / 256) 256).
  assert (z / 256 / 256 / 256 < 256) by (repeat apply Z.div_lt_upper_bound; lia).
  assert (0 ≤ z / 256 / 256 / 256) by (repeat apply Z.div_pos; lia).
  rewrite (Z.mod_small (z / 256 / 256 / 256)) by lia. lia.
Qed.

Lemma u32_of_le_range l : length l = 4%nat → in_u32 (u32_of_le l).
Proof.
  destruct l as [|a [|b [|c [|d [|]]]]]; try done. intros _.
  unfold in_u32, u32_max, u32_of_le. simpl foldr.
  pose proof (Z_of_byte_range a). pose proof (Z_of_byte_range b).
  pose proof (Z_of_byte_range c). pose proof (Z_of_byte_range d). lia.
Qed.

(** ** The stream of a connected socket

    [rx] is everything the peer will send before the connection ends and
    [rx_end] the error a read meets there; [tx] is what the peer got so far.
    Each call of [write_all] consumes an element of [wr], which says whether
    the kernel accepts the data ([None]) or fails after a number of bytes. *)
Record UnixStream := mk_stream {
  rx : bytes;
  rx_end : io_error;
  tx : bytes;
  wr : list (option (nat * io_error));
}.

Definition eof : io_error := Custom UnexpectedEof "failed to fill whole buffer".

Definition read_exact (n : nat) : M UnixStream (result bytes io_error) := λ s,
  if (n <=? length (rx s))%nat then
    Ret (Ok (take n (rx s)), mk_stream (drop n (rx s)) (rx_end s) (tx s) (wr s))
  else
    Ret (Err (rx_end s), mk_stream [] (rx_end s) (tx s) (wr s)).

Definition write_all (l : bytes) : M UnixStream (result unit io_error) := λ s,
  match wr s with
  | [] => Ret (Ok tt, mk_stream (rx s) (rx_end s) (tx s ++ l) [])
  | None :: wr' => Ret (Ok tt, mk_stream (rx s) (rx_end s) (tx s ++ l) wr')
  | Some (n, e) :: wr' => Ret (Err e, mk_stream (rx s) (rx_end s) (tx s ++ take n l) wr')
  end.
