(* ===== verification/BufferPool.v ===== *)
(** * BufferPool: the pools of preallocated packet buffers

    [tansiv-client/src/buffer_pool.rs].  A pool is a shared array of contents
    and a vector of busy flags; a [Buffer] is the index of a slot the pool
    handed out.  The [InnerBuffer] trait is a type class, its contract the
    class [InnerBufferLaws]; the theorems of the pool are proved against the
    contract.  The drop of a [Buffer] is an explicit call of [free_buffer]. *)
From S2P Require Import Prelude Std.
From stdpp Require Import base option list.
From Stdlib Require Import ZArith Lia.

(** [buffer_pool::Error] *)
Inductive pool_error :=
  | NoBufferAvailable
  | SizeTooBig.

(** [InnerBufferPool<T>], with [Array] the type [T::Array]. *)
Record InnerBufferPool (Array : Type) := mk_pool {
  buffer_size : nat;
  buffers : Array;
  buffer_busy : list bool;
}.
Arguments mk_pool {_} _ _ _.
Arguments buffer_size {_} _.
Arguments buffers {_} _.
Arguments buffer_busy {_} _.

Definition set_buffers {Array} (a : Array) (p : InnerBufferPool Array) :=
  mk_pool (buffer_size p) a (buffer_busy p).
Definition set_busy {Array} (l : list bool) (p : InnerBufferPool Array) :=
  mk_pool (buffer_size p) (buffers p) l.

(** The trait [InnerBuffer].  [ib_put] is the effect on the array of writing a
    new content through the reference that [get_mut] returns. *)
Class InnerBuffer (T Array Content : Type) := {
  ib_calloc : nat → nat → outcome Array;
  ib_new : nat → nat → T;
  ib_get : T → InnerBufferPool Array → nat → outcome Content;
  ib_put : T → InnerBufferPool Array → nat → Content → outcome Array;
  ib_reset : T → InnerBufferPool Array → nat → outcome Array;
}.
Arguments ib_calloc T {_ _ _} _ _.
#[export] Hint Mode InnerBuffer + - - : typeclass_instances.

(** [Buffer<T>]; the pool it belongs to is the state it is used in. *)
Record Buffer (T : Type) := mk_buffer {
  index : nat;
  inner : T;
}.
Arguments mk_buffer {_} _ _.
Arguments index {_} _.
Arguments inner {_} _.

Section buffer_pool.
Context {T Array Content : Type} `{InnerBuffer T Array Content}.

Abbreviation Pool := (InnerBufferPool Array).

Definition BufferPool_new (buffer_size num_buffers : nat) : outcome Pool :=
  a ← ib_calloc T buffer_size num_buffers;
  Ret (mk_pool buffer_size a (replicate num_buffers false)).

(** [slot.swap(true, Ordering::AcqRel)] *)
Definition swap_busy (idx : nat) : M Pool bool := λ p,
  match buffer_busy p !! idx with
  | Some old => Ret (old, set_busy (<[idx := true]> (buffer_busy p)) p)
  | None => Panic IndexOutOfBounds
  end.

(** [buffer.inner.reset(pool, idx)] *)
Definition reset_inner (t : T) (idx : nat) : M Pool unit := λ p,
  a ← ib_reset t p idx; Ret (tt, set_buffers a p).

(** The [for] loop of [allocate_buffer], over the indices that remain. *)
Fixpoint allocate_scan (size : nat) (idxs : list nat) :
    M Pool (result (Buffer T) pool_error) :=
  match idxs with
  | [] => mret (Err NoBufferAvailable)
  | idx :: rest =>
      old ← swap_busy idx;
      if negb old then
        let buffer := mk_buffer idx (ib_new idx size) in
        _ ← reset_inner (inner buffer) idx;
        mret (Ok buffer)
      else allocate_scan size rest
  end.

Definition allocate_buffer (size : Z) : M Pool (result (Buffer T) pool_error) :=
  bs ← gets buffer_size;
  if (size <=? Z.of_nat bs)%Z then
    n ← gets (λ p, length (buffer_busy p));
    allocate_scan (Z.to_nat size) (seq 0 n)
  else mret (Err SizeTooBig).

(** [self.inner.buffer_busy[index].store(false, Ordering::Release)] *)
Definition free_buffer (index : nat) : M Pool unit := λ p,
  match buffer_busy p !! index with
  | Some _ => Ret (tt, set_busy (<[index := false]> (buffer_busy p)) p)
  | None => Panic IndexOutOfBounds
  end.

Definition Buffer_drop (b : Buffer T) : M Pool unit := free_buffer (index b).

Definition Buffer_deref (b : Buffer T) : M Pool Content := λ p,
  c ← ib_get (inner b) p (index b); Ret (c, p).

(** Runs [m] on the content that [Buffer::deref_mut] borrows. *)
Definition Buffer_deref_mut {A} (b : Buffer T) (m : M Content A) : M Pool A := λ p,
  c ← ib_get (inner b) p (index b);
  '(x, c') ← m c;
  a ← ib_put (inner b) p (index b) c';
  Ret (x, set_buffers a p).
End buffer_pool.

(** ** The contract of [InnerBuffer]

    [ib_wf p] says that the array has room for the slots of [p]; [ib_fits]
    that a handle stays within a slot; [ib_ok t c] that [c] may be written
    through [t].  The busy flags are of no concern to an implementation but
    for their number. *)
Class InnerBufferLaws (T Array Content : Type) `{InnerBuffer T Array Content} := {
  ib_wf : InnerBufferPool Array → Prop;
  ib_fits : T → nat → Prop;
  ib_ok : T → Content → Prop;
  ib_zero : T → Content → Prop;
  ib_wf_busy p l : ib_wf p → length l = length (buffer_busy p) → ib_wf (set_busy l p);
  ib_calloc_wf bs n a : ib_calloc T bs n = Ret a → ib_wf (mk_pool bs a (replicate n false));
  ib_new_fits i size bs : size ≤ bs → ib_fits (ib_new i size) bs;
  ib_get_total t p i :
    ib_wf p → ib_fits t (buffer_size p) → i < length (buffer_busy p) →
    ∃ c, ib_get t p i = Ret c ∧ ib_ok t c;
  ib_get_busy (t : T) p i l : ib_get t (set_busy l p) i = ib_get t p i;
  ib_put_spec t p i c :
    ib_wf p → ib_fits t (buffer_size p) → i < length (buffer_busy p) → ib_ok t c →
    ∃ a, ib_put t p i c = Ret a ∧ ib_wf (set_buffers a p) ∧
      ib_get t (set_buffers a p) i = Ret c ∧
      ∀ t' j, ib_fits t' (buffer_size p) → j < length (buffer_busy p) → j ≠ i →
        ib_get t' (set_buffers a p) j = ib_get t' p j;
  ib_reset_spec t p i :
    ib_wf p → ib_fits t (buffer_size p) → i < length (buffer_busy p) →
    ∃ a c, ib_reset t p i = Ret a ∧ ib_wf (set_buffers a p) ∧
      ib_get t (set_buffers a p) i = Ret c ∧ ib_ok t c ∧ ib_zero t c ∧
      ∀ t' j, ib_fits t' (buffer_size p) → j < length (buffer_busy p) → j ≠ i →
        ib_get t' (set_buffers a p) j = ib_get t' p j;
}.

Arguments ib_wf T {_ _ _ _} _.
#[export] Hint Mode InnerBufferLaws + - - - : typeclass_instances.

(** ** The invariant of a pool

    [L] are the live buffers: a slot is busy exactly when one of them, and
    only one, owns it. *)
Definition pool_inv {T Array Content} `{InnerBufferLaws T Array Content}
    (p : InnerBufferPool Array)
    (L : list (Buffer T)) : Prop :=
  ib_wf T p ∧
  NoDup (index <$> L) ∧
  (∀ i, buffer_busy p !! i = Some true ↔ i ∈ index <$> L) ∧
  Forall (λ b, ib_fits (inner b) (buffer_size p)) L.

(** Contents of the buffers [L] are the same in [p] and [p']. *)
Definition same_contents {T Array Content} `{InnerBuffer T Array Content} (L : list (Buffer T))
    (p p' : InnerBufferPool Array) : Prop :=
  ∀ b, b ∈ L → ib_get (inner b) p' (index b) = ib_get (inner b) p (index b).

Lemma first_false (l : list bool) :
  (∀ i, i < length l → l !! i = Some true) ∨
  (∃ i, l !! i = Some false ∧ ∀ j, j < i → l !! j = Some true).
Proof.
  induction l as [|[] l IH]; [left; simpl; intros; lia| |right; exists 0; split; [done|intros; lia]].
  destruct IH as [IH|(i&Hi&IH)].
  - left. intros [|i] Hi; simpl in *; [done|]. apply IH. lia.
  - right. exists (S i). split; [done|]. intros [|j] ?; simpl; [done|]. apply IH. lia.
Qed.

Section pool_theorems.
Context {T Array Content : Type} `{InnerBufferLaws T Array Content}.
Implicit Types (p : InnerBufferPool Array) (L : list (Buffer T)) (b : Buffer T).

Lemma set_busy_id p : set_busy (buffer_busy p) p = p.
Proof. by destruct p. Qed.

Lemma pool_inv_lt p L b : pool_inv p L → b ∈ L → index b < length (buffer_busy p).
Proof.
  intros (_&_&Hb&_) Hin. eapply lookup_lt_Some, Hb, list_elem_of_fmap. eauto.
Qed.

Lemma pool_inv_get p L b :
  pool_inv p L → b ∈ L → ∃ c, ib_get (inner b) p (index b) = Ret c ∧ ib_ok (inner b) c.
Proof.
  intros Hp Hin. pose proof (pool_inv_lt _ _ _ Hp Hin).
  destruct Hp as (?&_&_&Hf). eapply Forall_forall in Hf; [|done]. by apply ib_get_total.
Qed.

Lemma pool_inv_perm p L L' : L ≡ₚ L' → pool_inv p L → pool_inv p L'.
Proof.
  intros HP (?&?&Hb&?). repeat split; [done|by rewrite <- HP|..].
  - intros ?%Hb. by rewrite <- HP.
  - intros Hi. apply Hb. by rewrite HP.
  - by rewrite <- HP.
Qed.

(** The live buffers fit in the pool. *)
Lemma pool_inv_length p L : pool_inv p L → length L ≤ length (buffer_busy p).
Proof.
  intros (_&Hnd&Hb&_).
  assert (index <$> L ⊆+ seq 0 (length (buffer_busy p))) as Hs.
  { apply NoDup_submseteq; [done|]. intros i ?%Hb%lookup_lt_Some.
    apply elem_of_seq. lia. }
  apply submseteq_length in Hs. by rewrite length_fmap, length_seq in Hs.
Qed.

Lemma pool_inv_new bs n p :
  BufferPool_new (T := T) bs n = Ret p → pool_inv p ([] : list (Buffer T)) ∧ length (buffer_busy p) = n.
Proof.
  unfold BufferPool_new, mbind, outcome_bind.
  destruct (ib_calloc T bs n) eqn:Ha; intros; simplify_eq/=.
  rewrite length_replicate. repeat split; [by apply ib_calloc_wf|constructor| | |done].
  - intros Hi%lookup_replicate. by destruct Hi.
  - by intros ?%elem_of_nil.
Qed.

(** The scan over busy slots changes nothing and fails. *)
Lemma allocate_scan_full size k m p :
  (∀ i, k ≤ i < k + m → buffer_busy p !! i = Some true) →
  allocate_scan (T := T) size (seq k m) p = Ret (Err NoBufferAvailable, p).
Proof.
  revert k. induction m as [|m IH]; intros k Hb; [done|]. simpl.
  unfold mbind, M_bind, swap_busy. rewrite Hb by lia. simpl.
  rewrite list_insert_id, set_busy_id by (apply Hb; lia).
  apply IH. intros. apply Hb. lia.
Qed.

(** The scan takes the first slot that is not busy. *)
Lemma allocate_scan_first size k m i p :
  buffer_busy p !! i = Some false → k ≤ i < k + m →
  (∀ j, k ≤ j < i → buffer_busy p !! j = Some true) →
  allocate_scan (T := T) size (seq k m) p =
    (_ ← reset_inner (ib_new i size : T) i; mret (Ok (mk_buffer i (ib_new i size))))
      (set_busy (<[i := true]> (buffer_busy p)) p).
Proof.
  revert k. induction m as [|m IH]; intros k Hi ? Hb; [lia|]. simpl.
  unfold mbind at 1, M_bind at 1, swap_busy. destruct (decide (k = i)) as [->|].
  - by rewrite Hi.
  - rewrite Hb by lia. simpl. rewrite list_insert_id, set_busy_id by (apply Hb; lia).
    apply IH; [done|lia|]. intros. apply Hb. lia.
Qed.

(** Taking the free slot [i] and resetting it. *)
Lemma take_slot_inv size i p L :
  pool_inv p L → size ≤ buffer_size p → buffer_busy p !! i = Some false →
  let b : Buffer T := mk_buffer i (ib_new i size) in
  wp (_ ← reset_inner (inner b) i; mret (Ok b : result _ pool_error))
    (λ r p', r = Ok b ∧ pool_inv p' (b :: L) ∧ same_contents L p p' ∧
      buffer_size p' = buffer_size p ∧
      length (buffer_busy p') = length (buffer_busy p) ∧
      ∃ c, ib_get (inner b) p' i = Ret c ∧ ib_ok (inner b) c ∧ ib_zero (inner b) c)
    (set_busy (<[i := true]> (buffer_busy p)) p).
Proof.
  intros (Hwf&Hnd&Hb&Hf) Hs Hi b.
  set (p1 := set_busy _ p).
  assert (length (buffer_busy p1) = length (buffer_busy p)) as Hlen
    by (simpl; apply length_insert).
  assert (ib_wf T p1) as Hwf1 by (by apply ib_wf_busy).
  assert (i < length (buffer_busy p1)) as Hlt
    by (rewrite Hlen; by eapply lookup_lt_Some).
  assert (i ∉ index <$> L) as Hni by (intros ?%Hb; congruence).
  assert (ib_fits (inner b) (buffer_size p1)) as Hfit by (by apply ib_new_fits).
  destruct (ib_reset_spec (inner b) p1 i Hwf1 Hfit Hlt) as (a&c&Hr&Hwf2&Hg&Hok&Hz&Hfr).
  wp_simpl. unfold wp, reset_inner, mbind, outcome_bind. rewrite Hr.
  split_and!; [done|..|done|apply length_insert|by exists c].
  - split_and!; [done|by constructor| |by constructor].
    intros j. simpl. rewrite elem_of_cons, <- Hb.
    destruct (decide (j = i)) as [->|?].
    + rewrite list_lookup_insert_eq by (by eapply lookup_lt_Some). tauto.
    + rewrite list_lookup_insert_ne by done. tauto.
  - intros b' Hin. transitivity (ib_get (inner b') p1 (index b')).
    + apply Hfr; [by eapply Forall_forall in Hf| |].
      * rewrite Hlen. by eapply pool_inv_lt.
      * intros <-. apply Hni, list_elem_of_fmap. eauto.
    + apply ib_get_busy.
Qed.

(** What [allocate_buffer] does on every branch. *)
Lemma allocate_buffer_cases size p L :
  pool_inv p L →
  (Z.of_nat (buffer_size p) < size ∧ allocate_buffer (T := T) size p = Ret (Err SizeTooBig, p))%Z ∨
  (size ≤ Z.of_nat (buffer_size p) ∧ length L = length (buffer_busy p) ∧
    allocate_buffer (T := T) size p = Ret (Err NoBufferAvailable, p))%Z ∨
  ((size ≤ Z.of_nat (buffer_size p))%Z ∧ length L < length (buffer_busy p) ∧
    ∃ i p' c, let b : Buffer T := mk_buffer i (ib_new i (Z.to_nat size)) in
      allocate_buffer (T := T) size p = Ret (Ok b, p') ∧ pool_inv p' (b :: L) ∧
      same_contents L p p' ∧ buffer_size p' = buffer_size p ∧
      length (buffer_busy p') = length (buffer_busy p) ∧
      ib_get (inner b) p' i = Ret c ∧ ib_ok (inner b) c ∧ ib_zero (inner b) c).
Proof.
  intros Hp. pose proof (pool_inv_length _ _ Hp) as Hle.
  unfold allocate_buffer, mbind, M_bind, gets.
  destruct (Z.leb_spec size (Z.of_nat (buffer_size p))); [right|by left].
  destruct (first_false (buffer_busy p)) as [Hall|(i&Hi&Hb)].
  - left. split_and!; [done| |apply allocate_scan_full; intros; apply Hall; lia].
    apply Nat.le_antisymm; [done|].
    assert (seq 0 (length (buffer_busy p)) ⊆+ index <$> L) as Hs.
    { apply NoDup_submseteq; [apply NoDup_seq|]. intros i [_ Hi]%elem_of_seq.
      by apply Hp, Hall. }
    apply submseteq_length in Hs. by rewrite length_fmap, length_seq in Hs.
  - right. pose proof (lookup_lt_Some _ _ _ Hi).
    rewrite (allocate_scan_first _ _ _ i) by (done || lia || (intros; apply Hb; lia)).
    pose proof (take_slot_inv (Z.to_nat size) i p L Hp ltac:(lia) Hi) as Hw.
    apply wp_run in Hw as (r&p'&Hrun&->&Hp'&?&?&Hlen&c&?&?&?).
    split_and!; [done| |by exists i, p', c].
    apply pool_inv_length in Hp'. simpl in Hp'. lia.
Qed.

(** Dropping a live buffer gives its slot back and touches no content. *)
Lemma Buffer_drop_spec p b L :
  pool_inv p (b :: L) →
  ∃ p', Buffer_drop b p = Ret (tt, p') ∧ pool_inv p' L ∧ same_contents L p p' ∧
    buffer_size p' = buffer_size p ∧ length (buffer_busy p') = length (buffer_busy p).
Proof.
  intros Hp. destruct (Hp) as (Hwf&[Hni Hnd]%NoDup_cons&Hb&[? Hf]%Forall_cons).
  assert (index b < length (buffer_busy p)) as Hlt by (eapply pool_inv_lt; [done|left]).
  destruct (lookup_lt_is_Some_2 _ _ Hlt) as [v Hv].
  eexists. split; [unfold Buffer_drop, free_buffer; by rewrite Hv|].
  split_and!; [|by intros ??; apply ib_get_busy|done|apply length_insert].
  split_and!; [apply ib_wf_busy; [done|apply length_insert]|done| |done].
  intros i. simpl. destruct (decide (i = index b)) as [->|?].
  - rewrite list_lookup_insert_eq by done. split; [done|tauto].
  - rewrite list_lookup_insert_ne, Hb by done. rewrite fmap_cons, elem_of_cons. tauto.
Qed.

(** Reading a live buffer. *)
Lemma Buffer_deref_run p b c :
  ib_get (inner b) p (index b) = Ret c → Buffer_deref b p = Ret (c, p).
Proof. intros Hc. unfold Buffer_deref. by rewrite Hc. Qed.

(** Writing through a live buffer changes no other one. *)
Lemma Buffer_deref_mut_spec {A} p b L (m : M Content A) c x c' :
  pool_inv p (b :: L) → ib_get (inner b) p (index b) = Ret c →
  m c = Ret (x, c') → ib_ok (inner b) c' →
  ∃ p', Buffer_deref_mut b m p = Ret (x, p') ∧ pool_inv p' (b :: L) ∧
    same_contents L p p' ∧ ib_get (inner b) p' (index b) = Ret c' ∧
    buffer_size p' = buffer_size p ∧ buffer_busy p' = buffer_busy p.
Proof.
  intros Hp Hc Hm Hok. destruct (Hp) as (Hwf&[Hni Hnd]%NoDup_cons&Hb&Hff).
  assert (index b < length (buffer_busy p)) as Hlt by (eapply pool_inv_lt; [done|left]).
  apply Forall_cons in Hff as HF. destruct HF as [Hf HfL].
  destruct (ib_put_spec (inner b) p (index b) c') as (a&Ha&Hwf'&Hg&Hfr); try done.
  exists (set_buffers a p). split_and!; [|by destruct Hp as (?&?&?&?)| |done..].
  - unfold Buffer_deref_mut, mbind, outcome_bind. by rewrite Hc, Hm, Ha.
  - intros b' Hin. apply Hfr; [by eapply Forall_forall in HfL| |].
    + eapply pool_inv_lt; [done|by right].
    + intros Hi. apply Hni. rewrite <- Hi. apply list_elem_of_fmap. eauto.
Qed.
End pool_theorems.
