(* ===== verification/BytesBuffer.v ===== *)
(** * BytesBuffer: byte buffers carved out of one vector

    [tansiv-client/src/bytes_buffer.rs].  All the buffers of a pool share one
    [Vec<u8>]; slot [i] starts at [i * buffer_size].  The file shows that
    distinct slots never overlap, which is what the [unsafe] blocks of
    [get] and [get_mut] rely on, and that [BytesBuffer] meets the contract
    of [InnerBuffer]. *)
From S2P Require Import Prelude Std BufferPool.
From stdpp Require Import base option list.
From Stdlib Require Import ZArith Lia Strings.Byte.

Record BytesBuffer := mk_bytes_buffer { bb_size : nat }.

Definition buffer_bounds (t : BytesBuffer) (p : InnerBufferPool bytes) (index : nat) : nat * nat :=
  let buffer_start := buffer_size p * index in
  let buffer_end := buffer_start + bb_size t in
  (buffer_start, buffer_end).

(** [&v[r]], and the vector after writing [c] through [&mut v[r]]; both panic
    when the range ends beyond the vector. *)
Definition slice (r : nat * nat) (v : bytes) : outcome bytes :=
  if r.2 <=? length v then Ret (take (r.2 - r.1) (drop r.1 v)) else Panic IndexOutOfBounds.
Definition splice (r : nat * nat) (c v : bytes) : outcome bytes :=
  if r.2 <=? length v then Ret (take r.1 v ++ c ++ drop r.2 v) else Panic IndexOutOfBounds.

Definition BytesBuffer_calloc (buffer_size num_buffers : nat) : outcome bytes :=
  if (Z.of_nat buffer_size * Z.of_nat num_buffers <=? isize_max)%Z
  then Ret (replicate (buffer_size * num_buffers) x00)
  else Panic CapacityOverflow.

Definition BytesBuffer_new (_index size : nat) : BytesBuffer := mk_bytes_buffer size.

Definition BytesBuffer_get (t : BytesBuffer) (p : InnerBufferPool bytes) (index : nat) :
    outcome bytes :=
  slice (buffer_bounds t p index) (buffers p).

Definition BytesBuffer_put (t : BytesBuffer) (p : InnerBufferPool bytes) (index : nat)
    (c : bytes) : outcome bytes :=
  splice (buffer_bounds t p index) c (buffers p).

(** [self.get_mut(pool, index).fill(0u8)] *)
Definition BytesBuffer_reset (t : BytesBuffer) (p : InnerBufferPool bytes) (index : nat) :
    outcome bytes :=
  c ← BytesBuffer_get t p index;
  BytesBuffer_put t p index (replicate (length c) x00).

#[export] Instance BytesBuffer_InnerBuffer : InnerBuffer BytesBuffer bytes bytes := {
  ib_calloc := BytesBuffer_calloc;
  ib_new := BytesBuffer_new;
  ib_get := BytesBuffer_get;
  ib_put := BytesBuffer_put;
  ib_reset := BytesBuffer_reset;
}.

Lemma buffer_bounds_disjoint t t' p i j :
  bb_size t ≤ buffer_size p → i < j →
  (buffer_bounds t p i).2 ≤ (buffer_bounds t' p j).1.
Proof. unfold buffer_bounds. simpl. nia. Qed.

Lemma buffer_bounds_in_vec t p i n :
  bb_size t ≤ buffer_size p → i < n → (buffer_bounds t p i).2 ≤ buffer_size p * n.
Proof. unfold buffer_bounds. simpl. nia. Qed.

Lemma slice_Ret r v :
  r.1 ≤ r.2 → r.2 ≤ length v → ∃ c, slice r v = Ret c ∧ length c = r.2 - r.1.
Proof.
  intros. unfold slice. rewrite (proj2 (Nat.leb_le _ _)) by done.
  eexists. split; [done|]. rewrite length_take, length_drop. lia.
Qed.

Lemma splice_Ret r c v :
  r.1 ≤ r.2 → r.2 ≤ length v → length c = r.2 - r.1 →
  ∃ v', splice r c v = Ret v' ∧ length v' = length v ∧ slice r v' = Ret c.
Proof.
  intros. unfold splice, slice. rewrite (proj2 (Nat.leb_le _ (length v))) by done.
  assert (length (take r.1 v ++ c ++ drop r.2 v) = length v) as Hl.
  { rewrite !length_app, length_take, length_drop. lia. }
  eexists. split_and!; [done..|]. rewrite Hl, (proj2 (Nat.leb_le _ _)) by done.
  rewrite drop_app_length' by (rewrite length_take; lia). by rewrite take_app_length'.
Qed.

Lemma slice_splice_ne r r' c v v' :
  splice r c v = Ret v' → r.1 ≤ r.2 → length c = r.2 - r.1 → r'.1 ≤ r'.2 →
  r'.2 ≤ r.1 ∨ r.2 ≤ r'.1 → slice r' v' = slice r' v.
Proof.
  unfold splice, slice. destruct (Nat.leb_spec r.2 (length v)); intros; simplify_eq.
  assert (length (take r.1 v ++ c ++ drop r.2 v) = length v) as ->.
  { rewrite !length_app, length_take, length_drop. lia. }
  destruct (Nat.leb_spec r'.2 (length v)); [|done]. f_equal.
  apply list_eq. intros i. destruct (decide (i < r'.2 - r'.1)).
  - rewrite !lookup_take_lt, !lookup_drop by done. destruct_or!.
    + rewrite lookup_app_l by (rewrite length_take; lia). by rewrite lookup_take_lt by lia.
    + rewrite lookup_app_r by (rewrite length_take; lia).
      rewrite lookup_app_r by (rewrite length_take; lia). rewrite lookup_drop.
      f_equal. rewrite length_take. lia.
  - by rewrite !lookup_take_ge by lia.
Qed.

Lemma buffer_bounds_wf t p i : (buffer_bounds t p i).1 ≤ (buffer_bounds t p i).2.
Proof. unfold buffer_bounds. simpl. lia. Qed.

Lemma buffer_bounds_length t p i : (buffer_bounds t p i).2 - (buffer_bounds t p i).1 = bb_size t.
Proof. unfold buffer_bounds. simpl. lia. Qed.

#[export] Hint Resolve buffer_bounds_wf : core.

Lemma BytesBuffer_put_frame t p i c :
  buffer_size p * length (buffer_busy p) ≤ length (buffers p) →
  bb_size t ≤ buffer_size p → i < length (buffer_busy p) → length c = bb_size t →
  ∃ a, BytesBuffer_put t p i c = Ret a ∧ length a = length (buffers p) ∧
    BytesBuffer_get t (set_buffers a p) i = Ret c ∧
    ∀ t' j, bb_size t' ≤ buffer_size p → j < length (buffer_busy p) → j ≠ i →
      BytesBuffer_get t' (set_buffers a p) j = BytesBuffer_get t' p j.
Proof.
  intros Hwf Hfit Hi Hc. pose proof (buffer_bounds_in_vec t p i _ Hfit Hi).
  destruct (splice_Ret (buffer_bounds t p i) c (buffers p)) as (a&Ha&Hla&Hg);
    [done|lia|by rewrite buffer_bounds_length|].
  exists a. split_and!; [done..|]. intros t' j Hfit' Hj Hne.
  eapply slice_splice_ne; [exact Ha|done|by rewrite buffer_bounds_length|apply buffer_bounds_wf|].
  destruct (decide (j < i)); [left|right]; apply (buffer_bounds_disjoint _ _ p); lia.
Qed.

#[export] Program Instance BytesBuffer_laws : InnerBufferLaws BytesBuffer bytes bytes := {
  ib_wf p := buffer_size p * length (buffer_busy p) ≤ length (buffers p);
  ib_fits t bs := bb_size t ≤ bs;
  ib_ok t c := length c = bb_size t;
  ib_zero t c := c = replicate (bb_size t) x00;
}.
Next Obligation. simpl. intros p l ? ->. done. Qed.
Next Obligation.
  simpl. unfold BytesBuffer_calloc. intros bs n a ?. case_match; simplify_eq/=.
  rewrite !length_replicate. done.
Qed.
Next Obligation. done. Qed.
Next Obligation.
  simpl. intros t p i Hwf Hfit Hi. pose proof (buffer_bounds_in_vec t p i _ Hfit Hi).
  rewrite <- (buffer_bounds_length t p i). apply slice_Ret; [done|lia].
Qed.
Next Obligation. done. Qed.
Next Obligation.
  simpl. intros t p i c Hwf Hfit Hi Hc.
  destruct (BytesBuffer_put_frame t p i c) as (a&?&Hla&?&?); try done.
  exists a. split_and!; try done. by rewrite Hla.
Qed.
Next Obligation.
  simpl. intros t p i Hwf Hfit Hi. pose proof (buffer_bounds_in_vec t p i _ Hfit Hi).
  destruct (slice_Ret (buffer_bounds t p i) (buffers p)) as (c&Hc&Hlc); [done|lia|].
  rewrite buffer_bounds_length in Hlc.
  destruct (BytesBuffer_put_frame t p i (replicate (length c) x00)) as (a&Ha&Hla&Hg&Hfr);
    [done..|by rewrite length_replicate|].
  exists a, (replicate (length c) x00). split_and!; try done.
  - unfold BytesBuffer_reset, BytesBuffer_get. by rewrite Hc.
  - by rewrite Hla.
  - by rewrite length_replicate.
  - by rewrite Hlc.
Qed.
