(* ===== verification/Wire.v ===== *)
(** * Wire: the protocol schema and the FlatBuffers interface

    [src/wire/packets.fbs] gives the messages.  The FlatBuffers runtime and
    the code [flatc] generates from the schema are not part of the repository:
    they are the class [FlatBuffers], whose operations are arguments of every
    model that serializes or parses, and [FlatBuffersLaws] states what the
    client relies on, namely that reading back what was written gives the
    fields that were written. *)
From S2P Require Import Prelude Std.
From stdpp Require Import base option list.
From Stdlib Require Import ZArith Lia.

(** [struct Time] and [struct PacketMeta] *)
Record Time := mk_time { seconds : Z; nseconds : Z }.
Record PacketMeta := mk_meta { meta_src : Z; meta_dst : Z }.

(** [union FromTansiv] and [union ToTansiv]: the type tag on the wire. *)
Inductive FromTansiv :=
  | FromTansiv_NONE
  | FromTansiv_GotoDeadline
  | FromTansiv_DeliverPacket
  | FromTansiv_EndSimulation
  | FromTansiv_unknown (tag : Z).

Inductive ToTansiv :=
  | ToTansiv_NONE
  | ToTansiv_AtDeadline
  | ToTansiv_SendPacket
  | ToTansiv_unknown (tag : Z).

(** The tables, as the generated accessors show them: a field of a table may
    be absent. *)
Record GotoDeadline_table := mk_goto { goto_time : option Time }.
Record SendPacket_table := mk_send_table {
  send_metadata : option PacketMeta;
  send_packet_time : option Time;
  send_payload : option bytes;
}.
Record DeliverPacket_table := mk_deliver_table {
  deliver_metadata : option PacketMeta;
  deliver_payload : option bytes;
}.

(** [content_type()], [content_as_goto_deadline()], ... of a parsed message. *)
Record FromTansivMsg := mk_from_msg {
  from_content_type : FromTansiv;
  content_as_goto_deadline : option GotoDeadline_table;
  content_as_deliver_packet : option DeliverPacket_table;
}.
Record ToTansivMsg := mk_to_msg {
  to_content_type : ToTansiv;
  content_as_send_packet : option SendPacket_table;
}.

(** The objects a builder holds while a message is built. *)
Inductive fb_object :=
  | OVector (v : bytes)
  | OAtDeadline
  | OSendPacket (t : SendPacket_table)
  | OEndSimulation
  | OGotoDeadline (t : GotoDeadline_table)
  | ODeliverPacket (t : DeliverPacket_table)
  | OToTansivMsg (m : ToTansivMsg)
  | OFromTansivMsg (m : FromTansivMsg).

(** ** [FlatBufferBuilder], [flatbuffers::root] and the generated code *)
Class FlatBuffers := {
  Fbb : Type;
  Off : Type;
  fbb_with_capacity : nat → Fbb;
  fbb_reset : Fbb → Fbb;
  create_vector : bytes → Fbb → Off * Fbb;
  AtDeadline_create : Fbb → Off * Fbb;
  SendPacket_create : option PacketMeta → option Time → option Off → Fbb → Off * Fbb;
  ToTansivMsg_create : ToTansiv → option Off → Fbb → Off * Fbb;
  EndSimulation_create : Fbb → Off * Fbb;
  GotoDeadline_create : option Time → Fbb → Off * Fbb;
  DeliverPacket_create : option PacketMeta → option Off → Fbb → Off * Fbb;
  FromTansivMsg_create : FromTansiv → option Off → Fbb → Off * Fbb;
  finish : Off → Fbb → outcome Fbb;
  finish_size_prefixed : Off → Fbb → outcome Fbb;
  finished_data : Fbb → outcome bytes;
  root_ToTansivMsg : bytes → option ToTansivMsg;
  root_FromTansivMsg : bytes → option FromTansivMsg;
}.

(** Field values have the width the schema gives them, and a payload is far
    below the 2 GB limit of a FlatBuffer. *)
Definition Time_wf (t : Time) : Prop := in_u64 (seconds t) ∧ in_u64 (nseconds t).
Definition PacketMeta_wf (m : PacketMeta) : Prop := in_u32 (meta_src m) ∧ in_u32 (meta_dst m).
Definition payload_wf (v : bytes) : Prop := (Z.of_nat (length v) ≤ 2 ^ 20)%Z.

Definition fb_object_wf (o : fb_object) : Prop :=
  match o with
  | OVector v => payload_wf v
  | OAtDeadline | OEndSimulation => True
  | OGotoDeadline t => from_option Time_wf True (goto_time t)
  | OSendPacket t =>
      from_option PacketMeta_wf True (send_metadata t) ∧
      from_option Time_wf True (send_packet_time t) ∧
      from_option payload_wf True (send_payload t)
  | ODeliverPacket t =>
      from_option PacketMeta_wf True (deliver_metadata t) ∧
      from_option payload_wf True (deliver_payload t)
  | OToTansivMsg _ | OFromTansivMsg _ => True
  end.

(** The message that wraps a content table, with the tag of its union. *)
Definition wrap_to (o : fb_object) : option (ToTansiv * ToTansivMsg) :=
  match o with
  | OAtDeadline => Some (ToTansiv_AtDeadline, mk_to_msg ToTansiv_AtDeadline None)
  | OSendPacket t => Some (ToTansiv_SendPacket, mk_to_msg ToTansiv_SendPacket (Some t))
  | _ => None
  end.
Definition wrap_from (o : fb_object) : option (FromTansiv * FromTansivMsg) :=
  match o with
  | OEndSimulation =>
      Some (FromTansiv_EndSimulation, mk_from_msg FromTansiv_EndSimulation None None)
  | OGotoDeadline t =>
      Some (FromTansiv_GotoDeadline, mk_from_msg FromTansiv_GotoDeadline (Some t) None)
  | ODeliverPacket t =>
      Some (FromTansiv_DeliverPacket, mk_from_msg FromTansiv_DeliverPacket None (Some t))
  | _ => None
  end.

(** What a vector offset, present or not, stands for. *)
Definition vector_at {F O} (den : F → O → option fb_object) (b : F) (o : option O)
    (v : option bytes) : Prop :=
  match o, v with
  | Some o, Some v => den b o = Some (OVector v)
  | None, None => True
  | _, _ => False
  end.

(** The bytes of a finished buffer: the size prefix, when there is one, is
    the little-endian length of the message. *)
Definition frame (body : bytes) : bytes := u32_to_le (Z.of_nat (length body)) ++ body.

(** ** Sizes

    The payload of a message, of a table and of an object.  A table of the
    schema takes at most [table_size] bytes besides its payload, with its
    vtable and the padding that aligns it. *)
Definition table_size : nat := 64.

Definition opt_length (v : option bytes) : nat := from_option length 0 v.
Definition to_payload_size (m : ToTansivMsg) : nat :=
  from_option (opt_length ∘ send_payload) 0 (content_as_send_packet m).
Definition from_payload_size (m : FromTansivMsg) : nat :=
  from_option (opt_length ∘ deliver_payload) 0 (content_as_deliver_packet m).
Definition object_size (o : fb_object) : nat :=
  match o with OVector v => length v | _ => 0 end.

(** ** What the client relies on

    [building b] says that [b] has been reset and not finished since;
    [den b o] is the object at offset [o] and [used b] bounds the bytes [b]
    holds.  A [create] adds its object and keeps the others; finishing at a
    message gives bytes from which [root] reads that message.  A message is
    read only from bytes that contain its payload and its tables. *)
Class FlatBuffersLaws `{FlatBuffers} := {
  building : Fbb → Prop;
  den : Fbb → Off → option fb_object;
  used : Fbb → nat;
  adds b (r : Off * Fbb) o : Prop :=
    building (r.2) ∧ den (r.2) (r.1) = Some o ∧
    (∀ o' x, den b o' = Some x → den (r.2) o' = Some x) ∧
    used (r.2) ≤ used b + object_size o + table_size;
  with_capacity_building n : building (fbb_with_capacity n) ∧ used (fbb_with_capacity n) = 0;
  reset_building b : building (fbb_reset b) ∧ used (fbb_reset b) = 0;
  create_vector_adds v b :
    building b → payload_wf v → adds b (create_vector v b) (OVector v);
  AtDeadline_adds b : building b → adds b (AtDeadline_create b) OAtDeadline;
  EndSimulation_adds b : building b → adds b (EndSimulation_create b) OEndSimulation;
  GotoDeadline_adds t b :
    building b → fb_object_wf (OGotoDeadline (mk_goto t)) →
    adds b (GotoDeadline_create t b) (OGotoDeadline (mk_goto t));
  SendPacket_adds m t o v b :
    building b → vector_at den b o v → fb_object_wf (OSendPacket (mk_send_table m t v)) →
    adds b (SendPacket_create m t o b) (OSendPacket (mk_send_table m t v));
  DeliverPacket_adds m o v b :
    building b → vector_at den b o v → fb_object_wf (ODeliverPacket (mk_deliver_table m v)) →
    adds b (DeliverPacket_create m o b) (ODeliverPacket (mk_deliver_table m v));
  ToTansivMsg_adds b o x tag m :
    building b → den b o = Some x → fb_object_wf x → wrap_to x = Some (tag, m) →
    adds b (ToTansivMsg_create tag (Some o) b) (OToTansivMsg m);
  FromTansivMsg_adds b o x tag m :
    building b → den b o = Some x → fb_object_wf x → wrap_from x = Some (tag, m) →
    adds b (FromTansivMsg_create tag (Some o) b) (OFromTansivMsg m);
  finish_size_prefixed_to b o m :
    building b → den b o = Some (OToTansivMsg m) →
    ∃ b' body, finish_size_prefixed o b = Ret b' ∧ finished_data b' = Ret (frame body) ∧
      in_u32 (Z.of_nat (length body)) ∧ root_ToTansivMsg body = Some m ∧
      length body ≤ used b + table_size;
  finish_size_prefixed_from b o m :
    building b → den b o = Some (OFromTansivMsg m) →
    ∃ b' body, finish_size_prefixed o b = Ret b' ∧ finished_data b' = Ret (frame body) ∧
      in_u32 (Z.of_nat (length body)) ∧ root_FromTansivMsg body = Some m ∧
      length body ≤ used b + table_size;
  finish_from b o m :
    building b → den b o = Some (OFromTansivMsg m) →
    ∃ b' body, finish o b = Ret b' ∧ finished_data b' = Ret body ∧
      in_u32 (Z.of_nat (length body)) ∧ root_FromTansivMsg body = Some m ∧
      length body ≤ used b + table_size;
  root_to_size body m : root_ToTansivMsg body = Some m → to_payload_size m < length body;
  root_from_size body m : root_FromTansivMsg body = Some m → from_payload_size m < length body;
}.

(** A builder that was just made or reset. *)
Definition fbb_fresh `{FlatBuffersLaws} (b : Fbb) : Prop := building b ∧ used b = 0.
