(* ===== verification/WireRef.v ===== *)
(** * WireRef: a concrete serializer that satisfies the FlatBuffers interface

    The witnesses of the theorems that take [FlatBuffers] as a parameter run
    on this instance: a builder is the list of the objects it was given, an
    offset a position in that list, and a finished message a tag byte followed
    by its fields. *)
From S2P Require Import Prelude Std Wire.
From stdpp Require Import base option list.
From Stdlib Require Import ZArith Lia Strings.Byte.

Local Open Scope Z_scope.

Definition u64_to_le (z : Z) : bytes := u32_to_le (z mod 2 ^ 32) ++ u32_to_le (z / 2 ^ 32).

Definition dec_u32 (l : bytes) : option (Z * bytes) :=
  match l with
  | a :: b :: c :: d :: r => Some (u32_of_le [a; b; c; d], r)
  | _ => None
  end.
Definition dec_u64 (l : bytes) : option (Z * bytes) :=
  '(lo, l) ← dec_u32 l; '(hi, l) ← dec_u32 l; Some (lo + 2 ^ 32 * hi, l).

(** One step of a parser, without evaluating the bytes. *)
Ltac dec_step := cbv beta iota delta [mbind option_bind].

Lemma dec_u32_enc z l : in_u32 z → dec_u32 (u32_to_le z ++ l) = Some (z, l).
Proof. intros Hz. apply (f_equal (λ z, Some (z, l))). exact (u32_of_to_le z Hz). Qed.

Lemma dec_u64_enc z l : in_u64 z → dec_u64 (u64_to_le z ++ l) = Some (z, l).
Proof.
  unfold in_u64, u64_max, dec_u64, u64_to_le. intros. rewrite <- app_assoc.
  rewrite dec_u32_enc by (unfold in_u32, u32_max; pose proof (Z.mod_pos_bound z (2 ^ 32)); lia).
  dec_step. rewrite dec_u32_enc.
  - dec_step. do 2 f_equal. rewrite (Z.div_mod z (2 ^ 32)) at 3; lia.
  - unfold in_u32, u32_max. split; [apply Z.div_pos; lia|].
    apply Z.lt_le_pred, Z.div_lt_upper_bound; lia.
Qed.

(** Optional fields carry a presence byte; the payload comes last. *)
Definition enc_opt {A} (enc : A → bytes) (o : option A) : bytes :=
  match o with None => [x00] | Some v => x01 :: enc v end.
Definition dec_opt {A} (dec : bytes → option (A * bytes)) (l : bytes) : option (option A * bytes) :=
  match l with
  | x00 :: l => Some (None, l)
  | x01 :: l => '(v, l) ← dec l; Some (Some v, l)
  | _ => None
  end.

Lemma dec_opt_enc {A} enc dec (P : A → Prop) o l :
  (∀ v l, P v → dec (enc v ++ l) = Some (v, l)) →
  from_option P True o → dec_opt dec (enc_opt enc o ++ l) = Some (o, l).
Proof. intros Hd Ho. destruct o; [|done]. cbn [dec_opt enc_opt app]. by rewrite Hd. Qed.

Definition enc_meta (m : PacketMeta) : bytes := u32_to_le (meta_src m) ++ u32_to_le (meta_dst m).
Definition dec_meta (l : bytes) : option (PacketMeta * bytes) :=
  '(s, l) ← dec_u32 l; '(d, l) ← dec_u32 l; Some (mk_meta s d, l).
Definition enc_time (t : Time) : bytes := u64_to_le (seconds t) ++ u64_to_le (nseconds t).
Definition dec_time (l : bytes) : option (Time * bytes) :=
  '(s, l) ← dec_u64 l; '(n, l) ← dec_u64 l; Some (mk_time s n, l).
Definition dec_rest (l : bytes) : option (bytes * bytes) := Some (l, []).

Lemma dec_meta_enc m l : PacketMeta_wf m → dec_meta (enc_meta m ++ l) = Some (m, l).
Proof.
  intros []. unfold dec_meta, enc_meta. rewrite <- app_assoc, dec_u32_enc by done. dec_step.
  rewrite dec_u32_enc by done. by destruct m.
Qed.

Lemma dec_time_enc t l : Time_wf t → dec_time (enc_time t ++ l) = Some (t, l).
Proof.
  intros []. unfold dec_time, enc_time. rewrite <- app_assoc, dec_u64_enc by done. dec_step.
  rewrite dec_u64_enc by done. by destruct t.
Qed.

Definition enc_object (o : fb_object) : bytes :=
  match o with
  | OAtDeadline => [x01]
  | OSendPacket t =>
      x02 :: enc_opt enc_meta (send_metadata t) ++ enc_opt enc_time (send_packet_time t) ++
        enc_opt id (send_payload t)
  | OEndSimulation => [x03]
  | OGotoDeadline t => x04 :: enc_opt enc_time (goto_time t)
  | ODeliverPacket t =>
      x05 :: enc_opt enc_meta (deliver_metadata t) ++ enc_opt id (deliver_payload t)
  | OVector v => v
  | OToTansivMsg _ | OFromTansivMsg _ => []
  end.

Definition dec_object (l : bytes) : option fb_object :=
  match l with
  | [x01] => Some OAtDeadline
  | x02 :: l =>
      '(m, l) ← dec_opt dec_meta l; '(t, l) ← dec_opt dec_time l; '(v, _) ← dec_opt dec_rest l;
      Some (OSendPacket (mk_send_table m t v))
  | [x03] => Some OEndSimulation
  | x04 :: l => '(t, _) ← dec_opt dec_time l; Some (OGotoDeadline (mk_goto t))
  | x05 :: l =>
      '(m, l) ← dec_opt dec_meta l; '(v, _) ← dec_opt dec_rest l;
      Some (ODeliverPacket (mk_deliver_table m v))
  | _ => None
  end.

Lemma dec_payload_enc o : dec_opt dec_rest (enc_opt id o) = Some (o, []).
Proof. by destruct o. Qed.

Lemma enc_object_small x :
  fb_object_wf x → is_Some (wrap_to x) ∨ is_Some (wrap_from x) →
  in_u32 (Z.of_nat (length (enc_object x))).
Proof.
  unfold in_u32, u32_max. intros Hwf Hx.
  destruct x as [v| |[m t v]| |[t]|[m v]| |]; simpl in *;
    destruct_or?; destruct_and?;
    try match goal with H : is_Some None |- _ => by destruct H end;
    try lia; repeat match goal with o : option _ |- _ => destruct o end;
    simpl in *; unfold payload_wf in *; rewrite ?length_app in *; simpl; lia.
Qed.

Lemma dec_object_enc x :
  fb_object_wf x → is_Some (wrap_to x) ∨ is_Some (wrap_from x) →
  dec_object (enc_object x) = Some x.
Proof.
  intros Hwf Hx. destruct x as [v| |[m t v]| |[t]|[m v]| |]; try done;
    try (destruct Hx as [Hx|Hx]; by destruct Hx);
    cbn [enc_object dec_object fb_object_wf send_metadata send_packet_time send_payload
      goto_time deliver_metadata deliver_payload] in *; destruct_and?;
    [|rewrite <- (app_nil_r (enc_opt enc_time t))|];
    repeat (first
      [erewrite (dec_opt_enc enc_meta dec_meta) by (done || apply dec_meta_enc)
      |erewrite (dec_opt_enc enc_time dec_time) by (done || apply dec_time_enc)
      |rewrite dec_payload_enc]; dec_step); done.
Qed.

(** ** The builder *)
Record ref_builder := mk_ref { ref_objs : list fb_object; ref_finished : option bytes }.

Definition ref_push (o : fb_object) (b : ref_builder) : nat * ref_builder :=
  (length (ref_objs b), mk_ref (ref_objs b ++ [o]) (ref_finished b)).

Definition ref_vector (o : option nat) (b : ref_builder) : option bytes :=
  match o ≫= λ i, ref_objs b !! i with Some (OVector v) => Some v | _ => None end.

Definition ref_to_msg (tag : ToTansiv) (o : option nat) (b : ref_builder) : ToTansivMsg :=
  match (o ≫= (λ i, ref_objs b !! i)) ≫= wrap_to with
  | Some (_, m) => m
  | None => mk_to_msg tag None
  end.
Definition ref_from_msg (tag : FromTansiv) (o : option nat) (b : ref_builder) : FromTansivMsg :=
  match (o ≫= (λ i, ref_objs b !! i)) ≫= wrap_from with
  | Some (_, m) => m
  | None => mk_from_msg tag None None
  end.

(** The content table of a message. *)
Definition unwrap_msg (o : fb_object) : option fb_object :=
  match o with
  | OToTansivMsg (mk_to_msg ToTansiv_AtDeadline None) => Some OAtDeadline
  | OToTansivMsg (mk_to_msg ToTansiv_SendPacket (Some t)) => Some (OSendPacket t)
  | OFromTansivMsg (mk_from_msg FromTansiv_EndSimulation None None) => Some OEndSimulation
  | OFromTansivMsg (mk_from_msg FromTansiv_GotoDeadline (Some t) None) => Some (OGotoDeadline t)
  | OFromTansivMsg (mk_from_msg FromTansiv_DeliverPacket None (Some t)) =>
      Some (ODeliverPacket t)
  | _ => None
  end.

Definition ref_finish (pre : bytes → bytes) (i : nat) (b : ref_builder) : outcome ref_builder :=
  match ref_finished b, (ref_objs b !! i) ≫= unwrap_msg with
  | None, Some o => Ret (mk_ref (ref_objs b) (Some (pre (enc_object o))))
  | _, _ => Panic AssertionFailed
  end.

#[export] Instance FlatBuffers_ref : FlatBuffers := {
  Fbb := ref_builder;
  Off := nat;
  fbb_with_capacity _ := mk_ref [] None;
  fbb_reset _ := mk_ref [] None;
  create_vector v := ref_push (OVector v);
  AtDeadline_create := ref_push OAtDeadline;
  EndSimulation_create := ref_push OEndSimulation;
  GotoDeadline_create t := ref_push (OGotoDeadline (mk_goto t));
  SendPacket_create m t o b := ref_push (OSendPacket (mk_send_table m t (ref_vector o b))) b;
  DeliverPacket_create m o b := ref_push (ODeliverPacket (mk_deliver_table m (ref_vector o b))) b;
  ToTansivMsg_create tag o b := ref_push (OToTansivMsg (ref_to_msg tag o b)) b;
  FromTansivMsg_create tag o b := ref_push (OFromTansivMsg (ref_from_msg tag o b)) b;
  finish := ref_finish id;
  finish_size_prefixed := ref_finish frame;
  finished_data b := match ref_finished b with Some l => Ret l | None => Panic AssertionFailed end;
  root_ToTansivMsg l := snd <$> (dec_object l ≫= wrap_to);
  root_FromTansivMsg l := snd <$> (dec_object l ≫= wrap_from);
}.

(** The payload of an object, and the objects of the builder, each with the
    room of a table. *)
Definition ref_payload (o : fb_object) : nat :=
  match o with
  | OVector v => length v
  | OSendPacket t => opt_length (send_payload t)
  | ODeliverPacket t => opt_length (deliver_payload t)
  | OToTansivMsg m => to_payload_size m
  | OFromTansivMsg m => from_payload_size m
  | _ => 0
  end.
Definition ref_used (b : ref_builder) : nat :=
  sum_list_with (λ o, object_size o + table_size)%nat (ref_objs b).

(** A message in a builder wraps a well-formed table; the payloads are among
    the vectors of the builder. *)
Definition ref_obj_ok (o : fb_object) : Prop :=
  match o with
  | OToTansivMsg m => ∃ x tag, fb_object_wf x ∧ wrap_to x = Some (tag, m)
  | OFromTansivMsg m => ∃ x tag, fb_object_wf x ∧ wrap_from x = Some (tag, m)
  | _ => True
  end.

Definition ref_building (b : ref_builder) : Prop :=
  ref_finished b = None ∧
  ∀ i o, ref_objs b !! i = Some o → ref_obj_ok o ∧ (ref_payload o ≤ ref_used b)%nat.

Lemma ref_used_push o b :
  ref_used (ref_push o b).2 = (ref_used b + object_size o + table_size)%nat.
Proof. unfold ref_used. simpl. rewrite sum_list_with_app. simpl. lia. Qed.

Lemma ref_push_adds o b :
  ref_building b → ref_obj_ok o → (ref_payload o ≤ ref_used b + object_size o)%nat →
  let r := ref_push o b in
  ref_building r.2 ∧ ref_objs r.2 !! r.1 = Some o ∧
  (∀ i x, ref_objs b !! i = Some x → ref_objs r.2 !! i = Some x) ∧
  (ref_used r.2 ≤ ref_used b + object_size o + table_size)%nat.
Proof.
  intros [Hf Hb] Ho Hp r. unfold r. rewrite ref_used_push. split_and!; [|simpl..|lia].
  - split; [done|]. rewrite ref_used_push. simpl.
    intros i x [Hx|[? Hx]]%lookup_app_Some.
    + destruct (Hb _ _ Hx). split; [done|lia].
    + apply list_lookup_singleton_Some in Hx as [? <-]. split; [done|lia].
  - by rewrite list_lookup_middle.
  - intros. by apply lookup_app_l_Some.
Qed.

Lemma ref_vector_payload o v b :
  ref_building b → vector_at (λ b i, ref_objs b !! i) b o v → (opt_length v ≤ ref_used b)%nat.
Proof.
  intros [_ Hb] Hv. destruct o as [o|], v as [v|]; simpl in *; try done; [|lia].
  by destruct (Hb _ _ Hv).
Qed.

Lemma wrap_to_payload x tag m : wrap_to x = Some (tag, m) → to_payload_size m = ref_payload x.
Proof. destruct x; intros; by simplify_eq/=. Qed.

Lemma wrap_from_payload x tag m :
  wrap_from x = Some (tag, m) → from_payload_size m = ref_payload x.
Proof. destruct x; intros; by simplify_eq/=. Qed.

(** A table is its payload and at most the fixed fields. *)
Lemma enc_object_size x :
  is_Some (wrap_to x) ∨ is_Some (wrap_from x) →
  (length (enc_object x) ≤ ref_payload x + table_size)%nat.
Proof.
  intros Hx. destruct x as [v| |[m t v]| |[t]|[m v]| |]; simpl in *; unfold table_size;
    try (destruct Hx as [[? Hx]|[? Hx]]; done); try lia;
    repeat match goal with o : option _ |- _ => destruct o end;
    rewrite ?length_app; simpl; lia.
Qed.

Lemma dec_opt_length {A} (dec : bytes → option (A * bytes)) l v r :
  (∀ l v r, dec l = Some (v, r) → (length r ≤ length l)%nat) →
  dec_opt dec l = Some (v, r) → (length r < length l)%nat.
Proof.
  intros Hd Hl. destruct l as [|[] l]; simplify_eq/=; [lia|].
  destruct (dec l) as [[v' r']|] eqn:Hv; simplify_eq/=. specialize (Hd _ _ _ Hv). lia.
Qed.

Lemma dec_u32_length l v r : dec_u32 l = Some (v, r) → (length r ≤ length l)%nat.
Proof. intros. destruct l as [|? [|? [|? [|? l]]]]; simplify_eq/=. lia. Qed.

Lemma dec_meta_length l v r : dec_meta l = Some (v, r) → (length r ≤ length l)%nat.
Proof.
  unfold dec_meta. intros Hl.
  destruct (dec_u32 l) as [[s l1]|] eqn:H1; simplify_eq/=. apply dec_u32_length in H1.
  destruct (dec_u32 l1) as [[d l2]|] eqn:H2; simplify_eq/=. apply dec_u32_length in H2. lia.
Qed.

Lemma dec_u64_length l v r : dec_u64 l = Some (v, r) → (length r ≤ length l)%nat.
Proof.
  unfold dec_u64. intros Hl.
  destruct (dec_u32 l) as [[s l1]|] eqn:H1; simplify_eq/=. apply dec_u32_length in H1.
  destruct (dec_u32 l1) as [[d l2]|] eqn:H2; simplify_eq/=. apply dec_u32_length in H2. lia.
Qed.

Lemma dec_time_length l v r : dec_time l = Some (v, r) → (length r ≤ length l)%nat.
Proof.
  unfold dec_time. intros Hl.
  destruct (dec_u64 l) as [[s l1]|] eqn:H1; simplify_eq/=. apply dec_u64_length in H1.
  destruct (dec_u64 l1) as [[d l2]|] eqn:H2; simplify_eq/=. apply dec_u64_length in H2. lia.
Qed.

Lemma dec_payload_length l v r :
  dec_opt dec_rest l = Some (v, r) → (opt_length v < length l)%nat.
Proof. intros. destruct l as [|[] l]; simplify_eq/=; lia. Qed.

(** What is read contains its payload. *)
Lemma dec_object_length l x : dec_object l = Some x → (ref_payload x < length l)%nat.
Proof.
  intros Hl. destruct l as [|[] l]; try done; cbn [dec_object] in Hl;
    try (destruct l; simplify_eq/=; lia).
  - destruct (dec_opt dec_meta l) as [[m l1]|] eqn:H1; simplify_eq/=.
    destruct (dec_opt dec_time l1) as [[t l2]|] eqn:H2; simplify_eq/=.
    destruct (dec_opt dec_rest l2) as [[v l3]|] eqn:H3; simplify_eq/=.
    apply dec_opt_length in H1; [|apply dec_meta_length].
    apply dec_opt_length in H2; [|apply dec_time_length].
    apply dec_payload_length in H3. lia.
  - destruct (dec_opt dec_time l) as [[t l1]|] eqn:H1; simplify_eq/=. lia.
  - destruct (dec_opt dec_meta l) as [[m l1]|] eqn:H1; simplify_eq/=.
    destruct (dec_opt dec_rest l1) as [[v l3]|] eqn:H3; simplify_eq/=.
    apply dec_opt_length in H1; [|apply dec_meta_length].
    apply dec_payload_length in H3. lia.
Qed.

Lemma ref_vector_at o v b : vector_at (λ b i, ref_objs b !! i) b o v → ref_vector o b = v.
Proof. destruct o as [o|], v as [v|]; simpl; try done. unfold ref_vector. simpl. by intros ->. Qed.

Lemma unwrap_wrap_to x tag m : wrap_to x = Some (tag, m) → unwrap_msg (OToTansivMsg m) = Some x.
Proof. destruct x; intros; by simplify_eq/=. Qed.

Lemma unwrap_wrap_from x tag m : wrap_from x = Some (tag, m) → unwrap_msg (OFromTansivMsg m) = Some x.
Proof. destruct x; intros; by simplify_eq/=. Qed.

Lemma ref_finish_to pre b i m :
  ref_building b → ref_objs b !! i = Some (OToTansivMsg m) →
  ∃ b' body, ref_finish pre i b = Ret b' ∧ ref_finished b' = Some (pre body) ∧
    in_u32 (Z.of_nat (length body)) ∧ root_ToTansivMsg body = Some m ∧
    (length body ≤ ref_used b + table_size)%nat.
Proof.
  intros [Hf Hb] Hi. destruct (Hb _ _ Hi) as [(x&tag&Hwf&Hx) Hp].
  unfold ref_finish. rewrite Hf, Hi. cbn [mbind option_bind]. rewrite (unwrap_wrap_to _ _ _ Hx).
  eexists _, _. split_and!; [done..| | |]; [|simpl|].
  - apply enc_object_small; [done|]. rewrite Hx. eauto.
  - rewrite dec_object_enc; [|done|rewrite Hx; eauto]. simpl. by rewrite Hx.
  - simpl in Hp. rewrite (wrap_to_payload _ _ _ Hx) in Hp. etrans; [apply enc_object_size|].
    + rewrite Hx. eauto.
    + lia.
Qed.

Lemma ref_finish_from pre b i m :
  ref_building b → ref_objs b !! i = Some (OFromTansivMsg m) →
  ∃ b' body, ref_finish pre i b = Ret b' ∧ ref_finished b' = Some (pre body) ∧
    in_u32 (Z.of_nat (length body)) ∧ root_FromTansivMsg body = Some m ∧
    (length body ≤ ref_used b + table_size)%nat.
Proof.
  intros [Hf Hb] Hi. destruct (Hb _ _ Hi) as [(x&tag&Hwf&Hx) Hp].
  unfold ref_finish. rewrite Hf, Hi. cbn [mbind option_bind]. rewrite (unwrap_wrap_from _ _ _ Hx).
  eexists _, _. split_and!; [done..| | |]; [|simpl|].
  - apply enc_object_small; [done|]. rewrite Hx. eauto.
  - rewrite dec_object_enc; [|done|rewrite Hx; eauto]. simpl. by rewrite Hx.
  - simpl in Hp. rewrite (wrap_from_payload _ _ _ Hx) in Hp. etrans; [apply enc_object_size|].
    + rewrite Hx. eauto.
    + lia.
Qed.

#[export] Program Instance FlatBuffersLaws_ref : FlatBuffersLaws := {
  building := ref_building;
  den b i := ref_objs b !! i;
  used := ref_used;
}.
Next Obligation. done. Qed.
Next Obligation. done. Qed.
Next Obligation. intros. apply ref_push_adds; simpl; (done || lia). Qed.
Next Obligation. intros. apply ref_push_adds; simpl; (done || lia). Qed.
Next Obligation. intros. apply ref_push_adds; simpl; (done || lia). Qed.
Next Obligation. intros. apply ref_push_adds; simpl; (done || lia). Qed.
Next Obligation.
  intros m t o v b Hb Hv Hwf. simpl. rewrite (ref_vector_at _ _ _ Hv).
  apply ref_push_adds; [done..|]. simpl. rewrite Nat.add_0_r. by eapply ref_vector_payload.
Qed.
Next Obligation.
  intros m o v b Hb Hv Hwf. simpl. rewrite (ref_vector_at _ _ _ Hv).
  apply ref_push_adds; [done..|]. simpl. rewrite Nat.add_0_r. by eapply ref_vector_payload.
Qed.
Next Obligation.
  intros b o x tag m Hb Ho Hwf Hx. simpl. unfold ref_to_msg. simpl in *. rewrite Ho. simpl.
  rewrite Hx. apply ref_push_adds; [done|by exists x, tag|]. simpl.
  rewrite (wrap_to_payload _ _ _ Hx), Nat.add_0_r. by destruct (proj2 Hb _ _ Ho).
Qed.
Next Obligation.
  intros b o x tag m Hb Ho Hwf Hx. simpl. unfold ref_from_msg. simpl in *. rewrite Ho. simpl.
  rewrite Hx. apply ref_push_adds; [done|by exists x, tag|]. simpl.
  rewrite (wrap_from_payload _ _ _ Hx), Nat.add_0_r. by destruct (proj2 Hb _ _ Ho).
Qed.
Next Obligation.
  intros b o m Hb Ho. destruct (ref_finish_to frame _ _ _ Hb Ho) as (b'&body&?&Hf&?&?&?).
  exists b', body. split_and!; try done. simpl. by rewrite Hf.
Qed.
Next Obligation.
  intros b o m Hb Ho. destruct (ref_finish_from frame _ _ _ Hb Ho) as (b'&body&?&Hf&?&?&?).
  exists b', body. split_and!; try done. simpl. by rewrite Hf.
Qed.
Next Obligation.
  intros b o m Hb Ho. destruct (ref_finish_from id _ _ _ Hb Ho) as (b'&body&?&Hf&?&?&?).
  exists b', body. split_and!; try done. simpl. by rewrite Hf.
Qed.
Next Obligation.
  simpl. intros body m Hm.
  destruct (dec_object body) as [x|] eqn:Hx; simpl in Hm; [|done].
  destruct (wrap_to x) as [[tag m']|] eqn:Hw; simplify_eq/=.
  rewrite (wrap_to_payload _ _ _ Hw). by apply dec_object_length.
Qed.
Next Obligation.
  simpl. intros body m Hm.
  destruct (dec_object body) as [x|] eqn:Hx; simpl in Hm; [|done].
  destruct (wrap_from x) as [[tag m']|] eqn:Hw; simplify_eq/=.
  rewrite (wrap_from_payload _ _ _ Hw). by apply dec_object_length.
Qed.
