(* ===== verification/FbBuffer.v ===== *)
(** * FbBuffer: pools of FlatBuffer builders

    [tansiv-client/src/flatbuilder_buffer.rs].  A pool of [FbBuilder] buffers
    holds one builder per slot, prepared by a [FbBuilderInitializer]; handing
    a slot out resets its builder. *)
From S2P Require Import Prelude Std BufferPool Wire.
From stdpp Require Import base option list.
From Stdlib Require Import ZArith Lia.

(** The trait [FbBuilderInitializer]; [I] is the type that implements it. *)
Class FbBuilderInitializer (I : Type) `{FlatBuffers} := {
  fb_init : nat → outcome Fbb;
}.
Arguments fb_init I {_ _} _.

(** [FbBuilder<'fbb, I>] holds no data. *)
Inductive FbBuilder (I : Type) := mk_fb_builder.
Arguments mk_fb_builder {_}.

Section fb_builder.
Context {I : Type} `{FbBuilderInitializer I}.

Fixpoint FbBuilder_calloc (buffer_size num_buffers : nat) : outcome (list Fbb) :=
  match num_buffers with
  | O => Ret []
  | S n => b ← fb_init I buffer_size; l ← FbBuilder_calloc buffer_size n; Ret (b :: l)
  end.

Definition FbBuilder_new (_index _size : nat) : FbBuilder I := mk_fb_builder.

Definition FbBuilder_get (_ : FbBuilder I) (p : InnerBufferPool (list Fbb)) (index : nat) :
    outcome Fbb :=
  match buffers p !! index with Some b => Ret b | None => Panic IndexOutOfBounds end.

Definition FbBuilder_put (_ : FbBuilder I) (p : InnerBufferPool (list Fbb)) (index : nat)
    (b : Fbb) : outcome (list Fbb) :=
  match buffers p !! index with
  | Some _ => Ret (<[index := b]> (buffers p))
  | None => Panic IndexOutOfBounds
  end.

Definition FbBuilder_reset (t : FbBuilder I) (p : InnerBufferPool (list Fbb)) (index : nat) :
    outcome (list Fbb) :=
  b ← FbBuilder_get t p index; FbBuilder_put t p index (fbb_reset b).

#[export] Instance FbBuilder_InnerBuffer : InnerBuffer (FbBuilder I) (list Fbb) Fbb := {
  ib_calloc := FbBuilder_calloc;
  ib_new := FbBuilder_new;
  ib_get := FbBuilder_get;
  ib_put := FbBuilder_put;
  ib_reset := FbBuilder_reset;
}.

Lemma FbBuilder_calloc_length bs n l : FbBuilder_calloc bs n = Ret l → length l = n.
Proof.
  revert l. induction n as [|n IH]; simpl; intros l Hl; [by simplify_eq|].
  destruct (fb_init I bs); [|done..].
  destruct (FbBuilder_calloc bs n); [|done..]. simplify_eq/=. f_equal. by apply IH.
Qed.

Lemma FbBuilder_get_Ret t p i b : FbBuilder_get t p i = Ret b ↔ buffers p !! i = Some b.
Proof. unfold FbBuilder_get. case_match; naive_solver. Qed.

Context `{!FlatBuffersLaws}.

(** Any builder may be stored; a reset one is ready to build. *)
#[export] Program Instance FbBuilder_laws : InnerBufferLaws (FbBuilder I) (list Fbb) Fbb := {
  ib_wf p := length (buffers p) = length (buffer_busy p);
  ib_fits _ _ := True;
  ib_ok _ _ := True;
  ib_zero _ b := fbb_fresh b;
}.
Next Obligation. simpl. intros p l ? ->. done. Qed.
Next Obligation. simpl. intros bs n a Ha%FbBuilder_calloc_length. by rewrite length_replicate. Qed.
Next Obligation. done. Qed.
Next Obligation.
  simpl. intros t p i Hwf _ Hi. rewrite <- Hwf in Hi.
  destruct (lookup_lt_is_Some_2 _ _ Hi) as [b Hb]. exists b. by rewrite FbBuilder_get_Ret.
Qed.
Next Obligation. done. Qed.
Next Obligation.
  simpl. intros t p i c Hwf _ Hi _. rewrite <- Hwf in Hi.
  destruct (lookup_lt_is_Some_2 _ _ Hi) as [b Hb].
  exists (<[i := c]> (buffers p)). unfold FbBuilder_put. rewrite Hb. split_and!; [done|..]; simpl.
  - by rewrite length_insert.
  - apply FbBuilder_get_Ret. simpl. by apply list_lookup_insert_eq.
  - intros t' j _ _ Hne. unfold FbBuilder_get. simpl. by rewrite list_lookup_insert_ne.
Qed.
Next Obligation.
  simpl. intros t p i Hwf _ Hi. rewrite <- Hwf in Hi.
  destruct (lookup_lt_is_Some_2 _ _ Hi) as [b Hb].
  exists (<[i := fbb_reset b]> (buffers p)), (fbb_reset b).
  unfold FbBuilder_reset, FbBuilder_put, FbBuilder_get. rewrite !Hb. simpl.
  split_and!; [done|..]; simpl; try done.
  - by rewrite length_insert.
  - by rewrite list_lookup_insert_eq.
  - apply reset_building.
  - intros t' j _ _ Hne. by rewrite list_lookup_insert_ne.
Qed.
End fb_builder.
