(* ===== verification/Connector.v ===== *)
(** * Connector: protocol messages over the UNIX socket

    [tansiv-client/src/connector/mod.rs] and [connector/unix.rs]: the messages
    that come from the coordinator ([MsgIn]) and go to it ([MsgOut]), their
    framing, and [UnixConnector].  A received packet keeps the raw bytes in a
    buffer of the input pool and is parsed again by each accessor; a packet to
    send is built in a builder of the output pool and finished at the deadline.
    Rust drops are explicit: every path on which a buffer goes out of scope
    ends with [Buffer_drop]. *)
From S2P Require Import Prelude Std BufferPool BytesBuffer Wire FbBuffer.
From stdpp Require Import base option list strings.
From Stdlib Require Import ZArith Lia Strings.Byte.

Definition MAX_PACKET_SIZE : nat := 2048.

Abbreviation BytesPool := (InnerBufferPool bytes).

(** The error that [connector::allocate_buffer] makes of a pool error. *)
Definition io_of_pool_error (e : pool_error) : io_error :=
  match e with
  | SizeTooBig => Custom InvalidData "Packet size too big"
  | NoBufferAvailable => Custom Other "No buffer available"
  end.

Definition new_format_error : io_error := Custom InvalidData "Message format error".
Definition time_error : io_error := Custom InvalidData "Time out of bounds".
Definition missing_error : io_error := Custom InvalidData "Message content is missing".

(** [u64::try_from] and [u32::try_from] *)
Definition u64_try_from (z : Z) : option Z :=
  if ((0 <=? z) && (z <=? u64_max))%Z then Some z else None.
Definition u32_try_from (z : Z) : option Z :=
  if ((0 <=? z) && (z <=? u32_max))%Z then Some z else None.

(** The check both directions apply to a [Time] of the wire. *)
Definition time_parts (t : Time) : option (Z * Z) :=
  s ← u64_try_from (seconds t);
  n ← (n ← u32_try_from (nseconds t); if (n <? NANOS_PER_SEC)%Z then Some n else None);
  Some (s, n).

Definition Time_of_Duration (d : Duration) : Time := mk_time (as_secs d) (subsec_nanos d).

(** ** Reading a frame *)
Definition read_prefixed_size : M UnixStream (result Z io_error) :=
  scratch ←? read_exact 4; mret (Ok (u32_of_le scratch)).

Definition connector_allocate_buffer (size : Z) :
    M BytesPool (result (Buffer BytesBuffer) io_error) :=
  r ← allocate_buffer size; mret (map_err io_of_pool_error r).

(** [DeliverPacket] and [MsgIn] *)
Record DeliverPacket := mk_deliver { deliver_inner : Buffer BytesBuffer }.

Inductive MsgIn :=
  | MsgIn_DeliverPacket (d : DeliverPacket)
  | MsgIn_GoToDeadline (deadline : Duration)
  | MsgIn_EndSimulation.

Section msg_in.
Context `{FlatBuffers}.

Definition DeliverPacket_deserialize (d : DeliverPacket) : M BytesPool DeliverPacket_table :=
  c ← Buffer_deref (deliver_inner d);
  msg ← lift (unwrap (root_FromTansivMsg c));
  lift (unwrap (content_as_deliver_packet msg)).

Definition DeliverPacket_src (d : DeliverPacket) : M BytesPool Z :=
  msg ← DeliverPacket_deserialize d;
  m ← lift (unwrap (deliver_metadata msg)); mret (meta_src m).

Definition DeliverPacket_dst (d : DeliverPacket) : M BytesPool Z :=
  msg ← DeliverPacket_deserialize d;
  m ← lift (unwrap (deliver_metadata msg)); mret (meta_dst m).

Definition DeliverPacket_payload (d : DeliverPacket) : M BytesPool bytes :=
  msg ← DeliverPacket_deserialize d;
  lift (unwrap (deliver_payload msg)).

(** Drops the buffer and returns [r]. *)
Definition drop_ret {A} (b : Buffer BytesBuffer) (r : A) : M BytesPool A :=
  _ ← Buffer_drop b; mret r.

Definition new_deliver_packet (buffer : Buffer BytesBuffer) :
    M BytesPool (result MsgIn io_error) :=
  c ← Buffer_deref buffer;
  msg ← lift (unwrap (root_FromTansivMsg c));
  match content_as_deliver_packet msg with
  | None => drop_ret buffer (Err new_format_error)
  | Some msg =>
      match deliver_metadata msg ≫= λ _, deliver_payload msg with
      | None => drop_ret buffer (Err new_format_error)
      | Some _ => mret (Ok (MsgIn_DeliverPacket (mk_deliver buffer)))
      end
  end.

(** The [match] on the content type, once the bytes are in the buffer. *)
Definition parse_in (buffer : Buffer BytesBuffer) (msg : FromTansivMsg) :
    M BytesPool (result MsgIn io_error) :=
  match from_content_type msg with
  | FromTansiv_DeliverPacket => new_deliver_packet buffer
  | FromTansiv_GotoDeadline =>
      match content_as_goto_deadline msg with
      | None => drop_ret buffer (Err new_format_error)
      | Some deadline =>
          match goto_time deadline with
          | None => drop_ret buffer (Err new_format_error)
          | Some time =>
              match time_parts time with
              | Some (seconds, nseconds) =>
                  d ← lift (Duration_new seconds nseconds);
                  drop_ret buffer (Ok (MsgIn_GoToDeadline d))
              | None => drop_ret buffer (Err time_error)
              end
          end
      end
  | FromTansiv_EndSimulation => drop_ret buffer (Ok MsgIn_EndSimulation)
  | _ => drop_ret buffer (Err missing_error)
  end.

Definition MsgIn_recv : M (UnixStream * BytesPool) (result MsgIn io_error) :=
  size ←? zoom fst (λ s '(_, p), (s, p)) read_prefixed_size;
  buffer ←? zoom snd (λ p '(s, _), (s, p)) (connector_allocate_buffer size);
  r ← zoom fst (λ s '(_, p), (s, p)) (read_exact (Z.to_nat size));
  zoom snd (λ p '(s, _), (s, p)) (
    match r with
    | Err e => drop_ret buffer (Err e)
    | Ok data =>
        _ ← Buffer_deref_mut buffer (modify (λ _, data));
        c ← Buffer_deref buffer;
        match root_FromTansivMsg c with
        | None => drop_ret buffer (Err new_format_error)
        | Some msg => parse_in buffer msg
        end
    end).
End msg_in.

(** ** Building and sending *)
Section builders.
Context `{FlatBuffers}.

(** A [create] call on the builder that is borrowed. *)
Definition fb_create (f : Fbb → Off * Fbb) : M Fbb Off := λ b, Ret (f b).
Definition fb_finish (f : Fbb → outcome Fbb) : M Fbb unit := λ b, b' ← f b; Ret (tt, b').

Definition create_at_deadline : M Fbb unit :=
  at_deadline ← fb_create AtDeadline_create;
  msg ← fb_create (ToTansivMsg_create ToTansiv_AtDeadline (Some at_deadline));
  fb_finish (finish_size_prefixed msg).

(** The part [create_send_packet_from_payload] and
    [SendPacketBuilder::finish] share: the tables around a payload that is
    already in the builder. *)
Definition finish_send_packet (send_time : Duration) (src dst : Z) (payload : Off) :
    M Fbb unit :=
  let time := Time_of_Duration send_time in
  let packet_meta := mk_meta src dst in
  send_packet ← fb_create (SendPacket_create (Some packet_meta) (Some time) (Some payload));
  msg ← fb_create (ToTansivMsg_create ToTansiv_SendPacket (Some send_packet));
  fb_finish (finish_size_prefixed msg).

Definition create_send_packet_from_payload (send_time : Duration) (src dst : Z)
    (payload : bytes) : M Fbb unit :=
  fb_payload ← fb_create (create_vector payload);
  finish_send_packet send_time src dst fb_payload.

(** [MsgFbInitializer::init]: build one message of each kind, so that the
    builder has grown to its final capacity, and reset. *)
Definition MsgFbInitializer_init (max_packet_size : nat) : outcome Fbb :=
  let builder := fbb_with_capacity max_packet_size in
  '(_, builder) ← create_send_packet_from_payload (NANOS_PER_SEC + 1)%Z 1 1
                    (replicate max_packet_size x01) builder;
  let builder := fbb_reset builder in
  '(_, builder) ← create_at_deadline builder;
  Ret (fbb_reset builder).
End builders.

Inductive MsgFbInitializer := .
#[export] Instance MsgFbInitializer_initializer `{FlatBuffers} :
    FbBuilderInitializer MsgFbInitializer := { fb_init := MsgFbInitializer_init }.

Abbreviation FbBuffer := (FbBuilder MsgFbInitializer).
Abbreviation FbPool := (InnerBufferPool (list Fbb)).

(** [SendPacketBuilder], [SendPacket] and [MsgOut] *)
Record SendPacketBuilder `{FlatBuffers} := mk_send_packet_builder {
  spb_src : Z;
  spb_dst : Z;
  spb_send_time : Duration;
  spb_payload : Buffer FbBuffer;
  spb_payload_offset : Off;
}.
Arguments mk_send_packet_builder {_} _ _ _ _ _.

(** [Ord], [PartialOrd] and [PartialEq]: by the time of sending *)
Section order.
Context `{FlatBuffers}.
Definition SendPacketBuilder_cmp (self other : SendPacketBuilder) : comparison :=
  (spb_send_time self ?= spb_send_time other)%Z.
Definition SendPacketBuilder_partial_cmp (self other : SendPacketBuilder) : option comparison :=
  Some (SendPacketBuilder_cmp self other).
Definition SendPacketBuilder_eq (self other : SendPacketBuilder) : bool :=
  (spb_send_time self =? spb_send_time other)%Z.

(** The order is total and agrees with the equality. *)
Lemma SendPacketBuilder_cmp_eq m m' :
  SendPacketBuilder_partial_cmp m m' = Some Eq ↔ SendPacketBuilder_eq m m' = true.
Proof.
  unfold SendPacketBuilder_partial_cmp, SendPacketBuilder_cmp, SendPacketBuilder_eq.
  rewrite Z.eqb_eq. split; [by intros [= ?%Z.compare_eq]|].
  intros ->. by rewrite Z.compare_refl.
Qed.
End order.

Record SendPacket := mk_send_packet { send_inner : Buffer FbBuffer }.

Inductive MsgOut :=
  | MsgOut_AtDeadline
  | MsgOut_SendPacket (p : SendPacket).

Section msg_out.
Context `{FlatBuffers}.

Definition SendPacketBuilder_new (src dst : Z) (send_time : Duration) (payload : bytes)
    (buffer : Buffer FbBuffer) : M FbPool (result SendPacketBuilder io_error) :=
  payload_offset ← Buffer_deref_mut buffer (fb_create (create_vector payload));
  mret (Ok (mk_send_packet_builder src dst send_time buffer payload_offset)).

Definition SendPacketBuilder_finish (m : SendPacketBuilder) (send_time : Duration) :
    M FbPool SendPacket :=
  _ ← Buffer_deref_mut (spb_payload m)
        (finish_send_packet send_time (spb_src m) (spb_dst m) (spb_payload_offset m));
  mret (mk_send_packet (spb_payload m)).

(** [MsgOut::send] consumes the message: the buffer of a [SendPacket] is
    freed when it returns. *)
Definition MsgOut_send (msg : MsgOut) :
    M (UnixStream * Fbb * FbPool) (result unit io_error) :=
  match msg with
  | MsgOut_AtDeadline =>
      _ ← zoom (λ s, s.1.2) (λ b '(w, _, p), (w, b, p)) create_at_deadline;
      b ← gets (λ s, s.1.2);
      data ← lift (finished_data b);
      zoom (λ s, s.1.1) (λ w '(_, b, p), (w, b, p)) (write_all data)
  | MsgOut_SendPacket pkt =>
      b ← zoom snd (λ p '(w, b, _), (w, b, p)) (Buffer_deref (send_inner pkt));
      data ← lift (finished_data b);
      r ← zoom (λ s, s.1.1) (λ w '(_, b, p), (w, b, p)) (write_all data);
      _ ← zoom snd (λ p '(w, b, _), (w, b, p)) (Buffer_drop (send_inner pkt));
      mret r
  end.
End msg_out.

(** ** UnixConnector *)
Record UnixConnector `{FlatBuffers} := mk_connector {
  actor : UnixStream;
  input_buffer_pool : BytesPool;
  scratch_builder : Fbb;
}.
Arguments mk_connector {_} _ _ _.

Section unix_connector.
Context `{FlatBuffers}.

(** [connect] is the outcome of [UnixStream::connect]. *)
Definition UnixConnector_new (connect : result UnixStream io_error) (num_buffers : nat) :
    outcome (result UnixConnector io_error) :=
  match connect with
  | Err e => Ret (Err e)
  | Ok actor_stream =>
      input_buffer_pool ← BufferPool_new (T := BytesBuffer) MAX_PACKET_SIZE num_buffers;
      scratch ← MsgFbInitializer_init MAX_PACKET_SIZE;
      Ret (Ok (mk_connector actor_stream input_buffer_pool scratch))
  end.

Definition UnixConnector_recv : M UnixConnector (result MsgIn io_error) :=
  zoom (λ c, (actor c, input_buffer_pool c))
    (λ '(s, p) c, mk_connector s p (scratch_builder c)) MsgIn_recv.

(** The output pool is part of the state because the message borrows from it. *)
Definition UnixConnector_send (msg : MsgOut) :
    M (UnixConnector * FbPool) (result unit io_error) :=
  _ ← modify (λ '(c, p), (mk_connector (actor c) (input_buffer_pool c)
                            (fbb_reset (scratch_builder c)), p));
  zoom (λ '(c, p), (actor c, scratch_builder c, p))
    (λ '(w, b, p) '(c, _), (mk_connector w (input_buffer_pool c) b, p))
    (MsgOut_send msg).
End unix_connector.
