(* ===== verification/ConnectorSpec.v ===== *)
(** * ConnectorSpec: what the connector promises

    [recv_spec] says, as a function of the bytes that arrive and of whether
    the input pool is exhausted, what a receive yields and how many bytes it
    consumes; [MsgIn_recv] refines it on every branch.  Sending a message
    appends one frame to the stream, from which the peer reads the fields that
    were given, and the round trips with the peer's own [recv] follow. *)
From S2P Require Import Prelude Std BufferPool BytesBuffer Wire FbBuffer Connector.
From stdpp Require Import base option list strings.
From Stdlib Require Import ZArith Lia Strings.Byte.

(** Two states of a pool differ at most in the contents and busy flags. *)
Definition same_shape {A} (p p' : InnerBufferPool A) : Prop :=
  buffer_size p' = buffer_size p ∧ length (buffer_busy p') = length (buffer_busy p).

#[export] Instance same_shape_refl A : Reflexive (@same_shape A).
Proof. by split. Qed.
#[export] Instance same_shape_trans A : Transitive (@same_shape A).
Proof. intros p q r [] []. split; congruence. Qed.

Lemma same_contents_refl {T Array Content} `{InnerBuffer T Array Content} (L : list (Buffer T)) (p : InnerBufferPool Array) :
  same_contents L p p.
Proof. by intros b _. Qed.

Lemma same_contents_trans {T Array Content} `{InnerBuffer T Array Content} (L : list (Buffer T)) (p q r : InnerBufferPool Array) :
  same_contents L p q → same_contents L q r → same_contents L p r.
Proof. intros Hpq Hqr b Hb. rewrite Hqr by done. by apply Hpq. Qed.

Lemma same_contents_mono {T Array Content} `{InnerBuffer T Array Content} (L L' : list (Buffer T)) (p q : InnerBufferPool Array) :
  L' ⊆ L → same_contents L p q → same_contents L' p q.
Proof. intros Hs Hpq b Hb. by apply Hpq, Hs. Qed.

Lemma same_contents_app {T Array Content} `{InnerBuffer T Array Content} (L L' : list (Buffer T)) (p q : InnerBufferPool Array) :
  same_contents (L ++ L') p q → same_contents L p q ∧ same_contents L' p q.
Proof. intros Hpq. split; intros b Hb; apply Hpq, elem_of_app; tauto. Qed.

#[export] Hint Resolve same_contents_refl same_contents_trans : tansiv.

(** ** Receiving *)
Inductive in_view :=
  | VDeliver (src dst : Z) (payload : bytes)
  | VGoto (deadline : Duration)
  | VEnd.

Section recv_spec.
Context `{FlatBuffers}.

(** The message that the bytes of a frame stand for. *)
Definition classify (body : bytes) : result in_view io_error :=
  match root_FromTansivMsg body with
  | None => Err new_format_error
  | Some msg =>
      match from_content_type msg with
      | FromTansiv_DeliverPacket =>
          match content_as_deliver_packet msg with
          | Some (mk_deliver_table (Some m) (Some v)) => Ok (VDeliver (meta_src m) (meta_dst m) v)
          | _ => Err new_format_error
          end
      | FromTansiv_GotoDeadline =>
          match content_as_goto_deadline msg with
          | Some (mk_goto (Some t)) =>
              match time_parts t with
              | Some (s, n) => Ok (VGoto (s * NANOS_PER_SEC + n)%Z)
              | None => Err time_error
              end
          | _ => Err new_format_error
          end
      | FromTansiv_EndSimulation => Ok VEnd
      | _ => Err missing_error
      end
  end.

(** The outcome of a receive and the bytes left: [bs] is the buffer size,
    [full] whether every input buffer is in use, [e] the error at the end of
    the stream. *)
Definition recv_spec (bs : nat) (full : bool) (e : io_error) (l : bytes) :
    result in_view io_error * bytes :=
  if length l <? 4 then (Err e, [])
  else
    let size := u32_of_le (take 4 l) in
    let l := drop 4 l in
    if negb (size <=? Z.of_nat bs)%Z then (Err (io_of_pool_error SizeTooBig), l)
    else if full then (Err (io_of_pool_error NoBufferAvailable), l)
    else if length l <? Z.to_nat size then (Err e, [])
    else (classify (take (Z.to_nat size) l), drop (Z.to_nat size) l).

(** The packet in buffer [b] has these fields. *)
Definition packet_at (p : BytesPool) (b : Buffer BytesBuffer) (src dst : Z) (v : bytes) : Prop :=
  ∃ body, ib_get (inner b) p (index b) = Ret body ∧ classify body = Ok (VDeliver src dst v).

(** The value [r] and the pool [p] agree with the outcome [v] when the other
    live buffers are [L]. *)
Definition in_result (L : list (Buffer BytesBuffer)) (v : result in_view io_error)
    (r : result MsgIn io_error) (p : BytesPool) : Prop :=
  match v with
  | Err e => r = Err e ∧ pool_inv p L
  | Ok (VGoto d) => r = Ok (MsgIn_GoToDeadline d) ∧ pool_inv p L
  | Ok VEnd => r = Ok MsgIn_EndSimulation ∧ pool_inv p L
  | Ok (VDeliver src dst v) =>
      ∃ b, r = Ok (MsgIn_DeliverPacket (mk_deliver b)) ∧ pool_inv p (b :: L) ∧
        packet_at p b src dst v
  end.
End recv_spec.

Section recv_theorems.
Context `{FlatBuffers}.
Implicit Types (p : BytesPool) (L : list (Buffer BytesBuffer)) (b : Buffer BytesBuffer).

Lemma packet_at_same L p p' b src dst v :
  same_contents L p p' → b ∈ L → packet_at p b src dst v → packet_at p' b src dst v.
Proof. intros Hs Hb (body&Hg&Hc). exists body. by rewrite Hs. Qed.

(** The accessors of a packet return its fields; none of their [unwrap]s
    can panic. *)
Lemma packet_at_accessors p b src dst v :
  packet_at p b src dst v →
  DeliverPacket_src (mk_deliver b) p = Ret (src, p) ∧
  DeliverPacket_dst (mk_deliver b) p = Ret (dst, p) ∧
  DeliverPacket_payload (mk_deliver b) p = Ret (v, p).
Proof.
  intros (body&Hg%Buffer_deref_run&Hc). unfold classify in Hc.
  repeat (case_match; simplify_eq/=).
  unfold DeliverPacket_src, DeliverPacket_dst, DeliverPacket_payload,
    DeliverPacket_deserialize, mbind, M_bind.
  simpl. rewrite Hg. unfold lift.
  repeat match goal with Heq : _ = Some _ |- _ => rewrite Heq; clear Heq; simpl end.
  done.
Qed.

Lemma drop_ret_spec {A} p b L (r : A) :
  pool_inv p (b :: L) →
  ∃ p', drop_ret b r p = Ret (r, p') ∧ pool_inv p' L ∧ same_contents L p p' ∧ same_shape p p'.
Proof.
  intros Hp. destruct (Buffer_drop_spec _ _ _ Hp) as (p'&Hd&?&?&?&?).
  exists p'. unfold drop_ret, mbind, M_bind. by rewrite Hd.
Qed.

Lemma time_parts_Duration t s n :
  time_parts t = Some (s, n) → Duration_new s n = Ret (s * NANOS_PER_SEC + n)%Z.
Proof.
  unfold time_parts, u64_try_from, u32_try_from, Duration_new. intros Ht.
  repeat (case_match; simplify_eq/=); [done|].
  unfold Duration_MAX, u64_max, NANOS_PER_SEC in *. lia.
Qed.
End recv_theorems.

Section recv_refinement.
Context `{FlatBuffers}.
Implicit Types (p : BytesPool) (L : list (Buffer BytesBuffer)) (b : Buffer BytesBuffer).

(** Once its bytes are in the buffer, a message is parsed as [classify]
    says, and the buffer is kept exactly when it is a packet. *)
Lemma parse_in_spec p b L body msg :
  pool_inv p (b :: L) → ib_get (inner b) p (index b) = Ret body →
  root_FromTansivMsg body = Some msg →
  ∃ r p', parse_in b msg p = Ret (r, p') ∧ same_contents L p p' ∧ same_shape p p' ∧
    in_result L (classify body) r p'.
Proof.
  intros Hp Hg Hroot.
  assert (∀ (r : result MsgIn io_error) v, (∀ p', pool_inv p' L → in_result L v r p') →
    ∃ r' p', drop_ret b r p = Ret (r', p') ∧ same_contents L p p' ∧ same_shape p p' ∧
      in_result L v r' p') as Hdrop.
  { intros r v Hv. destruct (drop_ret_spec p b L r Hp) as (p'&?&?&?&?). eauto 10. }
  assert (Hpk : ∀ src dst v, classify body = Ok (VDeliver src dst v) → packet_at p b src dst v).
  { intros. exists body. done. }
  unfold classify in *. rewrite Hroot in *. unfold parse_in, new_deliver_packet.
  destruct (from_content_type msg); [by apply Hdrop| | |by apply Hdrop|by apply Hdrop].
  - destruct (content_as_goto_deadline msg) as [[[t|]]|]; cbn [goto_time]; try by apply Hdrop.
    destruct (time_parts t) as [[s n]|] eqn:Ht; [|by apply Hdrop].
    unfold mbind, M_bind. rewrite (time_parts_Duration _ _ _ Ht). by apply Hdrop.
  - unfold mbind, M_bind. rewrite (Buffer_deref_run _ _ _ Hg), Hroot. simpl.
    destruct (content_as_deliver_packet msg) as [[[m|] [v|]]|]; simpl;
      try by apply (Hdrop _ (Err new_format_error)).
    eexists _, p. split_and!; [done|apply same_contents_refl|done|].
    exists b. split_and!; [done..|by apply Hpk].
Qed.

Definition set_rx (l : bytes) (s : UnixStream) : UnixStream :=
  mk_stream l (rx_end s) (tx s) (wr s).

Lemma read_exact_full n s :
  n ≤ length (rx s) → read_exact n s = Ret (Ok (take n (rx s)), set_rx (drop n (rx s)) s).
Proof. intros. unfold read_exact. by rewrite (proj2 (Nat.leb_le _ _)). Qed.

Lemma read_exact_short n s :
  length (rx s) < n → read_exact n s = Ret (Err (rx_end s), set_rx [] s).
Proof. intros. unfold read_exact. by rewrite (proj2 (Nat.leb_gt _ _)). Qed.

Lemma read_prefixed_size_run s :
  read_prefixed_size s =
    if length (rx s) <? 4 then Ret (Err (rx_end s), set_rx [] s)
    else Ret (Ok (u32_of_le (take 4 (rx s))), set_rx (drop 4 (rx s)) s).
Proof.
  unfold read_prefixed_size, try, mbind, M_bind, read_exact.
  destruct (Nat.leb_spec 4 (length (rx s))), (Nat.ltb_spec (length (rx s)) 4); try lia; done.
Qed.

(** The rest of [MsgIn_recv], when a buffer [b] was allocated. *)
Lemma fill_spec p b L s size c :
  pool_inv p (b :: L) → ib_get (inner b) p (index b) = Ret c →
  inner b = mk_bytes_buffer (Z.to_nat size) →
  let '(v, l) :=
    if length (rx s) <? Z.to_nat size then (Err (rx_end s), [])
    else (classify (take (Z.to_nat size) (rx s)), drop (Z.to_nat size) (rx s)) in
  ∃ r p',
    (r ← zoom fst (λ s '(_, p), (s, p)) (read_exact (Z.to_nat size));
     zoom snd (λ p '(s, _), (s, p)) (
       match r with
       | Err e => drop_ret b (Err e)
       | Ok data =>
           _ ← Buffer_deref_mut b (modify (λ _, data));
           c ← Buffer_deref b;
           match root_FromTansivMsg c with
           | None => drop_ret b (Err new_format_error)
           | Some msg => parse_in b msg
           end
       end)) (s, p) = Ret (r, (set_rx l s, p')) ∧
    same_contents L p p' ∧ same_shape p p' ∧ in_result L v r p'.
Proof.
  intros Hp Hc Hb.
  destruct (Nat.ltb_spec (length (rx s)) (Z.to_nat size)).
  - destruct (drop_ret_spec p b L (Err (rx_end s) : result MsgIn io_error) Hp) as (p'&Hd&?&?&?).
    eexists _, p'. split; [|done]. erewrite bind_run by (apply zoom_run, read_exact_short; done).
    by erewrite zoom_run by exact Hd.
  - set (data := take (Z.to_nat size) (rx s)).
    destruct (Buffer_deref_mut_spec p b L (modify (λ _, data)) c tt data)
      as (p1&Hrun&Hp1&Hs1&Hg1&?&Hbusy); [done..| |].
    { rewrite Hb. simpl. unfold data. rewrite length_take. lia. }
    assert (same_shape p p1) by (split; [done|by rewrite Hbusy]).
    assert (∃ r p', (match root_FromTansivMsg data with
                     | None => drop_ret b (Err new_format_error)
                     | Some msg => parse_in b msg
                     end) p1 = Ret (r, p') ∧ same_contents L p1 p' ∧ same_shape p1 p' ∧
              in_result L (classify data) r p') as (r&p'&Hparse&?&?&?).
    { destruct (root_FromTansivMsg data) as [msg|] eqn:Hroot; [by apply parse_in_spec|].
      destruct (drop_ret_spec p1 b L (Err new_format_error : result MsgIn io_error) Hp1)
        as (p'&?&?&?&?).
      eexists _, p'. split_and!; [done..|]. unfold classify. by rewrite Hroot. }
    exists r, p'. split_and!; [|by eapply same_contents_trans|by etrans|done].
    erewrite bind_run by (apply zoom_run, read_exact_full; done).
    erewrite zoom_run; [done|]. simpl.
    erewrite bind_run by exact Hrun. by erewrite bind_run by (by apply Buffer_deref_run).
Qed.

(** [MsgIn_recv] implements [recv_spec] in every state of the stream and of
    the pool. *)
Lemma MsgIn_recv_spec s p L :
  pool_inv p L →
  let '(v, l) := recv_spec (buffer_size p) (length L =? length (buffer_busy p))
                   (rx_end s) (rx s) in
  ∃ r p', MsgIn_recv (s, p) = Ret (r, (set_rx l s, p')) ∧
    same_contents L p p' ∧ same_shape p p' ∧ in_result L v r p'.
Proof.
  intros Hp. unfold recv_spec, MsgIn_recv.
  pose proof (read_prefixed_size_run s) as Hsize.
  destruct (Nat.ltb_spec (length (rx s)) 4).
  { eexists _, p. split_and!; [|apply same_contents_refl|done|done].
    by erewrite try_run_Err by (apply zoom_run; exact Hsize). }
  set (size := u32_of_le _) in *. set (s1 := set_rx (drop 4 (rx s)) s) in *.
  erewrite try_run_Ok by (apply zoom_run; exact Hsize).
  destruct (allocate_buffer_cases size p L Hp) as
    [[? Ha]|[(?&HL&Ha)|(?&?&i&p1&c&Ha&Hp1&?&?&?&Hg&_&_)]].
  - rewrite (proj2 (Z.leb_gt _ _)) by done.
    eexists _, p. split_and!; [|apply same_contents_refl|done|done].
    by erewrite try_run_Err by (apply zoom_run; unfold connector_allocate_buffer;
      by erewrite bind_run by exact Ha).
  - rewrite (proj2 (Z.leb_le _ _)), HL, Nat.eqb_refl by done.
    eexists _, p. split_and!; [|apply same_contents_refl|done|done].
    by erewrite try_run_Err by (apply zoom_run; unfold connector_allocate_buffer;
      by erewrite bind_run by exact Ha).
  - rewrite (proj2 (Z.leb_le _ _)), (proj2 (Nat.eqb_neq _ _)) by (done || lia). cbn [negb].
    erewrite try_run_Ok by (apply zoom_run; unfold connector_allocate_buffer;
      by erewrite bind_run by exact Ha).
    assert (same_shape p p1) by done.
    pose proof (fill_spec p1 _ L s1 size c Hp1 Hg eq_refl) as Hfill.
    change (rx s1) with (drop 4 (rx s)) in Hfill. change (rx_end s1) with (rx_end s) in Hfill.
    destruct (_ <? _) in Hfill |- *; destruct Hfill as (r&p'&Hrun&?&?&?);
      exists r, p'; (split_and!; [exact Hrun|by eapply same_contents_trans|by etrans|done]).
Qed.
End recv_refinement.

(** ** Sending *)
Inductive out_view :=
  | WSend (time : Duration) (src dst : Z) (payload : bytes)
  | WAtDeadline.

(** What the peer reads for a message. *)
Definition out_msg (w : out_view) : ToTansivMsg :=
  match w with
  | WAtDeadline => mk_to_msg ToTansiv_AtDeadline None
  | WSend t src dst v =>
      mk_to_msg ToTansiv_SendPacket
        (Some (mk_send_table (Some (mk_meta src dst)) (Some (Time_of_Duration t)) (Some v)))
  end.

Definition out_view_wf (w : out_view) : Prop :=
  match w with
  | WAtDeadline => True
  | WSend t src dst v => Duration_wf t ∧ in_u32 src ∧ in_u32 dst ∧ payload_wf v
  end.

Definition out_size (w : out_view) : nat :=
  match w with WSend _ _ _ v => length v | WAtDeadline => 0 end.

(** A frame: the payload, at most four tables and the prefix. *)
Definition frame_bound (payload : nat) : nat := payload + 4 * table_size + 4.

Lemma frame_length body : length (frame body) = length body + 4.
Proof. unfold frame. rewrite length_app. simpl. lia. Qed.

(** Bounds the length of a frame by what was added to its builder. *)
Ltac frame_lia := rewrite frame_length; unfold frame_bound, table_size in *; simpl in *; lia.

(** One frame that the peer reads as [w], and a sequence of them. *)
Definition encodes1 `{FlatBuffers} (w : out_view) (l : bytes) : Prop :=
  ∃ body, l = frame body ∧ in_u32 (Z.of_nat (length body)) ∧
    root_ToTansivMsg body = Some (out_msg w) ∧
    length l ≤ frame_bound (out_size w).

Lemma encodes1_length `{FlatBuffers} w l :
  encodes1 w l → 4 ≤ length l ∧ length l ≤ frame_bound (out_size w).
Proof. intros (body&->&_&_&?). split; [rewrite frame_length; lia|done]. Qed.

Inductive encodes `{FlatBuffers} : list out_view → bytes → Prop :=
  | encodes_nil : encodes [] []
  | encodes_cons w ws l l' : encodes1 w l → encodes ws l' → encodes (w :: ws) (l ++ l').
#[export] Hint Constructors encodes : tansiv.

Lemma encodes_app `{FlatBuffers} ws ws' l l' :
  encodes ws l → encodes ws' l' → encodes (ws ++ ws') (l ++ l').
Proof.
  induction 1 as [|w ws l1 l2 ?? IH]; intros; [done|]. simpl. rewrite <- app_assoc.
  constructor; auto.
Qed.

Lemma encodes_singleton `{FlatBuffers} w l : encodes1 w l → encodes [w] l.
Proof. intros. rewrite <- (app_nil_r l). by repeat constructor. Qed.

Lemma Time_of_Duration_wf d : Duration_wf d → Time_wf (Time_of_Duration d).
Proof.
  intros Hd. split; simpl; [by apply as_secs_range|].
  pose proof (subsec_nanos_range d). unfold in_u64, u64_max, NANOS_PER_SEC in *. lia.
Qed.

Section send_theorems.
Context `{FlatBuffersLaws}.
Implicit Types (p : FbPool) (b : Buffer FbBuffer) (L : list (Buffer FbBuffer)).

(** The builder holds a finished frame of [w]. *)
Definition holds (f : Fbb) (w : out_view) : Prop :=
  ∃ l, finished_data f = Ret l ∧ encodes1 w l.

Lemma create_at_deadline_spec f :
  fbb_fresh f → ∃ f', create_at_deadline f = Ret (tt, f') ∧ holds f' WAtDeadline.
Proof.
  intros [Hf Hu]. unfold create_at_deadline, fb_create, fb_finish, mbind, M_bind.
  pose proof (AtDeadline_adds f Hf) as (Hb1&Hd1&_&Hu1).
  destruct (AtDeadline_create f) as [o1 f1]. simpl in *.
  pose proof (ToTansivMsg_adds f1 o1 _ _ _ Hb1 Hd1 I eq_refl) as (Hb2&Hd2&_&Hu2).
  destruct (ToTansivMsg_create _ _ f1) as [o2 f2]. simpl in *.
  destruct (finish_size_prefixed_to f2 o2 _ Hb2 Hd2) as (f3&body&->&Hdata&?&?&?).
  exists f3. split; [done|]. exists (frame body). split; [done|]. exists body.
  split_and!; [done..|frame_lia].
Qed.

Lemma finish_send_packet_spec f o v t src dst :
  building f → den f o = Some (OVector v) → used f ≤ length v + table_size →
  out_view_wf (WSend t src dst v) →
  ∃ f', finish_send_packet t src dst o f = Ret (tt, f') ∧ holds f' (WSend t src dst v).
Proof.
  intros Hf Ho Hu (?&?&?&?). unfold finish_send_packet, fb_create, fb_finish, mbind, M_bind.
  set (tbl := mk_send_table (Some (mk_meta src dst)) (Some (Time_of_Duration t)) (Some v)).
  assert (fb_object_wf (OSendPacket tbl)) as Hwf
    by (split_and!; simpl; [done|by apply Time_of_Duration_wf|done]).
  pose proof (SendPacket_adds _ _ (Some o) (Some v) f Hf Ho Hwf) as (Hb1&Hd1&_&Hu1).
  destruct (SendPacket_create _ _ _ f) as [o1 f1]. simpl in *.
  pose proof (ToTansivMsg_adds f1 o1 _ _ _ Hb1 Hd1 Hwf eq_refl) as (Hb2&Hd2&_&Hu2).
  destruct (ToTansivMsg_create _ _ f1) as [o2 f2]. simpl in *.
  destruct (finish_size_prefixed_to f2 o2 _ Hb2 Hd2) as (f3&body&->&Hdata&?&?&?).
  exists f3. split; [done|]. exists (frame body). split; [done|]. exists body.
  split_and!; [done..|frame_lia].
Qed.

(** What a computation does on the builder of a buffer. *)
Lemma Buffer_deref_mut_inv {A} p b (m : M Fbb A) f x p' :
  ib_get (inner b) p (index b) = Ret f → Buffer_deref_mut b m p = Ret (x, p') →
  ∃ f', m f = Ret (x, f') ∧ ib_get (inner b) p' (index b) = Ret f'.
Proof.
  unfold Buffer_deref_mut. intros Hg. rewrite Hg. simpl. destruct (m f) as [[y f']| |]; [|done..].
  simpl. unfold FbBuilder_put. destruct (buffers p !! index b) as [g|] eqn:Hi; [|done].
  intros [= -> <-]. exists f'. split; [done|]. apply FbBuilder_get_Ret. simpl.
  apply list_lookup_insert_eq. by eapply lookup_lt_Some.
Qed.

(** [m] is a packet under construction that carries [v]. *)
Definition builder_at p (m : SendPacketBuilder) (v : bytes) : Prop :=
  ∃ f, ib_get (inner (spb_payload m)) p (index (spb_payload m)) = Ret f ∧
    building f ∧ den f (spb_payload_offset m) = Some (OVector v) ∧
    used f ≤ length v + table_size.

Lemma builder_at_same L p p' m v :
  same_contents L p p' → spb_payload m ∈ L → builder_at p m v → builder_at p' m v.
Proof. intros Hs Hm (f&?&?&?&?). exists f. by rewrite Hs. Qed.

Lemma SendPacketBuilder_new_spec p b L src dst t v f :
  pool_inv p (b :: L) → ib_get (inner b) p (index b) = Ret f → fbb_fresh f → payload_wf v →
  ∃ o p', let m := mk_send_packet_builder src dst t b o in
    SendPacketBuilder_new src dst t v b p = Ret (Ok m, p') ∧
    builder_at p' m v ∧ pool_inv p' (b :: L) ∧ same_contents L p p' ∧ same_shape p p'.
Proof.
  intros Hp Hg [Hf Hu] Hv. pose proof (create_vector_adds v f Hf Hv) as (Hb1&Hd1&_&Hu1).
  destruct (create_vector v f) as [o f1] eqn:Hc. simpl in *.
  destruct (Buffer_deref_mut_spec p b L (fb_create (create_vector v)) f o f1)
    as (p'&Hrun&?&?&?&?&Hbusy); [done|done|unfold fb_create; by rewrite Hc|done|].
  exists o, p'.
  split_and!; [|exists f1; split_and!; (done || lia)|done|done|split; [done|by rewrite Hbusy]].
  unfold SendPacketBuilder_new. by erewrite bind_run by exact Hrun.
Qed.

(** [finish] turns the packet into a frame with the time it is given. *)
Lemma SendPacketBuilder_finish_spec p m L v t :
  pool_inv p (spb_payload m :: L) → builder_at p m v →
  out_view_wf (WSend t (spb_src m) (spb_dst m) v) →
  ∃ f p', SendPacketBuilder_finish m t p = Ret (mk_send_packet (spb_payload m), p') ∧
    ib_get (inner (spb_payload m)) p' (index (spb_payload m)) = Ret f ∧
    holds f (WSend t (spb_src m) (spb_dst m) v) ∧
    pool_inv p' (spb_payload m :: L) ∧ same_contents L p p' ∧ same_shape p p'.
Proof.
  intros Hp (f&Hg&Hf&Ho&Hu) Hwf.
  destruct (finish_send_packet_spec f _ v t (spb_src m) (spb_dst m) Hf Ho Hu Hwf) as (f'&Hrun&?).
  destruct (Buffer_deref_mut_spec p (spb_payload m) L _ f tt f' Hp Hg Hrun I)
    as (p'&Hrun'&?&?&?&?&Hbusy).
  exists f', p'. split_and!; [|done..|split; [done|by rewrite Hbusy]].
  unfold SendPacketBuilder_finish. by erewrite bind_run by exact Hrun'.
Qed.

(** A packet that was built and finished is what building it at once gives. *)
Lemma SendPacketBuilder_built p b f src dst t t' v m p1 pkt p2 :
  ib_get (inner b) p (index b) = Ret f →
  SendPacketBuilder_new src dst t v b p = Ret (Ok m, p1) →
  SendPacketBuilder_finish m t' p1 = Ret (pkt, p2) →
  ∃ f', create_send_packet_from_payload t' src dst v f = Ret (tt, f') ∧
    ib_get (inner b) p2 (index b) = Ret f'.
Proof.
  unfold SendPacketBuilder_new, SendPacketBuilder_finish. intros Hg Hnew Hfin.
  apply bind_inv in Hnew as (o&p1'&Hmut&[= <- <-]).
  destruct (Buffer_deref_mut_inv _ _ _ _ _ _ Hg Hmut) as (f1&Hc&Hg1).
  apply bind_inv in Hfin as ([]&p2'&Hmut2&[= _ <-]).
  destruct (Buffer_deref_mut_inv _ _ _ _ _ _ Hg1 Hmut2) as (f2&Hc2&Hg2).
  exists f2. split; [|done]. unfold create_send_packet_from_payload.
  by erewrite bind_run by exact Hc.
Qed.
End send_theorems.

(** The result of the next [write_all], and the stream after it. *)
Definition write_result (s : UnixStream) : result unit io_error :=
  match wr s with Some (_, e) :: _ => Err e | _ => Ok tt end.
Definition written (l : bytes) (s : UnixStream) : UnixStream :=
  mk_stream (rx s) (rx_end s)
    (tx s ++ match wr s with Some (n, _) :: _ => take n l | _ => l end) (tail (wr s)).

Lemma write_all_run l s : write_all l s = Ret (write_result s, written l s).
Proof. unfold write_all, write_result, written. by destruct (wr s) as [|[[]|] ?]. Qed.

Section connector_send.
Context `{FlatBuffersLaws}.
Implicit Types (p : FbPool) (b : Buffer FbBuffer) (L : list (Buffer FbBuffer)).

Lemma UnixConnector_send_at_deadline c p :
  ∃ l f, UnixConnector_send MsgOut_AtDeadline (c, p) =
      Ret (write_result (actor c),
           (mk_connector (written l (actor c)) (input_buffer_pool c) f, p)) ∧
    encodes1 WAtDeadline l.
Proof.
  destruct (create_at_deadline_spec _ (reset_building (scratch_builder c)))
    as (f&Hrun&l&Hdata&?).
  exists l, f. split; [|done]. unfold UnixConnector_send.
  erewrite bind_run by done.
  rewrite (zoom_run _ _ _ (write_result (actor c)) _ (written l (actor c), f, p)); [done|].
  unfold MsgOut_send. erewrite bind_run by (apply zoom_run; exact Hrun).
  erewrite bind_run by done. simpl. erewrite bind_run by (unfold lift; by rewrite Hdata).
  by erewrite zoom_run by apply write_all_run.
Qed.

(** Sending a packet writes its frame and frees its buffer, also when the
    write fails. *)
Lemma UnixConnector_send_packet c p b L f w :
  pool_inv p (b :: L) → ib_get (inner b) p (index b) = Ret f → holds f w →
  ∃ l p' g, UnixConnector_send (MsgOut_SendPacket (mk_send_packet b)) (c, p) =
      Ret (write_result (actor c),
           (mk_connector (written l (actor c)) (input_buffer_pool c) g, p')) ∧
    encodes1 w l ∧ pool_inv p' L ∧ same_contents L p p' ∧ same_shape p p'.
Proof.
  intros Hp Hg (l&Hdata&?).
  destruct (Buffer_drop_spec _ _ _ Hp) as (p'&Hdrop&?&?&?&?).
  exists l, p', (fbb_reset (scratch_builder c)). split; [|by split_and!].
  unfold UnixConnector_send. erewrite bind_run by done.
  rewrite (zoom_run _ _ _ (write_result (actor c)) _
    (written l (actor c), fbb_reset (scratch_builder c), p')); [done|].
  unfold MsgOut_send. erewrite bind_run by (apply zoom_run, Buffer_deref_run; exact Hg).
  erewrite bind_run by (unfold lift; by rewrite Hdata).
  erewrite bind_run by (apply zoom_run, write_all_run).
  by erewrite bind_run by (apply zoom_run; exact Hdrop).
Qed.
End connector_send.
