(* ===== verification/ConnectorPeer.v ===== *)
(** * ConnectorPeer: the other end of the protocol

    [connector/mod.rs] also has the coordinator's side of the messages, used by
    its test actor: building a deadline, an end of simulation or a packet
    ([MsgIn::send]) and reading what the client sent ([MsgOut::recv]).  With
    the client's side they give round trips over the wire. *)
From S2P Require Import Prelude Std BufferPool BytesBuffer Wire FbBuffer Connector.
From S2P Require Import ConnectorSpec.
From stdpp Require Import base option list strings.
From Stdlib Require Import ZArith Lia.

Section peer.
Context `{FlatBuffers}.

Definition create_end_simulation : M Fbb unit :=
  end_simulation ← fb_create EndSimulation_create;
  msg ← fb_create (FromTansivMsg_create FromTansiv_EndSimulation (Some end_simulation));
  fb_finish (finish_size_prefixed msg).

Definition create_goto_deadline (deadline : Duration) : M Fbb unit :=
  let time := Time_of_Duration deadline in
  goto_deadline ← fb_create (GotoDeadline_create (Some time));
  msg ← fb_create (FromTansivMsg_create FromTansiv_GotoDeadline (Some goto_deadline));
  fb_finish (finish_size_prefixed msg).

Definition prepare_deliver_packet (src dst : Z) (payload : bytes) : M Fbb Off :=
  let fb_packet_meta := mk_meta src dst in
  fb_payload ← fb_create (create_vector payload);
  deliver_packet ← fb_create (DeliverPacket_create (Some fb_packet_meta) (Some fb_payload));
  fb_create (FromTansivMsg_create FromTansiv_DeliverPacket (Some deliver_packet)).

Definition create_deliver_packet (src dst : Z) (payload : bytes) : M Fbb unit :=
  msg ← prepare_deliver_packet src dst payload;
  fb_finish (finish_size_prefixed msg).

Definition create_deliver_packet_unprefixed (src dst : Z) (payload : bytes) : M Fbb unit :=
  msg ← prepare_deliver_packet src dst payload;
  fb_finish (finish msg).

(** The state of [MsgIn::send]: the stream, the pool of builders, the pool
    of the packet that is sent. *)
Abbreviation PeerState := (UnixStream * FbPool * BytesPool)%type.
Definition on_stream {A} : M UnixStream A → M PeerState A :=
  zoom (λ s, s.1.1) (λ w '(_, p, q), (w, p, q)).
Definition on_builders {A} : M FbPool A → M PeerState A :=
  zoom (λ s, s.1.2) (λ p '(w, _, q), (w, p, q)).
Definition on_packets {A} : M BytesPool A → M PeerState A :=
  zoom snd (λ q '(w, p, _), (w, p, q)).

(** Writes the finished content of the buffer and drops the buffer. *)
Definition send_built (fb_buffer : Buffer FbBuffer) : M PeerState (result unit io_error) :=
  b ← on_builders (Buffer_deref fb_buffer);
  data ← lift (finished_data b);
  r ← on_stream (write_all data);
  _ ← on_builders (Buffer_drop fb_buffer);
  mret r.

Definition MsgIn_send (msg : MsgIn) : M PeerState (result unit io_error) :=
  r ← on_builders (allocate_buffer 1);
  match r with
  | Err _ => panic UnwrapOnErr
  | Ok fb_buffer =>
      match msg with
      | MsgIn_GoToDeadline deadline =>
          _ ← on_builders (Buffer_deref_mut fb_buffer (create_goto_deadline deadline));
          send_built fb_buffer
      | MsgIn_EndSimulation =>
          _ ← on_builders (Buffer_deref_mut fb_buffer create_end_simulation);
          send_built fb_buffer
      | MsgIn_DeliverPacket d =>
          src ← on_packets (DeliverPacket_src d);
          dst ← on_packets (DeliverPacket_dst d);
          payload ← on_packets (DeliverPacket_payload d);
          _ ← on_builders (Buffer_deref_mut fb_buffer (create_deliver_packet src dst payload));
          r ← send_built fb_buffer;
          _ ← on_packets (Buffer_drop (deliver_inner d));
          mret r
      end
  end.

(** Drops what [MsgOut::recv] still owns and returns [r]. *)
Definition drop_both {A} (buffer : Buffer BytesBuffer) (fb_buffer : Buffer FbBuffer) (r : A) :
    M PeerState A :=
  _ ← on_builders (Buffer_drop fb_buffer);
  _ ← on_packets (Buffer_drop buffer);
  mret r.

(** The [SendPacket] branch of [MsgOut::recv]. *)
Definition parse_send_packet (buffer : Buffer BytesBuffer) (fb_buffer : Buffer FbBuffer)
    (msg : ToTansivMsg) : M PeerState (result MsgOut io_error) :=
  match content_as_send_packet msg with
  | None => drop_both buffer fb_buffer (Err new_format_error)
  | Some send_packet =>
      match send_packet_time send_packet with
      | None => drop_both buffer fb_buffer (Err new_format_error)
      | Some time =>
          match send_metadata send_packet with
          | None => drop_both buffer fb_buffer (Err new_format_error)
          | Some metadata =>
              match time_parts time with
              | Some (seconds, nseconds) =>
                  send_time ← lift (Duration_new seconds nseconds);
                  payload ← lift (unwrap (send_payload send_packet));
                  m ←? on_builders (SendPacketBuilder_new (meta_src metadata)
                                      (meta_dst metadata) send_time payload fb_buffer);
                  pkt ← on_builders (SendPacketBuilder_finish m send_time);
                  _ ← on_packets (Buffer_drop buffer);
                  mret (Ok (MsgOut_SendPacket pkt))
              | None => drop_both buffer fb_buffer (Err time_error)
              end
          end
      end
  end.

Definition MsgOut_recv : M PeerState (result MsgOut io_error) :=
  size ←? on_stream read_prefixed_size;
  buffer ←? on_packets (connector_allocate_buffer size);
  r ← on_stream (read_exact (Z.to_nat size));
  match r with
  | Err e => _ ← on_packets (Buffer_drop buffer); mret (Err e)
  | Ok data =>
      _ ← on_packets (Buffer_deref_mut buffer (modify (λ _, data)));
      c ← on_packets (Buffer_deref buffer);
      msg ← lift (unwrap (root_ToTansivMsg c));
      f ← on_builders (allocate_buffer 0);
      match f with
      | Err _ => panic UnwrapOnErr
      | Ok fb_buffer =>
          match to_content_type msg with
          | ToTansiv_AtDeadline => drop_both buffer fb_buffer (Ok MsgOut_AtDeadline)
          | ToTansiv_SendPacket => parse_send_packet buffer fb_buffer msg
          | _ => drop_both buffer fb_buffer (Err missing_error)
          end
      end
  end.
End peer.

Definition in_view_wf (v : in_view) : Prop :=
  match v with
  | VDeliver src dst v => in_u32 src ∧ in_u32 dst ∧ payload_wf v
  | VGoto d => Duration_wf d
  | VEnd => True
  end.

(** One frame that the client reads as [v]. *)
Definition frame_of `{FlatBuffers} (v : in_view) (l : bytes) : Prop :=
  ∃ body, l = frame body ∧ in_u32 (Z.of_nat (length body)) ∧ classify body = Ok v.

Lemma time_parts_of_Duration d :
  Duration_wf d → time_parts (Time_of_Duration d) = Some (as_secs d, subsec_nanos d).
Proof.
  intros Hd. pose proof (as_secs_range d Hd) as [? ?].
  pose proof (subsec_nanos_range d) as [? Hn].
  unfold time_parts, u64_try_from, u32_try_from. simpl.
  rewrite !(proj2 (Z.leb_le _ _)) by (unfold u32_max, NANOS_PER_SEC in *; lia). simpl.
  by rewrite (proj2 (Z.ltb_lt _ _)).
Qed.

Lemma Duration_parts d : (as_secs d * NANOS_PER_SEC + subsec_nanos d)%Z = d.
Proof.
  unfold as_secs, subsec_nanos. rewrite (Z.div_mod d NANOS_PER_SEC) at 3 by done. lia.
Qed.

Definition view_size (v : in_view) : nat :=
  match v with VDeliver _ _ v => length v | _ => 0 end.

Section peer_theorems.
Context `{FlatBuffersLaws}.

Definition holds_in (f : Fbb) (v : in_view) : Prop :=
  ∃ l, finished_data f = Ret l ∧ frame_of v l ∧ length l ≤ frame_bound (view_size v).

Lemma create_end_simulation_spec f :
  fbb_fresh f → ∃ f', create_end_simulation f = Ret (tt, f') ∧ holds_in f' VEnd.
Proof.
  intros [Hf Hu]. unfold create_end_simulation, fb_create, fb_finish, mbind, M_bind.
  pose proof (EndSimulation_adds f Hf) as (Hb1&Hd1&_&Hu1).
  destruct (EndSimulation_create f) as [o1 f1]. simpl in *.
  pose proof (FromTansivMsg_adds f1 o1 _ _ _ Hb1 Hd1 I eq_refl) as (Hb2&Hd2&_&Hu2).
  destruct (FromTansivMsg_create _ _ f1) as [o2 f2]. simpl in *.
  destruct (finish_size_prefixed_from f2 o2 _ Hb2 Hd2) as (f3&body&->&Hdata&?&Hroot&?).
  exists f3. split; [done|]. exists (frame body). split; [done|].
  split; [exists body|frame_lia].
  split_and!; [done..|]. unfold classify. by rewrite Hroot.
Qed.

Lemma create_goto_deadline_spec f d :
  fbb_fresh f → Duration_wf d →
  ∃ f', create_goto_deadline d f = Ret (tt, f') ∧ holds_in f' (VGoto d).
Proof.
  intros [Hf Hu] Hd. unfold create_goto_deadline, fb_create, fb_finish, mbind, M_bind.
  assert (fb_object_wf (OGotoDeadline (mk_goto (Some (Time_of_Duration d))))) as Hwf
    by (by apply Time_of_Duration_wf).
  pose proof (GotoDeadline_adds _ f Hf Hwf) as (Hb1&Hd1&_&Hu1).
  destruct (GotoDeadline_create _ f) as [o1 f1]. simpl in *.
  pose proof (FromTansivMsg_adds f1 o1 _ _ _ Hb1 Hd1 Hwf eq_refl) as (Hb2&Hd2&_&Hu2).
  destruct (FromTansivMsg_create _ _ f1) as [o2 f2]. simpl in *.
  destruct (finish_size_prefixed_from f2 o2 _ Hb2 Hd2) as (f3&body&->&Hdata&?&Hroot&?).
  exists f3. split; [done|]. exists (frame body). split; [done|].
  split; [exists body|frame_lia].
  split_and!; [done..|]. unfold classify. rewrite Hroot.
  cbn [from_content_type content_as_goto_deadline].
  rewrite time_parts_of_Duration by done. by rewrite Duration_parts.
Qed.

Lemma prepare_deliver_packet_spec f src dst v :
  fbb_fresh f → in_view_wf (VDeliver src dst v) →
  ∃ o f', prepare_deliver_packet src dst v f = Ret (o, f') ∧ building f' ∧
    den f' o = Some (OFromTansivMsg (mk_from_msg FromTansiv_DeliverPacket None
      (Some (mk_deliver_table (Some (mk_meta src dst)) (Some v))))) ∧
    used f' ≤ length v + 3 * table_size.
Proof.
  intros [Hf Hu] (Hs&Hd&Hv).
  unfold prepare_deliver_packet, fb_create, mbind, M_bind.
  pose proof (create_vector_adds v f Hf Hv) as (Hb0&Hd0&_&Hu0).
  destruct (create_vector v f) as [o0 f0]. simpl in *.
  assert (fb_object_wf (ODeliverPacket (mk_deliver_table (Some (mk_meta src dst)) (Some v)))) as Hwf
    by done.
  pose proof (DeliverPacket_adds _ (Some o0) (Some v) f0 Hb0 Hd0 Hwf) as (Hb1&Hd1&_&Hu1).
  destruct (DeliverPacket_create _ _ f0) as [o1 f1]. simpl in *.
  pose proof (FromTansivMsg_adds f1 o1 _ _ _ Hb1 Hd1 Hwf eq_refl) as (Hb2&Hd2&_&Hu2).
  destruct (FromTansivMsg_create _ _ f1) as [o2 f2]. simpl in *.
  exists o2, f2. split_and!; [done..|unfold table_size in *; lia].
Qed.

Lemma create_deliver_packet_spec f src dst v :
  fbb_fresh f → in_view_wf (VDeliver src dst v) →
  ∃ f', create_deliver_packet src dst v f = Ret (tt, f') ∧ holds_in f' (VDeliver src dst v).
Proof.
  intros Hf Hv. destruct (prepare_deliver_packet_spec f src dst v Hf Hv)
    as (o&f2&Hrun&Hb2&Hd2&Hu2). unfold create_deliver_packet.
  erewrite bind_run by exact Hrun. unfold fb_finish.
  destruct (finish_size_prefixed_from f2 o _ Hb2 Hd2) as (f3&body&->&Hdata&?&Hroot&?).
  exists f3. split; [done|]. exists (frame body). split; [done|].
  split; [exists body|frame_lia].
  split_and!; [done..|]. unfold classify. by rewrite Hroot.
Qed.

Lemma create_deliver_packet_unprefixed_spec f src dst v :
  fbb_fresh f → in_view_wf (VDeliver src dst v) →
  ∃ f' body, create_deliver_packet_unprefixed src dst v f = Ret (tt, f') ∧
    finished_data f' = Ret body ∧ in_u32 (Z.of_nat (length body)) ∧
    classify body = Ok (VDeliver src dst v).
Proof.
  intros Hf Hv. destruct (prepare_deliver_packet_spec f src dst v Hf Hv)
    as (o&f2&Hrun&Hb2&Hd2&Hu2). unfold create_deliver_packet_unprefixed.
  erewrite bind_run by exact Hrun. unfold fb_finish.
  destruct (finish_from f2 o _ Hb2 Hd2) as (f3&body&->&Hdata&?&Hroot&_).
  exists f3, body. split_and!; [done..|]. unfold classify. by rewrite Hroot.
Qed.

(** A buffer that holds the bytes of a packet becomes that packet. *)
Lemma new_deliver_packet_spec (p : BytesPool) b L body src dst v :
  pool_inv p (b :: L) → ib_get (inner b) p (index b) = Ret body →
  classify body = Ok (VDeliver src dst v) →
  ∃ p', new_deliver_packet b p = Ret (Ok (MsgIn_DeliverPacket (mk_deliver b)), p') ∧
    pool_inv p' (b :: L) ∧ packet_at p' b src dst v.
Proof.
  intros Hp Hg Hc.
  assert (∃ msg, root_FromTansivMsg body = Some msg ∧
    from_content_type msg = FromTansiv_DeliverPacket) as (msg&Hroot&Htype).
  { unfold classify in Hc. repeat (case_match; simplify_eq/=); by eexists. }
  destruct (parse_in_spec p b L body msg Hp Hg Hroot) as (r&p'&Hrun&_&_&Hres).
  rewrite Hc in Hres. destruct Hres as (b'&->&Hp'&Hk).
  unfold parse_in in Hrun. rewrite Htype in Hrun. unfold new_deliver_packet in *.
  assert (b' = b) as ->.
  { revert Hrun. unfold drop_ret. intros. run_inv. repeat case_match; run_inv; done. }
  by exists p'.
Qed.

(** A frame at the head of the stream, short enough for a buffer, is read
    as its message. *)
Lemma recv_spec_body body rest bs e :
  in_u32 (Z.of_nat (length body)) → length body ≤ bs →
  recv_spec bs false e (frame body ++ rest) = (classify body, rest).
Proof.
  intros Hlen Hle. unfold recv_spec, frame. rewrite !length_app.
  change (length (u32_to_le (Z.of_nat (length body)))) with 4.
  rewrite (proj2 (Nat.ltb_ge _ _)) by lia. rewrite <- app_assoc.
  rewrite take_app_length', drop_app_length' by done. rewrite u32_of_to_le by done.
  rewrite (proj2 (Z.leb_le _ _)) by lia. simpl negb. cbv iota.
  rewrite Nat2Z.id, length_app, (proj2 (Nat.ltb_ge _ _)) by lia.
  by rewrite take_app_length, drop_app_length.
Qed.

Lemma recv_spec_frame v l rest bs e :
  frame_of v l → length l ≤ bs + 4 →
  recv_spec bs false e (l ++ rest) = (Ok v, rest).
Proof.
  intros (body&->&Hlen&Hc) Hle. rewrite frame_length in Hle.
  by rewrite recv_spec_body, Hc by (done || lia).
Qed.

(** Without a free buffer the same frame is an error. *)
Lemma recv_spec_frame_full v l rest bs e :
  frame_of v l → length l ≤ bs + 4 →
  ∃ rest', recv_spec bs true e (l ++ rest) =
    (Err (io_of_pool_error NoBufferAvailable), rest').
Proof.
  intros (body&->&Hlen&Hc) Hle. unfold frame in *. rewrite length_app in Hle.
  change (length (u32_to_le (Z.of_nat (length body)))) with 4 in Hle.
  unfold recv_spec. rewrite !length_app.
  change (length (u32_to_le (Z.of_nat (length body)))) with 4.
  rewrite (proj2 (Nat.ltb_ge _ _)) by lia. rewrite <- app_assoc.
  rewrite take_app_length', drop_app_length' by done. rewrite u32_of_to_le by done.
  rewrite (proj2 (Z.leb_le _ _)) by lia. by eexists.
Qed.

(** A frame whose payload fills a buffer is too big, since the rest of the
    message does not fit any more. *)
Lemma recv_spec_frame_long src dst v l rest bs full e :
  frame_of (VDeliver src dst v) l → bs ≤ length v →
  ∃ rest', recv_spec bs full e (l ++ rest) = (Err (io_of_pool_error SizeTooBig), rest').
Proof.
  intros (body&->&Hlen&Hc) Hle.
  assert (length v < length body) as Hbody.
  { unfold classify in Hc. destruct (root_FromTansivMsg body) as [m|] eqn:Hroot; [|done].
    pose proof (root_from_size body m Hroot) as Hsz. unfold from_payload_size in Hsz.
    repeat (case_match; simplify_eq/=). done. }
  unfold recv_spec, frame. rewrite !length_app.
  change (length (u32_to_le (Z.of_nat (length body)))) with 4.
  rewrite (proj2 (Nat.ltb_ge _ _)) by lia. rewrite <- app_assoc.
  rewrite take_app_length', drop_app_length' by done. rewrite u32_of_to_le by done.
  rewrite (proj2 (Z.leb_gt _ _)) by lia. by eexists.
Qed.

(** The message of [MsgIn::send] and the packet pool it borrows from. *)
Definition msg_is (q : BytesPool) (LQ : list (Buffer BytesBuffer)) (msg : MsgIn) (v : in_view) :
    Prop :=
  match msg, v with
  | MsgIn_GoToDeadline d, VGoto d' => d = d'
  | MsgIn_EndSimulation, VEnd => True
  | MsgIn_DeliverPacket d, VDeliver src dst v =>
      pool_inv q (deliver_inner d :: LQ) ∧ packet_at q (deliver_inner d) src dst v
  | _, _ => False
  end.

Lemma send_built_spec w (p : FbPool) q b L f l :
  pool_inv p (b :: L) → ib_get (inner b) p (index b) = Ret f → finished_data f = Ret l →
  ∃ p', send_built b (w, p, q) = Ret (write_result w, (written l w, p', q)) ∧
    pool_inv p' L ∧ same_contents L p p' ∧ same_shape p p'.
Proof.
  intros Hp Hg Hl. destruct (Buffer_drop_spec _ _ _ Hp) as (p'&Hdrop&?&?&?&?).
  exists p'. split; [|by split_and!]. unfold send_built.
  erewrite bind_run by (apply zoom_run, Buffer_deref_run; exact Hg).
  erewrite bind_run by (unfold lift; by rewrite Hl).
  erewrite bind_run by (apply zoom_run, write_all_run).
  by erewrite bind_run by (apply zoom_run; exact Hdrop).
Qed.

(** Filling the builder of a buffer and sending it. *)
Lemma build_and_send w (p : FbPool) q b L f f' (m : M Fbb unit) l :
  pool_inv p (b :: L) → ib_get (inner b) p (index b) = Ret f → m f = Ret (tt, f') →
  finished_data f' = Ret l →
  ∃ p', (_ ← on_builders (Buffer_deref_mut b m); send_built b) (w, p, q) =
      Ret (write_result w, (written l w, p', q)) ∧
    pool_inv p' L ∧ same_contents L p p' ∧ same_shape p p'.
Proof.
  intros Hp Hg Hm Hl.
  destruct (Buffer_deref_mut_spec p b L m f tt f' Hp Hg Hm I) as (p1&Hrun&Hp1&Hs1&Hg1&?&Hb1).
  destruct (send_built_spec w p1 q b L f' l Hp1 Hg1 Hl) as (p2&Hsend&?&?&?&?).
  exists p2. split; [|split_and!; [done|by eapply same_contents_trans|]].
  - erewrite bind_run by (apply zoom_run; exact Hrun). done.
  - split; congruence.
Qed.

(** [MsgIn::send] writes one frame of its message. *)
Lemma MsgIn_send_spec msg v w (p : FbPool) q (L : list (Buffer FbBuffer)) LQ :
  pool_inv p L → length L < length (buffer_busy p) → 1 ≤ buffer_size p →
  msg_is q LQ msg v → in_view_wf v →
  ∃ l p' q', MsgIn_send msg (w, p, q) = Ret (write_result w, (written l w, p', q')) ∧
    frame_of v l ∧ length l ≤ frame_bound (view_size v) ∧ pool_inv p' L ∧ same_shape p p'.
Proof.
  intros Hp Hfree Hbs Hmsg Hwf. unfold MsgIn_send.
  destruct (allocate_buffer_cases (T := FbBuffer) 1 p L Hp) as
    [[? _]|[(_&?&_)|(_&_&i&p1&f&Hal&Hp1&_&Hbs1&Hlen1&Hg&_&Hf)]]; [lia|lia|].
  assert (same_shape p p1) as Hsh by (by split).
  erewrite bind_run by (apply zoom_run; exact Hal).
  destruct msg as [d|d|], v as [src dst v|d'|]; try done; simpl in Hmsg.
  - destruct Hmsg as [Hq Hk]. destruct d as [b]. simpl in *.
    destruct (packet_at_accessors _ _ _ _ _ Hk) as (Hsrc&Hdst&Hpay).
    destruct (create_deliver_packet_spec f src dst v Hf Hwf) as (f'&Hrun&l&Hl&Hfr&Hlen).
    erewrite bind_run by (apply zoom_run; exact Hsrc).
    erewrite bind_run by (apply zoom_run; exact Hdst).
    erewrite bind_run by (apply zoom_run; exact Hpay).
    destruct (Buffer_deref_mut_spec p1 _ L _ f tt f' Hp1 Hg Hrun I) as (p2&Hmut&Hp2&_&Hg2&?&Hb2).
    destruct (send_built_spec w p2 q _ L f' l Hp2 Hg2 Hl) as (p3&Hsend&?&_&?).
    destruct (Buffer_drop_spec _ _ _ Hq) as (q'&Hdrop&_).
    exists l, p3, q'. split_and!; [|done..|etrans; [exact Hsh|etrans; [split; [done|by rewrite Hb2]|done]]].
    erewrite bind_run by (apply zoom_run; exact Hmut).
    erewrite bind_run by exact Hsend.
    by erewrite bind_run by (apply zoom_run; exact Hdrop).
  - subst d'. destruct (create_goto_deadline_spec f d Hf Hwf) as (f'&Hrun&l&Hl&Hfr&Hlen).
    destruct (build_and_send w p1 q _ L f f' _ l Hp1 Hg Hrun Hl) as (p2&Hsend&?&_&?).
    exists l, p2, q. split_and!; [done..|by etrans].
  - destruct (create_end_simulation_spec f Hf) as (f'&Hrun&l&Hl&Hfr&Hlen).
    destruct (build_and_send w p1 q _ L f f' _ l Hp1 Hg Hrun Hl) as (p2&Hsend&?&_&?).
    exists l, p2, q. split_and!; [done..|by etrans].
Qed.

(** The message of the client as [MsgOut::recv] returns it. *)
Definition out_result (L : list (Buffer FbBuffer)) (w : out_view) (r : MsgOut) (p : FbPool) :
    Prop :=
  match w with
  | WAtDeadline => r = MsgOut_AtDeadline ∧ pool_inv p L
  | WSend _ _ _ _ =>
      ∃ b f, r = MsgOut_SendPacket (mk_send_packet b) ∧ pool_inv p (b :: L) ∧
        ib_get (inner b) p (index b) = Ret f ∧ holds f w
  end.

(** A packet is built again in the builder [f] of the buffer [fb]. *)
Definition rebuilt (w : out_view) (fb : Buffer FbBuffer) (f : Fbb) (r : MsgOut) (p : FbPool) :
    Prop :=
  match w with
  | WAtDeadline => True
  | WSend t src dst v =>
      r = MsgOut_SendPacket (mk_send_packet fb) ∧
      ∃ f', create_send_packet_from_payload t src dst v f = Ret (tt, f') ∧
        ib_get (inner fb) p (index fb) = Ret f'
  end.

(** The branches of [MsgOut::recv] on a well-formed message [w]. *)
Lemma parse_out_spec w st (p : FbPool) (q : BytesPool) b fb L LQ f :
  out_view_wf w → pool_inv q (b :: LQ) → pool_inv p (fb :: L) →
  ib_get (inner fb) p (index fb) = Ret f → fbb_fresh f →
  ∃ r p' q',
    match to_content_type (out_msg w) with
    | ToTansiv_AtDeadline => drop_both b fb (Ok MsgOut_AtDeadline)
    | ToTansiv_SendPacket => parse_send_packet b fb (out_msg w)
    | _ => drop_both b fb (Err missing_error)
    end (st, p, q) = Ret (Ok r, (st, p', q')) ∧
    out_result L w r p' ∧ pool_inv q' LQ ∧ same_shape p p' ∧ same_shape q q' ∧
    rebuilt w fb f r p'.
Proof.
  intros Hwf Hq Hp Hg Hf. destruct (Buffer_drop_spec _ _ _ Hq) as (q'&Hdq&?&_&?&?).
  destruct w as [t src dst v|]; simpl.
  - unfold parse_send_packet. simpl. destruct Hwf as (Ht&Hs&Hd&Hv).
    rewrite time_parts_of_Duration by done.
    erewrite bind_run by (unfold lift; by rewrite Duration_new_parts).
    erewrite bind_run by done.
    destruct (SendPacketBuilder_new_spec p fb L src dst t v f Hp Hg Hf Hv)
      as (o&p1&Hnew&Hb&Hp1&_&?).
    erewrite try_run_Ok by (apply zoom_run; exact Hnew).
    destruct (SendPacketBuilder_finish_spec p1 (mk_send_packet_builder src dst t fb o) L v t
      Hp1 Hb) as (f'&p2&Hfin&Hg2&Hh&Hp2&_&?);
      [by split_and!|].
    erewrite bind_run by (apply zoom_run; exact Hfin).
    erewrite bind_run by (apply zoom_run; exact Hdq).
    eexists _, p2, q'. split; [done|].
    split_and!; [by exists fb, f'|done|by etrans|by split|done|].
    by eapply SendPacketBuilder_built.
  - destruct (Buffer_drop_spec _ _ _ Hp) as (p'&Hdp&?&_&?&?).
    eexists _, p', q'. split; [|by split_and!]. unfold drop_both.
    erewrite bind_run by (apply zoom_run; exact Hdp).
    by erewrite bind_run by (apply zoom_run; exact Hdq).
Qed.

Lemma MsgOut_recv_frame w l rest st (p : FbPool) (q : BytesPool)
    (L : list (Buffer FbBuffer)) (LQ : list (Buffer BytesBuffer)) :
  encodes1 w l → out_view_wf w → rx st = l ++ rest → length l ≤ buffer_size q + 4 →
  pool_inv q LQ → length LQ < length (buffer_busy q) →
  pool_inv p L → length L < length (buffer_busy p) →
  ∃ r p' q', MsgOut_recv (st, p, q) = Ret (Ok r, (set_rx rest st, p', q')) ∧
    out_result L w r p' ∧ pool_inv q' LQ ∧ (same_shape p p' ∧ same_shape q q') ∧
    ∃ fb p1 f, allocate_buffer 0 p = Ret (Ok fb, p1) ∧
      ib_get (inner fb) p1 (index fb) = Ret f ∧ rebuilt w fb f r p'.
Proof.
  intros (body&->&Hlen&Hroot&_) Hwf Hrx Hle Hq Hfq Hp Hfp. unfold frame in *.
  rewrite length_app in Hle. change (length (u32_to_le (Z.of_nat (length body)))) with 4 in Hle.
  rewrite <- app_assoc in Hrx. unfold MsgOut_recv.
  assert (read_prefixed_size st = Ret (Ok (Z.of_nat (length body)), set_rx (body ++ rest) st))
    as Hsize.
  { rewrite read_prefixed_size_run, Hrx, length_app.
    change (length (u32_to_le (Z.of_nat (length body)))) with 4.
    rewrite (proj2 (Nat.ltb_ge _ _)) by lia.
    by rewrite take_app_length', drop_app_length', u32_of_to_le. }
  erewrite try_run_Ok by (apply zoom_run; exact Hsize).
  destruct (allocate_buffer_cases (T := BytesBuffer) (Z.of_nat (length body)) q LQ Hq) as
    [[? _]|[(_&?&_)|(_&_&i&q1&c&Hal&Hq1&_&Hz1&Hb1&Hgc&_)]]; [lia|lia|].
  remember (mk_buffer i (ib_new i (Z.to_nat (Z.of_nat (length body)))) : Buffer BytesBuffer)
    as b eqn:Hb.
  assert (i = index b) as Hib by (by subst b). rewrite Hib in Hgc.
  assert (bb_size (inner b) = length body) as Hbb by (subst b; simpl; lia). clear Hb Hib.
  erewrite try_run_Ok by (apply zoom_run; unfold connector_allocate_buffer;
    by erewrite bind_run by exact Hal).
  erewrite bind_run by (apply zoom_run, read_exact_full; simpl; rewrite length_app; lia).
  simpl. rewrite Nat2Z.id, take_app_length, drop_app_length.
  destruct (Buffer_deref_mut_spec q1 _ LQ (modify (λ _, body)) c tt body Hq1 Hgc eq_refl)
    as (q2&Hmut&Hq2&_&Hg2&Hz2&Hb2); [simpl; congruence|].
  erewrite bind_run by (apply zoom_run; exact Hmut).
  erewrite bind_run by (apply zoom_run, Buffer_deref_run; exact Hg2).
  erewrite bind_run by (unfold lift; by rewrite Hroot).
  destruct (allocate_buffer_cases (T := FbBuffer) 0 p L Hp) as
    [[? _]|[(_&?&_)|(_&_&j&p1&f&Halp&Hp1&_&Hz3&Hb3&Hgf&_&Hf)]]; [lia|lia|].
  erewrite bind_run by (apply zoom_run; exact Halp). cbn beta iota.
  destruct (parse_out_spec w (set_rx rest st) p1 q2 _ _ L LQ f Hwf Hq2 Hp1 Hgf Hf)
    as (r&p'&q'&Hrun&?&?&?&?&?).
  exists r, p', q'. split_and!; [exact Hrun|done..| | |by eexists _, _, f].
  - etrans; [by split|done].
  - etrans; [|done]. split; [|rewrite Hb2]; congruence.
Qed.
End peer_theorems.
