(* ===== verification/OutputMsgSet.v ===== *)
(** * OutputMsgSet: the set of messages waiting for the deadline

    [tansiv-client/src/output_msg_set.rs].  A fixed array of slots, each with
    a busy and a valid flag: application code claims a free slot, stores its
    message and publishes it; the deadline handler takes the published
    messages in slot order.  This file has the operations run to completion;
    [OutputMsgSetConc] interleaves their atomic steps. *)
From S2P Require Import Prelude Std.
From stdpp Require Import base option list sorting.
From Stdlib Require Import Lia.

(** [output_msg_set::Error] *)
Inductive set_error := NoSlotAvailable.

Record OutputMsgSet (OutputMsg : Type) := mk_msg_set {
  slots : list (option OutputMsg);
  slot_busy : list bool;
  slot_valid : list bool;
}.
Arguments mk_msg_set {_} _ _ _.
Arguments slots {_} _.
Arguments slot_busy {_} _.
Arguments slot_valid {_} _.

Section operations.
Context {OutputMsg : Type}.
Abbreviation MsgSet := (OutputMsgSet OutputMsg).

Definition OutputMsgSet_new (num_slots : nat) : MsgSet :=
  mk_msg_set (replicate num_slots None) (replicate num_slots false)
    (replicate num_slots false).

(** The accesses to the three vectors; an index out of range panics. *)
Definition swap_slot_busy (idx : nat) : M MsgSet bool := λ s,
  match slot_busy s !! idx with
  | Some old => Ret (old, mk_msg_set (slots s) (<[idx := true]> (slot_busy s)) (slot_valid s))
  | None => Panic IndexOutOfBounds
  end.
Definition replace_slot (idx : nat) (v : option OutputMsg) : M MsgSet (option OutputMsg) := λ s,
  match slots s !! idx with
  | Some old => Ret (old, mk_msg_set (<[idx := v]> (slots s)) (slot_busy s) (slot_valid s))
  | None => Panic IndexOutOfBounds
  end.
Definition store_valid (idx : nat) (v : bool) : M MsgSet unit := λ s,
  match slot_valid s !! idx with
  | Some _ => Ret (tt, mk_msg_set (slots s) (slot_busy s) (<[idx := v]> (slot_valid s)))
  | None => Panic IndexOutOfBounds
  end.
Definition store_busy (idx : nat) (v : bool) : M MsgSet unit := λ s,
  match slot_busy s !! idx with
  | Some _ => Ret (tt, mk_msg_set (slots s) (<[idx := v]> (slot_busy s)) (slot_valid s))
  | None => Panic IndexOutOfBounds
  end.

(** The [for] loop of [insert].  The message is moved into the call: on
    [Err] it is dropped by it. *)
Fixpoint insert_scan (output_msg : OutputMsg) (idxs : list nat) :
    M MsgSet (result unit set_error) :=
  match idxs with
  | [] => mret (Err NoSlotAvailable)
  | idx :: rest =>
      old ← swap_slot_busy idx;
      if negb old then
        _ ← replace_slot idx (Some output_msg);
        _ ← store_valid idx true;
        mret (Ok tt)
      else insert_scan output_msg rest
  end.

Definition OutputMsgSet_insert (output_msg : OutputMsg) : M MsgSet (result unit set_error) :=
  n ← gets (λ s, length (slot_busy s)); insert_scan output_msg (seq 0 n).

Definition take_slot (index : nat) : M MsgSet (option OutputMsg) :=
  v ← gets (λ s, slot_valid s !! index);
  match v with
  | Some true =>
      output_msg ← replace_slot index None;
      _ ← store_valid index false;
      _ ← store_busy index false;
      mret output_msg
  | _ => mret None
  end.

(** The [for] loop of [OutputMsgDrain::next]; with the message comes the
    index the iterator continues at. *)
Fixpoint drain_scan (idxs : list nat) : M MsgSet (option (OutputMsg * nat)) :=
  match idxs with
  | [] => mret None
  | index :: rest =>
      val ← take_slot index;
      match val with
      | Some m => mret (Some (m, S index))
      | None => drain_scan rest
      end
  end.

Definition OutputMsgDrain_next (next_index : nat) : M MsgSet (option (OutputMsg * nat)) :=
  num_slots ← gets (λ s, length (slots s));
  drain_scan (seq next_index (num_slots - next_index)).

(** ** The set between two operations *)

(** The messages of the set, in slot order. *)
Definition set_msgs (s : MsgSet) : list OutputMsg := omap id (slots s).

(** No operation is under way: a slot is busy and valid exactly when it
    holds a message. *)
Definition set_wf (s : MsgSet) : Prop :=
  slot_busy s = (λ o, bool_decide (is_Some o)) <$> slots s ∧
  slot_valid s = (λ o, bool_decide (is_Some o)) <$> slots s.

(** The set with slot [i] holding [v]. *)
Definition with_slot (i : nat) (v : option OutputMsg) (s : MsgSet) : MsgSet :=
  let b := bool_decide (is_Some v) in
  mk_msg_set (<[i := v]> (slots s)) (<[i := b]> (slot_busy s)) (<[i := b]> (slot_valid s)).
End operations.

Section omap_id.
Context {A : Type}.
Implicit Types l : list (option A).

Lemma omap_id_None l : (∀ o, o ∈ l → o = None) → omap id l = [].
Proof.
  induction l as [|o l IH]; intros Hl; [done|]. simpl.
  rewrite (Hl o) by left. apply IH. intros. apply Hl. by right.
Qed.

Lemma omap_id_set_None l i (m : A) :
  l !! i = Some None →
  ∃ l1 l2 : list A, omap id l = l1 ++ l2 ∧ omap id (<[i := Some m]> l) = l1 ++ m :: l2.
Proof.
  intros Hi. exists (omap id (take i l)), (omap id (drop (S i) l)). split.
  - rewrite <- (take_drop_middle l i None Hi) at 1. by rewrite omap_app.
  - rewrite insert_take_drop by (by eapply lookup_lt_Some). by rewrite omap_app.
Qed.

Lemma omap_id_length l : length (omap id l) ≤ length l.
Proof. induction l as [|[x|] l IH]; csimpl; lia. Qed.

(** Either every slot from [k] on is empty or there is a first full one. *)
Lemma omap_id_first l k :
  (omap id (drop k l) = [] ∧ ∀ i, k ≤ i < length l → l !! i = Some None) ∨
  (∃ i m, l !! i = Some (Some m) ∧ k ≤ i ∧ (∀ j, k ≤ j < i → l !! j = Some None) ∧
    omap id (drop k l) = m :: omap id (drop (S i) l)).
Proof.
  destruct (decide (length l ≤ k)) as [Hk|Hk].
  { left. rewrite drop_ge by done. split; [done|]. intros. lia. }
  remember (length l - k) as n eqn:Hn. revert k Hk Hn.
  induction n as [|n IH]; intros k Hk Hn; [lia|].
  destruct (lookup_lt_is_Some_2 l k) as [o Ho]; [lia|].
  rewrite (drop_S l o k Ho). destruct o as [m|].
  { right. exists k, m. split_and!; [done|lia|intros; lia|done]. }
  destruct (decide (length l ≤ S k)) as [Hk'|Hk'].
  { left. rewrite drop_ge by done. split; [done|]. intros i ?. by replace i with k by lia. }
  destruct (IH (S k)) as [[He Hl]|(i&m&Hi&?&Hl&He)]; [lia|lia|left|right].
  - split; [done|]. intros i ?. destruct (decide (i = k)) as [->|]; [done|]. apply Hl. lia.
  - exists i, m. split_and!; [done|lia| |done]. intros j ?.
    destruct (decide (j = k)) as [->|]; [done|]. apply Hl. lia.
Qed.
End omap_id.

Section sequential.
Context {OutputMsg : Type}.
Implicit Types (s : OutputMsgSet OutputMsg) (m : OutputMsg).

Lemma set_wf_new n : set_wf (OutputMsgSet_new (OutputMsg := OutputMsg) n).
Proof. split; simpl; by rewrite fmap_replicate. Qed.

Lemma set_msgs_new n : set_msgs (OutputMsgSet_new (OutputMsg := OutputMsg) n) = [].
Proof. apply omap_id_None. by intros o [-> _]%elem_of_replicate. Qed.

Lemma set_wf_with_slot s i v : set_wf s → set_wf (with_slot i v s).
Proof. intros [Hb Hv]. split; simpl; rewrite list_fmap_insert; congruence. Qed.

(** The flags of a slot. *)
Lemma set_wf_lookup s i v :
  set_wf s → slots s !! i = Some v →
  slot_busy s !! i = Some (bool_decide (is_Some v)) ∧
  slot_valid s !! i = Some (bool_decide (is_Some v)).
Proof. intros [-> ->] Hi. by rewrite !list_lookup_fmap, Hi. Qed.

Lemma set_wf_length s : set_wf s → length (slot_busy s) = length (slots s).
Proof. intros [-> _]. apply length_fmap. Qed.

Lemma insert_scan_full s m k n :
  set_wf s → (∀ i, k ≤ i < k + n → ∃ m', slots s !! i = Some (Some m')) →
  insert_scan m (seq k n) s = Ret (Err NoSlotAvailable, s).
Proof.
  intros Hs. revert k. induction n as [|n IH]; intros k Hl; [done|]. simpl.
  destruct (Hl k) as [m' Hk]; [lia|]. destruct (set_wf_lookup _ _ _ Hs Hk) as [Hb _].
  erewrite bind_run by (unfold swap_slot_busy; by rewrite Hb). simpl.
  rewrite list_insert_id by done. destruct s. apply IH. intros. apply Hl. lia.
Qed.

Lemma insert_scan_first s m k n i :
  set_wf s → slots s !! i = Some None → k ≤ i < k + n →
  (∀ j, k ≤ j < i → ∃ m', slots s !! j = Some (Some m')) →
  insert_scan m (seq k n) s = Ret (Ok tt, with_slot i (Some m) s).
Proof.
  intros Hs Hi. revert k. induction n as [|n IH]; intros k Hk Hl; [lia|]. simpl.
  destruct (decide (k = i)) as [->|].
  - destruct (set_wf_lookup _ _ _ Hs Hi) as [Hb Hv].
    erewrite bind_run by (unfold swap_slot_busy; by rewrite Hb). simpl.
    erewrite bind_run by (unfold replace_slot; simpl; by rewrite Hi).
    by erewrite bind_run by (unfold store_valid; simpl; by rewrite Hv).
  - destruct (Hl k) as [m' Hm]; [lia|]. destruct (set_wf_lookup _ _ _ Hs Hm) as [Hb _].
    erewrite bind_run by (unfold swap_slot_busy; by rewrite Hb). simpl.
    rewrite list_insert_id by done. destruct s. apply IH; [lia|]. intros. apply Hl. lia.
Qed.

Lemma slots_all_full (l : list (option OutputMsg)) :
  (∀ i, i < length l → ∃ m, l !! i = Some (Some m)) ∨
  (∃ i, l !! i = Some None ∧ ∀ j, j < i → ∃ m, l !! j = Some (Some m)).
Proof.
  induction l as [|[m|] l IH]; [left; simpl; intros; lia| |].
  - destruct IH as [Hl|(i&Hi&Hl)].
    + left. intros [|i] ?; simpl in *; [eauto|]. apply Hl. lia.
    + right. exists (S i). split; [done|]. intros [|j] ?; simpl; [eauto|]. apply Hl. lia.
  - right. exists 0. split; [done|]. intros. lia.
Qed.

(** [insert] adds the message, or fails, and changes nothing, exactly when
    the set is full. *)
Lemma OutputMsgSet_insert_cases s m :
  set_wf s →
  (length (set_msgs s) = length (slots s) ∧
    OutputMsgSet_insert m s = Ret (Err NoSlotAvailable, s)) ∨
  (length (set_msgs s) < length (slots s) ∧
    ∃ s', OutputMsgSet_insert m s = Ret (Ok tt, s') ∧ set_wf s' ∧
      length (slots s') = length (slots s) ∧
      ∃ l1 l2, set_msgs s = l1 ++ l2 ∧ set_msgs s' = l1 ++ m :: l2).
Proof.
  intros Hs. pose proof (set_wf_length _ Hs) as Hlen. unfold OutputMsgSet_insert.
  erewrite bind_run by done. simpl. rewrite Hlen.
  destruct (slots_all_full (slots s)) as [Hl|(i&Hi&Hl)].
  - left. split; [|apply insert_scan_full; [done|intros; apply Hl; lia]].
    unfold set_msgs. clear -Hl. induction (slots s) as [|o l IH]; [done|].
    destruct (Hl 0) as [m ?]; [simpl; lia|]. simplify_eq/=. f_equal.
    apply IH. intros i ?. apply (Hl (S i)). simpl. lia.
  - right. pose proof (lookup_lt_Some _ _ _ Hi).
    destruct (omap_id_set_None (slots s) i m Hi) as (l1&l2&H1&H2). split.
    + pose proof (omap_id_length (<[i := Some m]> (slots s))) as Hle.
      rewrite H2, length_insert, length_app in Hle. simpl in Hle.
      unfold set_msgs. rewrite H1, length_app. lia.
    + exists (with_slot i (Some m) s).
      split_and!; [|by apply set_wf_with_slot|apply length_insert|by exists l1, l2].
      apply insert_scan_first; [done..|lia|]. intros. apply Hl. lia.
Qed.

Lemma take_slot_None s i :
  set_wf s → slots s !! i = Some None → take_slot i s = Ret (None, s).
Proof.
  intros Hs Hi. destruct (set_wf_lookup _ _ _ Hs Hi) as [_ Hv].
  unfold take_slot. erewrite bind_run by done. simpl. by rewrite Hv.
Qed.

Lemma take_slot_Some s i m :
  set_wf s → slots s !! i = Some (Some m) → take_slot i s = Ret (Some m, with_slot i None s).
Proof.
  intros Hs Hi. destruct (set_wf_lookup _ _ _ Hs Hi) as [Hb Hv].
  unfold take_slot. erewrite bind_run by done. simpl. rewrite Hv. simpl.
  erewrite bind_run by (unfold replace_slot; by rewrite Hi).
  erewrite bind_run by (unfold store_valid; simpl; by rewrite Hv).
  by erewrite bind_run by (unfold store_busy; simpl; by rewrite Hb).
Qed.

Lemma drain_scan_first s k n i m :
  set_wf s → slots s !! i = Some (Some m) → k ≤ i < k + n →
  (∀ j, k ≤ j < i → slots s !! j = Some None) →
  drain_scan (seq k n) s = Ret (Some (m, S i), with_slot i None s).
Proof.
  intros Hs Hi. revert k. induction n as [|n IH]; intros k Hk Hl; [lia|]. simpl.
  destruct (decide (k = i)) as [->|].
  - by erewrite bind_run by (by apply take_slot_Some).
  - erewrite bind_run by (apply take_slot_None; [done|]; apply Hl; lia).
    apply IH; [lia|]. intros. apply Hl. lia.
Qed.

Lemma drain_scan_empty s k n :
  set_wf s → (∀ i, k ≤ i < k + n → slots s !! i = Some None) →
  drain_scan (seq k n) s = Ret (None, s).
Proof.
  intros Hs. revert k. induction n as [|n IH]; intros k Hl; [done|]. simpl.
  erewrite bind_run by (apply take_slot_None; [done|]; apply Hl; lia).
  apply IH. intros. apply Hl. lia.
Qed.

(** [next] takes the first message from its index on, and leaves the others
    in place; it stops when there is none. *)
Lemma OutputMsgDrain_next_spec s k :
  set_wf s → (∀ i, i < k → i < length (slots s) → slots s !! i = Some None) →
  match set_msgs s with
  | [] => OutputMsgDrain_next k s = Ret (None, s)
  | m :: ms => ∃ k' s', OutputMsgDrain_next k s = Ret (Some (m, k'), s') ∧ k < k' ∧
      set_wf s' ∧ set_msgs s' = ms ∧ length (slots s') = length (slots s) ∧
      (∀ i, i < k' → i < length (slots s') → slots s' !! i = Some None)
  end.
Proof.
  intros Hs Hk. unfold OutputMsgDrain_next. erewrite bind_run by done. simpl.
  assert (∀ k l, (∀ i, i < k → i < length l → l !! i = Some None) →
    omap id l = omap id (drop k l) :> list OutputMsg) as Hpre.
  { clear. intros k l Hl. rewrite <- (take_drop k l) at 1. rewrite omap_app.
    rewrite omap_id_None; [done|]. intros o [i Hi]%list_elem_of_lookup.
    pose proof (lookup_lt_Some _ _ _ Hi) as Hlt. rewrite length_take in Hlt.
    rewrite lookup_take_lt, Hl in Hi by lia. congruence. }
  unfold set_msgs. rewrite (Hpre k _ Hk).
  destruct (omap_id_first (slots s) k) as [[-> Hl]|(i&m&Hi&?&Hl&->)].
  - apply drain_scan_empty; [done|]. intros. apply Hl. lia.
  - pose proof (lookup_lt_Some _ _ _ Hi).
    exists (S i), (with_slot i None s). split_and!.
    + apply drain_scan_first; [done..|lia|done].
    + lia.
    + by apply set_wf_with_slot.
    + simpl. rewrite (Hpre (S i)).
      * by rewrite drop_insert_lt by lia.
      * intros j Hj1 Hj2. rewrite length_insert in Hj2. destruct (decide (j = i)) as [->|].
        { by rewrite list_lookup_insert_eq. }
        rewrite list_lookup_insert_ne by done.
        destruct (decide (j < k)); [apply Hk; lia|apply Hl; lia].
    + simpl. apply length_insert.
    + simpl. rewrite length_insert. intros j ??. destruct (decide (j = i)) as [->|].
      { by rewrite list_lookup_insert_eq. }
      rewrite list_lookup_insert_ne by done.
      destruct (decide (j < k)); [apply Hk; lia|apply Hl; lia].
Qed.
End sequential.
