(* ===== verification/WaitfreeArrayQueue.v ===== *)
(** * WaitfreeArrayQueue: the queue of received packets

    [tansiv-client/src/waitfree_array_queue.rs] wraps crossbeam's
    [ArrayQueue], which is a git submodule of the repository and no part of
    its sources: the class [ArrayQueue] is the interface the wrapper calls,
    [ArrayQueueLaws] its documented behaviour, that of a bounded FIFO. *)
From S2P Require Import Prelude.
From stdpp Require Import base option list.
From Stdlib Require Import Lia.

Class ArrayQueue (Q : Type → Type) := {
  aq_new : ∀ {A}, nat → outcome (Q A);
  aq_push : ∀ {A}, A → Q A → result unit A * Q A;
  aq_pop : ∀ {A}, Q A → option A * Q A;
  aq_is_empty : ∀ {A}, Q A → bool;
}.

Class ArrayQueueLaws (Q : Type → Type) `{ArrayQueue Q} := {
  aq_elems : ∀ {A}, Q A → list A;
  aq_cap : ∀ {A}, Q A → nat;
  aq_bound {A} (q : Q A) : length (aq_elems q) ≤ aq_cap q;
  aq_new_spec {A} n :
    0 < n → ∃ q : Q A, aq_new n = Ret q ∧ aq_elems q = [] ∧ aq_cap q = n;
  aq_push_spec {A} (x : A) (q : Q A) :
    let '(r, q') := aq_push x q in
    aq_cap q' = aq_cap q ∧
    if length (aq_elems q) <? aq_cap q
    then r = Ok tt ∧ aq_elems q' = aq_elems q ++ [x]
    else r = Err x ∧ aq_elems q' = aq_elems q;
  aq_pop_spec {A} (q : Q A) :
    let '(o, q') := aq_pop q in
    aq_cap q' = aq_cap q ∧ o = head (aq_elems q) ∧ aq_elems q' = tail (aq_elems q);
  aq_is_empty_spec {A} (q : Q A) : aq_is_empty q = bool_decide (aq_elems q = []);
}.

(** [waitfree_array_queue::Error] *)
Inductive queue_error (I : Type) := NoSlotAvailable_for (item : I).
Arguments NoSlotAvailable_for {_} _.

Record WaitfreeArrayQueue (Q : Type → Type) (I : Type) := mk_queue { queue : Q I }.
Arguments mk_queue {_ _} _.
Arguments queue {_ _} _.

Section waitfree_array_queue.
Context {Q : Type → Type} `{ArrayQueue Q} {I : Type}.
Abbreviation WQ := (WaitfreeArrayQueue Q I).

Definition WaitfreeArrayQueue_new (num_slots : nat) : outcome WQ :=
  q ← aq_new num_slots; Ret (mk_queue q).

Definition WaitfreeArrayQueue_push (item : I) : M WQ (result unit (queue_error I)) := λ w,
  let '(r, q) := aq_push item (queue w) in
  Ret (map_err NoSlotAvailable_for r, mk_queue q).

Definition WaitfreeArrayQueue_pop : M WQ (option I) := λ w,
  let '(o, q) := aq_pop (queue w) in Ret (o, mk_queue q).

(** [WaitfreeArrayQueueIter::next] *)
Definition WaitfreeArrayQueueIter_next : M WQ (option I) := WaitfreeArrayQueue_pop.

Definition WaitfreeArrayQueue_is_empty (w : WQ) : bool := aq_is_empty (queue w).
End waitfree_array_queue.

Section queue_theorems.
Context {Q : Type → Type} `{ArrayQueueLaws Q} {I : Type}.
Implicit Types (w : WaitfreeArrayQueue Q I) (x : I).

Definition wq_elems w : list I := aq_elems (queue w).
Definition wq_cap w : nat := aq_cap (queue w).

Lemma wq_new n :
  0 < n → ∃ w, WaitfreeArrayQueue_new n = Ret w ∧ wq_elems w = [] ∧ wq_cap w = n.
Proof.
  intros Hn. destruct (aq_new_spec (A := I) n Hn) as (q&Hq&?&?).
  exists (mk_queue q). unfold WaitfreeArrayQueue_new. by rewrite Hq.
Qed.

Lemma wq_push_Ok w x :
  length (wq_elems w) < wq_cap w →
  ∃ w', WaitfreeArrayQueue_push x w = Ret (Ok tt, w') ∧
    wq_elems w' = wq_elems w ++ [x] ∧ wq_cap w' = wq_cap w.
Proof.
  unfold WaitfreeArrayQueue_push, wq_elems, wq_cap. intros Hlt.
  pose proof (aq_push_spec x (queue w)) as Hp. destruct (aq_push x (queue w)) as [r q].
  rewrite (proj2 (Nat.ltb_lt _ _)) in Hp by done. destruct Hp as (?&->&?). by eexists.
Qed.

Lemma wq_push_Err w x :
  length (wq_elems w) = wq_cap w →
  ∃ w', WaitfreeArrayQueue_push x w = Ret (Err (NoSlotAvailable_for x), w') ∧
    wq_elems w' = wq_elems w ∧ wq_cap w' = wq_cap w.
Proof.
  unfold WaitfreeArrayQueue_push, wq_elems, wq_cap. intros Heq.
  pose proof (aq_push_spec x (queue w)) as Hp. destruct (aq_push x (queue w)) as [r q].
  rewrite Heq, Nat.ltb_irrefl in Hp. destruct Hp as (?&->&?). by eexists.
Qed.

Lemma wq_pop w :
  ∃ w', WaitfreeArrayQueue_pop w = Ret (head (wq_elems w), w') ∧
    wq_elems w' = tail (wq_elems w) ∧ wq_cap w' = wq_cap w.
Proof.
  unfold WaitfreeArrayQueue_pop, wq_elems, wq_cap.
  pose proof (aq_pop_spec (queue w)) as Hp. destruct (aq_pop (queue w)) as [o q].
  destruct Hp as (?&->&?). by eexists.
Qed.

Lemma wq_is_empty w : WaitfreeArrayQueue_is_empty w = bool_decide (wq_elems w = []).
Proof. apply aq_is_empty_spec. Qed.

Lemma wq_bound w : length (wq_elems w) ≤ wq_cap w.
Proof. apply aq_bound. Qed.
End queue_theorems.

(** ** A list-backed queue, for the witnesses *)
Record list_queue (A : Type) := mk_list_queue {
  lq_cap : nat;
  lq_elems : list A;
  lq_bound : bool_decide (length lq_elems ≤ lq_cap) = true;
}.
Arguments mk_list_queue {_} _ _ _.
Arguments lq_cap {_} _.
Arguments lq_elems {_} _.

(** A queue that holds [l], or at most its first [cap] elements. *)
Program Definition list_queue_of {A} (cap : nat) (l : list A) : list_queue A :=
  mk_list_queue cap (take cap l) _.
Next Obligation. intros. apply bool_decide_eq_true. rewrite length_take. lia. Qed.

#[export] Instance list_queue_ops : ArrayQueue list_queue := {
  aq_new A n := match n with 0 => Panic AssertionFailed | _ => Ret (list_queue_of n []) end;
  aq_push A x q :=
    if length (lq_elems q) <? lq_cap q
    then (Ok tt, list_queue_of (lq_cap q) (lq_elems q ++ [x])) else (Err x, q);
  aq_pop A q := (head (lq_elems q), list_queue_of (lq_cap q) (tail (lq_elems q)));
  aq_is_empty A q := bool_decide (length (lq_elems q) = 0);
}.

Lemma lq_length {A} (q : list_queue A) : length (lq_elems q) ≤ lq_cap q.
Proof. destruct q as [n l H]. simpl. by apply bool_decide_eq_true in H. Qed.

#[export] Program Instance list_queue_laws : ArrayQueueLaws list_queue := {
  aq_elems A q := lq_elems q;
  aq_cap A q := lq_cap q;
}.
Next Obligation. intros. apply lq_length. Qed.
Next Obligation. intros A [|n] ?; [lia|]. by exists (list_queue_of (S n) []). Qed.
Next Obligation.
  intros A x q. simpl. destruct (Nat.ltb_spec (length (lq_elems q)) (lq_cap q)); [|done].
  simpl. rewrite take_ge; [done|]. rewrite length_app. simpl. lia.
Qed.
Next Obligation.
  intros A q. simpl. split_and!; [done..|]. apply take_ge.
  pose proof (lq_length q). destruct (lq_elems q); simpl in *; lia.
Qed.
Next Obligation.
  intros A q. simpl. apply bool_decide_ext. apply length_zero_iff_nil.
Qed.
