(* ===== verification/Chrono.v ===== *)
(** * Chrono: the interface of the [chrono] crate

    The timers use [chrono::Duration] (signed) and [NaiveDateTime].  The crate
    is not part of the repository: its operations are the class [Chrono], its
    documented behaviour [ChronoLaws], in terms of the number of nanoseconds a
    value stands for. *)
From S2P Require Import Prelude Std.
From stdpp Require Import base option numbers.
From Stdlib Require Import ZArith Lia.

Local Open Scope Z_scope.

Class Chrono := {
  CDuration : Type;
  NaiveDateTime : Type;
  cd_zero : CDuration;
  cd_from_std : Duration → option CDuration;
  cd_to_std : CDuration → option Duration;
  cd_add : CDuration → CDuration → outcome CDuration;
  cd_sub : CDuration → CDuration → outcome CDuration;
  cd_neg : CDuration → outcome CDuration;
  cd_nanoseconds : Z → CDuration;
  cd_seconds : Z → outcome CDuration;
  cd_hours : Z → outcome CDuration;
  cd_eqb : CDuration → CDuration → bool;
  cd_num_seconds : CDuration → Z;
  cd_num_nanoseconds : CDuration → option Z;
  ndt_from_timestamp : Z → Z → outcome NaiveDateTime;
  ndt_add : NaiveDateTime → CDuration → outcome NaiveDateTime;
  ndt_signed_duration_since : NaiveDateTime → NaiveDateTime → CDuration;
  ndt_timestamp : NaiveDateTime → Z;
  ndt_eqb : NaiveDateTime → NaiveDateTime → bool;
  ndt_timestamp_subsec_micros : NaiveDateTime → Z;
}.

(** [chrono::Duration] ranges over plus or minus [i64::MAX] milliseconds. *)
Definition CDuration_MAX : Z := i64_max * 1000000.

(** Dates within this many nanoseconds of the epoch, which is more than 100 000
    years, are in the range of [NaiveDateTime]. *)
Definition NDT_RANGE : Z := 2 ^ 72.

(** [ndt_plain t]: [t] is not within a leap second. *)
Class ChronoLaws `{Chrono} := {
  cd_ns : CDuration → Z;
  ndt_ns : NaiveDateTime → Z;
  ndt_plain : NaiveDateTime → Prop;
  cd_zero_ns : cd_ns cd_zero = 0;
  cd_from_std_Some d :
    0 ≤ d ≤ CDuration_MAX → ∃ c, cd_from_std d = Some c ∧ cd_ns c = d;
  cd_from_std_None d : CDuration_MAX < d → cd_from_std d = None;
  cd_to_std_Some c : 0 ≤ cd_ns c ≤ CDuration_MAX → cd_to_std c = Some (cd_ns c);
  cd_to_std_inv c d : cd_to_std c = Some d → d = cd_ns c ∧ 0 ≤ d ≤ CDuration_MAX;
  cd_to_std_None c : cd_ns c < 0 → cd_to_std c = None;
  cd_add_Ret a b :
    Z.abs (cd_ns a + cd_ns b) ≤ CDuration_MAX →
    ∃ c, cd_add a b = Ret c ∧ cd_ns c = cd_ns a + cd_ns b;
  cd_sub_Ret a b :
    Z.abs (cd_ns a - cd_ns b) ≤ CDuration_MAX →
    ∃ c, cd_sub a b = Ret c ∧ cd_ns c = cd_ns a - cd_ns b;
  cd_neg_Ret a :
    Z.abs (cd_ns a) ≤ CDuration_MAX → ∃ c, cd_neg a = Ret c ∧ cd_ns c = - cd_ns a;
  cd_add_ns a b c : cd_add a b = Ret c → cd_ns c = cd_ns a + cd_ns b;
  cd_sub_ns a b c : cd_sub a b = Ret c → cd_ns c = cd_ns a - cd_ns b;
  cd_neg_ns a c : cd_neg a = Ret c → cd_ns c = - cd_ns a;
  cd_nanoseconds_ns z : in_i64 z → cd_ns (cd_nanoseconds z) = z;
  cd_seconds_Ret z :
    Z.abs (z * NANOS_PER_SEC) ≤ CDuration_MAX →
    ∃ c, cd_seconds z = Ret c ∧ cd_ns c = z * NANOS_PER_SEC;
  cd_hours_Ret z :
    Z.abs (z * 3600 * NANOS_PER_SEC) ≤ CDuration_MAX →
    ∃ c, cd_hours z = Ret c ∧ cd_ns c = z * 3600 * NANOS_PER_SEC;
  cd_eqb_ns a b : cd_eqb a b = (cd_ns a =? cd_ns b);
  cd_num_seconds_quot c : cd_num_seconds c = Z.quot (cd_ns c) NANOS_PER_SEC;
  cd_num_nanoseconds_Some c : in_i64 (cd_ns c) → cd_num_nanoseconds c = Some (cd_ns c);
  ndt_from_timestamp_Ret z :
    Z.abs (z * NANOS_PER_SEC) ≤ NDT_RANGE →
    ∃ t, ndt_from_timestamp z 0 = Ret t ∧ ndt_ns t = z * NANOS_PER_SEC ∧ ndt_plain t;
  ndt_eqb_ns t t' : ndt_plain t → ndt_plain t' → ndt_eqb t t' = (ndt_ns t =? ndt_ns t');
  ndt_since_ns t t' :
    ndt_plain t → ndt_plain t' →
    cd_ns (ndt_signed_duration_since t t') = ndt_ns t - ndt_ns t';
  ndt_add_ns t d t' :
    ndt_plain t → ndt_add t d = Ret t' → ndt_ns t' = ndt_ns t + cd_ns d ∧ ndt_plain t';
  ndt_add_Ret t d :
    ndt_plain t → Z.abs (ndt_ns t + cd_ns d) ≤ NDT_RANGE → ∃ t', ndt_add t d = Ret t';
  ndt_timestamp_div t : ndt_plain t → ndt_timestamp t = ndt_ns t / NANOS_PER_SEC;
  ndt_subsec_micros_mod t :
    ndt_plain t → ndt_timestamp_subsec_micros t = (ndt_ns t mod NANOS_PER_SEC) / 1000;
}.

(** ** An instance for the witnesses: values are their nanoseconds *)
#[export] Instance Chrono_ref : Chrono := {
  CDuration := Z;
  NaiveDateTime := Z;
  cd_zero := 0;
  cd_from_std d := if d <=? CDuration_MAX then Some d else None;
  cd_to_std c := if (0 <=? c) && (c <=? CDuration_MAX) then Some c else None;
  cd_add a b := Ret (a + b);
  cd_sub a b := Ret (a - b);
  cd_neg a := Ret (- a);
  cd_nanoseconds z := z;
  cd_seconds z := Ret (z * NANOS_PER_SEC);
  cd_hours z := Ret (z * 3600 * NANOS_PER_SEC);
  cd_eqb a b := a =? b;
  cd_num_seconds c := Z.quot c NANOS_PER_SEC;
  cd_num_nanoseconds c :=
    if (- 2 ^ 63 <=? c) && (c <=? i64_max) then Some c else None;
  ndt_from_timestamp s n := Ret (s * NANOS_PER_SEC + n);
  ndt_add t d := Ret (t + d);
  ndt_signed_duration_since t t' := t - t';
  ndt_timestamp t := t / NANOS_PER_SEC;
  ndt_eqb t t' := t =? t';
  ndt_timestamp_subsec_micros t := (t mod NANOS_PER_SEC) / 1000;
}.

#[export] Program Instance ChronoLaws_ref : ChronoLaws := {
  cd_ns c := c;
  ndt_ns t := t;
  ndt_plain _ := True;
}.
Next Obligation. done. Qed.
Next Obligation. simpl. intros d ?. rewrite (proj2 (Z.leb_le _ _)) by lia. eauto. Qed.
Next Obligation. simpl. intros d ?. by rewrite (proj2 (Z.leb_gt _ _)) by lia. Qed.
Next Obligation. simpl. intros c ?. by rewrite !(proj2 (Z.leb_le _ _)) by lia. Qed.
Next Obligation.
  simpl. intros c d. destruct (Z.leb_spec 0 c), (Z.leb_spec c CDuration_MAX); simpl;
    naive_solver lia.
Qed.
Next Obligation. simpl. intros c ?. by rewrite (proj2 (Z.leb_gt 0 c)). Qed.
Next Obligation. simpl. eauto. Qed.
Next Obligation. simpl. eauto. Qed.
Next Obligation. simpl. eauto. Qed.
Next Obligation. simpl. intros. by simplify_eq. Qed.
Next Obligation. simpl. intros. by simplify_eq. Qed.
Next Obligation. simpl. intros. by simplify_eq. Qed.
Next Obligation. done. Qed.
Next Obligation. simpl. eauto. Qed.
Next Obligation. simpl. eauto. Qed.
Next Obligation. done. Qed.
Next Obligation. done. Qed.
Next Obligation.
  simpl. unfold in_i64, i64_max. intros c ?. by rewrite !(proj2 (Z.leb_le _ _)) by lia.
Qed.
Next Obligation. simpl. intros z _. eexists. split_and!; [done|lia|done]. Qed.
Next Obligation. done. Qed.
Next Obligation. done. Qed.
Next Obligation. simpl. intros. by simplify_eq. Qed.
Next Obligation. simpl. eauto. Qed.
Next Obligation. done. Qed.
Next Obligation. done. Qed.

Lemma ndt_epoch `{ChronoLaws} : ∃ t, ndt_from_timestamp 0 0 = Ret t ∧ ndt_ns t = 0 ∧ ndt_plain t.
Proof. by apply (ndt_from_timestamp_Ret 0). Qed.

Lemma cd_from_std_ns `{ChronoLaws} d c : 0 ≤ d → cd_from_std d = Some c → cd_ns c = d.
Proof.
  intros Hd Hc. destruct (Z.le_gt_cases d CDuration_MAX).
  - destruct (cd_from_std_Some d) as (c'&?&?); [lia|]. congruence.
  - by rewrite cd_from_std_None in Hc.
Qed.

(** Seconds and microseconds of a time in nanoseconds. *)
Lemma timeval_split x :
  Z.abs x ≤ 2 ^ 90 →
  let sec := as_i64 (x / NANOS_PER_SEC) in
  let usec := as_i64 (x mod NANOS_PER_SEC / 1000) in
  Z.abs sec ≤ 2 ^ 62 ∧ 0 ≤ usec < 1000000 ∧ sec * 1000000 + usec = x / 1000.
Proof.
  intros Hx. simpl. pose proof (Z.div_mod x NANOS_PER_SEC ltac:(done)).
  pose proof (Z.mod_pos_bound x NANOS_PER_SEC ltac:(done)).
  pose proof (Z.div_mod (x mod NANOS_PER_SEC) 1000 ltac:(done)).
  pose proof (Z.mod_pos_bound (x mod NANOS_PER_SEC) 1000 ltac:(done)).
  pose proof (Z.div_mod x 1000 ltac:(done)). pose proof (Z.mod_pos_bound x 1000 ltac:(done)).
  unfold NANOS_PER_SEC in *. rewrite !as_i64_id by (unfold in_i64, i64_max; lia). lia.
Qed.
