(* ===== verification/VsgAddress.v ===== *)
(** * VsgAddress: addresses in the simulated network

    [tansiv-client/src/vsg_address.rs].  An address is the IPv4 address in
    network byte order held in a [u32], on a little-endian machine.  The text
    form is parsed and printed the way [std::net::Ipv4Addr] does: four decimal
    numbers below 256, without leading zeros, separated by dots. *)
From S2P Require Import Prelude Std.
From stdpp Require Import base option list.
From Stdlib Require Import ZArith Lia Ascii.

Local Open Scope Z_scope.

(** [std::net::Ipv4Addr] *)
Record Ipv4Addr := mk_ipv4 { oct_a : Z; oct_b : Z; oct_c : Z; oct_d : Z }.
Definition Ipv4Addr_wf (ip : Ipv4Addr) : Prop :=
  in_u8 (oct_a ip) ∧ in_u8 (oct_b ip) ∧ in_u8 (oct_c ip) ∧ in_u8 (oct_d ip).

(** [u32::from(Ipv4Addr)] and [Ipv4Addr::from(u32)] *)
Definition u32_of_ipv4 (ip : Ipv4Addr) : Z :=
  Z.shiftl (oct_a ip) 24 + Z.shiftl (oct_b ip) 16 + Z.shiftl (oct_c ip) 8 + oct_d ip.
Definition ipv4_of_u32 (z : Z) : Ipv4Addr :=
  mk_ipv4 (Z.shiftr z 24 mod 256) (Z.shiftr z 16 mod 256) (Z.shiftr z 8 mod 256) (z mod 256).

(** [u32::swap_bytes], which is [to_be] and [from_be] here *)
Definition swap_bytes (z : Z) : Z :=
  Z.shiftl (z mod 256) 24 + Z.shiftl (Z.shiftr z 8 mod 256) 16 +
  Z.shiftl (Z.shiftr z 16 mod 256) 8 + Z.shiftr z 24 mod 256.

(** ** Text *)
Definition ascii_of_digit (d : Z) : ascii := ascii_of_nat (48 + Z.to_nat d).
Definition digit_of_ascii (c : ascii) : option Z :=
  let n := Z.of_nat (nat_of_ascii c) in
  if (48 <=? n) && (n <=? 57) then Some (n - 48) else None.

(** [Parser::read_number] with radix 10, at most three digits and no octal
    form *)
Definition parse_octet (l : list ascii) : option Z :=
  match l with
  | [x] => digit_of_ascii x
  | [x; y] =>
      a ← digit_of_ascii x; b ← digit_of_ascii y;
      if a =? 0 then None else Some (10 * a + b)
  | [x; y; z] =>
      a ← digit_of_ascii x; b ← digit_of_ascii y; c ← digit_of_ascii z;
      let n := 100 * a + 10 * b + c in
      if (a =? 0) || (255 <? n) then None else Some n
  | _ => None
  end.

Fixpoint split_dots (l : list ascii) : list (list ascii) :=
  match l with
  | [] => [[]]
  | c :: l =>
      if ascii_dec c "." then [] :: split_dots l
      else match split_dots l with
           | w :: ws => (c :: w) :: ws
           | [] => [[c]]
           end
  end.

Definition Ipv4Addr_from_str (l : list ascii) : option Ipv4Addr :=
  match split_dots l with
  | [a; b; c; d] =>
      a ← parse_octet a; b ← parse_octet b; c ← parse_octet c; d ← parse_octet d;
      Some (mk_ipv4 a b c d)
  | _ => None
  end.

(** [impl Display for Ipv4Addr] *)
Definition print_octet (z : Z) : list ascii :=
  if z <? 10 then [ascii_of_digit z]
  else if z <? 100 then [ascii_of_digit (z / 10); ascii_of_digit (z mod 10)]
  else [ascii_of_digit (z / 100); ascii_of_digit (z / 10 mod 10); ascii_of_digit (z mod 10)].
Definition Ipv4Addr_display (ip : Ipv4Addr) : list ascii :=
  print_octet (oct_a ip) ++ "."%char :: print_octet (oct_b ip) ++ "."%char ::
  print_octet (oct_c ip) ++ "."%char :: print_octet (oct_d ip).

(** ** The two functions of the module *)
Definition vsg_from_str (ip : list ascii) : option Z :=
  ipv4 ← Ipv4Addr_from_str ip; Some (swap_bytes (u32_of_ipv4 ipv4)).
Definition to_ipv4addr (address : Z) : Ipv4Addr := ipv4_of_u32 (swap_bytes address).

(** ** Round trips *)
Lemma bytes_of_u32 a b c d :
  in_u8 a → in_u8 b → in_u8 c → in_u8 d →
  let z := Z.shiftl a 24 + Z.shiftl b 16 + Z.shiftl c 8 + d in
  Z.shiftr z 24 mod 256 = a ∧ Z.shiftr z 16 mod 256 = b ∧ Z.shiftr z 8 mod 256 = c ∧
  z mod 256 = d ∧ in_u32 z.
Proof.
  unfold in_u8, u8_max, in_u32, u32_max. intros Ha Hb Hc Hd. cbv zeta.
  rewrite !Z.shiftl_mul_pow2, !Z.shiftr_div_pow2 by lia.
  change (2 ^ 24) with 16777216. change (2 ^ 16) with 65536. change (2 ^ 8) with 256 in *.
  change (2 ^ 32) with 4294967296.
  split_and!; [| | | |lia|lia].
  - rewrite <- (Z.div_unique _ _ a (b * 65536 + c * 256 + d)) by lia. apply Z.mod_small. lia.
  - rewrite <- (Z.div_unique _ _ (a * 256 + b) (c * 256 + d)) by lia.
    symmetry. apply (Z.mod_unique _ _ a); lia.
  - rewrite <- (Z.div_unique _ _ (a * 65536 + b * 256 + c) d) by lia.
    symmetry. apply (Z.mod_unique _ _ (a * 256 + b)); lia.
  - symmetry. apply (Z.mod_unique _ _ (a * 65536 + b * 256 + c)); lia.
Qed.

Lemma u32_of_ipv4_roundtrip ip :
  Ipv4Addr_wf ip → ipv4_of_u32 (u32_of_ipv4 ip) = ip ∧ in_u32 (u32_of_ipv4 ip).
Proof.
  intros (Ha&Hb&Hc&Hd). destruct (bytes_of_u32 _ _ _ _ Ha Hb Hc Hd) as (E1&E2&E3&E4&?).
  unfold ipv4_of_u32, u32_of_ipv4. split; [|done]. destruct ip. simpl in *. congruence.
Qed.

Lemma byte_u8 z : in_u8 (z mod 256).
Proof. unfold in_u8, u8_max. pose proof (Z.mod_pos_bound z 256). lia. Qed.

Lemma swap_bytes_ipv4 ip :
  Ipv4Addr_wf ip →
  swap_bytes (u32_of_ipv4 ip) = u32_of_ipv4 (mk_ipv4 (oct_d ip) (oct_c ip) (oct_b ip) (oct_a ip)).
Proof.
  intros (Ha&Hb&Hc&Hd). destruct (bytes_of_u32 _ _ _ _ Ha Hb Hc Hd) as (E1&E2&E3&E4&_).
  unfold swap_bytes, u32_of_ipv4. simpl. by rewrite E1, E2, E3, E4.
Qed.

(** Converting to an address and back gives the same IPv4 address. *)
Lemma to_ipv4addr_swap ip :
  Ipv4Addr_wf ip →
  to_ipv4addr (swap_bytes (u32_of_ipv4 ip)) = ip ∧ in_u32 (swap_bytes (u32_of_ipv4 ip)).
Proof.
  intros Hip. assert (Ipv4Addr_wf (mk_ipv4 (oct_d ip) (oct_c ip) (oct_b ip) (oct_a ip))) as Hrev
    by (destruct Hip as (?&?&?&?); by split_and!).
  unfold to_ipv4addr. rewrite swap_bytes_ipv4 by done.
  split; [|by apply u32_of_ipv4_roundtrip].
  rewrite (swap_bytes_ipv4 _ Hrev). destruct ip. by apply u32_of_ipv4_roundtrip.
Qed.

(** Every number below 256 reads back as it was printed, and its text has no
    dot. *)
Lemma print_octet_spec z :
  in_u8 z → parse_octet (print_octet z) = Some z ∧ "."%char ∉ print_octet z.
Proof.
  intros Hz.
  assert (Forall (λ n, parse_octet (print_octet (Z.of_nat n)) = Some (Z.of_nat n) ∧
                       bool_decide ("."%char ∉ print_octet (Z.of_nat n)) = true) (seq 0 256)) as Hall
    by (apply (bool_decide_unpack _); vm_compute; done).
  rewrite Forall_forall in Hall. unfold in_u8, u8_max in Hz.
  destruct (Hall (Z.to_nat z)) as [H1 H2]; [apply elem_of_seq; lia|].
  rewrite Z2Nat.id in * by lia. split; [done|]. by apply bool_decide_eq_true in H2.
Qed.

Lemma split_dots_app l l' :
  "."%char ∉ l → split_dots (l ++ "."%char :: l') = l :: split_dots l'.
Proof.
  induction l as [|c l IH]; intros Hc; simpl; [done|].
  apply not_elem_of_cons in Hc as [Hne Hl]. destruct (ascii_dec c "."); [done|].
  by rewrite IH.
Qed.

Lemma split_dots_last l : "."%char ∉ l → split_dots l = [l].
Proof.
  induction l as [|c l IH]; intros Hc; simpl; [done|].
  apply not_elem_of_cons in Hc as [Hne Hl]. destruct (ascii_dec c "."); [done|].
  by rewrite IH.
Qed.

(** Printing an address and parsing it gives the address. *)
Lemma Ipv4Addr_display_parse ip :
  Ipv4Addr_wf ip → Ipv4Addr_from_str (Ipv4Addr_display ip) = Some ip.
Proof.
  intros (Ha&Hb&Hc&Hd). destruct (print_octet_spec _ Ha) as [Pa Da].
  destruct (print_octet_spec _ Hb) as [Pb Db]. destruct (print_octet_spec _ Hc) as [Pc Dc].
  destruct (print_octet_spec _ Hd) as [Pd Dd].
  unfold Ipv4Addr_from_str, Ipv4Addr_display.
  rewrite !split_dots_app, split_dots_last by done. rewrite Pa, Pb, Pc, Pd. by destruct ip.
Qed.

(** What the parser accepts is a well-formed address. *)
Lemma parse_octet_range l z : parse_octet l = Some z → in_u8 z.
Proof.
  assert (∀ c d, digit_of_ascii c = Some d → 0 ≤ d ≤ 9) as Hd.
  { unfold digit_of_ascii. intros c d. case_match; [|done]. intros. simplify_eq.
    apply andb_true_iff in H as [?%Z.leb_le ?%Z.leb_le]. lia. }
  unfold parse_octet, in_u8, u8_max. intros H.
  repeat (case_match; simplify_eq/=).
  all: repeat match goal with E : _ ≫= _ = Some _ |- _ => apply bind_Some in E as (?&?%Hd&E) end.
  all: repeat (case_match; simplify_eq/=).
  all: try match goal with E : digit_of_ascii _ = Some _ |- _ => apply Hd in E end; try lia.
Qed.

(** What the text of an address stands for. *)
Lemma vsg_from_str_u32 l a :
  vsg_from_str l = Some a → in_u32 a ∧ Ipv4Addr_from_str l = Some (to_ipv4addr a).
Proof.
  unfold vsg_from_str. destruct (Ipv4Addr_from_str l) as [ip|] eqn:Hl; [|done].
  intros [= <-]. assert (Ipv4Addr_wf ip) as Hip.
  { unfold Ipv4Addr_from_str in Hl. repeat (case_match; try done).
    apply bind_Some in Hl as (a&Ha&(b&Hb&(c&Hc&(d&Hd&[= <-])%bind_Some)%bind_Some)%bind_Some).
    split_and!; by eapply parse_octet_range. }
  destruct (to_ipv4addr_swap ip Hip) as [Ha ?]. split; [done|]. by rewrite Ha.
Qed.
