(* ===== verification/Config.v ===== *)
(** * Config: the configuration and the command line

    [tansiv-client/src/config.rs].  The attributes of the structure say which
    options there are and how their values are read; matching arguments with
    options is the work of clap and reading a date that of chrono, parameters
    with the behaviour they document.  [usize] and [NonZeroUsize] are read as
    the standard library does. *)
From S2P Require Import Prelude Std Chrono VsgAddress.
From stdpp Require Import base option list numbers strings.
From Stdlib Require Import ZArith Lia Ascii Strings.Byte.

Definition bytes_of (s : string) : bytes := String.list_byte_of_string s.

(** ** Arguments and options

    An option with a value: its letter, its long name, whether it has to be
    there and the value it has when it is not. *)
Record arg_spec := mk_arg {
  arg_short : byte;
  arg_long : bytes;
  arg_required : bool;
  arg_default : option bytes;
}.

(** [get_matches_from_safe] and [value_of]: the values of the options; and the
    error for a value that its reader refuses. *)
Class Clap := {
  clap_matches : list arg_spec → list bytes → result (byte → option bytes) string;
  clap_invalid_value : byte → bytes → string;
}.

Definition dash : byte := x2d.
Definition equals : byte := x3d.

(** Options with their values, each in one argument or in two. *)
Inductive spells : list (byte * bytes) → list bytes → Prop :=
  | spells_nil : spells [] []
  | spells_sticked o c v opts args :
      c ≠ equals → spells opts args →
      spells ((o, c :: v) :: opts) ((dash :: o :: c :: v) :: args)
  | spells_split o c v opts args :
      c ≠ dash → spells opts args →
      spells ((o, c :: v) :: opts) ([dash; o] :: (c :: v) :: args).

Fixpoint value_in (opts : list (byte * bytes)) (o : byte) : option bytes :=
  match opts with
  | [] => None
  | (o', v) :: opts => if bool_decide (o = o') then Some v else value_in opts o
  end.

(** The options are known and none comes twice; the required ones are there. *)
Definition given (specs : list arg_spec) (opts : list (byte * bytes)) : Prop :=
  NoDup opts.*1 ∧ Forall (λ o, o ∈ (arg_short <$> specs)) opts.*1.
Definition complete (specs : list arg_spec) (opts : list (byte * bytes)) : bool :=
  forallb (λ a, negb (arg_required a) || bool_decide (is_Some (value_in opts (arg_short a)))) specs.

Definition value_or_default (opts : list (byte * bytes)) (a : arg_spec) : option bytes :=
  match value_in opts (arg_short a) with Some v => Some v | None => arg_default a end.

Class ClapLaws `{Clap} := {
  clap_complete specs opts args :
    NoDup (arg_short <$> specs) → spells opts args → given specs opts →
    complete specs opts = true →
    ∃ m, clap_matches specs args = Ok m ∧
      ∀ a, a ∈ specs → m (arg_short a) = value_or_default opts a;
  clap_incomplete specs opts args :
    NoDup (arg_short <$> specs) → spells opts args → given specs opts →
    complete specs opts = false → ∃ e, clap_matches specs args = Err e;
  (** The value of [o] is missing: the arguments end, or go on with an option. *)
  clap_no_value specs opts args o rest :
    NoDup (arg_short <$> specs) → spells opts args → given specs opts →
    o ∈ (arg_short <$> specs) →
    (rest = [] ∨ ∃ o' v rest', rest = (dash :: o' :: v) :: rest' ∧ o' ∈ (arg_short <$> specs)) →
    ∃ e, clap_matches specs (args ++ [dash; o] :: rest) = Err e;
}.

(** ** Values *)
Definition ascii_text (l : bytes) : list ascii := Ascii.ascii_of_byte <$> l.

(** [usize::from_str]: digits, after an optional sign, below [2^64]. *)
Fixpoint digits_from (n : Z) (l : list ascii) : option Z :=
  match l with
  | [] => Some n
  | c :: l =>
      d ← digit_of_ascii c;
      let n := (10 * n + d)%Z in
      if (n <=? u64_max)%Z then digits_from n l else None
  end.
Definition usize_from_str (l : list ascii) : option Z :=
  match l with
  | [] => None
  | c :: l' =>
      let digits := if ascii_dec c "+" then l' else l in
      match digits with [] => None | _ => digits_from 0 digits end
  end.

Definition NonZeroUsize_from_str (l : list ascii) : option Z :=
  n ← usize_from_str l; if (n =? 0)%Z then None else Some n.

(** [NaiveDateTime::from_str] *)
Class DateParser `{Chrono} := ndt_from_str : bytes → option NaiveDateTime.

Definition digit (n : Z) : byte :=
  nth (Z.to_nat n) [x30; x31; x32; x33; x34; x35; x36; x37; x38; x39] x30.
Definition two_digits (n : Z) : bytes := [digit (n / 10); digit (n mod 10)].
Definition january_1970 (d h m : Z) : bytes :=
  bytes_of "1970-01-" ++ two_digits d ++ bytes_of "T" ++ two_digits h ++ bytes_of ":" ++
  two_digits m.

(** Dates of January 1970 are enough for the tests. *)
Class DateParserLaws `{ChronoLaws, !DateParser} := {
  ndt_from_str_date d h m s :
    (1 ≤ d ≤ 31)%Z → (0 ≤ h < 24)%Z → (0 ≤ m < 60)%Z → (0 ≤ s < 60)%Z →
    ∃ t, ndt_from_str (january_1970 d h m ++ bytes_of ":" ++ two_digits s) = Some t ∧
      ndt_plain t ∧ ndt_ns t = (((((d - 1) * 24 + h) * 60 + m) * 60 + s) * NANOS_PER_SEC)%Z;
  ndt_from_str_no_seconds d h m : ndt_from_str (january_1970 d h m) = None;
}.

(** ** The configuration *)
Record Config `{Chrono} := mk_cfg {
  actor_socket : bytes;
  cfg_address : Z;
  cfg_time_offset : NaiveDateTime;
  num_buffers : nat;
}.
Arguments mk_cfg {_} _ _ _ _.

Definition short_a : byte := x61.
Definition short_n : byte := x6e.
Definition short_t : byte := x74.
Definition short_b : byte := x62.

(** The attributes [structopt] of the fields. *)
Definition Config_args : list arg_spec :=
  [mk_arg short_a (bytes_of "actor") true None;
   mk_arg short_n (bytes_of "name") true None;
   mk_arg short_t (bytes_of "initial_time") true None;
   mk_arg short_b (bytes_of "num_buffers") false (Some (bytes_of "100"))].

Section config.
Context `{CH : Chrono, CP : Clap, DP : !DateParser}.

(** The value of an option, as its reader understands it.  clap has checked
    that there is one. *)
Definition read_value {A} (m : byte → option bytes) (o : byte) (read : bytes → option A) :
    result A string :=
  match m o with
  | Some v => match read v with Some x => Ok x | None => Err (clap_invalid_value o v) end
  | None => Err (clap_invalid_value o [])
  end.

Definition read_address (v : bytes) : option Z := vsg_from_str (ascii_text v).
Definition read_num_buffers (v : bytes) : option Z := NonZeroUsize_from_str (ascii_text v).

Definition Config_from_clap (m : byte → option bytes) : result Config string :=
  match read_value m short_a Some, read_value m short_n read_address,
        read_value m short_t ndt_from_str, read_value m short_b read_num_buffers with
  | Ok actor_socket, Ok address, Ok time_offset, Ok num_buffers =>
      Ok (mk_cfg actor_socket address time_offset (Z.to_nat num_buffers))
  | Err e, _, _, _ => Err e
  | _, Err e, _, _ => Err e
  | _, _, Err e, _ => Err e
  | _, _, _, Err e => Err e
  end.

(** [Config::from_iter_safe] *)
Definition Config_from_iter_safe (args : list bytes) : result Config string :=
  match clap_matches Config_args args with
  | Ok m => Config_from_clap m
  | Err e => Err e
  end.

(** ** The tests of the module *)
Definition is_ok {A E} (r : result A E) : bool := match r with Ok _ => true | Err _ => false end.

(** Configurations of the arguments [args] with [expected] buffers. *)
Definition valid_config (args : list string) (expected : nat) : outcome unit :=
  let config := Config_from_iter_safe (bytes_of <$> args) in
  _ ← require (is_ok config);
  config ← unwrap_ok config;
  _ ← require (bool_decide (bytes_of "titi" = actor_socket config));
  let vsg_addr := swap_bytes (u32_of_ipv4 (mk_ipv4 10 0 0 1)) in
  _ ← require (vsg_addr =? cfg_address config)%Z;
  time ← ndt_from_timestamp 86400 0;
  _ ← require (ndt_eqb time (cfg_time_offset config));
  require (expected =? num_buffers config).

Definition valid_args1 : outcome unit :=
  valid_config ["-atiti"; "-n10.0.0.1"; "-t1970-01-02T00:00:00"] 100.
Definition valid_args2 : outcome unit :=
  valid_config ["-a"; "titi"; "-n"; "10.0.0.1"; "-t"; "1970-01-02T00:00:00"] 100.
Definition valid_args3 : outcome unit :=
  valid_config ["-atiti"; "-n10.0.0.1"; "-t1970-01-02T00:00:00"; "-b1000"] 1000.

Definition invalid_config (args : list string) : outcome unit :=
  require (negb (is_ok (Config_from_iter_safe (bytes_of <$> args)))).

Definition invalid_args1 := invalid_config ["-a"; "-n"; "10.0.0.1"; "-t1970-01-02T00:00:00"].
Definition invalid_args2 := invalid_config ["-a"; "titi"; "-n"; "-t1970-01-02T00:00:00"].
Definition invalid_args3 := invalid_config ["-a"; "titi"; "-n"; "10.0.0.1"; "-t"].
Definition invalid_args4 := invalid_config ["-a"; "titi"; "-n"; "10.0.0.1"].
Definition invalid_args5 := invalid_config ["-a"; "titi"; "-t1970-01-02T00:00:00"].
Definition invalid_args6 := invalid_config ["-n"; "10.0.0.1"; "-t1970-01-02T00:00:00"].
Definition invalid_args7 := invalid_config ["-atiti"; "-n"; "10.0.0.1.0"; "-t1970-01-02T00:00"].
Definition invalid_args8 := invalid_config ["-atiti"; "-n"; "10.0.0.1"; "-t1970-01-02T00:00"].
Definition invalid_args9 :=
  invalid_config ["-atiti"; "-n"; "10.0.0.1"; "-t1970-01-02T00:00:00"; "-b0"].
End config.
