(* ===== verification/ConfigSpec.v ===== *)
(** * ConfigSpec: what the command line gives

    The configuration of arguments that spell options, and a reference for clap
    and for the parser of dates. *)
From S2P Require Import Prelude Std Chrono VsgAddress Config.
From stdpp Require Import base option list numbers strings.
From Stdlib Require Import ZArith Lia Ascii Strings.Byte.

Lemma num_buffers_positive v n : read_num_buffers v = Some n → (0 < n ≤ u64_max)%Z.
Proof.
  unfold read_num_buffers, NonZeroUsize_from_str. intros (n'&Hn&Hz)%bind_Some.
  destruct (Z.eqb_spec n' 0); [done|]. injection Hz as <-.
  assert (∀ l k z, (0 ≤ k ≤ u64_max)%Z → digits_from k l = Some z → (0 ≤ z ≤ u64_max)%Z) as Hd.
  { intros l. induction l as [|c l IH]; simpl; intros k z Hk; [by intros [= <-]|].
    intros (d&Hd&Hrun)%bind_Some. destruct (Z.leb_spec (10 * k + d) u64_max); [|done].
    apply (IH _ _) in Hrun; [done|]. unfold digit_of_ascii in Hd.
    destruct (_ && _) eqn:E in Hd; [|done]. injection Hd as <-.
    apply andb_true_iff in E as [?%Z.leb_le _]. lia. }
  unfold usize_from_str in Hn. destruct (ascii_text v) as [|c l]; [done|].
  assert (0 ≤ n' ≤ u64_max)%Z; [|lia].
  destruct (if ascii_dec c "+" then l else c :: l) as [|c' l']; [done|].
  eapply Hd; [|exact Hn]. unfold u64_max. lia.
Qed.

(** Concrete arguments. *)
Ltac spell := vm_compute; repeat first
  [apply spells_nil | apply spells_sticked; [done|] | apply spells_split; [done|]].
Ltac options := split; apply (bool_decide_unpack _); by vm_compute.

Section config.
Context `{DPL : DateParserLaws, CPL : ClapLaws}.

(** The values of the options. *)
Definition config_of (opts : list (byte * bytes)) : option Config :=
  sock ← value_in opts short_a;
  address ← value_in opts short_n ≫= read_address;
  time_offset ← value_in opts short_t ≫= ndt_from_str;
  n ← read_num_buffers (default (bytes_of "100") (value_in opts short_b));
  Some (mk_cfg sock address time_offset (Z.to_nat n)).

Lemma config_of_range opts config :
  config_of opts = Some config →
  in_u32 (cfg_address config) ∧ (0 < Z.of_nat (num_buffers config) ≤ u64_max)%Z.
Proof.
  unfold config_of. intros (sock&_&(address&Ha&(t&_&(n&Hn&[= <-])%bind_Some)%bind_Some)%bind_Some)%bind_Some.
  apply bind_Some in Ha as (v&_&[Ha _]%vsg_from_str_u32). apply num_buffers_positive in Hn.
  split; [done|]. simpl. lia.
Qed.

Lemma Config_args_distinct : NoDup (arg_short <$> Config_args).
Proof. apply (bool_decide_unpack _). by vm_compute. Qed.

Lemma config_from_args opts args :
  spells opts args → given Config_args opts →
  match config_of opts with
  | Some config => Config_from_iter_safe args = Ok config
  | None => ∃ e, Config_from_iter_safe args = Err e
  end.
Proof.
  intros Hs Hg. unfold Config_from_iter_safe.
  destruct (complete Config_args opts) eqn:Hc.
  - destruct (clap_complete _ _ _ Config_args_distinct Hs Hg Hc) as (m&->&Hm).
    assert (∀ i a, Config_args !! i = Some a → m (arg_short a) = value_or_default opts a) as Hv
      by (intros i a Ha; by eapply Hm, list_elem_of_lookup_2).
    pose proof (Hv 0 _ eq_refl) as Ha. pose proof (Hv 1 _ eq_refl) as Hn.
    pose proof (Hv 2 _ eq_refl) as Ht. pose proof (Hv 3 _ eq_refl) as Hb.
    unfold value_or_default in *. cbn [arg_short arg_default] in *.
    unfold Config_from_clap, config_of, read_value. rewrite Ha, Hn, Ht, Hb.
    destruct (value_in opts short_a); simpl; [|by eexists].
    destruct (value_in opts short_n) as [v|]; simpl; [|by eexists].
    destruct (read_address v); simpl; [|by eexists].
    destruct (value_in opts short_t) as [v'|]; simpl; [|by eexists].
    destruct (ndt_from_str v'); simpl; [|by eexists].
    destruct (value_in opts short_b) as [w|]; simpl.
    + destruct (read_num_buffers w); simpl; [done|by eexists].
    + done.
  - destruct (clap_incomplete _ _ _ Config_args_distinct Hs Hg Hc) as (e&->).
    unfold complete in Hc. simpl in Hc.
    assert (config_of opts = None) as ->; [|by eexists]. unfold config_of.
    destruct (value_in opts short_a); [|done]. destruct (value_in opts short_n); [|done].
    destruct (value_in opts short_t); [done|]. simpl.
    by destruct (read_address _).
Qed.

Lemma config_no_value opts args o rest :
  spells opts args → given Config_args opts → o ∈ (arg_short <$> Config_args) →
  (rest = [] ∨ ∃ o' v rest', rest = (dash :: o' :: v) :: rest' ∧ o' ∈ (arg_short <$> Config_args)) →
  ∃ e, Config_from_iter_safe (args ++ [dash; o] :: rest) = Err e.
Proof.
  intros Hs Hg Ho Hr. unfold Config_from_iter_safe.
  destruct (clap_no_value _ _ _ _ _ Config_args_distinct Hs Hg Ho Hr) as (e&->). by eexists.
Qed.

(** ** The tests *)
Lemma second_of_january :
  ∃ t, ndt_from_str (bytes_of "1970-01-02T00:00:00") = Some t ∧ ndt_plain t ∧
    ndt_ns t = (86400 * NANOS_PER_SEC)%Z.
Proof. by apply (ndt_from_str_date 2 0 0 0). Qed.

Lemma valid_config_passes args opts n :
  spells opts (bytes_of <$> args) → given Config_args opts →
  value_in opts short_a = Some (bytes_of "titi") →
  value_in opts short_n = Some (bytes_of "10.0.0.1") →
  value_in opts short_t = Some (bytes_of "1970-01-02T00:00:00") →
  read_num_buffers (default (bytes_of "100") (value_in opts short_b)) = Some (Z.of_nat n) →
  valid_config args n = Ret tt.
Proof.
  intros Hs Hg Ha Hn Ht Hb. pose proof (config_from_args opts _ Hs Hg) as Hc.
  destruct second_of_january as (t&Hdate&Hp&Hns).
  destruct (ndt_from_timestamp_Ret 86400) as (t'&Hts&Hns'&Hp'); [by vm_compute|].
  unfold config_of in Hc. rewrite Ha, Hn, Ht, Hb in Hc. cbn [mbind option_bind] in Hc.
  change (read_address (bytes_of "10.0.0.1")) with
    (Some (swap_bytes (u32_of_ipv4 (mk_ipv4 10 0 0 1)))) in Hc. cbn [mbind option_bind] in Hc.
  rewrite Hdate in Hc. cbn [mbind option_bind] in Hc.
  unfold valid_config. rewrite Hc. cbn [is_ok require mbind outcome_bind unwrap_ok].
  cbn [actor_socket cfg_address cfg_time_offset num_buffers].
  rewrite bool_decide_true, Z.eqb_refl, Hts by done. cbn [require mbind outcome_bind].
  rewrite ndt_eqb_ns, Hns, Hns', Z.eqb_refl by done. cbn [require mbind outcome_bind].
  by rewrite Nat2Z.id, Nat.eqb_refl.
Qed.

Lemma valid_configs_pass :
  valid_args1 = Ret tt ∧ valid_args2 = Ret tt ∧ valid_args3 = Ret tt.
Proof.
  split_and!.
  - apply (valid_config_passes _ [(short_a, bytes_of "titi"); (short_n, bytes_of "10.0.0.1");
      (short_t, bytes_of "1970-01-02T00:00:00")]); [spell|options|done..].
  - apply (valid_config_passes _ [(short_a, bytes_of "titi"); (short_n, bytes_of "10.0.0.1");
      (short_t, bytes_of "1970-01-02T00:00:00")]); [spell|options|done..].
  - apply (valid_config_passes _ [(short_a, bytes_of "titi"); (short_n, bytes_of "10.0.0.1");
      (short_t, bytes_of "1970-01-02T00:00:00"); (short_b, bytes_of "1000")]);
      [spell|options|done..].
Qed.

Lemma refused_config args : (∃ e, Config_from_iter_safe (bytes_of <$> args) = Err e) →
  invalid_config args = Ret tt.
Proof. intros (e&He). unfold invalid_config. by rewrite He. Qed.

Lemma no_config args opts :
  spells opts (bytes_of <$> args) → given Config_args opts → config_of opts = None →
  invalid_config args = Ret tt.
Proof.
  intros Hs Hg Hc. apply refused_config. pose proof (config_from_args opts _ Hs Hg) as He.
  by rewrite Hc in He.
Qed.

Lemma no_value_config args opts pre o rest :
  bytes_of <$> args = pre ++ [dash; o] :: rest →
  spells opts pre → given Config_args opts → o ∈ (arg_short <$> Config_args) →
  (rest = [] ∨ ∃ o' v rest', rest = (dash :: o' :: v) :: rest' ∧ o' ∈ (arg_short <$> Config_args)) →
  invalid_config args = Ret tt.
Proof. intros Ha Hs Hg Ho Hr. apply refused_config. rewrite Ha. by eapply config_no_value. Qed.

Lemma config_of_no_date opts v :
  value_in opts short_t = Some v → ndt_from_str v = None → config_of opts = None.
Proof.
  intros Hv Hd. unfold config_of. rewrite Hv. simpl. rewrite Hd. simpl.
  destruct (value_in opts short_a); [|done]. simpl. by destruct (value_in opts short_n ≫= _).
Qed.

Lemma config_of_no_buffers opts v :
  value_in opts short_b = Some v → read_num_buffers v = None → config_of opts = None.
Proof.
  intros Hv Hd. unfold config_of. rewrite Hv. simpl. rewrite Hd.
  destruct (value_in opts short_a); [|done]. simpl. destruct (value_in opts short_n ≫= _); [|done].
  simpl. by destruct (value_in opts short_t ≫= _).
Qed.

Lemma known_option (i : nat) o : (arg_short <$> Config_args) !! i = Some o → o ∈ (arg_short <$> Config_args).
Proof. apply list_elem_of_lookup_2. Qed.

Lemma invalid_configs_pass :
  Forall (λ test, test = Ret tt)
    [invalid_args1; invalid_args2; invalid_args3; invalid_args4; invalid_args5; invalid_args6;
     invalid_args7; invalid_args8; invalid_args9].
Proof.
  assert (ndt_from_str (bytes_of "1970-01-02T00:00") = None) as Hno
    by apply (ndt_from_str_no_seconds 2 0 0).
  repeat apply Forall_cons_2; [..|constructor].
  - eapply (no_value_config _ [] [] short_a); [reflexivity|spell|options|by apply (known_option 0)|].
    right. eexists short_n, _, _. split; [reflexivity|by apply (known_option 1)].
  - eapply (no_value_config _ [(short_a, bytes_of "titi")] [bytes_of "-a"; bytes_of "titi"] short_n);
      [reflexivity|spell|options|by apply (known_option 1)|].
    right. eexists short_t, _, _. split; [reflexivity|by apply (known_option 2)].
  - eapply (no_value_config _ [(short_a, bytes_of "titi"); (short_n, bytes_of "10.0.0.1")]
      (bytes_of <$> ["-a"; "titi"; "-n"; "10.0.0.1"]) short_t);
      [reflexivity|spell|options|by apply (known_option 2)|by left].
  - by apply (no_config _ [(short_a, bytes_of "titi"); (short_n, bytes_of "10.0.0.1")]);
      [spell|options|].
  - by apply (no_config _ [(short_a, bytes_of "titi"); (short_t, bytes_of "1970-01-02T00:00:00")]);
      [spell|options|].
  - by apply (no_config _ [(short_n, bytes_of "10.0.0.1"); (short_t, bytes_of "1970-01-02T00:00:00")]);
      [spell|options|].
  - by apply (no_config _ [(short_a, bytes_of "titi"); (short_n, bytes_of "10.0.0.1.0");
      (short_t, bytes_of "1970-01-02T00:00")]); [spell|options|].
  - apply (no_config _ [(short_a, bytes_of "titi"); (short_n, bytes_of "10.0.0.1");
      (short_t, bytes_of "1970-01-02T00:00")]); [spell|options|].
    by apply (config_of_no_date _ (bytes_of "1970-01-02T00:00")).
  - apply (no_config _ [(short_a, bytes_of "titi"); (short_n, bytes_of "10.0.0.1");
      (short_t, bytes_of "1970-01-02T00:00:00"); (short_b, bytes_of "0")]); [spell|options|].
    by apply (config_of_no_buffers _ (bytes_of "0")).
Qed.
End config.
