(* ===== verification/ConfigRef.v ===== *)
(** * ConfigRef: a concrete command line for the witnesses

    Options with one letter and a value, and the dates of January 1970; they
    instantiate [ClapLaws] and [DateParserLaws]. *)
From S2P Require Import Prelude Std Chrono VsgAddress Config.
From stdpp Require Import base option list numbers strings.
From Stdlib Require Import ZArith Lia Ascii Strings.Byte.

Fixpoint ref_options (specs : list arg_spec) (args : list bytes) : option (list (byte * bytes)) :=
  match args with
  | [] => Some []
  | (d :: o :: v) :: rest =>
      if bool_decide (d = dash) && bool_decide (o ∈ (arg_short <$> specs)) then
        match v with
        | [] =>
            match rest with
            | (c :: w) :: rest =>
                if bool_decide (c = dash) then None
                else cons (o, c :: w) <$> ref_options specs rest
            | _ => None
            end
        | c :: w =>
            cons (o, if bool_decide (c = equals) then w else v) <$> ref_options specs rest
        end
      else None
  | _ => None
  end.

Fixpoint default_of (specs : list arg_spec) (o : byte) : option bytes :=
  match specs with
  | [] => None
  | a :: specs => if bool_decide (arg_short a = o) then arg_default a else default_of specs o
  end.

#[export] Instance Clap_ref : Clap := {
  clap_matches specs args :=
    match ref_options specs args with
    | Some opts =>
        if bool_decide (NoDup opts.*1) && complete specs opts then
          Ok (λ o, match value_in opts o with Some v => Some v | None => default_of specs o end)
        else Err "missing or repeated option"%string
    | None => Err "unexpected argument"%string
    end;
  clap_invalid_value _ _ := "invalid value"%string;
}.

Lemma ref_options_spelled specs opts args rest :
  spells opts args → given specs opts →
  ref_options specs (args ++ rest) = (app opts) <$> ref_options specs rest.
Proof.
  intros Hs [_ Hk]. revert Hk.
  induction Hs as [|o c v opts args Hc Hs IH|o c v opts args Hc Hs IH]; cbn [fmap list_fmap fst].
  - intros _. simpl. by destruct (ref_options specs rest).
  - rewrite Forall_cons. intros [Ho Hk]. cbn [app ref_options].
    rewrite !bool_decide_true, bool_decide_false, IH by done. by destruct (ref_options specs rest).
  - rewrite Forall_cons. intros [Ho Hk]. cbn [app ref_options].
    rewrite !bool_decide_true, bool_decide_false, IH by done. by destruct (ref_options specs rest).
Qed.

Lemma default_of_spec specs a :
  NoDup (arg_short <$> specs) → a ∈ specs → default_of specs (arg_short a) = arg_default a.
Proof.
  induction specs as [|a' specs IH]; [by intros _ ?%not_elem_of_nil|].
  cbn [fmap list_fmap]. rewrite NoDup_cons, elem_of_cons. intros [Hn Hnd] [->|Ha]; simpl.
  - by rewrite bool_decide_true.
  - rewrite bool_decide_false; [by apply IH|]. intros Heq. apply Hn. rewrite Heq.
    by apply list_elem_of_fmap_2.
Qed.

#[export] Program Instance ClapLaws_ref : ClapLaws.
Next Obligation.
  intros specs opts args Hnd Hs Hg Hc. simpl.
  pose proof (ref_options_spelled specs opts args [] Hs Hg) as Ho. rewrite app_nil_r in Ho.
  rewrite Ho. simpl. rewrite app_nil_r, bool_decide_true, Hc by apply Hg. eexists. split; [done|].
  intros a Ha. unfold value_or_default. by rewrite default_of_spec.
Qed.
Next Obligation.
  intros specs opts args Hnd Hs Hg Hc. simpl.
  pose proof (ref_options_spelled specs opts args [] Hs Hg) as Ho. rewrite app_nil_r in Ho.
  rewrite Ho. simpl. rewrite app_nil_r, Hc, andb_false_r. by eexists.
Qed.
Next Obligation.
  intros specs opts args o rest Hnd Hs Hg Ho Hr. simpl.
  rewrite (ref_options_spelled specs opts args _ Hs Hg). cbn [ref_options].
  rewrite !bool_decide_true by done. destruct Hr as [->|(o'&v&rest'&->&_)]; [by eexists|].
  simpl. by eexists.
Qed.

(** ** Dates *)
Definition read_two (b1 b2 : byte) : option Z :=
  x ← digit_of_ascii (Ascii.ascii_of_byte b1); y ← digit_of_ascii (Ascii.ascii_of_byte b2);
  Some (10 * x + y)%Z.

Lemma read_two_digits n :
  (0 ≤ n < 100)%Z → read_two (digit (n / 10)) (digit (n mod 10)) = Some n.
Proof.
  intros Hn.
  assert (Forall (λ i, read_two (digit (Z.of_nat i / 10)) (digit (Z.of_nat i mod 10)) =
    Some (Z.of_nat i)) (seq 0 100)) as Hall by (apply (bool_decide_unpack _); by vm_compute).
  rewrite Forall_forall in Hall. specialize (Hall (Z.to_nat n)).
  rewrite Z2Nat.id in Hall by lia. apply Hall, elem_of_seq. lia.
Qed.

#[export] Instance DateParser_ref : DateParser := λ l : bytes,
  match drop 8 l with
  | [d1; d2; t; h1; h2; c1; m1; m2; c2; s1; s2] =>
      if bool_decide (take 8 l ++ [t; c1; c2] = bytes_of "1970-01-T::") then
        d ← read_two d1 d2; h ← read_two h1 h2; m ← read_two m1 m2; s ← read_two s1 s2;
        if bool_decide (1 ≤ d ≤ 31 ∧ h < 24 ∧ m < 60 ∧ s < 60)%Z
        then Some (((((d - 1) * 24 + h) * 60 + m) * 60 + s) * NANOS_PER_SEC)%Z
        else None
      else None
  | _ => None
  end.

#[export] Program Instance DateParserLaws_ref : DateParserLaws.
Next Obligation.
  intros d h m s Hd Hh Hm Hs. eexists. split; [|done].
  unfold ndt_from_str, DateParser_ref, january_1970, two_digits. cbn [app bytes_of].
  cbn -[digit Z.div Z.modulo read_two bool_decide NANOS_PER_SEC Z.mul].
  rewrite bool_decide_true by done. rewrite !read_two_digits by lia.
  cbn [mbind option_bind]. by rewrite bool_decide_true by lia.
Qed.
Next Obligation. done. Qed.
