(* ===== verification/Error.v ===== *)
(** * Error: the error type of the client

    [tansiv-client/src/error.rs], the conversions of
    [tansiv-client/src/lib.rs], and the texts of the errors of the crate. *)
From S2P Require Import Prelude Std BufferPool OutputMsgSet WaitfreeArrayQueue.
From stdpp Require Import base strings.

Inductive Error :=
  | AlreadyStarted
  | NoMemoryAvailable
  | NoMessageAvailable
  | ProtocolViolation
  | SizeTooBig
  | IoError (e : io_error).

#[export] Instance Error_eq_dec : EqDecision Error.
Proof. solve_decision. Defined.

Definition Error_from_io (e : io_error) : Error := IoError e.

Definition Error_from_pool (e : pool_error) : Error :=
  match e with
  | NoBufferAvailable => NoMemoryAvailable
  | BufferPool.SizeTooBig => SizeTooBig
  end.

Definition Error_from_set (e : set_error) : Error :=
  match e with NoSlotAvailable => NoMemoryAvailable end.

#[export] Instance From_io : From io_error Error := Error_from_io.
#[export] Instance From_pool : From pool_error Error := Error_from_pool.
#[export] Instance From_set : From set_error Error := Error_from_set.

(** ** [Display]

    The trait of the standard library; [fmt] gives the text that is written. *)
Class Display (A : Type) := fmt : A → outcome string.

#[export] Instance pool_error_fmt : Display pool_error := λ self,
  Ret (match self with
       | NoBufferAvailable => "No buffer available"
       | BufferPool.SizeTooBig => "Size too big"
       end).

#[export] Instance set_error_fmt : Display set_error := λ self,
  Ret (match self with NoSlotAvailable => "No slot available" end).

#[export] Instance queue_error_fmt I : Display (queue_error I) := λ self,
  Ret (match self with NoSlotAvailable_for _ => "No slot available" end).

(** The inner match of [Error] lists its first case again, which cannot
    occur there.  The text of an I/O error is up to the system. *)
#[export] Instance Error_fmt `{Display io_error} : Display Error := λ self,
  match self with
  | IoError e => fmt e
  | simple =>
      match simple with
      | AlreadyStarted => Ret "Already Started"
      | NoMemoryAvailable => Ret "No memory available"
      | NoMessageAvailable => Ret "No message available"
      | ProtocolViolation => Ret "Protocol violation"
      | SizeTooBig => Ret "Size too big"
      | IoError _ => Panic NotImplemented
      end
  end.

(** So the only text an error does not determine is that of an I/O error, and
    the [unimplemented!] is not reached. *)
Lemma Error_fmt_returns `{Display io_error} e :
  (∀ i, e = IoError i → ∃ s, fmt i = Ret s) → ∃ s, fmt e = Ret s.
Proof. destruct e as [| | | | |i]; intros Hi; [by eexists..|]. by apply Hi. Qed.

Lemma Error_fmt_inj `{Display io_error} e e' :
  fmt e = fmt e' → (∀ i, e ≠ IoError i) → (∀ i, e' ≠ IoError i) → e = e'.
Proof.
  intros Heq Hi Hi'. destruct e; [destruct e'; (done || by edestruct Hi')..|]. by edestruct Hi.
Qed.
