(* ===== verification/LibcTimer.v ===== *)
(** * LibcTimer: the [libc_timer] crate

    [rust-deps/libc_timer/src/lib.rs]: the conversions between
    [std::time::Duration] and [timespec], and the wrappers of the POSIX clock
    and timer calls.  The constants of the C library are the class [Libc], the
    calls themselves the class [Posix]; both are arguments of the model. *)
From S2P Require Import Prelude Std.
From stdpp Require Import base option list numbers.
From Stdlib Require Import ZArith Lia.

Local Open Scope Z_scope.

(** Constants of the platform. *)
Class Libc := {
  CLOCK_REALTIME : Z; CLOCK_REALTIME_COARSE : Z; CLOCK_MONOTONIC : Z;
  CLOCK_MONOTONIC_COARSE : Z; CLOCK_MONOTONIC_RAW : Z; CLOCK_PROCESS_CPUTIME_ID : Z;
  CLOCK_THREAD_CPUTIME_ID : Z; CLOCK_BOOTTIME : Z; CLOCK_REALTIME_ALARM : Z;
  CLOCK_BOOTTIME_ALARM : Z; TIMER_ABSTIME : Z;
  EINVAL : Z; EALREADY : Z; ENOMEM : Z; EPROTO : Z; EMSGSIZE : Z; EIO : Z; EAGAIN : Z;
}.

(** [libc::timespec] and [libc::itimerspec] *)
Record timespec := mk_timespec { ts_sec : Z; ts_nsec : Z }.
Record itimerspec := mk_itimerspec { it_interval : timespec; it_value : timespec }.

Inductive ClockId :=
  | Realtime | RealtimeCoarse | Monotonic | MonotonicCoarse | MonotonicRaw
  | ProcessCputimeId | ThreadCputimeId | Boottime | RealtimeAlarm | BoottimeAlarm.

Definition ClockId_into `{Libc} (c : ClockId) : Z :=
  match c with
  | Realtime => CLOCK_REALTIME
  | RealtimeCoarse => CLOCK_REALTIME_COARSE
  | Monotonic => CLOCK_MONOTONIC
  | MonotonicCoarse => CLOCK_MONOTONIC_COARSE
  | MonotonicRaw => CLOCK_MONOTONIC_RAW
  | ProcessCputimeId => CLOCK_PROCESS_CPUTIME_ID
  | ThreadCputimeId => CLOCK_THREAD_CPUTIME_ID
  | Boottime => CLOCK_BOOTTIME
  | RealtimeAlarm => CLOCK_REALTIME_ALARM
  | BoottimeAlarm => CLOCK_BOOTTIME_ALARM
  end.

Definition duration_to_timespec (duration : Duration) : timespec :=
  mk_timespec (as_i64 (as_secs duration)) (as_i64 (subsec_nanos duration)).

Definition timespec_to_duration (ts : timespec) : outcome Duration :=
  Duration_new (as_u64 (ts_sec ts)) (as_u32 (ts_nsec ts)).

Definition timespec_zero : timespec := mk_timespec 0 0.

Inductive SettimeFlags := RelativeTime | AbsoluteTime.

Definition SettimeFlags_into_raw `{Libc} (f : SettimeFlags) : Z :=
  match f with RelativeTime => 0 | AbsoluteTime => TIMER_ABSTIME end.

(** [TimerId] wraps the [timer_t] of the C library; the default one is null. *)
Abbreviation TimerId := Z.
Definition TimerId_default : TimerId := 0.

(** The system calls, on a state [S] of the operating system: the return value
    and what is written through the pointer arguments; a pointer that may be
    null is an option.  The notification of a timer is a type of [nix], which
    converts it to the one of the C library. *)
Class Posix (S : Type) := {
  SigevNotify : Type;
  SigevNone : SigevNotify;
  sigevent : Type;
  SigEvent_sigevent : SigevNotify → sigevent;
  os_clock_gettime : Z → timespec → S → (Z * timespec) * S;
  os_timer_create : Z → option sigevent → TimerId → S → (Z * TimerId) * S;
  os_timer_delete : Z → S → Z * S;
  os_timer_settime : Z → Z → itimerspec → S → (Z * itimerspec) * S;
  os_errno : S → Z;
}.

Section calls.
Context {S : Type} `{Libc, Posix S}.

(** [std::io::Error::last_os_error()] *)
Definition last_os_error : M S io_error := gets (λ s, Os (os_errno s)).

(** [clock::gettime] *)
Definition gettime (clock_id : ClockId) : M S (result Duration io_error) :=
  '(res, time) ← (λ s, Ret (os_clock_gettime (ClockId_into clock_id) timespec_zero s));
  if res =? 0 then d ← lift (timespec_to_duration time); mret (Ok d)
  else e ← last_os_error; mret (Err e).

(** [timer::create]: [evp] points to [sigev] when there is a notification *)
Definition timer_create (clock_id : ClockId) (sigev_notify : option SigevNotify) :
    M S (result TimerId io_error) :=
  let sigev :=
    match sigev_notify with
    | Some notify => SigEvent_sigevent notify
    | None => SigEvent_sigevent SigevNone
    end in
  let evp := match sigev_notify with Some _ => Some sigev | None => None end in
  '(res, timerid) ←
    (λ s, Ret (os_timer_create (ClockId_into clock_id) evp TimerId_default s));
  if res =? 0 then mret (Ok timerid)
  else e ← last_os_error; mret (Err e).

(** [timer::delete] *)
Definition timer_delete (timer_id : TimerId) : M S unit :=
  _ ← (λ s, Ret (os_timer_delete timer_id s)); mret tt.

(** [timer::settime] *)
Definition settime (timer_id : TimerId) (flags : SettimeFlags) (new_interval : option Duration)
    (new_value : Duration) : M S (result (Duration * Duration) io_error) :=
  let new_value :=
    mk_itimerspec
      (match new_interval with
       | Some interval => duration_to_timespec interval
       | None => timespec_zero
       end)
      (duration_to_timespec new_value) in
  '(res, old_value) ←
    (λ s, Ret (os_timer_settime timer_id (SettimeFlags_into_raw flags) new_value s));
  if res =? 0 then
    i ← lift (timespec_to_duration (it_interval old_value));
    v ← lift (timespec_to_duration (it_value old_value));
    mret (Ok (i, v))
  else e ← last_os_error; mret (Err e).
End calls.

(** A [timespec] the kernel can hand out. *)
Definition timespec_wf (ts : timespec) : Prop :=
  0 ≤ ts_sec ts ≤ i64_max ∧ 0 ≤ ts_nsec ts < NANOS_PER_SEC.

(** The durations that a [timespec] can hold. *)
Definition Duration_timespec (d : Duration) : Prop := 0 ≤ d < 2 ^ 63 * NANOS_PER_SEC.

Lemma timespec_to_duration_wf ts :
  timespec_wf ts →
  timespec_to_duration ts = Ret (ts_sec ts * NANOS_PER_SEC + ts_nsec ts).
Proof.
  intros [Hs Hn]. unfold timespec_to_duration, Duration_new.
  rewrite as_u64_id, as_u32_id by
    (unfold in_u64, in_u32, u64_max, u32_max, i64_max, NANOS_PER_SEC in *; lia).
  rewrite (proj2 (Z.leb_le _ _)); [done|].
  unfold Duration_MAX, i64_max, NANOS_PER_SEC in *. lia.
Qed.

Lemma duration_to_timespec_wf d :
  Duration_timespec d →
  timespec_wf (duration_to_timespec d) ∧
  duration_to_timespec d = mk_timespec (d / NANOS_PER_SEC) (d mod NANOS_PER_SEC).
Proof.
  unfold Duration_timespec, duration_to_timespec, timespec_wf. intros Hd.
  assert (0 ≤ as_secs d < 2 ^ 63) as Hs.
  { unfold as_secs. split; [apply Z.div_pos; [lia|done]|]. apply Z.div_lt_upper_bound; [done|lia]. }
  pose proof (subsec_nanos_range d) as Hn.
  rewrite !as_i64_id by (unfold in_i64, i64_max, NANOS_PER_SEC in *; lia).
  split; [|done]. simpl. unfold i64_max in *. lia.
Qed.

(** Converting to a [timespec] and back is the identity on the durations a
    [timespec] can hold. *)
Lemma timespec_roundtrip d :
  Duration_timespec d → timespec_to_duration (duration_to_timespec d) = Ret d.
Proof.
  intros Hd. destruct (duration_to_timespec_wf d Hd) as [Hwf Heq].
  rewrite timespec_to_duration_wf by done. rewrite Heq. simpl. f_equal.
  rewrite (Z.div_mod d NANOS_PER_SEC) at 3 by done. lia.
Qed.

(** Beyond, the seconds wrap to a negative value. *)
Lemma timespec_wraps d :
  Duration_wf d → 2 ^ 63 * NANOS_PER_SEC ≤ d → ts_sec (duration_to_timespec d) < 0.
Proof.
  intros [_ Hmax] Hd. simpl. unfold as_i64, as_secs.
  assert (2 ^ 63 ≤ d / NANOS_PER_SEC < 2 ^ 64) as Hs.
  { split; [apply Z.div_le_lower_bound; [done|lia]|].
    apply Z.div_lt_upper_bound; [done|]. unfold Duration_MAX in Hmax. lia. }
  rewrite <- (Z.mod_unique_pos _ _ 1 (d / NANOS_PER_SEC - 2 ^ 63)); lia.
Qed.
