(* ===== verification/Timer.v ===== *)
(** * Timer: the interface between the context and its timer

    [tansiv-client/src/timer/mod.rs] selects one of three [TimerContext]
    implementations at build time.  The class [Timer] has the operations the
    context calls ([tc_stop] takes the number of turns its waiting loop may
    make); [TimerLaws] is what the context relies on. *)
From S2P Require Import Prelude Std Wire FbBuffer Connector Chrono.
From stdpp Require Import base option list numbers.
From Stdlib Require Import ZArith Lia.

Class Timer (T : Type) `{FlatBuffers, Chrono} := {
  tc_simulation_now : M T Duration;
  tc_application_now : M T NaiveDateTime;
  tc_simulation_previous_deadline : M T Duration;
  tc_simulation_next_deadline : M T Duration;
  tc_check_deadline_overrun : Duration → list SendPacketBuilder → M T (option Duration);
  tc_start : Duration → M T (result CDuration io_error);
  tc_stop : nat → M T unit;
}.

(** [tc_prev t] and [tc_next t] are the deadlines that bound the current time
    slice; [tc_handling t] says that the deadline handler runs.  A message
    reported as overrun is stamped after the deadline and not before the last
    message that waits already. *)
Class TimerLaws (T : Type) `{Timer T} := {
  tc_prev : T → Duration;
  tc_next : T → Duration;
  tc_handling : T → Prop;
  tc_previous_deadline_run t :
    tc_handling t → tc_simulation_previous_deadline t = Ret (tc_prev t, t);
  tc_next_deadline_run t :
    tc_handling t → tc_simulation_next_deadline t = Ret (tc_next t, t);
  tc_now_frame t d t' :
    tc_simulation_now t = Ret (d, t') →
    Duration_wf d ∧ tc_prev t' = tc_prev t ∧ tc_next t' = tc_next t;
  tc_overrun_spec t d q :
    ∃ o, tc_check_deadline_overrun d q t = Ret (o, t) ∧
      match o with
      | None => True
      | Some d' => (tc_next t < d')%Z ∧ (d ≤ d')%Z ∧
          (Duration_wf d → Forall (λ m, Duration_wf (spb_send_time m)) q → Duration_wf d') ∧
          ∀ m, list.last q = Some m → (spb_send_time m ≤ d')%Z
      end;
}.

(** The part of a [deadline_handler] that concerns the timer, before and after
    the context's [at_deadline]: stop the clock of the application, and go on
    to the next deadline. *)
Class TimerHandler (T : Type) := {
  tc_frozen : Type;
  tc_freeze : M T tc_frozen;
  tc_resume : tc_frozen → Duration → M T unit;
}.

(** Freezing keeps the deadlines.  A handler that returns has made the deadline
    it handled the previous one. *)
Class TimerHandlerLaws (T : Type) `{TimerLaws T, !TimerHandler T} := {
  tc_freeze_frame t f t' :
    tc_freeze t = Ret (f, t') →
    tc_handling t' ∧ tc_prev t' = tc_prev t ∧ tc_next t' = tc_next t;
  tc_resume_frame t f d t' :
    tc_resume f d t = Ret (tt, t') → tc_prev t' = tc_next t ∧ tc_next t' = d;
}.

Section slices.
Context {T : Type} `{THL : TimerHandlerLaws T}.
Implicit Types (t : T).

(** The deadlines are durations. *)
Definition tc_wf t : Prop := Duration_wf (tc_prev t) ∧ Duration_wf (tc_next t).

(** While the coordinator does not go back in time they are in order. *)
Definition tc_inv t : Prop := (0 ≤ tc_prev t ≤ tc_next t ∧ tc_next t ≤ Duration_MAX)%Z.

Lemma tc_inv_wf t : tc_inv t → tc_wf t.
Proof. unfold tc_inv, tc_wf, Duration_wf. lia. Qed.
Lemma tc_inv_ordered t : tc_inv t → (tc_prev t ≤ tc_next t)%Z.
Proof. unfold tc_inv. lia. Qed.

Lemma tc_wf_now t d t' : tc_wf t → tc_simulation_now t = Ret (d, t') → tc_wf t'.
Proof. intros Ht (_&Hp&Hn)%tc_now_frame. unfold tc_wf. by rewrite Hp, Hn. Qed.
Lemma tc_inv_now t d t' : tc_inv t → tc_simulation_now t = Ret (d, t') → tc_inv t'.
Proof. intros Ht (_&Hp&Hn)%tc_now_frame. unfold tc_inv. by rewrite Hp, Hn. Qed.

Lemma tc_freeze_spec t f t' :
  tc_inv t → tc_freeze t = Ret (f, t') →
  tc_handling t' ∧ tc_inv t' ∧ tc_prev t' = tc_prev t ∧ tc_next t' = tc_next t.
Proof.
  intros Ht (?&Hp&Hn)%tc_freeze_frame. unfold tc_inv. rewrite Hp, Hn. by split_and!; try apply Ht.
Qed.

Lemma tc_resume_spec t f d t' :
  tc_inv t → tc_handling t → Duration_wf d → (tc_next t ≤ d)%Z →
  tc_resume f d t = Ret (tt, t') →
  tc_inv t' ∧ tc_prev t' = tc_next t ∧ tc_next t' = d.
Proof.
  intros Ht _ Hd Hle (Hp&Hn)%tc_resume_frame. unfold tc_inv, Duration_wf in *.
  rewrite Hp, Hn. split_and!; (done || lia).
Qed.
End slices.

(** A timer that has not run yet starts the first slice at time zero. *)
Class TimerStartLaws (T : Type) `{TimerHandlerLaws T} :=
  tc_start_spec t d o t' :
    tc_next t = 0%Z → Duration_wf d → tc_start d t = Ret (Ok o, t') →
    tc_inv t' ∧ tc_prev t' = 0%Z ∧ tc_next t' = d.

(** A timer that makes progress: none of its calls panics or fails, for deadlines
    up to [tc_limit].  [tc_created] holds before [start], [tc_ready] while the
    node runs and [tc_paused f] while a deadline is handled. *)
Class TimerProgress (T : Type) `{TimerHandlerLaws T} := {
  tc_limit : Duration;
  tc_created : T → Prop;
  tc_ready : T → Prop;
  tc_paused : tc_frozen → T → Prop;
  tc_limit_wf : Duration_wf tc_limit;
  tc_created_next t : tc_created t → tc_next t = 0%Z;
  tc_start_returns t d :
    tc_created t → (0 ≤ d ≤ tc_limit)%Z → ∃ o t', tc_start d t = Ret (Ok o, t') ∧ tc_ready t';
  tc_now_returns t :
    tc_ready t → ∃ d t', tc_simulation_now t = Ret (d, t') ∧ tc_ready t';
  tc_freeze_returns t :
    tc_ready t → ∃ f t', tc_freeze t = Ret (f, t') ∧ tc_paused f t';
  tc_resume_returns t f d :
    tc_paused f t → (0 ≤ tc_next t ≤ d)%Z → (d ≤ tc_limit)%Z →
    ∃ t', tc_resume f d t = Ret (tt, t') ∧ tc_ready t';
}.

(** A timer that reports every message stamped after the deadline. *)
Class OverrunChecked (T : Type) `{TimerLaws T} :=
  tc_overrun_None t d q t' :
    tc_check_deadline_overrun d q t = Ret (None, t') → (d ≤ tc_next t)%Z.

(** A timer that reports none: [send] always takes the branch of the set. *)
Class OverrunNever (T : Type) `{TimerLaws T} :=
  tc_overrun_never t d q : tc_check_deadline_overrun d q t = Ret (None, t).
