(* ===== verification/TimerProcess.v ===== *)
(** * TimerProcess: the timer of a plain process

    [tansiv-client/src/timer/process.rs].  Simulation time and application
    time are the monotonic and the local clock plus offsets; the deadline
    handler freezes them and, once the next deadline is known, takes the time
    it needed out of the offsets.  The offsets sit in sequence locks, which are
    the subject of [SeqLock]; here a read or a write of one is a single step. *)
From S2P Require Import Prelude Std Wire FbBuffer Connector Chrono LibcTimer Timer.
From stdpp Require Import base option list numbers strings.
From Stdlib Require Import ZArith Lia.

Local Open Scope Z_scope.

(** [chrono::offset::Local::now().naive_local()] *)
Class LocalClock (S : Type) `{Chrono} := local_now : S → NaiveDateTime * S.

(** [AdjustedTime]: the offset its sequence lock protects. *)
Record AdjustedTime `{Chrono} := mk_adjusted { at_offset : CDuration }.
Arguments mk_adjusted {_} _.

Record ProcessTimerContext `{Chrono} := mk_process_timer {
  pt_time_offset : CDuration;
  application_time : AdjustedTime;
  simulation_time : AdjustedTime;
  timer_id : Z;
  pt_at_deadline : bool;
  current_deadline : NaiveDateTime;
  pt_prev_deadline : Duration;
  pt_next_deadline : Duration;
  prev_deadline_raw : Duration;
  next_deadline_raw : Duration;
  stopped : bool;
}.
Arguments mk_process_timer {_} _ _ _ _ _ _ _ _ _ _ _.

Section process_timer.
Context {S : Type} `{CH : Chrono, LC : Libc, PX : !Posix S, LK : !LocalClock S}.

(** The timer context and the operating system it runs on. *)
Definition ProcessTimer : Type := ProcessTimerContext * S.

Definition on_os {A} : M S A → M ProcessTimer A := zoom snd (λ s '(t, _), (t, s)).
Definition field {A} (f : ProcessTimerContext → A) : M ProcessTimer A := gets (λ t, f t.1).
Definition update (f : ProcessTimerContext → ProcessTimerContext) : M ProcessTimer unit :=
  modify (λ '(t, s), (f t, s)).

(** [AdjustedTime::new], [get] and [adjust] *)
Definition AdjustedTime_new (offset : CDuration) : AdjustedTime := mk_adjusted offset.
Definition AdjustedTime_get {A} (get : ProcessTimerContext → AdjustedTime)
    (f : CDuration → M ProcessTimer A) : M ProcessTimer A :=
  offset ← field (λ t, at_offset (get t)); f offset.
Definition AdjustedTime_adjust (f : CDuration → outcome CDuration) (a : AdjustedTime) :
    outcome AdjustedTime :=
  o ← f (at_offset a); Ret (mk_adjusted o).

Definition adjust_application (f : CDuration → outcome CDuration) : M ProcessTimer unit :=
  a ← field application_time;
  a' ← lift (AdjustedTime_adjust f a);
  update (λ t, mk_process_timer (pt_time_offset t) a' (simulation_time t) (timer_id t)
    (pt_at_deadline t) (current_deadline t) (pt_prev_deadline t) (pt_next_deadline t)
    (prev_deadline_raw t) (next_deadline_raw t) (stopped t)).
Definition adjust_simulation (f : CDuration → outcome CDuration) : M ProcessTimer unit :=
  a ← field simulation_time;
  a' ← lift (AdjustedTime_adjust f a);
  update (λ t, mk_process_timer (pt_time_offset t) (application_time t) a' (timer_id t)
    (pt_at_deadline t) (current_deadline t) (pt_prev_deadline t) (pt_next_deadline t)
    (prev_deadline_raw t) (next_deadline_raw t) (stopped t)).

Definition set_at_deadline (b : bool) : M ProcessTimer unit :=
  update (λ t, mk_process_timer (pt_time_offset t) (application_time t) (simulation_time t)
    (timer_id t) b (current_deadline t) (pt_prev_deadline t) (pt_next_deadline t)
    (prev_deadline_raw t) (next_deadline_raw t) (stopped t)).
Definition set_current_deadline (d : NaiveDateTime) : M ProcessTimer unit :=
  update (λ t, mk_process_timer (pt_time_offset t) (application_time t) (simulation_time t)
    (timer_id t) (pt_at_deadline t) d (pt_prev_deadline t) (pt_next_deadline t)
    (prev_deadline_raw t) (next_deadline_raw t) (stopped t)).
Definition set_deadlines (prev next : Duration) : M ProcessTimer unit :=
  update (λ t, mk_process_timer (pt_time_offset t) (application_time t) (simulation_time t)
    (timer_id t) (pt_at_deadline t) (current_deadline t) prev next
    (prev_deadline_raw t) (next_deadline_raw t) (stopped t)).
Definition set_deadlines_raw (prev next : Duration) : M ProcessTimer unit :=
  update (λ t, mk_process_timer (pt_time_offset t) (application_time t) (simulation_time t)
    (timer_id t) (pt_at_deadline t) (current_deadline t) (pt_prev_deadline t)
    (pt_next_deadline t) prev next (stopped t)).
Definition set_stopped (b : bool) : M ProcessTimer unit :=
  update (λ t, mk_process_timer (pt_time_offset t) (application_time t) (simulation_time t)
    (timer_id t) (pt_at_deadline t) (current_deadline t) (pt_prev_deadline t)
    (pt_next_deadline t) (prev_deadline_raw t) (next_deadline_raw t) b).

(** [clock::gettime(Self::CLOCK).unwrap()] *)
Definition clock_now : M ProcessTimer Duration :=
  r ← on_os (gettime Monotonic); lift (unwrap_ok r).
Definition local_clock : M ProcessTimer NaiveDateTime := on_os (λ s, Ret (local_now s)).

(** [TimerContext::new]; [sigaction] is the outcome of installing the signal
    handler. *)
Definition Process_new (cfg_time_offset : NaiveDateTime) (sigaction : result unit io_error) :
    M S (result ProcessTimerContext io_error) :=
  epoch ← lift (ndt_from_timestamp 0 0);
  let time_offset := ndt_signed_duration_since cfg_time_offset epoch in
  let application_time := AdjustedTime_new cd_zero in
  let simulation_time := AdjustedTime_new cd_zero in
  _ ←? mret sigaction;
  timer_id ←? timer_create Monotonic None;
  mret (Ok (mk_process_timer time_offset application_time simulation_time timer_id true
    cfg_time_offset 0 0 0 0 true)).

Definition Process_application_now : M ProcessTimer NaiveDateTime :=
  at_deadline ← field pt_at_deadline;
  if negb at_deadline then
    AdjustedTime_get application_time (λ offset,
      now ← local_clock; lift (ndt_add now offset))
  else field current_deadline.

Definition Process_simulation_now : M ProcessTimer Duration :=
  at_deadline ← field pt_at_deadline;
  if negb at_deadline then
    AdjustedTime_get simulation_time (λ offset,
      now ← clock_now;
      now ← lift (unwrap (cd_from_std now));
      d ← lift (cd_add now offset);
      lift (unwrap (cd_to_std d)))
  else panic ExplicitPanic.

Definition Process_simulation_previous_deadline : M ProcessTimer Duration :=
  at_deadline ← field pt_at_deadline;
  _ ← assert at_deadline;
  field pt_prev_deadline.

Definition Process_simulation_next_deadline : M ProcessTimer Duration :=
  at_deadline ← field pt_at_deadline;
  _ ← assert at_deadline;
  field pt_next_deadline.

Definition Process_check_deadline_overrun `{FlatBuffers} (_send_time : Duration)
    (_upcoming_messages : list SendPacketBuilder) : M ProcessTimer (option Duration) :=
  mret None.

Definition freeze_time : M ProcessTimer Duration :=
  now ← clock_now;
  d ← Process_application_now;
  _ ← set_current_deadline d;
  _ ← set_at_deadline true;
  mret now.

(** The part of [thaw_time_to_deadline] that moves the offsets. *)
Definition adjust_offsets (freeze_time : option Duration) (now : Duration) :
    M ProcessTimer unit :=
  match freeze_time with
  | Some freeze_time =>
      d ← lift (Duration_sub now freeze_time);
      elapsed_time ← lift (unwrap (cd_from_std d));
      _ ← adjust_application (λ offset, cd_sub offset elapsed_time);
      adjust_simulation (λ offset, cd_sub offset elapsed_time)
  | None =>
      current_deadline ← field current_deadline;
      local_now ← local_clock;
      _ ← adjust_application (λ _, Ret (ndt_signed_duration_since current_deadline local_now));
      adjust_simulation (λ _, now ← unwrap (cd_from_std now); cd_neg now)
  end.

Definition thaw_time_to_deadline (freeze_time : option Duration) (deadline : Duration) :
    M ProcessTimer (result unit io_error) :=
  next_deadline_val ← field pt_next_deadline;
  _ ← set_deadlines next_deadline_val deadline;
  now ← clock_now;
  slice ← lift (Duration_sub deadline next_deadline_val);
  new_next_deadline_raw ← lift (Duration_add now slice);
  raw ← field next_deadline_raw;
  _ ← set_deadlines_raw raw new_next_deadline_raw;
  _ ← adjust_offsets freeze_time now;
  _ ← set_at_deadline false;
  id ← field timer_id;
  _ ←? on_os (settime id AbsoluteTime None new_next_deadline_raw);
  mret (Ok tt).

Definition Process_start (deadline : Duration) : M ProcessTimer (result CDuration io_error) :=
  _ ← set_stopped false;
  r ← thaw_time_to_deadline None deadline;
  match r with
  | Ok _ => o ← field pt_time_offset; mret (Ok o)
  | Err e => _ ← set_stopped true; mret (Err e)
  end.

(** [stop] waits for the handler to raise the flag; [fuel] bounds the turns
    of its loop. *)
Fixpoint Process_stop (fuel : nat) : M ProcessTimer unit :=
  match fuel with
  | O => out_of_fuel
  | Datatypes.S fuel => b ← field stopped; if negb b then Process_stop fuel else mret tt
  end.

(** [Drop for TimerContext] *)
Definition Process_drop : M ProcessTimer unit := id ← field timer_id; on_os (timer_delete id).
End process_timer.
