(* ===== verification/TimerProcessSpec.v ===== *)
(** * TimerProcessSpec: simulation time of the process timer

    The process timer meets the interface [Timer] of the context.  Simulation
    time stands still while a deadline is handled and runs with the monotonic
    clock otherwise; the alarm of a slice falls on its deadline, late by the
    delays of the alarms of all the slices before it. *)
From S2P Require Import Prelude Std Wire FbBuffer Connector Chrono LibcTimer Timer.
From S2P Require Import TimerProcess.
From stdpp Require Import base option list numbers strings.
From Stdlib Require Import ZArith Lia.

Local Open Scope Z_scope.

(** What the timer relies on: [os_mono s] is the monotonic clock and
    [os_alarm s] the expiry the timer is armed for.  Reading a clock succeeds
    and the clock does not go back. *)
Class PosixLaws (S : Type) `{CH : Chrono, LC : Libc, PX : !Posix S, LK : !LocalClock S,
    CL : !ChronoLaws} := {
  os_mono : S → Duration;
  os_alarm : S → option Duration;
  os_mono_range s : 0 ≤ os_mono s ≤ CDuration_MAX;
  os_gettime s :
    ∃ s', os_clock_gettime CLOCK_MONOTONIC timespec_zero s =
        ((0, duration_to_timespec (os_mono s')), s') ∧
      os_mono s ≤ os_mono s' ∧ os_alarm s' = os_alarm s;
  os_local_now s :
    ∃ t s', local_now s = (t, s') ∧ ndt_plain t ∧
      os_mono s ≤ os_mono s' ∧ os_alarm s' = os_alarm s;
  os_settime id v s :
    ∃ res old s', os_timer_settime id TIMER_ABSTIME
        (mk_itimerspec timespec_zero (duration_to_timespec v)) s = ((res, old), s') ∧
      os_mono s ≤ os_mono s' ∧ (res = 0 → Duration_timespec v → os_alarm s' = Some v);
}.

Lemma CDuration_timespec d : 0 ≤ d ≤ CDuration_MAX → Duration_timespec d.
Proof. unfold CDuration_MAX, Duration_timespec, i64_max, NANOS_PER_SEC. lia. Qed.

Section process_timer_spec.
Context {S : Type} `{PL : PosixLaws S}.
Implicit Types (t : ProcessTimerContext) (s : S).

Lemma gettime_run s :
  ∃ s', gettime Monotonic s = Ret (Ok (os_mono s'), s') ∧ os_mono s ≤ os_mono s' ∧
    os_alarm s' = os_alarm s.
Proof.
  destruct (os_gettime s) as (s'&Hg&?&?). exists s'. split; [|done].
  unfold gettime, mbind, M_bind. simpl. rewrite Hg. simpl. unfold lift.
  by rewrite timespec_roundtrip by apply CDuration_timespec, os_mono_range.
Qed.

Lemma clock_now_run t s :
  ∃ s', clock_now (t, s) = Ret (os_mono s', (t, s')) ∧ os_mono s ≤ os_mono s' ∧
    os_alarm s' = os_alarm s.
Proof.
  destruct (gettime_run s) as (s'&Hg&?&?). exists s'. split; [|done].
  unfold clock_now. by erewrite bind_run by (apply zoom_run; exact Hg).
Qed.

(** The offset from the monotonic clock to simulation time. *)
Definition sim_offset t : Z := cd_ns (at_offset (simulation_time t)).

(** Simulation time is the clock plus the offset, while it runs. *)
Lemma simulation_now_run t s :
  pt_at_deadline t = false →
  ∃ s', os_mono s ≤ os_mono s' ∧ os_alarm s' = os_alarm s ∧
    (Z.abs (os_mono s' + sim_offset t) ≤ CDuration_MAX →
     Process_simulation_now (t, s) =
       if 0 <=? os_mono s' + sim_offset t then Ret (os_mono s' + sim_offset t, (t, s'))
       else Panic UnwrapOnNone).
Proof.
  intros Hd. destruct (clock_now_run t s) as (s'&Hnow&?&?).
  exists s'. split_and!; [done..|]. intros Hmax.
  unfold Process_simulation_now, AdjustedTime_get, sim_offset in *.
  erewrite bind_run by done. cbn [fst]. rewrite Hd. cbn [negb].
  erewrite bind_run by done. cbn beta. erewrite bind_run by exact Hnow.
  destruct (cd_from_std_Some (os_mono s') (os_mono_range s')) as (c&Hc&Hns).
  erewrite bind_run by (unfold lift; by rewrite Hc).
  destruct (cd_add_Ret c (at_offset (simulation_time t))) as (c'&Hadd&Hns').
  { by rewrite Hns. }
  erewrite bind_run by (unfold lift; simpl; by rewrite Hadd).
  rewrite Hns in Hns'. rewrite <- Hns'. unfold lift.
  destruct (Z.leb_spec 0 (cd_ns c')).
  - by rewrite cd_to_std_Some by lia.
  - by rewrite cd_to_std_None.
Qed.

Lemma clock_now_gettime t s d t' s' :
  clock_now (t, s) = Ret (d, (t', s')) → gettime Monotonic s = Ret (Ok d, s').
Proof.
  destruct (gettime_run s) as (s1&Hg&_). unfold clock_now, on_os.
  erewrite bind_run by (apply zoom_run; exact Hg). rewrite Hg. intros. by simplify_eq/=.
Qed.

Lemma clock_now_inv t s d t' s' :
  clock_now (t, s) = Ret (d, (t', s')) →
  t' = t ∧ d = os_mono s' ∧ os_mono s ≤ os_mono s' ∧ os_alarm s' = os_alarm s.
Proof.
  destruct (clock_now_run t s) as (s1&Hrun&?&?). rewrite Hrun. intros. by simplify_eq.
Qed.

Lemma local_clock_inv t s d t' s' :
  local_clock (t, s) = Ret (d, (t', s')) →
  t' = t ∧ ndt_plain d ∧ local_now s = (d, s') ∧ os_mono s ≤ os_mono s' ∧
  os_alarm s' = os_alarm s.
Proof.
  destruct (os_local_now s) as (d1&s1&Hrun&?&?&?). unfold local_clock, on_os, zoom.
  simpl. rewrite Hrun. intros. by simplify_eq.
Qed.

(** Reading the application time changes nothing of the timer. *)
Lemma application_now_inv t s d t' s' :
  Process_application_now (t, s) = Ret (d, (t', s')) →
  t' = t ∧ os_mono s ≤ os_mono s' ∧ os_alarm s' = os_alarm s ∧
  if pt_at_deadline t then d = current_deadline t
  else ∃ now, local_now s = (now, s') ∧ ndt_plain now ∧
    ndt_add now (at_offset (application_time t)) = Ret d.
Proof.
  unfold Process_application_now, AdjustedTime_get, field. intros Hrun.
  apply bind_inv in Hrun as (b&p&[-> ->]%gets_inv&Hrun). cbn [fst] in Hrun.
  destruct (pt_at_deadline t); cbn [negb] in Hrun; [by run_inv|].
  apply bind_inv in Hrun as (offset&p&[-> ->]%gets_inv&Hrun). cbn [fst] in Hrun.
  apply bind_inv in Hrun as (now&[t1 s1]&Hnow&Hrun).
  destruct (local_clock_inv _ _ _ _ _ Hnow) as (->&?&?&?&?).
  run_inv. split_and!; [done..|]. by eexists.
Qed.

(** Freezing stops simulation time and leaves the offsets and deadlines. *)
Lemma freeze_time_inv t s f t' s' :
  freeze_time (t, s) = Ret (f, (t', s')) →
  pt_at_deadline t' = true ∧ simulation_time t' = simulation_time t ∧
  application_time t' = application_time t ∧ pt_prev_deadline t' = pt_prev_deadline t ∧
  pt_next_deadline t' = pt_next_deadline t ∧ timer_id t' = timer_id t ∧
  next_deadline_raw t' = next_deadline_raw t ∧
  os_mono s ≤ f ≤ os_mono s' ∧ os_alarm s' = os_alarm s ∧
  ∃ s1, f = os_mono s1 ∧ Process_application_now (t, s1) = Ret (current_deadline t', (t, s')).
Proof.
  unfold freeze_time, set_current_deadline, set_at_deadline, update. intros Hrun.
  apply bind_inv in Hrun as (now&[t1 s1]&Hnow&Hrun).
  destruct (clock_now_inv _ _ _ _ _ Hnow) as (->&->&?&?).
  apply bind_inv in Hrun as (d&[t2 s2]&Happ&Hrun).
  destruct (application_now_inv _ _ _ _ _ Happ) as (->&?&?&_).
  run_inv. simplify_eq/=. split_and!; try done; [congruence|]. by exists s1.
Qed.

(** The offset from the local clock to application time. *)
Definition app_offset t : Z := cd_ns (at_offset (application_time t)).

(** The fields the adjustment of the offsets does not touch. *)
Definition same_but_offsets t t' : Prop :=
  pt_time_offset t' = pt_time_offset t ∧ timer_id t' = timer_id t ∧
  pt_at_deadline t' = pt_at_deadline t ∧ current_deadline t' = current_deadline t ∧
  pt_prev_deadline t' = pt_prev_deadline t ∧ pt_next_deadline t' = pt_next_deadline t ∧
  next_deadline_raw t' = next_deadline_raw t ∧ stopped t' = stopped t.

Lemma adjust_application_inv f t s u t' s' :
  adjust_application f (t, s) = Ret (u, (t', s')) →
  s' = s ∧ same_but_offsets t t' ∧ simulation_time t' = simulation_time t ∧
  f (at_offset (application_time t)) = Ret (at_offset (application_time t')).
Proof.
  unfold adjust_application, update, field, AdjustedTime_adjust. intros Hrun.
  apply bind_inv in Hrun as (a&p&[-> ->]%gets_inv&Hrun). cbn [fst] in Hrun.
  apply bind_inv in Hrun as (a'&p&[Ha ->]%lift_inv&Hrun).
  apply modify_inv in Hrun. simplify_eq/=.
  unfold mbind, outcome_bind in Ha. destruct (f _); [|done..]. by simplify_eq/=.
Qed.

Lemma adjust_simulation_inv f t s u t' s' :
  adjust_simulation f (t, s) = Ret (u, (t', s')) →
  s' = s ∧ same_but_offsets t t' ∧ application_time t' = application_time t ∧
  f (at_offset (simulation_time t)) = Ret (at_offset (simulation_time t')).
Proof.
  unfold adjust_simulation, update, field, AdjustedTime_adjust. intros Hrun.
  apply bind_inv in Hrun as (a&p&[-> ->]%gets_inv&Hrun). cbn [fst] in Hrun.
  apply bind_inv in Hrun as (a'&p&[Ha ->]%lift_inv&Hrun).
  apply modify_inv in Hrun. simplify_eq/=.
  unfold mbind, outcome_bind in Ha. destruct (f _); [|done..]. by simplify_eq/=.
Qed.

Lemma same_but_offsets_trans t t1 t2 :
  same_but_offsets t t1 → same_but_offsets t1 t2 → same_but_offsets t t2.
Proof.
  intros (?&?&?&?&?&?&?&?) (?&?&?&?&?&?&?&?). unfold same_but_offsets. split_and!; congruence.
Qed.

(** The time spent in the handler is taken out of both offsets. *)
Lemma adjust_offsets_Some_inv f now t s u t' s' :
  adjust_offsets (Some f) now (t, s) = Ret (u, (t', s')) →
  s' = s ∧ f ≤ now ∧ same_but_offsets t t' ∧
  sim_offset t' = sim_offset t - (now - f) ∧ app_offset t' = app_offset t - (now - f).
Proof.
  unfold adjust_offsets. intros Hrun.
  apply bind_inv in Hrun as (d&p&[Hd ->]%lift_inv&Hrun).
  apply bind_inv in Hrun as (e&p&[He ->]%lift_inv&Hrun).
  apply bind_inv in Hrun as ([]&[t1 s1]&Ha&Hrun).
  destruct (adjust_application_inv _ _ _ _ _ _ Ha) as (->&?&Hs1&Ea%cd_sub_ns).
  destruct (adjust_simulation_inv _ _ _ _ _ _ Hrun) as (->&?&Ha2&Es%cd_sub_ns).
  unfold Duration_sub in Hd. destruct (Z.leb_spec f now); [|done]. injection Hd as <-.
  destruct (cd_from_std (now - f)) as [e'|] eqn:Hf; [|done]. injection He as ->.
  apply cd_from_std_ns in Hf; [|lia].
  unfold sim_offset, app_offset. rewrite Es, Hs1, Ha2, Ea, Hf.
  split_and!; [done|done|by eapply same_but_offsets_trans|done|done].
Qed.

(** At the start, simulation time is 0 and application time the configured
    one. *)
Lemma adjust_offsets_None_inv now t s u t' s' :
  0 ≤ now → adjust_offsets None now (t, s) = Ret (u, (t', s')) →
  os_mono s ≤ os_mono s' ∧ os_alarm s' = os_alarm s ∧ same_but_offsets t t' ∧
  sim_offset t' = - now ∧
  ∃ l, local_now s = (l, s') ∧ ndt_plain l ∧
    at_offset (application_time t') = ndt_signed_duration_since (current_deadline t) l.
Proof.
  unfold adjust_offsets. intros Hnow Hrun.
  apply bind_inv in Hrun as (cd&p&[-> ->]%gets_inv&Hrun). cbn [fst] in Hrun.
  apply bind_inv in Hrun as (l&[t1 s1]&Hl&Hrun).
  destruct (local_clock_inv _ _ _ _ _ Hl) as (->&?&?&?&?).
  apply bind_inv in Hrun as ([]&[t1 s2]&Ha&Hrun).
  destruct (adjust_application_inv _ _ _ _ _ _ Ha) as (->&?&Hs1&Ea).
  destruct (adjust_simulation_inv _ _ _ _ _ _ Hrun) as (->&?&Ha2&Es).
  unfold unwrap, mbind, outcome_bind in Es.
  destruct (cd_from_std now) as [c|] eqn:Hc; [|done].
  apply cd_from_std_ns in Hc; [|done]. apply cd_neg_ns in Es. injection Ea as Ea.
  unfold sim_offset. rewrite Es, Hc.
  split_and!; [done|done|by eapply same_but_offsets_trans|done|].
  exists l. by rewrite Ha2.
Qed.

Lemma settime_inv id v s x s' :
  settime id AbsoluteTime None v s = Ret (Ok x, s') →
  os_mono s ≤ os_mono s' ∧ (Duration_timespec v → os_alarm s' = Some v).
Proof.
  destruct (os_settime id v s) as (res&old&s1&Hset&?&Hok).
  unfold settime. simpl. intros Hrun. apply bind_inv in Hrun as ([r o]&s2&Hs&Hrun).
  rewrite Hset in Hs. simplify_eq. destruct (Z.eqb_spec r 0); [|by run_inv].
  apply bind_inv in Hrun as (i&p&[_ ->]%lift_inv&Hrun).
  apply bind_inv in Hrun as (v'&p&[_ ->]%lift_inv&Hrun). apply ret_inv in Hrun as [_ ->].
  split; [done|]. by apply Hok.
Qed.

(** A thaw that succeeds starts the next slice: the alarm is as far from the
    clock as the deadline from the previous one. *)
Lemma thaw_inv fo d t s t' s' :
  thaw_time_to_deadline fo d (t, s) = Ret (Ok tt, (t', s')) →
  ∃ now, os_mono s ≤ now ≤ os_mono s' ∧ 0 ≤ now ∧
    pt_next_deadline t ≤ d ∧
    pt_prev_deadline t' = pt_next_deadline t ∧ pt_next_deadline t' = d ∧
    pt_at_deadline t' = false ∧
    (Duration_timespec (now + (d - pt_next_deadline t)) →
     os_alarm s' = Some (now + (d - pt_next_deadline t))) ∧
    pt_time_offset t' = pt_time_offset t ∧ stopped t' = stopped t ∧
    match fo with
    | Some f => f ≤ now ∧ sim_offset t' = sim_offset t - (now - f) ∧
        app_offset t' = app_offset t - (now - f) ∧ ∃ s1, gettime Monotonic s = Ret (Ok now, s1)
    | None => sim_offset t' = - now ∧
        ∃ s1 l s2, gettime Monotonic s = Ret (Ok now, s1) ∧ local_now s1 = (l, s2) ∧
          ndt_plain l ∧ now ≤ os_mono s2 ≤ os_mono s' ∧
          at_offset (application_time t') =
            ndt_signed_duration_since (current_deadline t) l
    end.
Proof.
  unfold thaw_time_to_deadline, set_deadlines, set_deadlines_raw,
    set_at_deadline, update. intros Hrun.
  apply bind_inv in Hrun as (nv&p&[-> ->]%gets_inv&Hrun). cbn [fst] in Hrun.
  apply bind_inv in Hrun as (u&p&->%modify_inv&Hrun).
  apply bind_inv in Hrun as (now&[t1 s1]&Hnow&Hrun).
  pose proof (clock_now_gettime _ _ _ _ _ Hnow) as Hget.
  destruct (clock_now_inv _ _ _ _ _ Hnow) as (->&->&?&_).
  pose proof (os_mono_range s1) as Hrange.
  apply bind_inv in Hrun as (sl&p&[Hsl ->]%lift_inv&Hrun).
  apply bind_inv in Hrun as (raw&p&[Hraw ->]%lift_inv&Hrun).
  unfold Duration_sub in Hsl. destruct (Z.leb_spec (pt_next_deadline t) d); [|done].
  unfold Duration_add in Hraw. simplify_eq. destruct (_ <=? _) in Hraw; [|done]. simplify_eq.
  apply bind_inv in Hrun as (r&p&[-> ->]%gets_inv&Hrun). cbn [fst] in Hrun.
  apply bind_inv in Hrun as (u1&p&->%modify_inv&Hrun).
  apply bind_inv in Hrun as (u2&[t2 s2]&Hadj&Hrun).
  apply bind_inv in Hrun as (u3&p&->%modify_inv&Hrun).
  apply bind_inv in Hrun as (id&p&[-> ->]%gets_inv&Hrun). cbn [fst] in Hrun.
  apply try_inv in Hrun as (x&[t3 s3]&Hset&Hrun). apply ret_inv in Hrun as [_ Heq].
  apply zoom_inv in Hset as (s4&Hset&Heq'). simplify_eq/=.
  apply settime_inv in Hset as [? Halarm]. exists (os_mono s1).
  destruct fo as [f|].
  - destruct (adjust_offsets_Some_inv _ _ _ _ _ _ _ Hadj) as (->&?&Hs&?&?).
    destruct Hs as (?&?&?&?&?&?&?&?). simpl in *. split_and!; try (done || lia). by exists s1.
  - destruct (adjust_offsets_None_inv _ _ _ _ _ _ (proj1 Hrange) Hadj)
      as (?&?&Hs&?&l&?&?&?).
    destruct Hs as (?&?&?&?&?&?&?&?). simpl in *. split_and!; try done; try lia.
    exists s1, l, s2. split_and!; try done; lia.
Qed.

(** A deadline that goes back panics. *)
Lemma thaw_back fo d t s :
  d < pt_next_deadline t → thaw_time_to_deadline fo d (t, s) = Panic DurationOverflow.
Proof.
  intros Hd. unfold thaw_time_to_deadline, field, set_deadlines, update.
  do 2 (erewrite bind_run by done; cbn [fst]).
  destruct (clock_now_run (mk_process_timer (pt_time_offset t) (application_time t)
    (simulation_time t) (timer_id t) (pt_at_deadline t) (current_deadline t)
    (pt_next_deadline t) d (prev_deadline_raw t) (next_deadline_raw t) (stopped t)) s)
    as (s'&Hnow&_).
  erewrite bind_run by exact Hnow. unfold mbind, M_bind, lift.
  by rewrite Duration_sub_Panic.
Qed.

(** ** The interface of the context *)
Context `{FB : FlatBuffers}.

#[export] Instance ProcessTimer_Timer : Timer ProcessTimer := {
  tc_simulation_now := Process_simulation_now;
  tc_application_now := Process_application_now;
  tc_simulation_previous_deadline := Process_simulation_previous_deadline;
  tc_simulation_next_deadline := Process_simulation_next_deadline;
  tc_check_deadline_overrun := Process_check_deadline_overrun;
  tc_start := Process_start;
  tc_stop := Process_stop;
}.

(** [deadline_handler]: freeze, and thaw with [expect]. *)
#[export] Instance ProcessTimer_Handler : TimerHandler ProcessTimer := {
  tc_frozen := Duration;
  tc_freeze := freeze_time;
  tc_resume f d := r ← thaw_time_to_deadline (Some f) d; lift (unwrap_ok r);
}.

Lemma simulation_now_inv t s d t' s' :
  Process_simulation_now (t, s) = Ret (d, (t', s')) →
  t' = t ∧ pt_at_deadline t = false ∧ d = os_mono s' + sim_offset t ∧
  0 ≤ d ≤ CDuration_MAX ∧ os_mono s ≤ os_mono s' ∧ os_alarm s' = os_alarm s.
Proof.
  unfold Process_simulation_now, AdjustedTime_get. intros Hrun.
  apply bind_inv in Hrun as (b&p&[-> ->]%gets_inv&Hrun). cbn [fst] in Hrun.
  destruct (pt_at_deadline t); cbn [negb] in Hrun; [done|].
  apply bind_inv in Hrun as (offset&p&[-> ->]%gets_inv&Hrun). cbn [fst] in Hrun.
  apply bind_inv in Hrun as (now&[t1 s1]&Hnow&Hrun).
  destruct (clock_now_inv _ _ _ _ _ Hnow) as (->&->&?&?).
  pose proof (os_mono_range s1).
  apply bind_inv in Hrun as (c&p&[Hc ->]%lift_inv&Hrun).
  apply bind_inv in Hrun as (c'&p&[Hc'%cd_add_ns ->]%lift_inv&Hrun).
  apply lift_inv in Hrun as [Hd Heq]. simplify_eq.
  destruct (cd_from_std _) as [c1|] eqn:Hf; [|done]. injection Hc as ->.
  apply cd_from_std_ns in Hf; [|lia].
  destruct (cd_to_std c') as [d'|] eqn:Ht; [|done]. injection Hd as ->.
  apply cd_to_std_inv in Ht as [-> ?]. rewrite Hf in Hc'.
  unfold sim_offset. by split_and!; try lia.
Qed.

#[export] Program Instance ProcessTimer_Laws : TimerLaws ProcessTimer := {
  tc_prev p := pt_prev_deadline p.1;
  tc_next p := pt_next_deadline p.1;
  tc_handling p := pt_at_deadline p.1 = true;
}.
Next Obligation.
  intros [t s] Hd. simpl in *. unfold Process_simulation_previous_deadline.
  erewrite bind_run by done. cbn [fst]. by rewrite Hd.
Qed.
Next Obligation.
  intros [t s] Hd. simpl in *. unfold Process_simulation_next_deadline.
  erewrite bind_run by done. cbn [fst]. by rewrite Hd.
Qed.
Next Obligation.
  intros [t s] d [t' s'] Hrun. simpl.
  destruct (simulation_now_inv _ _ _ _ _ Hrun) as (->&_&_&?&_). split_and!; [|done..].
  unfold Duration_wf, Duration_MAX, CDuration_MAX, i64_max, NANOS_PER_SEC in *. lia.
Qed.
Next Obligation. intros [t s] d q. by exists None. Qed.

#[export] Instance ProcessTimer_OverrunNever : OverrunNever ProcessTimer.
Proof. done. Qed.

#[export] Instance ProcessTimer_HandlerLaws : TimerHandlerLaws ProcessTimer.
Proof.
  split.
  - intros [t s] f [t' s'] Hrun. simpl in *.
    by destruct (freeze_time_inv _ _ _ _ _ Hrun) as (?&_&_&Hp&Hn&_).
  - intros [t s] f d [t' s'] Hrun. simpl in *.
    apply bind_inv in Hrun as (r&[t1 s1]&Hthaw&[Hr Heq]%lift_inv). simplify_eq.
    destruct r as [[]|]; [|done].
    by destruct (thaw_inv _ _ _ _ _ _ Hthaw) as (now&_&_&?&Hp&Hn&_).
Qed.

#[export] Instance ProcessTimer_StartLaws : TimerStartLaws ProcessTimer.
Proof.
  intros [t s] d o [t' s'] Hn Hd Hrun. simpl in *. unfold Process_start, set_stopped, update in Hrun.
  apply bind_inv in Hrun as (u&q&->%modify_inv&Hrun).
  apply bind_inv in Hrun as (r&[t1 s1]&Hth&Hrun). destruct r as [[]|e]; [|by run_inv].
  apply bind_inv in Hrun as (o'&q&[-> ->]%gets_inv&Hrun).
  apply ret_inv in Hrun as [_ Heq]. simplify_eq.
  destruct (thaw_inv _ _ _ _ _ _ Hth) as (now&?&?&Hle&Hp&Hn'&_). simpl in *.
  unfold tc_inv. simpl. rewrite Hp, Hn', Hn. destruct Hd. split_and!; (done || lia).
Qed.

(** ** Slices

    One turn of the handler: freeze, [k] for the work of [at_deadline] on the
    operating system, thaw to the deadline [d].  [j] is how late the alarm
    was noticed. *)
Inductive slice : ProcessTimer → Duration → Z → ProcessTimer → Prop :=
  | slice_turn t s f t1 s1 s2 d t' s' a :
      os_alarm s = Some a →
      freeze_time (t, s) = Ret (f, (t1, s1)) →
      os_mono s1 ≤ os_mono s2 →
      thaw_time_to_deadline (Some f) d (t1, s2) = Ret (Ok tt, (t', s')) →
      slice (t, s) d (f - a) (t', s').

(** The deadlines and delays of consecutive slices. *)
Inductive slices : ProcessTimer → list (Duration * Z) → ProcessTimer → Prop :=
  | slices_nil p : slices p [] p
  | slices_cons p d j p1 l p' :
      slice p d j p1 → slices p1 l p' → slices p ((d, j) :: l) p'.

(** When the alarm is due, in simulation time, compared with the deadline. *)
Definition drift (p : ProcessTimer) (k : Z) : Prop :=
  ∃ a, os_alarm p.2 = Some a ∧ a + sim_offset p.1 = pt_next_deadline p.1 + k.

Lemma slice_timespec d now n :
  0 ≤ now ≤ CDuration_MAX → 0 ≤ n ≤ d → d ≤ CDuration_MAX → Duration_timespec (now + (d - n)).
Proof. unfold Duration_timespec, CDuration_MAX, i64_max, NANOS_PER_SEC. lia. Qed.

Lemma slice_drift p d j p' k :
  slice p d j p' → 0 ≤ pt_next_deadline p.1 → d ≤ CDuration_MAX →
  drift p k → drift p' (k + j) ∧ pt_next_deadline p'.1 = d ∧ pt_next_deadline p.1 ≤ d.
Proof.
  intros Hs Hn Hd (a'&Ha'&Hk). destruct Hs as [t s f t1 s1 s2 d t' s' a Ha Hf Hm Hth].
  simpl in *. rewrite Ha in Ha'. simplify_eq.
  destruct (freeze_time_inv _ _ _ _ _ Hf) as (_&Hsim&_&_&Hnext&_&_&_&_).
  destruct (thaw_inv _ _ _ _ _ _ Hth) as (now&?&?&Hle&_&Hn'&_&Halarm&_&_&?&Hoff&_).
  rewrite Hnext in *. pose proof (os_mono_range s').
  split_and!; [|done|done]. eexists. split; [apply Halarm, slice_timespec; lia|]. simpl.
  rewrite Hoff, Hn'. unfold sim_offset in *. rewrite Hsim. lia.
Qed.

(** The delays add up. *)
Lemma slices_drift p l p' k :
  slices p l p' → 0 ≤ pt_next_deadline p.1 → Forall (λ x, x.1 ≤ CDuration_MAX) l →
  drift p k → drift p' (k + foldr (λ x acc, x.2 + acc) 0 l).
Proof.
  intros Hs. revert k. induction Hs as [p|p d j p1 l p' Hsl _ IH]; intros k Hn Hl Hk; simpl.
  { by rewrite Z.add_0_r. }
  apply Forall_cons in Hl as [Hd Hl].
  destruct (slice_drift _ _ _ _ _ Hsl Hn Hd Hk) as (Hk'&Hnd&?).
  rewrite Z.add_assoc. apply IH; [lia|done|done].
Qed.

(** [start] arms the alarm exactly on the first deadline. *)
Lemma start_drift t s d o p :
  pt_next_deadline t = 0 → d ≤ CDuration_MAX →
  Process_start d (t, s) = Ret (Ok o, p) →
  drift p 0 ∧ pt_next_deadline p.1 = d ∧ pt_prev_deadline p.1 = 0 ∧ o = pt_time_offset t ∧
  pt_at_deadline p.1 = false ∧ stopped p.1 = false ∧ 0 ≤ d.
Proof.
  intros Hn Hd Hrun. unfold Process_start, set_stopped, update in Hrun.
  apply bind_inv in Hrun as (u&q&->%modify_inv&Hrun).
  apply bind_inv in Hrun as (r&[t1 s1]&Hth&Hrun). destruct r as [[]|e]; [|by run_inv].
  apply bind_inv in Hrun as (o'&q&[-> ->]%gets_inv&Hrun).
  apply ret_inv in Hrun as [Ho ->]. simplify_eq. cbn [fst].
  destruct (thaw_inv _ _ _ _ _ _ Hth) as (now&?&?&Hle&Hp&Hn'&?&Halarm&Hto&Hst&Hoff&_).
  simpl in *. rewrite Hn in *. pose proof (os_mono_range s1).
  split_and!; try done. eexists. split; [apply Halarm, slice_timespec; lia|]. simpl.
  rewrite Hoff, Hn'. lia.
Qed.

(** Simulation time over a turn of the handler: between a reading before the
    freeze and one after the thaw it advances by the time the clock ran up to
    the reading [f] that froze it and from the reading [now] that thawed it. *)
Lemma turn_time p d1 t1 s1 f t2 s2 s3 d t4 s4 d2 p5 :
  Process_simulation_now p = Ret (d1, (t1, s1)) → freeze_time (t1, s1) = Ret (f, (t2, s2)) →
  thaw_time_to_deadline (Some f) d (t2, s3) = Ret (Ok tt, (t4, s4)) →
  Process_simulation_now (t4, s4) = Ret (d2, p5) →
  os_mono s1 ≤ f ≤ os_mono s2 ∧
  ∃ now s3', gettime Monotonic s3 = Ret (Ok now, s3') ∧ os_mono s3 ≤ now ≤ os_mono p5.2 ∧
    d2 - d1 = (f - os_mono s1) + (os_mono p5.2 - now).
Proof.
  destruct p as [t s], p5 as [t5 s5]. intros H1 Hf Hth H2.
  destruct (simulation_now_inv _ _ _ _ _ H1) as (->&_&->&_).
  destruct (simulation_now_inv _ _ _ _ _ H2) as (->&_&->&_&?&_).
  destruct (freeze_time_inv _ _ _ _ _ Hf) as (_&Hsim&_&_&_&_&_&?&_).
  destruct (thaw_inv _ _ _ _ _ _ Hth) as (now&?&_&_&_&_&_&_&_&_&?&Hoff&_&s3'&Hg).
  split; [done|]. exists now, s3'. simpl. unfold sim_offset in *. rewrite Hoff, Hsim.
  split_and!; [done|lia..].
Qed.

(** ** Application time

    The local clock runs like the monotonic one, [z] ahead of it.  Application
    time is then the date [date] plus simulation time, less [lag]. *)
Section application_time.
Context (z : Z) (steady : ∀ (s : S) l s', local_now s = (l, s') → ndt_ns l = os_mono s' + z).

Definition lags (date : NaiveDateTime) (lag : Z) t : Prop :=
  app_offset t = ndt_ns date + sim_offset t - z - lag.

(** The lag is the time between the two clock readings of [start]. *)
Lemma start_lags t s d o p now s1 l s2 :
  ndt_plain (current_deadline t) → Process_start d (t, s) = Ret (Ok o, p) →
  gettime Monotonic s = Ret (Ok now, s1) → local_now s1 = (l, s2) →
  os_mono s ≤ now ≤ os_mono s2 ∧ os_mono s2 ≤ os_mono p.2 ∧
  lags (current_deadline t) (os_mono s2 - now) p.1.
Proof.
  intros Hp Hrun Hg Hl. unfold Process_start, set_stopped, update in Hrun.
  apply bind_inv in Hrun as (u&q&->%modify_inv&Hrun).
  apply bind_inv in Hrun as (r&[t' s']&Hth&Hrun). destruct r as [[]|e]; [|by run_inv].
  apply bind_inv in Hrun as (o'&q&[-> ->]%gets_inv&Hrun).
  apply ret_inv in Hrun as [Ho ->]. simplify_eq.
  destruct (thaw_inv _ _ _ _ _ _ Hth)
    as (now'&?&_&_&_&_&_&_&_&_&Hsim&s1'&l'&s2'&Hg'&Hl'&Hlp&?&Happ).
  cbn [snd] in *. rewrite Hg in Hg'. simplify_eq. rewrite Hl in Hl'. simplify_eq.
  split_and!; [lia..|]. unfold lags, app_offset. simpl in *.
  rewrite Happ, Hsim, ndt_since_ns by done. rewrite (steady _ _ _ Hl). lia.
Qed.

Lemma slices_lag date lag p l p' : slices p l p' → lags date lag p.1 → lags date lag p'.1.
Proof.
  induction 1 as [|p d j p1 l p' Hs _ IH]; [done|]. intros Hlag. apply IH.
  destruct Hs as [t s f t1 s1 s2 d t' s' a _ Hf _ Hth].
  destruct (freeze_time_inv _ _ _ _ _ Hf) as (_&Es&Ea&_).
  destruct (thaw_inv _ _ _ _ _ _ Hth) as (now&_&_&_&_&_&_&_&_&_&_&Hsim&Happ&_).
  unfold lags, app_offset, sim_offset in *. simpl in *. rewrite Happ, Hsim, Ea, Es. lia.
Qed.

Lemma lags_now date lag p a p' :
  lags date lag p.1 → pt_at_deadline p.1 = false → Process_application_now p = Ret (a, p') →
  p'.1 = p.1 ∧ ndt_plain a ∧ os_mono p.2 ≤ os_mono p'.2 ∧
  ndt_ns a = ndt_ns date + (os_mono p'.2 + sim_offset p.1) - lag.
Proof.
  destruct p as [t s], p' as [t' s']. simpl. intros Hlag Hd Hnow.
  destruct (application_now_inv _ _ _ _ _ Hnow) as (->&?&_&Ha). rewrite Hd in Ha.
  destruct Ha as (now&Hl&Hp&Hadd). destruct (ndt_add_ns _ _ _ Hp Hadd) as [Hns Hpl].
  split_and!; try done. rewrite Hns, (steady _ _ _ Hl). unfold lags, app_offset in Hlag.
  rewrite Hlag. lia.
Qed.
End application_time.


(** A message stamped late in a slice that follows a delayed one is stamped
    beyond the deadline, before the alarm is due. *)
Lemma late_stamp p k d p' a :
  drift p k → os_alarm p.2 = Some a → Process_simulation_now p = Ret (d, p') →
  a - k < os_mono p'.2 → pt_next_deadline p.1 < d.
Proof.
  destruct p as [t s], p' as [t' s']. intros (a'&Ha'&Hk) Ha Hrun Hlt. simpl in *.
  destruct (simulation_now_inv _ _ _ _ _ Hrun) as (_&_&->&_). simplify_eq. lia.
Qed.
End process_timer_spec.
