(* ===== verification/TimerProcessLive.v ===== *)
(** * TimerProcessLive: the process timer never fails

    With clocks that stay within a few ten thousand years and a timer that
    exists, starting, reading the time, freezing and thawing return: none of
    their [unwrap]s and none of their additions panics. *)
From S2P Require Import Prelude Std Wire FbBuffer Connector Chrono LibcTimer Timer.
From S2P Require Import TimerProcess TimerProcessSpec.
From stdpp Require Import base option list numbers strings.
From Stdlib Require Import ZArith Lia.

Local Open Scope Z_scope.

(** [os_timer id s]: [id] is a timer of the process. *)
Definition CLOCK_RANGE : Z := 2 ^ 70.

Class PosixLive (S : Type) `{PL : PosixLaws S} := {
  os_timer : Z → S → Prop;
  os_mono_live s : os_mono s ≤ CLOCK_RANGE;
  os_local_live s t s' : local_now s = (t, s') → Z.abs (ndt_ns t) ≤ CLOCK_RANGE;
  os_timer_gettime id s r s' :
    os_timer id s → os_clock_gettime CLOCK_MONOTONIC timespec_zero s = (r, s') → os_timer id s';
  os_timer_local id s t s' : os_timer id s → local_now s = (t, s') → os_timer id s';
  os_settime_live id v s :
    os_timer id s → Duration_timespec v →
    ∃ old s', os_timer_settime id TIMER_ABSTIME
        (mk_itimerspec timespec_zero (duration_to_timespec v)) s = ((0, old), s') ∧
      timespec_wf (it_interval old) ∧ timespec_wf (it_value old) ∧ os_timer id s';
}.

Section live.
Context {S : Type} `{PV : PosixLive S}.
Implicit Types (t : ProcessTimerContext) (s : S).

Lemma clock_now_live t s id :
  os_timer id s →
  ∃ s', clock_now (t, s) = Ret (os_mono s', (t, s')) ∧ os_mono s ≤ os_mono s' ∧ os_timer id s'.
Proof.
  intros Hid. destruct (os_gettime s) as (s'&Hg&Hle&_). exists s'. split_and!; [|done|].
  - unfold clock_now. erewrite bind_run; [|apply zoom_run; unfold gettime, mbind, M_bind; simpl;
      rewrite Hg; simpl; unfold lift; by rewrite timespec_roundtrip
        by apply CDuration_timespec, os_mono_range]. done.
  - by eapply os_timer_gettime.
Qed.

Lemma local_clock_live t s id :
  os_timer id s →
  ∃ l s', local_clock (t, s) = Ret (l, (t, s')) ∧ local_now s = (l, s') ∧ ndt_plain l ∧
    Z.abs (ndt_ns l) ≤ CLOCK_RANGE ∧ os_mono s ≤ os_mono s' ∧ os_timer id s'.
Proof.
  intros Hid. destruct (os_local_now s) as (l&s'&Hl&Hp&Hle&_). exists l, s'. split_and!; try done.
  - unfold local_clock, on_os, zoom. simpl. by rewrite Hl.
  - by eapply os_local_live.
  - by eapply os_timer_local.
Qed.

Lemma settime_live id v s :
  os_timer id s → Duration_timespec v →
  ∃ x s', settime id AbsoluteTime None v s = Ret (Ok x, s') ∧ os_timer id s'.
Proof.
  intros Hid Hv. destruct (os_settime_live id v s Hid Hv) as (old&s'&Hset&Hi&Hval&Hid').
  eexists _, s'. split; [|done]. unfold settime, SettimeFlags_into_raw.
  erewrite bind_run by (simpl; by rewrite Hset). cbv beta iota. simpl.
  erewrite bind_run by (unfold lift; by rewrite timespec_to_duration_wf).
  by erewrite bind_run by (unfold lift; by rewrite timespec_to_duration_wf).
Qed.

(** The offsets of a timer whose clock reads at least [m]: the time spent in
    handlers so far is at most [m]. *)
Definition offsets_ok (m : Z) t : Prop :=
  0 ≤ m ∧ - m ≤ sim_offset t ≤ 0 ∧ - (2 * CLOCK_RANGE) - m ≤ app_offset t ≤ 2 * CLOCK_RANGE.

Lemma adjust_Some_live f now t s :
  offsets_ok f t → f ≤ now ≤ CLOCK_RANGE →
  ∃ t', adjust_offsets (Some f) now (t, s) = Ret (tt, (t', s)) ∧ offsets_ok now t' ∧
    same_but_offsets t t'.
Proof.
  intros (Hf&Hsim&Happ) Hnow. unfold adjust_offsets, offsets_ok.
  erewrite bind_run by (unfold lift; by rewrite Duration_sub_Ret by lia).
  destruct (cd_from_std_Some (now - f)) as (e&He&Hens).
  { unfold CLOCK_RANGE, CDuration_MAX, i64_max in *. lia. }
  erewrite bind_run by (unfold lift; by rewrite He).
  unfold adjust_application, adjust_simulation, AdjustedTime_adjust, field, update.
  unfold sim_offset, app_offset in *.
  destruct (cd_sub_Ret (at_offset (application_time t)) e) as (a'&Ha&Hans).
  { unfold CLOCK_RANGE, CDuration_MAX, i64_max in *. lia. }
  destruct (cd_sub_Ret (at_offset (simulation_time t)) e) as (c'&Hc&Hcns).
  { unfold CLOCK_RANGE, CDuration_MAX, i64_max in *. lia. }
  rewrite (bind_run _ _ tt _ (mk_process_timer (pt_time_offset t) (mk_adjusted a')
    (simulation_time t) (timer_id t) (pt_at_deadline t) (current_deadline t)
    (pt_prev_deadline t) (pt_next_deadline t) (prev_deadline_raw t) (next_deadline_raw t)
    (stopped t), s)).
  2: { erewrite bind_run by done. cbn [fst]. by erewrite bind_run
         by (unfold lift, mbind, outcome_bind; by rewrite Ha). }
  erewrite bind_run by done. cbn [fst simulation_time].
  erewrite bind_run by (unfold lift, mbind, outcome_bind; by rewrite Hc).
  eexists. split; [done|]. simpl. rewrite Hans, Hcns. split; [|done]. lia.
Qed.

Lemma adjust_None_live now t s id :
  os_timer id s → 0 ≤ now ≤ CLOCK_RANGE → ndt_plain (current_deadline t) →
  Z.abs (ndt_ns (current_deadline t)) ≤ CLOCK_RANGE →
  ∃ t' s', adjust_offsets None now (t, s) = Ret (tt, (t', s')) ∧ offsets_ok now t' ∧
    same_but_offsets t t' ∧ os_timer id s' ∧ os_mono s ≤ os_mono s'.
Proof.
  intros Hid Hnow Hp Hcd. unfold adjust_offsets, offsets_ok, field.
  erewrite bind_run by done. cbn [fst].
  destruct (local_clock_live t s id Hid) as (l&s'&Hl&_&Hpl&Hlr&Hle&Hid').
  erewrite bind_run by exact Hl.
  destruct (cd_from_std_Some now) as (c&Hc&Hcn).
  { unfold CLOCK_RANGE, CDuration_MAX, i64_max in *. lia. }
  destruct (cd_neg_Ret c) as (c'&Hc'&Hcn').
  { unfold CLOCK_RANGE, CDuration_MAX, i64_max in *. lia. }
  unfold adjust_application, adjust_simulation, AdjustedTime_adjust, field, update.
  rewrite (bind_run _ _ tt _ (mk_process_timer (pt_time_offset t)
    (mk_adjusted (ndt_signed_duration_since (current_deadline t) l))
    (simulation_time t) (timer_id t) (pt_at_deadline t) (current_deadline t)
    (pt_prev_deadline t) (pt_next_deadline t) (prev_deadline_raw t) (next_deadline_raw t)
    (stopped t), s')) by done.
  erewrite bind_run by done. cbn [fst simulation_time].
  erewrite bind_run by (unfold lift, mbind, outcome_bind; rewrite Hc; simpl; by rewrite Hc').
  eexists _, s'. split; [done|]. unfold sim_offset, app_offset. simpl.
  rewrite Hcn', Hcn, ndt_since_ns by done. split_and!; (done || lia).
Qed.

(** What the adjustment needs, at the start and after a freeze. *)
Definition can_thaw (fo : option Duration) t s : Prop :=
  match fo with
  | Some f => offsets_ok f t ∧ f ≤ os_mono s
  | None => ndt_plain (current_deadline t) ∧ Z.abs (ndt_ns (current_deadline t)) ≤ CLOCK_RANGE
  end.

Lemma adjust_live fo t s0 s :
  can_thaw fo t s0 → os_mono s0 ≤ os_mono s → os_timer (timer_id t) s →
  ∃ t' s', adjust_offsets fo (os_mono s) (t, s) = Ret (tt, (t', s')) ∧
    offsets_ok (os_mono s) t' ∧ same_but_offsets t t' ∧ os_timer (timer_id t) s' ∧
    os_mono s ≤ os_mono s'.
Proof.
  intros Hc Hle Hid. pose proof (os_mono_range s). pose proof (os_mono_live s).
  destruct fo as [f|]; simpl in Hc.
  - destruct Hc as [Hok Hf]. destruct (adjust_Some_live f (os_mono s) t s Hok) as (t'&?&?&?);
      [lia|]. by exists t', s.
  - destruct Hc as [Hp Hr].
    destruct (adjust_None_live (os_mono s) t s (timer_id t) Hid) as (t'&s'&?&?&?&?&?);
      [lia|done|done|]. by exists t', s'.
Qed.

Lemma offsets_ok_mono m m' t : offsets_ok m t → m ≤ m' → offsets_ok m' t.
Proof. unfold offsets_ok. lia. Qed.

Lemma thaw_live fo d t s :
  can_thaw fo t s → os_timer (timer_id t) s → 0 ≤ pt_next_deadline t ≤ d → d ≤ CDuration_MAX →
  ∃ t' s', thaw_time_to_deadline fo d (t, s) = Ret (Ok tt, (t', s')) ∧
    offsets_ok (os_mono s') t' ∧ pt_at_deadline t' = false ∧ os_timer (timer_id t') s'.
Proof.
  intros Hc Hid Hn Hd.
  assert (∃ t' s' m, thaw_time_to_deadline fo d (t, s) = Ret (Ok tt, (t', s')) ∧
    offsets_ok m t' ∧ m ≤ os_mono s' ∧ pt_at_deadline t' = false ∧ os_timer (timer_id t') s')
    as (t'&s'&m&?&?&?&?&?); [|exists t', s'; split_and!; [done|by eapply offsets_ok_mono|done..]].
  unfold thaw_time_to_deadline, set_deadlines, set_deadlines_raw, set_at_deadline, update, field.
  erewrite bind_run by done. cbn [fst]. erewrite bind_run by done.
  set (t1 := mk_process_timer _ _ _ _ _ _ _ d _ _ _).
  destruct (clock_now_live t1 s (timer_id t) Hid) as (s1&Hnow&Hle&Hid1).
  erewrite bind_run by exact Hnow. pose proof (os_mono_range s1).
  erewrite bind_run by (unfold lift; by rewrite Duration_sub_Ret by lia).
  erewrite bind_run by (unfold lift; rewrite Duration_add_Ret
    by (unfold Duration_MAX, CDuration_MAX, i64_max, NANOS_PER_SEC in *; lia); done).
  erewrite bind_run by done. cbn [fst]. erewrite bind_run by done.
  set (t2 := mk_process_timer _ _ _ _ _ _ _ _ _ _ _).
  destruct (adjust_live fo t2 s s1 Hc Hle Hid1) as (t3&s3&Hadj&Hok&Hsame&Hid3&Hle3).
  erewrite bind_run by exact Hadj. erewrite bind_run by done. erewrite bind_run by done.
  cbn [fst timer_id]. destruct Hsame as (_&Eid&_). rewrite Eid. change (timer_id t2) with (timer_id t) in *.
  destruct (settime_live (timer_id t) (os_mono s1 + (d - pt_next_deadline t)) s3 Hid3)
    as (x&s4&Hset&Hid4).
  { apply slice_timespec; lia. }
  destruct (settime_inv _ _ _ _ _ Hset) as [Hle4 _].
  erewrite try_run_Ok by (apply zoom_run; exact Hset).
  eexists _, _, (os_mono s1). split; [done|]. simpl. split_and!; (done || lia).
Qed.

Lemma application_now_live t s :
  offsets_ok (os_mono s) t → os_timer (timer_id t) s →
  ∃ d s', Process_application_now (t, s) = Ret (d, (t, s')) ∧ os_mono s ≤ os_mono s' ∧
    os_timer (timer_id t) s' ∧
    (pt_at_deadline t = false → ndt_plain d ∧ Z.abs (ndt_ns d) ≤ NDT_RANGE).
Proof.
  intros (?&_&Happ) Hid. unfold Process_application_now, AdjustedTime_get, field.
  erewrite bind_run by done. cbn [fst]. destruct (pt_at_deadline t); cbn [negb].
  { by eexists _, s. }
  erewrite bind_run by done. cbn [fst].
  destruct (local_clock_live t s (timer_id t) Hid) as (l&s1&Hl&_&Hp&Hr&Hle&Hid1).
  pose proof (os_mono_live s). erewrite bind_run by exact Hl.
  destruct (ndt_add_Ret l (at_offset (application_time t)) Hp) as (d&Hadd).
  { unfold app_offset, NDT_RANGE, CLOCK_RANGE in *. lia. }
  destruct (ndt_add_ns _ _ _ Hp Hadd) as [Hns Hpl].
  exists d, s1. unfold lift. rewrite Hadd. split_and!; [done..|]. intros _. split; [done|].
  rewrite Hns. unfold app_offset, NDT_RANGE, CLOCK_RANGE in *. lia.
Qed.

Lemma freeze_live t s :
  pt_at_deadline t = false → offsets_ok (os_mono s) t → os_timer (timer_id t) s →
  ∃ f t' s', freeze_time (t, s) = Ret (f, (t', s')) ∧ offsets_ok f t' ∧ f ≤ os_mono s' ∧
    os_timer (timer_id t') s'.
Proof.
  intros Hd Hok Hid. unfold freeze_time, set_current_deadline, set_at_deadline, update.
  destruct (clock_now_live t s (timer_id t) Hid) as (s1&Hnow&Hle&Hid1).
  erewrite bind_run by exact Hnow.
  apply (offsets_ok_mono _ (os_mono s1)) in Hok; [|done].
  destruct (application_now_live t s1 Hok Hid1) as (d&s2&Happ&Hle2&Hid2&_).
  erewrite bind_run by exact Happ. do 2 erewrite bind_run by done.
  eexists _, _, _. split; [done|]. by split_and!.
Qed.

Lemma simulation_now_live t s :
  pt_at_deadline t = false → offsets_ok (os_mono s) t → os_timer (timer_id t) s →
  ∃ d s', Process_simulation_now (t, s) = Ret (d, (t, s')) ∧ os_mono s ≤ os_mono s' ∧
    os_timer (timer_id t) s'.
Proof.
  intros Hd (?&Hsim&_) Hid. unfold Process_simulation_now, AdjustedTime_get, field.
  erewrite bind_run by done. cbn [fst]. rewrite Hd. cbn [negb].
  erewrite bind_run by done. cbn [fst].
  destruct (clock_now_live t s (timer_id t) Hid) as (s1&Hnow&Hle&Hid1).
  erewrite bind_run by exact Hnow. pose proof (os_mono_range s1).
  destruct (cd_from_std_Some (os_mono s1)) as (c&Hc&Hcn); [done|].
  erewrite bind_run by (unfold lift; by rewrite Hc). unfold sim_offset in *.
  destruct (cd_add_Ret c (at_offset (simulation_time t))) as (c'&Hc'&Hcn').
  { unfold CDuration_MAX, i64_max in *. lia. }
  erewrite bind_run by (unfold lift; by rewrite Hc').
  unfold lift. rewrite cd_to_std_Some by lia. by eexists _, s1.
Qed.

Context `{FB : FlatBuffers}.

#[export] Program Instance ProcessTimer_Progress : TimerProgress ProcessTimer := {
  tc_limit := CDuration_MAX;
  tc_created p := pt_next_deadline p.1 = 0 ∧ can_thaw None p.1 p.2 ∧ os_timer (timer_id p.1) p.2;
  tc_ready p := pt_at_deadline p.1 = false ∧ offsets_ok (os_mono p.2) p.1 ∧
    os_timer (timer_id p.1) p.2;
  tc_paused f p := offsets_ok f p.1 ∧ f ≤ os_mono p.2 ∧ os_timer (timer_id p.1) p.2;
}.
Next Obligation. split; by vm_compute. Qed.
Next Obligation. by intros p (?&_). Qed.
Next Obligation.
  intros [t s] d (Hn&Hc&Hid) Hd. simpl in *. unfold Process_start, set_stopped, update, field.
  erewrite bind_run by done. set (t1 := mk_process_timer _ _ _ _ _ _ _ _ _ _ _).
  destruct (thaw_live None d t1 s Hc Hid) as (t'&s'&Hrun&Hok&Hd'&Hid'); [simpl; lia|lia|].
  erewrite bind_run by exact Hrun. by eexists _, _.
Qed.
Next Obligation.
  intros [t s] (Hd&Hok&Hid). simpl in *.
  destruct (simulation_now_live t s Hd Hok Hid) as (d&s'&Hrun&Hle&Hid').
  eexists d, _. split; [exact Hrun|]. split_and!; [done|by eapply offsets_ok_mono|done].
Qed.
Next Obligation.
  intros [t s] (Hd&Hok&Hid). simpl in *.
  destruct (freeze_live t s Hd Hok Hid) as (f&t'&s'&Hrun&?&?&?). by exists f, (t', s').
Qed.
Next Obligation.
  intros [t s] f d (Hok&Hf&Hid) Hn Hd. simpl in *.
  destruct (thaw_live (Some f) d t s) as (t'&s'&Hrun&?&?&?); [done|done|done|done|].
  exists (t', s'). split; [|done]. by erewrite bind_run by exact Hrun.
Qed.
End live.
