(* ===== verification/PosixRef.v ===== *)
(** * PosixRef: a concrete operating system for the witnesses

    The constants of Linux on x86-64 and a clock that advances by a given
    amount before each reading; they instantiate [Libc], [Posix] and
    [PosixLaws]. *)
From S2P Require Import Prelude Std Chrono LibcTimer TimerProcess TimerProcessSpec.
From S2P Require Import TimerProcessLive.
From stdpp Require Import base option list numbers.
From Stdlib Require Import ZArith Lia.

Local Open Scope Z_scope.

#[export] Instance Libc_linux : Libc := {
  CLOCK_REALTIME := 0; CLOCK_REALTIME_COARSE := 5; CLOCK_MONOTONIC := 1;
  CLOCK_MONOTONIC_COARSE := 6; CLOCK_MONOTONIC_RAW := 4; CLOCK_PROCESS_CPUTIME_ID := 2;
  CLOCK_THREAD_CPUTIME_ID := 3; CLOCK_BOOTTIME := 7; CLOCK_REALTIME_ALARM := 8;
  CLOCK_BOOTTIME_ALARM := 9; TIMER_ABSTIME := 1;
  EINVAL := 22; EALREADY := 114; ENOMEM := 12; EPROTO := 71; EMSGSIZE := 90; EIO := 5;
  EAGAIN := 11;
}.

(** [ro_steps] are the nanoseconds that pass before the next readings. *)
Record ref_os := mk_ref_os {
  ro_now : Z;
  ro_steps : list Z;
  ro_alarm : option Duration;
}.

Definition ref_mono (s : ref_os) : Duration := Z.max 0 (Z.min (2 ^ 69) (ro_now s)).

Definition ref_advance (s : ref_os) : ref_os :=
  match ro_steps s with
  | [] => s
  | d :: l => mk_ref_os (ro_now s + Z.max 0 d) l (ro_alarm s)
  end.

Definition timespec_ns (ts : timespec) : Duration := ts_sec ts * NANOS_PER_SEC + ts_nsec ts.

#[export] Instance Posix_ref : Posix ref_os := {
  os_clock_gettime _ _ s :=
    let s' := ref_advance s in ((0, duration_to_timespec (ref_mono s')), s');
  SigevNotify := unit;
  SigevNone := tt;
  sigevent := unit;
  SigEvent_sigevent _ := tt;
  os_timer_create _ _ _ s := ((0, 7), s);
  os_timer_delete _ s := (0, s);
  os_timer_settime _ _ v s :=
    ((0, mk_itimerspec timespec_zero timespec_zero),
     mk_ref_os (ro_now s) (ro_steps s) (Some (timespec_ns (it_value v))));
  os_errno _ := 0;
}.

(** The local clock starts one hour after the epoch. *)
#[export] Instance LocalClock_ref : LocalClock ref_os := λ s,
  let s' := ref_advance s in (ref_mono s' + 3600 * NANOS_PER_SEC, s').

Lemma ref_advance_mono s : ref_mono s ≤ ref_mono (ref_advance s).
Proof. unfold ref_mono, ref_advance. destruct (ro_steps s); simpl; lia. Qed.

Lemma ref_advance_alarm s : ro_alarm (ref_advance s) = ro_alarm s.
Proof. unfold ref_advance. by destruct (ro_steps s). Qed.

#[export] Program Instance PosixLaws_ref : PosixLaws ref_os := {
  os_mono := ref_mono;
  os_alarm := ro_alarm;
}.
Next Obligation. intros s. unfold ref_mono, CDuration_MAX, i64_max. lia. Qed.
Next Obligation.
  intros s. eexists. split; [done|]. split; [apply ref_advance_mono|apply ref_advance_alarm].
Qed.
Next Obligation.
  intros s. eexists _, _. split; [done|]. split_and!; [done|apply ref_advance_mono|].
  apply ref_advance_alarm.
Qed.
Next Obligation.
  intros id v s. eexists _, _, _. split; [done|]. split; [done|]. intros _ Hv. simpl. f_equal.
  destruct (duration_to_timespec_wf v Hv) as [_ Heq]. unfold timespec_ns. rewrite Heq. simpl.
  rewrite (Z.div_mod v NANOS_PER_SEC) at 3 by done. lia.
Qed.

(** Every timer is valid. *)
#[export] Program Instance PosixLive_ref : PosixLive ref_os := {
  os_timer _ _ := True;
}.
Next Obligation. intros s. simpl. unfold ref_mono, CLOCK_RANGE. lia. Qed.
Next Obligation.
  intros s t s' [= <- <-]. simpl. unfold ref_mono, CLOCK_RANGE, NANOS_PER_SEC. lia.
Qed.
Next Obligation. done. Qed.
Next Obligation. done. Qed.
Next Obligation. intros id v s _ _. eexists _, _. split; [done|]. by vm_compute. Qed.
