(* ===== verification/TimerQemu.v ===== *)
(** * TimerQemu: the timer of an emulated machine

    [tansiv-client/src/timer/qemu/mod.rs].  Simulation time is the virtual
    clock of QEMU minus its value at the start; QEMU stops that clock while
    the handler runs, so nothing has to be frozen.  QEMU's clock and timers
    are the class [Qemu].  [q_refs] counts the strong references to the shared
    timer: [start] leaks one to QEMU and [stop] takes it back. *)
From S2P Require Import Prelude Std Wire FbBuffer Connector Chrono Timer.
From stdpp Require Import base option list numbers.
From Stdlib Require Import ZArith Lia.

Local Open Scope Z_scope.

(** [qemu_clock_get_ns(QEMU_CLOCK_VIRTUAL)], [timer_init_full], [timer_mod],
    [timer_del] and [timer_deinit] *)
Class Qemu (S : Type) := {
  qemu_clock_get_ns : S → Z * S;
  qemu_timer_init_full : S → S;
  qemu_timer_mod : Z → S → S;
  qemu_timer_del : S → S;
  qemu_timer_deinit : S → S;
}.

Record QemuTimerContext `{Chrono} := mk_qemu_timer {
  q_offset : CDuration;
  q_prev_deadline : Duration;
  q_next_deadline : Duration;
  q_refs : nat;
}.
Arguments mk_qemu_timer {_} _ _ _ _.

Section qemu_timer.
Context {S : Type} `{CH : Chrono, QM : !Qemu S}.

Definition QemuTimer : Type := QemuTimerContext * S.

Definition on_qemu {A} (f : S → A * S) : M QemuTimer A :=
  zoom snd (λ s '(t, _), (t, s)) (λ s, Ret (f s)).
Definition on_qemu_ (f : S → S) : M QemuTimer unit := modify (λ '(t, s), (t, f s)).
Definition qfield {A} (f : QemuTimerContext → A) : M QemuTimer A := gets (λ t, f t.1).
Definition qupdate (f : QemuTimerContext → QemuTimerContext) : M QemuTimer unit :=
  modify (λ '(t, s), (f t, s)).

Definition QemuTimerContext_new : QemuTimerContext := mk_qemu_timer cd_zero 0 0 1.

Definition Qemu_set_next_deadline (deadline : Duration) : M QemuTimer unit :=
  next_deadline_val ← qfield q_next_deadline;
  _ ← qupdate (λ t, mk_qemu_timer (q_offset t) next_deadline_val deadline (q_refs t));
  offset ← qfield q_offset;
  offset ← lift (unwrap (cd_to_std offset));
  timer_deadline ← lift (Duration_add offset deadline);
  on_qemu_ (qemu_timer_mod (as_i64 (as_nanos timer_deadline))).

Definition Qemu_start (deadline : Duration) : M QemuTimer (result CDuration io_error) :=
  _ ← qupdate (λ t, mk_qemu_timer (q_offset t) (q_prev_deadline t) (q_next_deadline t)
                      (q_refs t + 1)%nat);
  _ ← on_qemu_ qemu_timer_init_full;
  vm_time ← on_qemu qemu_clock_get_ns;
  let vm_time := cd_nanoseconds vm_time in
  _ ← qupdate (λ t, mk_qemu_timer vm_time (q_prev_deadline t) (q_next_deadline t) (q_refs t));
  _ ← Qemu_set_next_deadline deadline;
  mret (Ok vm_time).

Definition Qemu_stop : M QemuTimer unit :=
  _ ← on_qemu_ (λ s, qemu_timer_deinit (qemu_timer_del s));
  qupdate (λ t, mk_qemu_timer (q_offset t) (q_prev_deadline t) (q_next_deadline t)
                  (q_refs t - 1)%nat).

(** [unimplemented!()] *)
Definition Qemu_application_now : M QemuTimer NaiveDateTime := panic NotImplemented.

Definition Qemu_simulation_now : M QemuTimer Duration :=
  vm_time ← on_qemu qemu_clock_get_ns;
  offset ← qfield q_offset;
  d ← lift (cd_sub (cd_nanoseconds vm_time) offset);
  lift (unwrap (cd_to_std d)).

Definition Qemu_simulation_previous_deadline : M QemuTimer Duration := qfield q_prev_deadline.
Definition Qemu_simulation_next_deadline : M QemuTimer Duration := qfield q_next_deadline.

Definition Qemu_check_deadline_overrun `{FlatBuffers} (_send_time : Duration)
    (_upcoming_messages : list SendPacketBuilder) : M QemuTimer (option Duration) :=
  mret None.
End qemu_timer.

(** What the timer relies on: [qemu_ns] is the virtual clock, which does not go
    back, and [qemu_expiry] the time the timer is armed for. *)
Class QemuLaws (S : Type) `{QM : !Qemu S} := {
  qemu_ns : S → Z;
  qemu_expiry : S → option Z;
  qemu_ns_range s : 0 ≤ qemu_ns s ≤ i64_max;
  qemu_clock s : ∃ s', qemu_clock_get_ns s = (qemu_ns s', s') ∧
    qemu_ns s ≤ qemu_ns s' ∧ qemu_expiry s' = qemu_expiry s;
  qemu_init_ns s : qemu_ns s ≤ qemu_ns (qemu_timer_init_full s);
  qemu_mod_expiry v s : qemu_expiry (qemu_timer_mod v s) = Some v;
  qemu_mod_ns v s : qemu_ns s ≤ qemu_ns (qemu_timer_mod v s);
}.

Section qemu_spec.
Context {S : Type} `{CL : ChronoLaws, QL : QemuLaws S}.
Implicit Types (t : QemuTimerContext) (s : S).

Lemma qemu_clock_inv t s v t' s' :
  on_qemu qemu_clock_get_ns (t, s) = Ret (v, (t', s')) →
  t' = t ∧ v = qemu_ns s' ∧ qemu_ns s ≤ qemu_ns s' ∧ qemu_expiry s' = qemu_expiry s.
Proof.
  destruct (qemu_clock s) as (s1&Hc&?&?). unfold on_qemu, zoom. simpl. rewrite Hc.
  intros. by simplify_eq.
Qed.

Lemma Qemu_simulation_now_inv t s d t' s' :
  Qemu_simulation_now (t, s) = Ret (d, (t', s')) →
  t' = t ∧ d = qemu_ns s' - cd_ns (q_offset t) ∧ 0 ≤ d ≤ CDuration_MAX ∧
  qemu_ns s ≤ qemu_ns s' ∧ qemu_expiry s' = qemu_expiry s.
Proof.
  unfold Qemu_simulation_now. intros Hrun.
  apply bind_inv in Hrun as (v&[t1 s1]&Hc&Hrun).
  destruct (qemu_clock_inv _ _ _ _ _ Hc) as (->&->&?&?).
  apply bind_inv in Hrun as (o&p&[-> ->]%gets_inv&Hrun). cbn [fst] in Hrun.
  apply bind_inv in Hrun as (c&p&[Hd%cd_sub_ns ->]%lift_inv&Hrun).
  apply lift_inv in Hrun as [Hr Heq]. simplify_eq.
  destruct (cd_to_std c) as [d'|] eqn:Ht; [|done]. injection Hr as ->.
  apply cd_to_std_inv in Ht as [-> ?]. pose proof (qemu_ns_range s1).
  rewrite cd_nanoseconds_ns in Hd by (unfold in_i64, i64_max in *; lia). by split_and!; try lia.
Qed.

(** The timer is armed for the deadline, in virtual time, whenever that is
    representable. *)
Lemma Qemu_set_next_deadline_inv d t s u t' s' :
  Qemu_set_next_deadline d (t, s) = Ret (u, (t', s')) →
  t' = mk_qemu_timer (q_offset t) (q_next_deadline t) d (q_refs t) ∧
  qemu_ns s ≤ qemu_ns s' ∧
  (0 ≤ cd_ns (q_offset t) + d ≤ i64_max → qemu_expiry s' = Some (cd_ns (q_offset t) + d)).
Proof.
  unfold Qemu_set_next_deadline, qupdate, on_qemu_. intros Hrun.
  apply bind_inv in Hrun as (n&p&[-> ->]%gets_inv&Hrun). cbn [fst] in Hrun.
  apply bind_inv in Hrun as (u1&p&->%modify_inv&Hrun).
  apply bind_inv in Hrun as (o&p&[-> ->]%gets_inv&Hrun). cbn [fst q_offset] in Hrun.
  apply bind_inv in Hrun as (o&p&[Ho ->]%lift_inv&Hrun).
  apply bind_inv in Hrun as (td&p&[Htd ->]%lift_inv&Hrun). apply modify_inv in Hrun.
  destruct (cd_to_std (q_offset t)) as [o'|] eqn:Ht; [|done]. injection Ho as ->.
  apply cd_to_std_inv in Ht as [-> _]. simplify_eq.
  unfold Duration_add in Htd. destruct (_ <=? _) in Htd; [|done]. injection Htd as <-.
  split_and!; [done|apply qemu_mod_ns|]. intros Hr. rewrite qemu_mod_expiry. unfold as_nanos.
  rewrite as_i64_id; [done|]. unfold in_i64, i64_max in *. lia.
Qed.

Lemma Qemu_set_next_deadline_run d t s :
  0 ≤ cd_ns (q_offset t) → 0 ≤ d → cd_ns (q_offset t) + d ≤ i64_max →
  ∃ s', Qemu_set_next_deadline d (t, s) =
      Ret (tt, (mk_qemu_timer (q_offset t) (q_next_deadline t) d (q_refs t), s')) ∧
    qemu_expiry s' = Some (cd_ns (q_offset t) + d).
Proof.
  intros Ho Hd Hmax. unfold Qemu_set_next_deadline, qfield, qupdate, on_qemu_.
  do 3 (erewrite bind_run by done; cbn [fst q_offset]).
  erewrite bind_run by (unfold lift; rewrite cd_to_std_Some
    by (unfold CDuration_MAX, i64_max in *; lia); done).
  erewrite bind_run by (unfold lift; rewrite Duration_add_Ret
    by (unfold Duration_MAX, NANOS_PER_SEC, i64_max in *; lia); done).
  eexists. split; [done|]. rewrite qemu_mod_expiry. unfold as_nanos.
  rewrite as_i64_id; [done|]. unfold in_i64. lia.
Qed.

(** It returns for every deadline that a [Duration] of virtual time can hold. *)
Lemma Qemu_set_next_deadline_returns d t s :
  0 ≤ cd_ns (q_offset t) ≤ i64_max → 0 ≤ d ≤ Duration_MAX - i64_max →
  ∃ t' s', Qemu_set_next_deadline d (t, s) = Ret (tt, (t', s')) ∧ q_offset t' = q_offset t ∧
    qemu_ns s ≤ qemu_ns s'.
Proof.
  intros Ho Hd. unfold Qemu_set_next_deadline, qfield, qupdate, on_qemu_.
  do 3 (erewrite bind_run by done; cbn [fst q_offset]).
  erewrite bind_run by (unfold lift; rewrite cd_to_std_Some
    by (unfold CDuration_MAX, i64_max in *; lia); done).
  erewrite bind_run by (unfold lift; rewrite Duration_add_Ret by lia; done).
  eexists _, _. split; [done|]. split; [done|]. apply qemu_mod_ns.
Qed.

(** ** The interface of the context *)
Context `{FB : FlatBuffers}.

#[export] Instance QemuTimer_Timer : Timer QemuTimer := {
  tc_simulation_now := Qemu_simulation_now;
  tc_application_now := Qemu_application_now;
  tc_simulation_previous_deadline := Qemu_simulation_previous_deadline;
  tc_simulation_next_deadline := Qemu_simulation_next_deadline;
  tc_check_deadline_overrun := Qemu_check_deadline_overrun;
  tc_start := Qemu_start;
  tc_stop := (λ _, Qemu_stop);
}.

#[export] Instance QemuTimer_Handler : TimerHandler QemuTimer := {
  tc_frozen := unit;
  tc_freeze := mret tt;
  tc_resume _ d := Qemu_set_next_deadline d;
}.

#[export] Program Instance QemuTimer_Laws : TimerLaws QemuTimer := {
  tc_prev p := q_prev_deadline p.1;
  tc_next p := q_next_deadline p.1;
  tc_handling _ := True;
}.
Next Obligation. done. Qed.
Next Obligation. done. Qed.
Next Obligation.
  intros [t s] d [t' s'] Hrun. simpl.
  destruct (Qemu_simulation_now_inv _ _ _ _ _ Hrun) as (->&_&?&_). split_and!; [|done..].
  unfold Duration_wf, Duration_MAX, CDuration_MAX, i64_max, NANOS_PER_SEC in *. lia.
Qed.
Next Obligation. intros [t s] d q. by exists None. Qed.

#[export] Instance QemuTimer_OverrunNever : OverrunNever QemuTimer.
Proof. done. Qed.

#[export] Instance QemuTimer_HandlerLaws : TimerHandlerLaws QemuTimer.
Proof.
  split.
  - intros p f p' Hrun. simpl in Hrun. by run_inv.
  - intros [t s] f d [t' s'] Hrun. simpl in *.
    by destruct (Qemu_set_next_deadline_inv _ _ _ _ _ _ Hrun) as (->&_).
Qed.

(** [start] sets the origin of simulation time and arms the timer. *)
Lemma Qemu_start_inv d t s r p :
  0 ≤ d → Qemu_start d (t, s) = Ret (r, p) →
  ∃ s0, r = Ok (q_offset p.1) ∧ cd_ns (q_offset p.1) = qemu_ns s0 ∧ qemu_ns s ≤ qemu_ns s0 ∧
    qemu_ns s0 ≤ qemu_ns p.2 ∧ q_prev_deadline p.1 = q_next_deadline t ∧
    q_next_deadline p.1 = d ∧ q_refs p.1 = (q_refs t + 1)%nat ∧
    (qemu_ns s0 + d ≤ i64_max → qemu_expiry p.2 = Some (qemu_ns s0 + d)).
Proof.
  unfold Qemu_start, qupdate, on_qemu_. intros Hd Hrun.
  apply bind_inv in Hrun as (u&q&->%modify_inv&Hrun).
  apply bind_inv in Hrun as (u1&q&->%modify_inv&Hrun).
  apply bind_inv in Hrun as (v&[t1 s1]&Hc&Hrun).
  destruct (qemu_clock_inv _ _ _ _ _ Hc) as (->&->&?&?).
  apply bind_inv in Hrun as (u2&q&->%modify_inv&Hrun).
  apply bind_inv in Hrun as (u3&[t2 s2]&Hset&Hrun). apply ret_inv in Hrun as [-> ->].
  destruct (Qemu_set_next_deadline_inv _ _ _ _ _ _ Hset) as (->&?&Hexp). simpl in *.
  pose proof (qemu_ns_range s1). pose proof (qemu_init_ns s).
  rewrite cd_nanoseconds_ns in * by (unfold in_i64, i64_max in *; lia).
  exists s1. split_and!; try done; [lia|]. intros. apply Hexp. lia.
Qed.

#[export] Instance QemuTimer_StartLaws : TimerStartLaws QemuTimer.
Proof.
  intros [t s] d o p Hn Hd Hrun. simpl in *. destruct Hd.
  destruct (Qemu_start_inv d t s _ p ltac:(lia) Hrun) as (s0&_&_&_&_&Ep&En&_).
  unfold tc_inv. simpl. rewrite Ep, En, Hn. split_and!; (done || lia).
Qed.

(** The origin of simulation time stays at or before the virtual clock. *)
#[export] Program Instance QemuTimer_Progress : TimerProgress QemuTimer := {
  tc_limit := Duration_MAX - i64_max;
  tc_created p := q_next_deadline p.1 = 0;
  tc_ready p := 0 ≤ cd_ns (q_offset p.1) ≤ qemu_ns p.2;
  tc_paused _ p := 0 ≤ cd_ns (q_offset p.1) ≤ qemu_ns p.2;
}.
Next Obligation. split; [by vm_compute|]. unfold i64_max. lia. Qed.
Next Obligation. done. Qed.
Next Obligation.
  intros [t s] d _ Hd. simpl in *. unfold Qemu_start, qupdate, on_qemu_, on_qemu.
  destruct (qemu_clock (qemu_timer_init_full s)) as (s1&Hc&_).
  do 2 erewrite bind_run by done.
  erewrite bind_run by (apply zoom_run; simpl; by rewrite Hc).
  cbv beta zeta. erewrite bind_run by done. pose proof (qemu_ns_range s1) as Hr.
  destruct (Qemu_set_next_deadline_returns d (mk_qemu_timer (cd_nanoseconds (qemu_ns s1))
    (q_prev_deadline t) (q_next_deadline t) (q_refs t + 1)) s1) as (t'&s'&Hrun&Ho&Hs'); simpl.
  { rewrite cd_nanoseconds_ns by (unfold in_i64, i64_max in *; lia). done. }
  { done. }
  erewrite bind_run by exact Hrun. eexists _, _. split; [done|]. simpl in *.
  rewrite Ho. rewrite cd_nanoseconds_ns by (unfold in_i64, i64_max in *; lia). lia.
Qed.
Next Obligation.
  intros [t s] [Ho Hle]. simpl in *. unfold Qemu_simulation_now, on_qemu.
  destruct (qemu_clock s) as (s1&Hc&Hs1&_). pose proof (qemu_ns_range s1).
  erewrite bind_run by (apply zoom_run; simpl; by rewrite Hc).
  erewrite bind_run by done. cbn [fst].
  destruct (cd_sub_Ret (cd_nanoseconds (qemu_ns s1)) (q_offset t)) as (c&Hsub&Hns).
  { rewrite cd_nanoseconds_ns by (unfold in_i64, i64_max in *; lia).
    unfold CDuration_MAX, i64_max in *. lia. }
  rewrite cd_nanoseconds_ns in Hns by (unfold in_i64, i64_max in *; lia).
  erewrite bind_run by (unfold lift; by rewrite Hsub).
  unfold lift. rewrite cd_to_std_Some by (unfold CDuration_MAX, i64_max in *; lia).
  eexists _, _. split; [done|]. simpl. lia.
Qed.
Next Obligation. intros p Hp. by eexists _, _. Qed.
Next Obligation.
  intros [t s] f d Hp Hn Hd. simpl in *.
  destruct (Qemu_set_next_deadline_returns d t s) as (t'&s'&Hrun&Ho&Hs');
    [pose proof (qemu_ns_range s); lia|lia|].
  eexists. split; [exact Hrun|]. simpl. rewrite Ho. lia.
Qed.
End qemu_spec.
