(* ===== verification/TimerKvm.v ===== *)
(** * TimerKvm: the timer of a hardware-assisted machine

    [tansiv-client/src/timer/qemukvm/mod.rs].  Simulation time is computed
    from the time-stamp counter of the guest with [f64] arithmetic, modelled
    with the binary64 operations of [SpecFloat].  The kernel module and the
    counter are the class [Kvm].  [k_refs] counts the strong references to the shared timer. *)
From S2P Require Import Prelude Std Wire FbBuffer Connector Chrono Timer.
From stdpp Require Import base option list numbers.
From Stdlib Require Import ZArith Lia SpecFloat Ascii String.

Local Open Scope Z_scope.

(** ** Arithmetic on [f64] *)
Definition f64 : Type := spec_float.
Definition f64_of_int (z : Z) : f64 := binary_normalize 53 1024 z 0 false.
Definition f64_mul : f64 → f64 → f64 := SFmul 53 1024.
Definition f64_div : f64 → f64 → f64 := SFdiv 53 1024.

(** [f as u64]: towards zero, saturating, and 0 for a NaN. *)
Definition f64_as_u64 (f : f64) : Z :=
  match f with
  | S754_zero _ | S754_nan | S754_infinity true | S754_finite true _ _ => 0
  | S754_infinity false => u64_max
  | S754_finite false m e => Z.min u64_max (Z.shiftl (Zpos m) e)
  end.

(** ** [str::trim] and [str::parse::<i64>], on ASCII text *)
Definition is_space (c : ascii) : bool :=
  let n := nat_of_ascii c in (n =? 32)%nat || ((9 <=? n) && (n <=? 13))%nat.

Fixpoint trim_start (l : list ascii) : list ascii :=
  match l with
  | [] => []
  | c :: l' => if is_space c then trim_start l' else l
  end.
Definition trim (l : list ascii) : list ascii := reverse (trim_start (reverse (trim_start l))).

Definition digit (c : ascii) : option Z :=
  let n := Z.of_nat (nat_of_ascii c) in
  if (48 <=? n) && (n <=? 57) then Some (n - 48) else None.

Fixpoint parse_digits (acc : Z) (l : list ascii) : option Z :=
  match l with
  | [] => Some acc
  | c :: l => d ← digit c; parse_digits (10 * acc + d) l
  end.

Definition parse_i64 (l : list ascii) : option Z :=
  let '(sign, ds) :=
    match l with
    | c :: l' => if ascii_dec c "-" then (-1, l') else if ascii_dec c "+" then (1, l') else (1, l)
    | [] => (1, [])
    end in
  match ds with
  | [] => None
  | _ => z ← parse_digits 0 ds;
         if (- 2 ^ 63 <=? sign * z) && (sign * z <=? i64_max) then Some (sign * z) else None
  end.

(** ** The kernel module and the counter *)
Class Kvm (S : Type) := {
  kvm_rdtsc : S → Z * S;
  kvm_tsc_offset : S → Z;
  kvm_ioctl_register_deadline : Z → Z → Z → S → Z * S;
  kvm_ioctl_init_check : Z → S → bool * S;
  kvm_open_device : S → Z * S;
  kvm_close_device : Z → S → S;
  kvm_read_tsc_khz : S → option string;
}.

Record KvmTimerContext := mk_kvm_timer {
  k_prev_deadline : Duration;
  k_next_deadline : Duration;
  k_guest_tsc : Z;
  k_vmx_timer_value : Z;
  k_tsc_freq : f64;
  k_fd : Z;
  k_refs : nat;
}.

Section kvm_timer.
Context {S : Type} `{CH : Chrono, KV : !Kvm S, PR : Profile}.

Definition KvmTimer : Type := KvmTimerContext * S.

Definition on_kvm {A} (f : S → A * S) : M KvmTimer A :=
  zoom snd (λ s '(t, _), (t, s)) (λ s, Ret (f s)).
Definition kfield {A} (f : KvmTimerContext → A) : M KvmTimer A := gets (λ t, f t.1).
Definition kupdate (f : KvmTimerContext → KvmTimerContext) : M KvmTimer unit :=
  modify (λ '(t, s), (f t, s)).

Definition KvmTimerContext_new : S → KvmTimerContext * S := λ s,
  let '(fd, s) := kvm_open_device s in (mk_kvm_timer 0 0 0 0 (f64_of_int 0) fd 1, s).

Definition Kvm_set_next_deadline (deadline : Duration) : M KvmTimer unit :=
  next_deadline_val ← kfield k_next_deadline;
  d ← lift (Duration_sub deadline next_deadline_val);
  let timer_deadline := as_u64 (as_nanos d) in
  _ ← kupdate (λ t, mk_kvm_timer next_deadline_val deadline (k_guest_tsc t)
                      (k_vmx_timer_value t) (k_tsc_freq t) (k_fd t) (k_refs t));
  tsc_freq ← kfield k_tsc_freq;
  let timer_deadline_tsc := f64_mul (f64_of_int timer_deadline) tsc_freq in
  fd ← kfield k_fd;
  vmx_timer_value ← on_kvm (kvm_ioctl_register_deadline fd timer_deadline
                              (f64_as_u64 timer_deadline_tsc));
  kupdate (λ t, mk_kvm_timer (k_prev_deadline t) (k_next_deadline t) (k_guest_tsc t)
                  vmx_timer_value (k_tsc_freq t) (k_fd t) (k_refs t)).

(** The frequency in GHz, 1 when sysfs does not give it. *)
Definition read_tsc_freq : M KvmTimer f64 :=
  khz ← gets (λ t, kvm_read_tsc_khz t.2);
  mret match khz ≫= λ s, parse_i64 (trim (list_ascii_of_string s)) with
       | Some tsc_khz_int => f64_div (f64_of_int tsc_khz_int) (f64_of_int 1000000)
       | None => f64_of_int 1
       end.

Definition Kvm_start (deadline : Duration) : M KvmTimer (result CDuration io_error) :=
  fd ← kfield k_fd;
  init_done ← on_kvm (kvm_ioctl_init_check fd);
  _ ← (if negb init_done then panic ExplicitPanic else mret tt);
  tsc_freq ← read_tsc_freq;
  _ ← kupdate (λ t, mk_kvm_timer (k_prev_deadline t) (k_next_deadline t) (k_guest_tsc t)
                      (k_vmx_timer_value t) tsc_freq (k_fd t) (k_refs t));
  _ ← Kvm_set_next_deadline deadline;
  mret (Ok cd_zero).

(** [Arc::from_raw] takes a reference to the timer, which is dropped. *)
Definition Kvm_stop : M KvmTimer unit :=
  fd ← kfield k_fd;
  _ ← modify (λ '(t, s), (t, kvm_close_device fd s));
  kupdate (λ t, mk_kvm_timer (k_prev_deadline t) (k_next_deadline t) (k_guest_tsc t)
                  (k_vmx_timer_value t) (k_tsc_freq t) (k_fd t) (k_refs t - 1)%nat).

(** [unimplemented!()] *)
Definition Kvm_application_now : M KvmTimer NaiveDateTime := panic NotImplemented.

Definition Kvm_simulation_now : M KvmTimer Duration :=
  now ← on_kvm kvm_rdtsc;
  tsc_offset ← gets (λ t, kvm_tsc_offset t.2);
  now_guest ← lift (add_u64 now tsc_offset);
  let now_guest := f64_of_int now_guest in
  vmx ← kfield k_vmx_timer_value;
  let next_deadline_guest := f64_of_int vmx in
  next_deadline ← kfield k_next_deadline;
  let next_deadline := as_u64 (as_nanos next_deadline) in
  tsc_freq ← kfield k_tsc_freq;
  offset ← lift (sub_u64
                   (f64_as_u64 (f64_div next_deadline_guest tsc_freq)) next_deadline);
  vm_time ← lift (sub_u64
                    (f64_as_u64 (f64_div now_guest tsc_freq)) offset);
  mret (match cd_to_std (cd_nanoseconds (as_i64 vm_time)) with
        | None => 0
        | Some val => val
        end).

Definition Kvm_simulation_previous_deadline : M KvmTimer Duration := kfield k_prev_deadline.
Definition Kvm_simulation_next_deadline : M KvmTimer Duration := kfield k_next_deadline.

Definition Kvm_check_deadline_overrun `{FlatBuffers} (send_time : Duration)
    (upcoming_messages : list SendPacketBuilder) : M KvmTimer (option Duration) :=
  next ← Kvm_simulation_next_deadline;
  if next <? send_time then
    match list.last upcoming_messages with
    | Some last_msg =>
        if send_time <? spb_send_time last_msg then mret (Some (spb_send_time last_msg))
        else mret (Some send_time)
    | None => mret (Some send_time)
    end
  else mret None.

(** [get_tansiv_timer_fd] *)
Definition get_tansiv_timer_fd : M KvmTimer Z := kfield k_fd.
End kvm_timer.

Lemma f64_as_u64_range f : in_u64 (f64_as_u64 f).
Proof.
  unfold f64_as_u64, in_u64, u64_max. destruct f as [|[]| |[] m e]; simpl; try lia.
  assert (0 ≤ Z.shiftl (Zpos m) e) by (apply Z.shiftl_nonneg; lia). lia.
Qed.

Lemma as_i64_range z : in_i64 (as_i64 z).
Proof.
  unfold in_i64, as_i64, i64_max.
  pose proof (Z.mod_pos_bound (z + 2 ^ 63) (2 ^ 64) ltac:(lia)). lia.
Qed.

(** Two wrapping subtractions and the cast amount to one signed value. *)
Lemma wrapped_time a b n :
  as_i64 (as_u64 (a - as_u64 (b - as_u64 n))) = as_i64 (n + (a - b)).
Proof.
  unfold as_i64, as_u64. rewrite Zplus_mod_idemp_l.
  replace (a - (b - n mod 2 ^ 64) mod 2 ^ 64 + 2 ^ 63)
    with (a + 2 ^ 63 - (b - n mod 2 ^ 64) mod 2 ^ 64) by lia.
  rewrite Zminus_mod_idemp_r.
  replace (a + 2 ^ 63 - (b - n mod 2 ^ 64)) with (n mod 2 ^ 64 + (a - b + 2 ^ 63)) by lia.
  rewrite Zplus_mod_idemp_l. do 2 f_equal. lia.
Qed.

Lemma nanoseconds_to_std `{ChronoLaws} z :
  in_i64 z →
  match cd_to_std (cd_nanoseconds z) with None => 0 | Some val => val end = Z.max 0 z.
Proof.
  intros Hz. pose proof (cd_nanoseconds_ns z Hz) as Hns. unfold in_i64 in Hz.
  destruct (Z.le_gt_cases 0 z).
  - rewrite cd_to_std_Some; [lia|]. unfold CDuration_MAX, i64_max in *. lia.
  - rewrite cd_to_std_None by lia. lia.
Qed.

Section kvm_spec.
Context {S : Type} `{CL : ChronoLaws, KV : !Kvm S, PR : Profile}.
Implicit Types (t : KvmTimerContext) (s : S).

(** Nanoseconds of a counter value of the guest. *)
Definition kvm_ns t (tsc : Z) : Z := f64_as_u64 (f64_div (f64_of_int tsc) (k_tsc_freq t)).

(** The distance from the deadline, in the scale of the guest, gives the
    simulation time; a negative time reads as 0. *)
Definition kvm_time t (tsc : Z) : Z :=
  as_i64 (k_next_deadline t + (kvm_ns t tsc - kvm_ns t (k_vmx_timer_value t))).

Lemma Kvm_simulation_now_inv t s d t' s' :
  Kvm_simulation_now (t, s) = Ret (d, (t', s')) →
  ∃ now, kvm_rdtsc s = (now, s') ∧ t' = t ∧
    d = Z.max 0 (kvm_time t (as_u64 (now + kvm_tsc_offset s'))) ∧ 0 ≤ d ≤ i64_max.
Proof.
  unfold Kvm_simulation_now, on_kvm. intros Hrun.
  apply bind_inv in Hrun as (now&[t1 s1]&Hc&Hrun).
  apply zoom_inv in Hc as (s2&Hc&Heq). simplify_eq/=.
  apply bind_inv in Hrun as (o&p&[-> ->]%gets_inv&Hrun). cbn [snd] in Hrun.
  apply bind_inv in Hrun as (g&p&[->%add_u64_inv ->]%lift_inv&Hrun).
  apply bind_inv in Hrun as (v&p&[-> ->]%gets_inv&Hrun). cbn [fst] in Hrun.
  apply bind_inv in Hrun as (n&p&[-> ->]%gets_inv&Hrun). cbn [fst] in Hrun.
  apply bind_inv in Hrun as (f&p&[-> ->]%gets_inv&Hrun). cbn [fst] in Hrun.
  apply bind_inv in Hrun as (o&p&[->%sub_u64_inv ->]%lift_inv&Hrun).
  apply bind_inv in Hrun as (vm&p&[->%sub_u64_inv ->]%lift_inv&Hrun).
  apply ret_inv in Hrun as [-> Heq]. simplify_eq.
  unfold as_nanos. rewrite wrapped_time, nanoseconds_to_std by apply as_i64_range.
  fold (kvm_ns t (as_u64 (now + kvm_tsc_offset s2))). fold (kvm_ns t (k_vmx_timer_value t)).
  exists now. split_and!; [done..|lia|].
  pose proof (as_i64_range (k_next_deadline t + (kvm_ns t (as_u64 (now + kvm_tsc_offset s2)) -
    kvm_ns t (k_vmx_timer_value t)))) as Hr. unfold in_i64, i64_max in *. lia.
Qed.

(** The deadline handler keeps the deadlines in order. *)
Lemma Kvm_set_next_deadline_inv d t s u t' s' :
  Kvm_set_next_deadline d (t, s) = Ret (u, (t', s')) →
  k_next_deadline t ≤ d ∧ k_prev_deadline t' = k_next_deadline t ∧
  k_next_deadline t' = d ∧ k_tsc_freq t' = k_tsc_freq t ∧ k_fd t' = k_fd t ∧
  ∃ v, t' = mk_kvm_timer (k_next_deadline t) d (k_guest_tsc t) v (k_tsc_freq t) (k_fd t)
         (k_refs t) ∧
    kvm_ioctl_register_deadline (k_fd t) (as_u64 (d - k_next_deadline t))
      (f64_as_u64 (f64_mul (f64_of_int (as_u64 (d - k_next_deadline t))) (k_tsc_freq t))) s =
      (v, s').
Proof.
  unfold Kvm_set_next_deadline, kupdate, on_kvm. intros Hrun.
  apply bind_inv in Hrun as (n&p&[-> ->]%gets_inv&Hrun). cbn [fst] in Hrun.
  apply bind_inv in Hrun as (sl&p&[Hsl ->]%lift_inv&Hrun).
  apply bind_inv in Hrun as (u1&p&->%modify_inv&Hrun).
  apply bind_inv in Hrun as (f&p&[-> ->]%gets_inv&Hrun). cbn [fst] in Hrun.
  apply bind_inv in Hrun as (fd&p&[-> ->]%gets_inv&Hrun). cbn [fst] in Hrun.
  apply bind_inv in Hrun as (v&p&Hv&Hm%modify_inv).
  apply zoom_inv in Hv as (s1&Hv&->). simplify_eq/=.
  unfold Duration_sub in Hsl. destruct (Z.leb_spec (k_next_deadline t) d); [|done].
  injection Hsl as <-. split_and!; [done..|]. by exists v.
Qed.

(** A deadline that goes back panics before it changes anything. *)
Lemma Kvm_set_next_deadline_run d t s :
  if k_next_deadline t <=? d then
    ∃ v s', Kvm_set_next_deadline d (t, s) =
      Ret (tt, (mk_kvm_timer (k_next_deadline t) d (k_guest_tsc t) v (k_tsc_freq t) (k_fd t)
                  (k_refs t), s'))
  else Kvm_set_next_deadline d (t, s) = Panic DurationOverflow.
Proof.
  unfold Kvm_set_next_deadline, kfield, kupdate, on_kvm.
  destruct (Z.leb_spec (k_next_deadline t) d).
  - erewrite bind_run by done. cbn [fst].
    erewrite bind_run by (unfold lift; rewrite Duration_sub_Ret by done; done).
    do 3 (erewrite bind_run by done; cbn [fst k_tsc_freq k_fd]).
    destruct (kvm_ioctl_register_deadline (k_fd t) (as_u64 (as_nanos (d - k_next_deadline t)))
      (f64_as_u64 (f64_mul (f64_of_int (as_u64 (as_nanos (d - k_next_deadline t))))
        (k_tsc_freq t))) s) as [v s'] eqn:Hv.
    exists v, s'. erewrite bind_run by (apply zoom_run; simpl; by rewrite Hv). done.
  - erewrite bind_run by done. cbn [fst]. unfold mbind, M_bind, lift.
    by rewrite Duration_sub_Panic.
Qed.

(** [start], when the kernel module is ready. *)
Lemma Kvm_start_run d t s s1 :
  kvm_ioctl_init_check (k_fd t) s = (true, s1) → k_next_deadline t ≤ d →
  ∃ t' s', Kvm_start d (t, s) = Ret (Ok cd_zero, (t', s')) ∧
    k_prev_deadline t' = k_next_deadline t ∧ k_next_deadline t' = d ∧ k_refs t' = k_refs t.
Proof.
  intros Hi Hd. unfold Kvm_start, kfield, kupdate, on_kvm.
  erewrite bind_run by done. cbn [fst].
  erewrite bind_run by (apply zoom_run; simpl; by rewrite Hi). cbn [negb].
  do 3 (erewrite bind_run by done; cbn [fst snd]).
  match goal with
  | |- context [(?t0, s1)] =>
      pose proof (Kvm_set_next_deadline_run d t0 s1) as Hset; cbn [k_next_deadline] in Hset
  end.
  rewrite (proj2 (Z.leb_le _ _)) in Hset by done. destruct Hset as (v&s'&Hset).
  erewrite bind_run by exact Hset. eexists _, _. split; [done|]. by simpl.
Qed.

(** ** The interface of the context *)
Context `{FB : FlatBuffers}.

#[export] Instance KvmTimer_Timer : Timer KvmTimer := {
  tc_simulation_now := Kvm_simulation_now;
  tc_application_now := Kvm_application_now;
  tc_simulation_previous_deadline := Kvm_simulation_previous_deadline;
  tc_simulation_next_deadline := Kvm_simulation_next_deadline;
  tc_check_deadline_overrun := Kvm_check_deadline_overrun;
  tc_start := Kvm_start;
  tc_stop := (λ _, Kvm_stop);
}.

#[export] Instance KvmTimer_Handler : TimerHandler KvmTimer := {
  tc_frozen := unit;
  tc_freeze := mret tt;
  tc_resume _ d := Kvm_set_next_deadline d;
}.

(** The branches of [check_deadline_overrun]. *)
Lemma Kvm_check_deadline_overrun_run d q t s :
  Kvm_check_deadline_overrun d q (t, s) =
    Ret (if k_next_deadline t <? d then
           Some (Z.max d (from_option spb_send_time d (list.last q)))
         else None, (t, s)).
Proof.
  unfold Kvm_check_deadline_overrun, Kvm_simulation_next_deadline.
  erewrite bind_run by done. cbn [fst]. destruct (_ <? d); [|done].
  destruct (list.last q) as [m|]; simpl; [|by rewrite Z.max_id].
  destruct (Z.ltb_spec d (spb_send_time m)); simpl; unfold mret, M_ret; do 3 f_equal; lia.
Qed.

#[export] Program Instance KvmTimer_Laws : TimerLaws KvmTimer := {
  tc_prev p := k_prev_deadline p.1;
  tc_next p := k_next_deadline p.1;
  tc_handling _ := True;
}.
Next Obligation. done. Qed.
Next Obligation. done. Qed.
Next Obligation.
  intros [t s] d [t' s'] Hrun. simpl.
  destruct (Kvm_simulation_now_inv _ _ _ _ _ Hrun) as (now&_&->&_&?). split_and!; [|done..].
  unfold Duration_wf, Duration_MAX, i64_max, NANOS_PER_SEC in *. lia.
Qed.
Next Obligation.
  intros [t s] d q. simpl. rewrite Kvm_check_deadline_overrun_run.
  eexists. split; [done|]. destruct (Z.ltb_spec (k_next_deadline t) d); [|done].
  split_and!; [lia|lia| |].
  - intros Hd Hq. destruct (list.last q) as [m|] eqn:Hl; simpl; [|by rewrite Z.max_id].
    apply last_Some in Hl as [q' ->]. apply Forall_app in Hq as [_ Hq].
    inversion_clear Hq as [|?? Hm _]. unfold Duration_wf in *. lia.
  - intros m ->. simpl. lia.
Qed.

#[export] Instance KvmTimer_OverrunChecked : OverrunChecked KvmTimer.
Proof.
  intros [t s] d q p. simpl. rewrite Kvm_check_deadline_overrun_run.
  destruct (Z.ltb_spec (k_next_deadline t) d); [done|]. done.
Qed.

#[export] Instance KvmTimer_HandlerLaws : TimerHandlerLaws KvmTimer.
Proof.
  split.
  - intros p f p' Hrun. simpl in Hrun. by run_inv.
  - intros [t s] f d [t' s'] Hrun. simpl in *.
    by destruct (Kvm_set_next_deadline_inv _ _ _ _ _ _ Hrun) as (?&->&->&_).
Qed.

#[export] Instance KvmTimer_StartLaws : TimerStartLaws KvmTimer.
Proof.
  intros [t s] d o [t' s'] Hn Hd Hrun. simpl in *. unfold Kvm_start, read_tsc_freq, kupdate in Hrun.
  apply bind_inv in Hrun as (fd&q&[-> ->]%gets_inv&Hrun).
  apply bind_inv in Hrun as (b&q&Hk&Hrun). unfold on_kvm in Hk. apply zoom_inv in Hk as (s1&_&->).
  apply bind_inv in Hrun as (u&q&Hb&Hrun). destruct b; [|done]. apply ret_inv in Hb as [_ ->].
  apply bind_inv in Hrun as (fr&q&Hf&Hrun).
  apply bind_inv in Hf as (khz&q'&[-> ->]%gets_inv&[-> ->]%ret_inv).
  apply bind_inv in Hrun as (u1&q&->%modify_inv&Hrun).
  apply bind_inv in Hrun as (u2&[t2 s2]&Hset&Hrun). apply ret_inv in Hrun as [_ Heq]. simplify_eq.
  destruct (Kvm_set_next_deadline_inv _ _ _ _ _ _ Hset) as (?&Ep&En&_). simpl in *.
  unfold tc_inv. simpl. rewrite Ep, En, Hn. destruct Hd. split_and!; (done || lia).
Qed.
End kvm_spec.
