(* ===== verification/Context.v ===== *)
(** * Context: the client library's state and its operations

    [tansiv-client/src/lib.rs].  [Context] is shared by application code,
    which sends and receives packets, and by the deadline handler, which talks
    to the coordinator between two time slices.  The callbacks the application
    registered are recorded in [callbacks], newest last; mutexes are never
    contended within one operation and leave no trace. *)
From S2P Require Import Prelude Std BufferPool BytesBuffer Wire FbBuffer Connector.
From S2P Require Import OutputMsgSet WaitfreeArrayQueue Chrono Error Timer.
From stdpp Require Import base option list numbers.
From Stdlib Require Import ZArith Lia.

(** Calls of [recv_callback] and [deadline_callback]. *)
Inductive callback :=
  | RecvCallback
  | DeadlineCallback (deadline : Duration).

Inductive AfterDeadline :=
  | NextDeadline (deadline : Duration)
  | EndSimulation.

(** [libc::timeval] *)
Record timeval := mk_timeval { tv_sec : Z; tv_usec : Z }.

Record Context (T : Type) (Q : Type → Type) `{FlatBuffers} := mk_context {
  address : Z;
  connector : UnixConnector;
  input_queue : WaitfreeArrayQueue Q DeliverPacket;
  timer_context : T;
  output_buffer_pool : FbPool;
  outgoing_messages : OutputMsgSet SendPacketBuilder;
  upcoming_messages : list SendPacketBuilder;
  start_once : bool;
  callbacks : list callback;
}.
Arguments mk_context {_ _ _} _ _ _ _ _ _ _ _ _.
Arguments address {_ _ _} _.
Arguments connector {_ _ _} _.
Arguments input_queue {_ _ _} _.
Arguments timer_context {_ _ _} _.
Arguments output_buffer_pool {_ _ _} _.
Arguments outgoing_messages {_ _ _} _.
Arguments upcoming_messages {_ _ _} _.
Arguments start_once {_ _ _} _.
Arguments callbacks {_ _ _} _.

Section context.
Context {T : Type} {Q : Type → Type} `{FB : FlatBuffers, CH : Chrono}
  `{TM : !Timer T, AQ : !ArrayQueue Q}.

Abbreviation Ctx := (Context T Q).

(** Field updates. *)
Definition set_connector (v : UnixConnector) (c : Ctx) : Ctx :=
  mk_context (address c) v (input_queue c) (timer_context c) (output_buffer_pool c)
    (outgoing_messages c) (upcoming_messages c) (start_once c) (callbacks c).
Definition set_input_queue (v : WaitfreeArrayQueue Q DeliverPacket) (c : Ctx) : Ctx :=
  mk_context (address c) (connector c) v (timer_context c) (output_buffer_pool c)
    (outgoing_messages c) (upcoming_messages c) (start_once c) (callbacks c).
Definition set_timer_context (v : T) (c : Ctx) : Ctx :=
  mk_context (address c) (connector c) (input_queue c) v (output_buffer_pool c)
    (outgoing_messages c) (upcoming_messages c) (start_once c) (callbacks c).
Definition set_output_buffer_pool (v : FbPool) (c : Ctx) : Ctx :=
  mk_context (address c) (connector c) (input_queue c) (timer_context c) v
    (outgoing_messages c) (upcoming_messages c) (start_once c) (callbacks c).
Definition set_outgoing_messages (v : OutputMsgSet SendPacketBuilder) (c : Ctx) : Ctx :=
  mk_context (address c) (connector c) (input_queue c) (timer_context c)
    (output_buffer_pool c) v (upcoming_messages c) (start_once c) (callbacks c).
Definition set_upcoming_messages (v : list SendPacketBuilder) (c : Ctx) : Ctx :=
  mk_context (address c) (connector c) (input_queue c) (timer_context c)
    (output_buffer_pool c) (outgoing_messages c) v (start_once c) (callbacks c).
Definition set_start_once (v : bool) (c : Ctx) : Ctx :=
  mk_context (address c) (connector c) (input_queue c) (timer_context c)
    (output_buffer_pool c) (outgoing_messages c) (upcoming_messages c) v (callbacks c).
Definition add_callback (v : callback) (c : Ctx) : Ctx :=
  mk_context (address c) (connector c) (input_queue c) (timer_context c)
    (output_buffer_pool c) (outgoing_messages c) (upcoming_messages c) (start_once c)
    (callbacks c ++ [v]).

(** Calls on the fields. *)
Definition on_timer {A} : M T A → M Ctx A := zoom timer_context set_timer_context.
Definition on_output_pool {A} : M FbPool A → M Ctx A :=
  zoom output_buffer_pool set_output_buffer_pool.
Definition on_outgoing {A} : M (OutputMsgSet SendPacketBuilder) A → M Ctx A :=
  zoom outgoing_messages set_outgoing_messages.
Definition on_queue {A} : M (WaitfreeArrayQueue Q DeliverPacket) A → M Ctx A :=
  zoom input_queue set_input_queue.
Definition on_input_pool {A} : M BytesPool A → M Ctx A :=
  zoom (λ c, input_buffer_pool (connector c))
    (λ p c, set_connector (mk_connector (actor (connector c)) p
                             (scratch_builder (connector c))) c).
Definition connector_recv : M Ctx (result MsgIn io_error) :=
  zoom connector set_connector UnixConnector_recv.
Definition connector_send (msg : MsgOut) : M Ctx (result unit io_error) :=
  zoom (λ c, (connector c, output_buffer_pool c))
    (λ '(k, p) c, set_output_buffer_pool p (set_connector k c)) (UnixConnector_send msg).
Definition call (v : callback) : M Ctx unit := modify (add_callback v).

(** [Context::new]: [connect], [timer] and [register] are the outcomes of
    [UnixStream::connect], [TimerContext::new] and [timer::register]. *)
Definition Context_new (cfg_address : Z) (num_buffers : nat)
    (connect : result UnixStream io_error) (timer : result T io_error)
    (register : result unit io_error) : outcome (result Ctx Error) :=
  k ← UnixConnector_new connect num_buffers;
  match k with
  | Err e => Ret (Err (from e))
  | Ok connector =>
      input_queue ← WaitfreeArrayQueue_new num_buffers;
      match timer with
      | Err e => Ret (Err (from e))
      | Ok timer_context =>
          output_buffer_pool ← BufferPool_new (T := FbBuffer) MAX_PACKET_SIZE num_buffers;
          let outgoing_messages := OutputMsgSet_new num_buffers in
          let context := mk_context cfg_address connector input_queue timer_context
                           output_buffer_pool outgoing_messages [] false [] in
          match register with
          | Err e => Ret (Err (from e))
          | Ok _ => Ret (Ok context)
          end
      end
  end.

(** [Context::start]: [call_once] runs the closure the first time only. *)
Definition Context_start : M Ctx (result CDuration Error) :=
  started ← gets start_once;
  if started : bool then mret (Err AlreadyStarted)
  else
    _ ← modify (set_start_once true);
    msg ←? connector_recv;
    match msg with
    | MsgIn_GoToDeadline deadline =>
        _ ← call (DeadlineCallback deadline);
        offset ←? on_timer (tc_start deadline);
        mret (Ok offset)
    | MsgIn_DeliverPacket d =>
        _ ← on_input_pool (Buffer_drop (deliver_inner d));
        mret (Err ProtocolViolation)
    | MsgIn_EndSimulation => mret (Err ProtocolViolation)
    end.

Definition Context_stop (fuel : nat) : M Ctx unit := on_timer (tc_stop fuel).

(** Dropping a packet that was not sent. *)
Definition drop_builder (m : SendPacketBuilder) : M Ctx unit :=
  on_output_pool (Buffer_drop (spb_payload m)).

(** The first loop of [at_deadline], from slot [index] of the drain on.
    [Some] is an early return. *)
Fixpoint send_outgoing (fuel : nat) (previous_deadline current_deadline : Duration)
    (index : nat) : M Ctx (option AfterDeadline) :=
  match fuel with
  | O => out_of_fuel
  | S fuel =>
      item ← on_outgoing (OutputMsgDrain_next index);
      match item with
      | None => mret None
      | Some (send_packet_builder, index) =>
          let send_time := spb_send_time send_packet_builder in
          if negb (send_time <? previous_deadline)%Z && (current_deadline <? send_time)%Z then
            _ ← drop_builder send_packet_builder; mret (Some EndSimulation)
          else
            let send_time :=
              if (send_time <? previous_deadline)%Z then previous_deadline else send_time in
            pkt ← on_output_pool (SendPacketBuilder_finish send_packet_builder send_time);
            r ← connector_send (MsgOut_SendPacket pkt);
            match r with
            | Err _ => mret (Some EndSimulation)
            | Ok _ => send_outgoing fuel previous_deadline current_deadline index
            end
      end
  end.

(** The second loop: messages stamped beyond a past deadline. *)
Fixpoint send_upcoming (fuel : nat) (current_deadline : Duration) :
    M Ctx (option AfterDeadline) :=
  match fuel with
  | O => out_of_fuel
  | S fuel =>
      q ← gets upcoming_messages;
      match q with
      | [] => mret None
      | message :: rest =>
          if (spb_send_time message <=? current_deadline)%Z then
            _ ← modify (set_upcoming_messages rest);
            let send_time := spb_send_time message in
            pkt ← on_output_pool (SendPacketBuilder_finish message send_time);
            r ← connector_send (MsgOut_SendPacket pkt);
            match r with
            | Err _ => mret (Some EndSimulation)
            | Ok _ => send_upcoming fuel current_deadline
            end
          else mret None
      end
  end.

Definition handle_actor_msg (msg : MsgIn) : M Ctx (option AfterDeadline) :=
  match msg with
  | MsgIn_DeliverPacket d =>
      _ ← on_input_pool (DeliverPacket_src d);
      _ ← on_input_pool (DeliverPacket_payload d);
      r ← on_queue (WaitfreeArrayQueue_push d);
      match r with
      | Err (NoSlotAvailable_for d) =>
          _ ← on_input_pool (Buffer_drop (deliver_inner d)); mret None
      | Ok _ => mret None
      end
  | MsgIn_GoToDeadline deadline => mret (Some (NextDeadline deadline))
  | MsgIn_EndSimulation => mret (Some EndSimulation)
  end.

(** The receive loop of [at_deadline]. *)
Fixpoint recv_loop (fuel : nat) : M Ctx AfterDeadline :=
  match fuel with
  | O => out_of_fuel
  | S fuel =>
      msg ← connector_recv;
      match msg with
      | Ok msg =>
          o ← handle_actor_msg msg;
          match o with
          | Some after_deadline => mret after_deadline
          | None => recv_loop fuel
          end
      | Err _ => mret EndSimulation
      end
  end.

(** The end of [at_deadline]: the callbacks of the application. *)
Definition notify_application (may_notify : bool) (after_deadline : AfterDeadline) :
    M Ctx AfterDeadline :=
  empty ← gets (λ c, WaitfreeArrayQueue_is_empty (input_queue c));
  _ ← (if may_notify && negb empty then call RecvCallback else mret tt);
  _ ← (match after_deadline with
       | NextDeadline deadline => call (DeadlineCallback deadline)
       | EndSimulation => mret tt
       end);
  mret after_deadline.

(** The part of [at_deadline] after the packets: notify the coordinator and
    wait for the next slice. *)
Definition notify_and_receive : M Ctx AfterDeadline :=
  r ← connector_send MsgOut_AtDeadline;
  match r with
  | Err _ => mret EndSimulation
  | Ok _ =>
      may_notify ← gets (λ c, WaitfreeArrayQueue_is_empty (input_queue c));
      fuel ← gets (λ c, S (length (rx (actor (connector c)))));
      after_deadline ← recv_loop fuel;
      notify_application may_notify after_deadline
  end.

(** The part before: the packets of the slice.  [Some] is an early return. *)
Definition send_messages : M Ctx (option AfterDeadline) :=
  previous_deadline ← on_timer tc_simulation_previous_deadline;
  current_deadline ← on_timer tc_simulation_next_deadline;
  fuel ← gets (λ c, S (length (slots (outgoing_messages c))));
  o ← send_outgoing fuel previous_deadline current_deadline 0;
  match o with
  | Some after_deadline => mret (Some after_deadline)
  | None =>
      fuel ← gets (λ c, S (length (upcoming_messages c)));
      send_upcoming fuel current_deadline
  end.

Definition at_deadline : M Ctx AfterDeadline :=
  o ← send_messages;
  match o with
  | Some after_deadline => mret after_deadline
  | None => notify_and_receive
  end.

Definition gettimeofday : M Ctx timeval :=
  adjusted_time ← on_timer tc_application_now;
  mret (mk_timeval (as_i64 (ndt_timestamp adjusted_time))
          (as_i64 (ndt_timestamp_subsec_micros adjusted_time))).

(** [Context::send] once the send time is recorded, in its three parts: the
    deadline handler and other threads can run between any two of them. *)
Definition send_allocate (msg : bytes) : M Ctx (result (Buffer FbBuffer) pool_error) :=
  on_output_pool (allocate_buffer (Z.of_nat (length msg))).

Definition send_check (send_time : Duration) : M Ctx (option Duration) :=
  q ← gets upcoming_messages;
  on_timer (tc_check_deadline_overrun send_time q).

Definition send_queue (send_time : Duration) (dst : Z) (msg : bytes) (buffer : Buffer FbBuffer)
    (o : option Duration) : M Ctx (result unit Error) :=
  src ← gets address;
  match o with
  | Some send_time_overrun =>
      m ←? on_output_pool (SendPacketBuilder_new src dst send_time_overrun msg buffer);
      _ ← modify (λ c, set_upcoming_messages (upcoming_messages c ++ [m]) c);
      mret (Ok tt)
  | None =>
      m ←? on_output_pool (SendPacketBuilder_new src dst send_time msg buffer);
      r ← on_outgoing (OutputMsgSet_insert m);
      match r with
      | Ok _ => mret (Ok tt)
      | Err e => _ ← drop_builder m; mret (Err (from e))
      end
  end.

Definition send_at (send_time : Duration) (dst : Z) (msg : bytes) : M Ctx (result unit Error) :=
  buffer ←? send_allocate msg;
  o ← send_check send_time;
  send_queue send_time dst msg buffer o.

Definition Context_send (dst : Z) (msg : bytes) : M Ctx (result unit Error) :=
  send_time ← on_timer tc_simulation_now;
  send_at send_time dst msg.

(** [Context::recv] into a buffer whose content is [msg]; the second
    component is the content of that buffer afterwards.  [recv_read] is its
    part after the packet left the queue. *)
Definition recv_read (msg_in : DeliverPacket) (msg : bytes) :
    M Ctx (result (Z * Z * bytes) Error * bytes) :=
  payload ← on_input_pool (DeliverPacket_payload msg_in);
  if length payload <=? length msg then
    src ← on_input_pool (DeliverPacket_src msg_in);
    dst ← on_input_pool (DeliverPacket_dst msg_in);
    _ ← on_input_pool (Buffer_drop (deliver_inner msg_in));
    mret (Ok (src, dst, payload), payload ++ drop (length payload) msg)
  else
    _ ← on_input_pool (Buffer_drop (deliver_inner msg_in));
    mret (Err SizeTooBig, msg).

Definition Context_recv (msg : bytes) : M Ctx (result (Z * Z * bytes) Error * bytes) :=
  o ← on_queue WaitfreeArrayQueue_pop;
  match o with
  | Some msg_in => recv_read msg_in msg
  | None => mret (Err NoMessageAvailable, msg)
  end.

Definition Context_poll : M Ctx (option unit) :=
  empty ← gets (λ c, WaitfreeArrayQueue_is_empty (input_queue c));
  mret (if empty : bool then None else Some tt).
End context.
