(* ===== verification/ContextSpec.v ===== *)
(** * ContextSpec: what the operations of a context do

    [repr c out up inn] relates a context to what it stands for: the messages
    [out] that wait in the set, in slot order, the messages [up] stamped beyond
    a deadline, and the packets [inn] received and not read yet.  Every
    operation is specified on that abstract state, on all its branches.
    [repr_with F G] is the same while calls are under way: the output buffers
    [F] are held by sends that have not queued their message yet, the input
    buffers [G] by receives that have not read their packet yet. *)
From S2P Require Import Prelude Std BufferPool BytesBuffer Wire FbBuffer Connector.
From S2P Require Import ConnectorSpec OutputMsgSet WaitfreeArrayQueue Chrono Error Timer.
From S2P Require Import Context.
From stdpp Require Import base option list numbers.
From Stdlib Require Import ZArith Lia.

(** A message the application gave to [send]. *)
Record pending := mk_pending {
  pd_time : Duration;
  pd_dst : Z;
  pd_payload : bytes;
}.

(** A packet the application has not read yet. *)
Record packet := mk_packet { pk_src : Z; pk_dst : Z; pk_payload : bytes }.

Section repr.
Context {T : Type} {Q : Type → Type} `{FL : FlatBuffersLaws, CH : Chrono}
  `{TM : !Timer T, AQ : ArrayQueueLaws Q}.

(** The message on the wire, with the time it is given at the deadline. *)
Definition out_view_of (addr : Z) (t : Duration) (m : pending) : out_view :=
  WSend t addr (pd_dst m) (pd_payload m).

(** [m] is the pending message [pd]. *)
Definition msg_at (p : FbPool) (addr : Z) (m : SendPacketBuilder) (pd : pending) : Prop :=
  builder_at p m (pd_payload pd) ∧ spb_src m = addr ∧ spb_dst m = pd_dst pd ∧
  spb_send_time m = pd_time pd ∧ out_view_wf (out_view_of addr (pd_time pd) pd).

Definition delivered_at (p : BytesPool) (d : DeliverPacket) (k : packet) : Prop :=
  packet_at p (deliver_inner d) (pk_src k) (pk_dst k) (pk_payload k).

(** The output side: each pending message owns a buffer, and so do the sends
    under way; no buffer is owned otherwise. *)
Definition out_repr (F : list (Buffer FbBuffer)) (addr : Z) (p : FbPool)
    (s : OutputMsgSet SendPacketBuilder) (q : list SendPacketBuilder)
    (out up : list pending) : Prop :=
  pool_inv p (F ++ (spb_payload <$> set_msgs s ++ q)) ∧ set_wf s ∧
  length (slots s) = length (buffer_busy p) ∧ buffer_size p = MAX_PACKET_SIZE ∧
  Forall2 (msg_at p addr) (set_msgs s) out ∧ Forall2 (msg_at p addr) q up.

(** The input side: each queued packet owns a buffer. *)
Definition in_repr (G : list (Buffer BytesBuffer)) (p : BytesPool)
    (q : WaitfreeArrayQueue Q DeliverPacket) (inn : list packet) : Prop :=
  pool_inv p (G ++ (deliver_inner <$> wq_elems q)) ∧
  wq_cap q = length (buffer_busy p) ∧ buffer_size p = MAX_PACKET_SIZE ∧
  Forall2 (delivered_at p) (wq_elems q) inn.

Definition repr_with (F : list (Buffer FbBuffer)) (G : list (Buffer BytesBuffer))
    (c : Context T Q) (out up : list pending) (inn : list packet) : Prop :=
  in_u32 (address c) ∧
  out_repr F (address c) (output_buffer_pool c) (outgoing_messages c)
    (upcoming_messages c) out up ∧
  in_repr G (input_buffer_pool (connector c)) (input_queue c) inn.

(** The number of output and of input buffers. *)
Definition out_cap (c : Context T Q) : nat := length (buffer_busy (output_buffer_pool c)).
Definition in_cap (c : Context T Q) : nat :=
  length (buffer_busy (input_buffer_pool (connector c))).

Lemma msgs_at_same L p p' addr ms l :
  same_contents L p p' → (∀ m, m ∈ ms → spb_payload m ∈ L) →
  Forall2 (msg_at p addr) ms l → Forall2 (msg_at p' addr) ms l.
Proof.
  intros Hs HL HF. induction HF as [|m pd ms l (?&?) HF IH]; constructor.
  - split; [|done]. eapply builder_at_same; [done| |done]. apply HL. left.
  - apply IH. intros. apply HL. by right.
Qed.

Lemma delivered_at_same L p p' ds l :
  same_contents L p p' → (∀ d, d ∈ ds → deliver_inner d ∈ L) →
  Forall2 (delivered_at p) ds l → Forall2 (delivered_at p') ds l.
Proof.
  intros Hs HL HF. induction HF as [|d k ds l ? HF IH]; constructor.
  - eapply packet_at_same; [done| |done]. apply HL. left.
  - apply IH. intros. apply HL. by right.
Qed.

Lemma out_repr_length F addr p s q out up :
  out_repr F addr p s q out up →
  length (F ++ (spb_payload <$> set_msgs s ++ q)) = length F + (length out + length up).
Proof.
  intros (_&_&_&_&Ho%Forall2_length&Hu%Forall2_length).
  rewrite length_app, length_fmap, length_app. lia.
Qed.

(** The messages of the output side keep their contents with those of the
    buffers that are live. *)
Lemma out_msgs_same F s q p p' addr out up :
  same_contents (F ++ (spb_payload <$> set_msgs s ++ q)) p p' →
  Forall2 (msg_at p addr) (set_msgs s) out → Forall2 (msg_at p addr) q up →
  Forall2 (msg_at p' addr) (set_msgs s) out ∧ Forall2 (msg_at p' addr) q up.
Proof.
  intros Hs Ho Hu. split; (eapply msgs_at_same; [exact Hs| |done]); intros m Hm;
    apply elem_of_app; right; apply list_elem_of_fmap_2, elem_of_app; tauto.
Qed.

(** What a call holds is of no concern to the others, in whatever order. *)
Lemma repr_with_perm F F' G G' c out up inn :
  F ≡ₚ F' → G ≡ₚ G' → repr_with F G c out up inn → repr_with F' G' c out up inn.
Proof.
  intros HF HG (Ha&(Hp&Hout)&Hi&Hin). split; [done|split; (split; [|done])].
  - eapply pool_inv_perm; [|exact Hp]. by rewrite HF.
  - eapply pool_inv_perm; [|exact Hi]. by rewrite HG.
Qed.

(** The buffers of the calls under way have the contents they had. *)
Definition keeps (F : list (Buffer FbBuffer)) (G : list (Buffer BytesBuffer))
    (c c' : Context T Q) : Prop :=
  same_contents F (output_buffer_pool c) (output_buffer_pool c') ∧
  same_contents G (input_buffer_pool (connector c)) (input_buffer_pool (connector c')).

#[export] Instance keeps_refl F G : Reflexive (keeps F G).
Proof. by split. Qed.
#[export] Instance keeps_trans F G : Transitive (keeps F G).
Proof. intros a b c [] []. split; by eapply same_contents_trans. Qed.

(** A builder that was just allocated. *)
Definition fresh_at (p : FbPool) (b : Buffer FbBuffer) : Prop :=
  ∃ f, ib_get (inner b) p (index b) = Ret f ∧ fbb_fresh f.
End repr.
Abbreviation repr := (repr_with [] []).

(** What an operation of the application leaves as it was. *)
Definition same_but_output {T Q} `{FlatBuffers} (c c' : Context T Q) : Prop :=
  address c' = address c ∧ connector c' = connector c ∧ input_queue c' = input_queue c ∧
  timer_context c' = timer_context c ∧ start_once c' = start_once c ∧
  callbacks c' = callbacks c.

Section send.
Context {T : Type} {Q : Type → Type} `{FL : FlatBuffersLaws, CH : Chrono}
  `{TM : !Timer T, TL : !TimerLaws T, AQ : ArrayQueueLaws Q}.
Implicit Types (c : Context T Q) (out up : list pending) (inn : list packet).

(** Taking a buffer, on every branch. *)
Lemma send_allocate_spec F G c out up inn msg :
  repr_with F G c out up inn →
  if MAX_PACKET_SIZE <? length msg then
    send_allocate msg c = Ret (Err BufferPool.SizeTooBig, c)
  else if length F + (length out + length up) =? out_cap c then
    send_allocate msg c = Ret (Err NoBufferAvailable, c)
  else ∃ b c', send_allocate msg c = Ret (Ok b, c') ∧ same_but_output c c' ∧
    out_cap c' = out_cap c ∧ upcoming_messages c' = upcoming_messages c ∧
    outgoing_messages c' = outgoing_messages c ∧ keeps F G c c' ∧
    repr_with (b :: F) G c' out up inn ∧ fresh_at (output_buffer_pool c') b.
Proof.
  intros (Ha&Hout&Hin). pose proof (out_repr_length _ _ _ _ _ _ _ Hout) as HL.
  destruct (Hout) as (Hp&Hwf&Hcap&Hbs&Ho&Hu). unfold send_allocate, on_output_pool, out_cap.
  destruct (allocate_buffer_cases (T := FbBuffer) (Z.of_nat (length msg)) _ _ Hp) as
    [[Hbig Hal]|[(Hsz&Hfull&Hal)|(Hsz&Hfree&i&p1&f&Hal&Hp1&Hs1&?&Hlen&Hg&_&Hf)]].
  - rewrite (proj2 (Nat.ltb_lt _ _)) by lia. erewrite zoom_run by exact Hal. by destruct c.
  - rewrite (proj2 (Nat.ltb_ge _ _)) by lia. rewrite (proj2 (Nat.eqb_eq _ _)) by lia.
    erewrite zoom_run by exact Hal. by destruct c.
  - rewrite (proj2 (Nat.ltb_ge _ _)) by lia. rewrite (proj2 (Nat.eqb_neq _ _)) by lia.
    erewrite zoom_run by exact Hal. eexists _, _. split; [done|].
    destruct (out_msgs_same _ _ _ _ _ _ _ _ Hs1 Ho Hu) as [Ho1 Hu1].
    split_and!; try done.
    + split; [|done]. by apply same_contents_app in Hs1 as [? _].
    + split; [done|split; [|done]]. split_and!; try done; simpl; congruence.
    + by exists f.
Qed.

(** Building the message in its buffer and queueing it: this cannot fail. *)
Lemma send_queue_spec F G b c out up inn t dst msg o :
  repr_with (b :: F) G c out up inn → fresh_at (output_buffer_pool c) b →
  in_u32 dst → Duration_wf (default t o) → length msg ≤ MAX_PACKET_SIZE →
  ∃ c', send_queue t dst msg b o c = Ret (Ok tt, c') ∧ same_but_output c c' ∧
    out_cap c' = out_cap c ∧ keeps F G c c' ∧
    match o with
    | Some t' => repr_with F G c' out (up ++ [mk_pending t' dst msg]) inn
    | None => ∃ l1 l2, out = l1 ++ l2 ∧
        repr_with F G c' (l1 ++ mk_pending t dst msg :: l2) up inn
    end.
Proof.
  intros (Ha&(Hp&Hwf&Hcap&Hbs&Ho&Hu)&Hin) (f&Hg&Hf) Hdst Ht Hlen. unfold send_queue.
  assert (payload_wf msg) as Hv by (unfold payload_wf, MAX_PACKET_SIZE in *; lia).
  erewrite bind_run by done. unfold on_output_pool.
  destruct (SendPacketBuilder_new_spec _ b _ (address c) dst (default t o) msg f Hp Hg Hf Hv)
    as (po&p2&Hnew&Hm&Hp2&Hs2&Hbs2&Hlen2).
  set (m := mk_send_packet_builder (address c) dst (default t o) b po) in *.
  destruct (out_msgs_same _ _ _ _ _ _ _ _ Hs2 Ho Hu) as [Ho2 Hu2].
  assert (msg_at p2 (address c) m (mk_pending (default t o) dst msg)) as Hmsg by by split_and!.
  assert (same_contents F (output_buffer_pool c) p2) as HF
    by (by apply same_contents_app in Hs2 as [? _]).
  assert (∀ l, l ≡ₚ m :: set_msgs (outgoing_messages c) ++ upcoming_messages c →
    pool_inv p2 (F ++ (spb_payload <$> l))) as Hperm.
  { intros l Hl. eapply pool_inv_perm; [|exact Hp2]. rewrite Hl, fmap_cons.
    apply Permutation_middle. }
  destruct o as [t'|]; cbn [from_option] in *; erewrite try_run_Ok by (apply zoom_run; exact Hnew).
  - erewrite bind_run by done. eexists. split; [done|]. split_and!; try done.
    split; [done|split; [unfold out_repr; simpl|done]].
    split_and!; try done; [|congruence..|apply Forall2_app; [done|by constructor]].
    apply Hperm. by rewrite app_assoc, <- Permutation_cons_append.
  - destruct (OutputMsgSet_insert_cases _ m Hwf) as
      [[Hfull _]|(_&s'&Hins&Hwf'&Hlen'&l1&l2&Hl&Hl')].
    { apply pool_inv_length in Hp. simpl in Hp. rewrite length_app, length_fmap, length_app in Hp.
      lia. }
    erewrite bind_run by (unfold on_outgoing; apply zoom_run; exact Hins).
    eexists. split; [done|]. split_and!; try done.
    rewrite Hl in Ho2. apply Forall2_app_inv_l in Ho2 as (o1&o2&Ho1&Ho2&->).
    exists o1, o2. split; [done|].
    split; [done|split; [unfold out_repr; simpl|done]].
    split_and!; try done; try congruence; rewrite Hl'.
    + apply Hperm. by rewrite Hl, <- !app_assoc, Permutation_middle.
    + apply Forall2_app; [done|]. by constructor.
Qed.

(** [send], once the time is recorded, on every branch: [o] is what the
    timer answers about a deadline overrun.  After the allocation no step
    can fail. *)
Lemma send_at_spec c out up inn t dst msg o :
  repr c out up inn → in_u32 dst → Duration_wf t →
  tc_check_deadline_overrun t (upcoming_messages c) (timer_context c) =
    Ret (o, timer_context c) →
  Duration_wf (default t o) →
  if MAX_PACKET_SIZE <? length msg then send_at t dst msg c = Ret (Err SizeTooBig, c)
  else if length out + length up =? out_cap c then
    send_at t dst msg c = Ret (Err NoMemoryAvailable, c)
  else ∃ c', send_at t dst msg c = Ret (Ok tt, c') ∧ same_but_output c c' ∧
    out_cap c' = out_cap c ∧
    match o with
    | Some t' => repr c' out (up ++ [mk_pending t' dst msg]) inn
    | None => ∃ l1 l2, out = l1 ++ l2 ∧ repr c' (l1 ++ mk_pending t dst msg :: l2) up inn
    end.
Proof.
  intros Hr Hdst Ht Hover Ht'. pose proof (send_allocate_spec [] [] c out up inn msg Hr) as Hal.
  change (length [] + (length out + length up)) with (length out + length up) in Hal.
  unfold send_at. destruct (Nat.ltb_spec MAX_PACKET_SIZE (length msg)).
  { by erewrite try_run_Err by exact Hal. }
  destruct (_ =? _); [by erewrite try_run_Err by exact Hal|].
  destruct Hal as (b&c1&Hal&(?&?&?&Et&?&?)&?&Eu&?&_&Hr1&Hf1).
  erewrite try_run_Ok by exact Hal. rewrite <- Eu, <- Et in Hover.
  assert (set_timer_context (timer_context c1) c1 = c1) as Heta by (by destruct c1).
  assert (send_check t c1 = Ret (o, c1)) as Hcheck.
  { unfold send_check. erewrite bind_run by done. unfold on_timer.
    erewrite zoom_run by exact Hover. by rewrite Heta. }
  erewrite bind_run by exact Hcheck.
  destruct (send_queue_spec [] [] b c1 out up inn t dst msg o Hr1 Hf1 Hdst Ht' ltac:(lia))
    as (c'&Hrun&(?&?&?&?&?&?)&?&_&Hr').
  exists c'. split; [exact Hrun|]. unfold same_but_output. split_and!; congruence.
Qed.
End send.

Definition same_but_input {T Q} `{FlatBuffers} (c c' : Context T Q) : Prop :=
  address c' = address c ∧ actor (connector c') = actor (connector c) ∧
  timer_context c' = timer_context c ∧ output_buffer_pool c' = output_buffer_pool c ∧
  outgoing_messages c' = outgoing_messages c ∧ upcoming_messages c' = upcoming_messages c ∧
  start_once c' = start_once c ∧ callbacks c' = callbacks c.

Section recv.
Context {T : Type} {Q : Type → Type} `{FL : FlatBuffersLaws, CH : Chrono}
  `{TM : !Timer T, AQ : ArrayQueueLaws Q}.
Implicit Types (c : Context T Q) (out up : list pending) (inn : list packet).

(** The result of [recv] for the packet at the head of the queue and a
    buffer that holds [buf]. *)
Definition recv_result (inn : list packet) (buf : bytes) :
    result (Z * Z * bytes) Error * bytes :=
  match inn with
  | [] => (Err NoMessageAvailable, buf)
  | k :: _ =>
      if length (pk_payload k) <=? length buf then
        (Ok (pk_src k, pk_dst k, pk_payload k),
         pk_payload k ++ drop (length (pk_payload k)) buf)
      else (Err SizeTooBig, buf)
  end.

(** The first part of [recv]: the packet leaves the queue with its buffer. *)
Lemma recv_pop_spec F G c out up inn :
  repr_with F G c out up inn →
  ∃ q, WaitfreeArrayQueue_pop (input_queue c) =
      Ret (head (wq_elems (input_queue c)), q) ∧
    let c' := set_input_queue q c in
    match inn with
    | [] => head (wq_elems (input_queue c)) = None ∧ repr_with F G c' out up []
    | k :: inn => ∃ d, head (wq_elems (input_queue c)) = Some d ∧
        repr_with F (deliver_inner d :: G) c' out up inn ∧
        delivered_at (input_buffer_pool (connector c)) d k
    end.
Proof.
  intros (Ha&Hout&Hp&Hcap&Hbs&Hin).
  destruct (wq_pop (input_queue c)) as (q&Hpop&Hq&Hqc). exists q. split; [done|].
  destruct Hin as [|d k ds inn Hd Hin]; cbn [hd_error tail head] in *.
  - split; [done|]. split; [done|split; [done|]]. unfold in_repr. simpl. rewrite Hq, Hqc.
    split_and!; [done..|constructor].
  - exists d. split_and!; try done. split; [done|split; [done|]]. unfold in_repr. simpl.
    rewrite Hq, Hqc. split_and!; try done.
    eapply pool_inv_perm; [|exact Hp]. rewrite fmap_cons. symmetry. apply Permutation_middle.
Qed.

(** The second part: the packet is read and its buffer freed. *)
Lemma recv_read_spec F G c out up inn d k buf :
  repr_with F (deliver_inner d :: G) c out up inn →
  delivered_at (input_buffer_pool (connector c)) d k →
  ∃ c', recv_read d buf c = Ret (recv_result [k] buf, c') ∧
    repr_with F G c' out up inn ∧ same_but_input c c' ∧ in_cap c' = in_cap c ∧
    input_queue c' = input_queue c ∧ keeps F G c c'.
Proof.
  intros (Ha&Hout&Hp&Hcap&Hbs&Hin) Hd. unfold recv_read.
  set (p := input_buffer_pool (connector c)) in *.
  destruct d as [b]. destruct (packet_at_accessors _ _ _ _ _ Hd) as (Hsrc&Hdst&Hpay).
  destruct (Buffer_drop_spec p b _ Hp) as (p'&Hdrop&Hp'&Hs&?&?).
  assert (in_repr G p' (input_queue c) inn) as Hrepr.
  { split_and!; [done|congruence..|].
    eapply delivered_at_same; [exact Hs| |done].
    intros. apply elem_of_app. right. by apply list_elem_of_fmap_2. }
  assert (same_contents G p p') as HG
    by (by apply same_contents_app in Hs as [? _]).
  unfold on_input_pool.
  erewrite bind_run by (apply zoom_run; exact Hpay). simpl length.
  unfold recv_result. destruct (_ <=? _).
  - erewrite bind_run by (apply zoom_run; exact Hsrc).
    erewrite bind_run by (apply zoom_run; exact Hdst).
    erewrite bind_run by (apply zoom_run; exact Hdrop). by eexists.
  - erewrite bind_run by (apply zoom_run; exact Hdrop). by eexists.
Qed.

Lemma Context_recv_spec c out up inn buf :
  repr c out up inn →
  ∃ c', Context_recv buf c = Ret (recv_result inn buf, c') ∧
    repr c' out up (tail inn) ∧ same_but_input c c' ∧ in_cap c' = in_cap c.
Proof.
  intros Hr. unfold Context_recv. destruct (recv_pop_spec [] [] c out up inn Hr) as (q&Hpop&Hq).
  erewrite bind_run by (apply zoom_run; exact Hpop). destruct inn as [|k inn].
  - destruct Hq as [-> Hr']. by eexists.
  - destruct Hq as (d&->&Hr'&Hd).
    destruct (recv_read_spec [] [] _ out up inn d k buf Hr' Hd) as (c'&Hrun&?&?&?&_).
    by exists c'.
Qed.

Lemma is_empty_repr F G c out up inn :
  repr_with F G c out up inn →
  WaitfreeArrayQueue_is_empty (input_queue c) = bool_decide (inn = []).
Proof. intros (_&_&_&_&_&Hin). rewrite wq_is_empty. by destruct Hin. Qed.

Lemma Context_poll_spec c out up inn :
  repr c out up inn →
  Context_poll c = Ret (if decide (inn = []) then None else Some tt, c).
Proof.
  intros Hr. unfold Context_poll. erewrite bind_run by done. cbn beta.
  rewrite (is_empty_repr _ _ _ _ _ _ Hr). by destruct inn; repeat case_decide.
Qed.
End recv.
