(* ===== verification/DeadlineSpec.v ===== *)
(** * DeadlineSpec: what happens at a deadline

    [at_deadline] sends the messages of the slice, notifies the coordinator
    and receives until the next deadline is known.  The specification is a
    function of the pending messages and of the socket: [outgoing_spec] and
    [upcoming_spec] say what is sent and what is left when a write fails,
    [receives] what a stream of bytes delivers.  [at_deadline_spec] shows that
    the code does that, whatever bytes arrive: it neither panics nor loops. *)
From S2P Require Import Prelude Std BufferPool BytesBuffer Wire FbBuffer Connector.
From S2P Require Import ConnectorSpec OutputMsgSet WaitfreeArrayQueue Chrono Error Timer.
From S2P Require Import Context ContextSpec.
From stdpp Require Import base option list numbers.
From Stdlib Require Import ZArith Lia.

(** The message views are written one after the other; the last write may be
    cut short. *)
Inductive transmits `{FlatBuffers} : list out_view → UnixStream → UnixStream → Prop :=
  | transmits_nil s : transmits [] s s
  | transmits_cons w ws l s s' :
      encodes1 w l → transmits ws (written l s) s' → transmits (w :: ws) s s'.
#[export] Hint Constructors transmits : tansiv.

Lemma transmits_app `{FlatBuffers} ws ws' s s' s'' :
  transmits ws s s' → transmits ws' s' s'' → transmits (ws ++ ws') s s''.
Proof. induction 1; intros; [done|]. econstructor; eauto. Qed.

(** Does the next write succeed? *)
Definition write_ok (w : list (option (nat * io_error))) : bool :=
  match w with Some _ :: _ => false | _ => true end.

Lemma write_ok_result s :
  if write_ok (wr s) then write_result s = Ok tt else ∃ e, write_result s = Err e.
Proof. unfold write_ok, write_result. destruct (wr s) as [|[[]|]]; eauto. Qed.

(** When no write fails, exactly the frames of the messages are on the wire,
    and nothing else of the stream changes. *)
Lemma transmits_tx `{FlatBuffers} ws s s' :
  transmits ws s s' → Forall (λ o, o = None) (wr s) →
  rx s' = rx s ∧ rx_end s' = rx_end s ∧ Forall (λ o, o = None) (wr s') ∧
  ∃ l, tx s' = tx s ++ l ∧ encodes ws l.
Proof.
  induction 1 as [|w ws l s s' Hl _ IH]; intros Hw.
  { split_and!; try done. exists []. rewrite app_nil_r. split; [done|constructor]. }
  unfold written in IH. simpl in IH. destruct IH as (?&?&?&l'&Htx&Hl').
  { destruct Hw; simpl; [constructor|done]. }
  split_and!; [done..|]. exists (l ++ l'). split; [|by constructor].
  rewrite Htx, <- app_assoc. destruct Hw as [|? ? ->]; done.
Qed.

(** The time a message of the set is sent with. *)
Definition clamp (previous_deadline t : Duration) : Duration :=
  if (t <? previous_deadline)%Z then previous_deadline else t.

(** The first loop on the pending messages [out]: the messages that are
    written, those left in the set, and whether the loop ran to its end. *)
Fixpoint outgoing_spec (addr : Z) (prev cur : Duration) (out : list pending)
    (w : list (option (nat * io_error))) : list out_view * list pending * bool :=
  match out with
  | [] => ([], [], true)
  | m :: out =>
      if (prev <=? pd_time m)%Z && (cur <? pd_time m)%Z then ([], out, false)
      else
        let v := out_view_of addr (clamp prev (pd_time m)) m in
        if write_ok w then
          let '(vs, rest, ok) := outgoing_spec addr prev cur out (tail w) in (v :: vs, rest, ok)
        else ([v], out, false)
  end.

(** The second loop. *)
Fixpoint upcoming_spec (addr : Z) (cur : Duration) (up : list pending)
    (w : list (option (nat * io_error))) : list out_view * list pending * bool :=
  match up with
  | [] => ([], [], true)
  | m :: up' =>
      if (pd_time m <=? cur)%Z then
        let v := out_view_of addr (pd_time m) m in
        if write_ok w then
          let '(vs, rest, ok) := upcoming_spec addr cur up' (tail w) in (v :: vs, rest, ok)
        else ([v], up', false)
      else ([], up, true)
  end.

(** What the sending part of [at_deadline] keeps. *)
Definition same_but_transmit {T Q} `{FlatBuffers} (c c' : Context T Q) : Prop :=
  address c' = address c ∧
  input_buffer_pool (connector c') = input_buffer_pool (connector c) ∧
  input_queue c' = input_queue c ∧ timer_context c' = timer_context c ∧
  start_once c' = start_once c ∧ callbacks c' = callbacks c ∧
  length (buffer_busy (output_buffer_pool c')) = length (buffer_busy (output_buffer_pool c)).

#[export] Instance same_but_transmit_refl {T Q} `{FlatBuffers} :
  Reflexive (same_but_transmit (T := T) (Q := Q)).
Proof. intros c. unfold same_but_transmit. by split_and!. Qed.
#[export] Instance same_but_transmit_trans {T Q} `{FlatBuffers} :
  Transitive (same_but_transmit (T := T) (Q := Q)).
Proof.
  intros a b c (?&?&?&?&?&?&?) (?&?&?&?&?&?&?). split_and!; congruence.
Qed.

Section sending.
Context {T : Type} {Q : Type → Type} `{FL : FlatBuffersLaws, CH : Chrono}
  `{TM : !Timer T, TL : !TimerLaws T, AQ : ArrayQueueLaws Q}.
Implicit Types (c : Context T Q) (out up : list pending) (inn : list packet).

(** The context after a frame [l] went out of a buffer of the pool. *)
Definition after_send (l : bytes) (g : Fbb) (p : FbPool) (c : Context T Q) : Context T Q :=
  set_output_buffer_pool p
    (set_connector (mk_connector (written l (actor (connector c)))
       (input_buffer_pool (connector c)) g) c).

(** Finishing the message at hand and sending it: its buffer is free again. *)
Lemma transmit_one c m L pd t :
  pool_inv (output_buffer_pool c) (spb_payload m :: L) →
  msg_at (output_buffer_pool c) (address c) m pd → Duration_wf t →
  ∃ l g p,
    (∀ A (k : result unit io_error → M (Context T Q) A),
      (pkt ← on_output_pool (SendPacketBuilder_finish m t);
       r ← connector_send (MsgOut_SendPacket pkt); k r) c =
        k (write_result (actor (connector c))) (after_send l g p c)) ∧
    encodes1 (out_view_of (address c) t pd) l ∧ pool_inv p L ∧
    same_contents L (output_buffer_pool c) p ∧ same_shape (output_buffer_pool c) p.
Proof.
  intros Hp (Hb&Hsrc&Hdst&_&_&?&?&?) Ht.
  assert (out_view_wf (WSend t (spb_src m) (spb_dst m) (pd_payload pd))) as Hwf
    by (rewrite Hsrc, Hdst; by split_and!).
  destruct (SendPacketBuilder_finish_spec _ _ _ _ _ Hp Hb Hwf)
    as (f&p1&Hfin&Hg&Hh&Hp1&Hs1&Hsh1).
  destruct (UnixConnector_send_packet (connector c) _ _ _ _ _ Hp1 Hg Hh)
    as (l&p2&g&Hsend&Henc&Hp2&Hs2&Hsh2).
  exists l, g, p2. split_and!; [| |done|by eapply same_contents_trans|by etrans].
  - intros A k. erewrite bind_run by (apply zoom_run; exact Hfin).
    by erewrite bind_run by (apply zoom_run; exact Hsend).
  - by rewrite Hsrc, Hdst in Henc.
Qed.

Lemma after_send_frame l g p c :
  same_shape (output_buffer_pool c) p → same_but_transmit c (after_send l g p c).
Proof. intros []. by split_and!. Qed.

(** The output side once message [m] has been taken out and its buffer
    freed. *)
Lemma out_repr_taken F addr p p' s q m ms pd out up :
  pool_inv p' (F ++ (spb_payload <$> ms ++ q)) →
  same_contents (F ++ (spb_payload <$> ms ++ q)) p p' → same_shape p p' →
  set_wf s → set_msgs s = ms → length (slots s) = length (buffer_busy p) →
  buffer_size p = MAX_PACKET_SIZE →
  Forall2 (msg_at p addr) (m :: ms) (pd :: out) → Forall2 (msg_at p addr) q up →
  out_repr F addr p' s q out up.
Proof.
  intros Hp' Hs [Hbs Hlen] Hwf <- Hcap Hsz Ho%Forall2_cons_1 Hu. destruct Ho as [_ Ho].
  destruct (out_msgs_same _ _ _ _ _ _ _ _ Hs Ho Hu).
  unfold out_repr. split_and!; (done || congruence).
Qed.

Lemma clamp_wf prev t : Duration_wf prev → Duration_wf t → Duration_wf (clamp prev t).
Proof. unfold clamp. by case_match. Qed.

(** The first loop, from slot [k] on, when the slots before are empty. *)
Lemma send_outgoing_spec F G fuel prev cur k c out up inn :
  repr_with F G c out up inn → Duration_wf prev → length out < fuel →
  (∀ i, i < k → i < length (slots (outgoing_messages c)) →
    slots (outgoing_messages c) !! i = Some None) →
  let '(vs, rest, ok) :=
    outgoing_spec (address c) prev cur out (wr (actor (connector c))) in
  ∃ c', send_outgoing fuel prev cur k c = Ret (if ok then None else Some EndSimulation, c') ∧
    repr_with F G c' rest up inn ∧ same_but_transmit c c' ∧
    same_contents F (output_buffer_pool c) (output_buffer_pool c') ∧
    transmits vs (actor (connector c)) (actor (connector c')).
Proof.
  revert k c out. induction fuel as [|fuel IH]; intros k c out Hr Hprev Hfuel Hk; [lia|].
  destruct Hr as (Ha&(Hp&Hwf&Hcap&Hbs&Ho&Hu)&Hin). simpl send_outgoing.
  pose proof (OutputMsgDrain_next_spec _ k Hwf Hk) as Hnext.
  inversion Ho as [Hms|m pd ms out' Hm Ho' Hms]; subst; rewrite <- Hms in *.
  { simpl. exists c. split_and!; [|split; [done|split; [|done]]|done|done|constructor].
    - erewrite bind_run by (apply zoom_run; exact Hnext). by destruct c.
    - unfold out_repr. rewrite <- Hms. by split_and!. }
  destruct Hnext as (k'&s'&Hnext&?&Hwf'&Hms'&Hlen'&Hk').
  rewrite <- app_comm_cons, fmap_cons in Hp.
  eapply pool_inv_perm in Hp; [|symmetry; apply Permutation_middle].
  erewrite bind_run by (apply zoom_run; exact Hnext).
  set (c1 := set_outgoing_messages s' c).
  destruct (Hm) as (_&_&_&Htime&Hview&_). cbn [outgoing_spec]. rewrite Htime.
  rewrite Z.leb_antisym. destruct (_ && _).
  { destruct (Buffer_drop_spec _ _ _ Hp) as (p'&Hdrop&Hp'&Hs&?&?).
    exists (set_output_buffer_pool p' c1).
    split_and!; [|split; [done|split; [|done]]| | |constructor].
    - by erewrite bind_run by (apply zoom_run; exact Hdrop).
    - eapply out_repr_taken; [exact Hp'|exact Hs|..|exact Ho|]; try done. exact (eq_trans Hlen' Hcap).
    - done.
    - by apply same_contents_app in Hs as [? _]. }
  fold (clamp prev (pd_time pd)).
  destruct (transmit_one c1 m _ pd _ Hp Hm (clamp_wf _ _ Hprev Hview))
    as (l&g&p'&Hrun&Henc&Hp'&Hs&Hsh).
  rewrite Hrun. change (actor (connector c1)) with (actor (connector c)).
  pose proof (after_send_frame l g p' c1 Hsh) as Hframe.
  destruct (same_contents_app _ _ _ _ Hs) as [HF _].
  assert (repr_with F G (after_send l g p' c1) out' up inn) as Hr'.
  { split; [done|split; [|done]].
    eapply out_repr_taken; [exact Hp'|exact Hs|..|exact Ho|]; try done.
    exact (eq_trans Hlen' Hcap). }
  pose proof (write_ok_result (actor (connector c))) as Hw. destruct (write_ok _).
  - rewrite Hw. simpl in Hfuel. specialize (IH k' _ _ Hr' Hprev ltac:(lia) Hk').
    change (wr (actor (connector (after_send l g p' c1))))
      with (tail (wr (actor (connector c)))) in IH.
    change (address (after_send l g p' c1)) with (address c) in IH.
    destruct (outgoing_spec (address c) prev cur out' _) as [[vs rest] ok].
    destruct IH as (c'&?&?&?&?&?). exists c'.
    split_and!; [done..|by etrans|by eapply same_contents_trans|by econstructor].
  - destruct Hw as [e ->]. exists (after_send l g p' c1).
    split_and!; [done..|]. econstructor; [done|constructor].
Qed.

(** The second loop. *)
Lemma send_upcoming_spec F G fuel cur c out up inn :
  repr_with F G c out up inn → length up < fuel →
  let '(vs, rest, ok) := upcoming_spec (address c) cur up (wr (actor (connector c))) in
  ∃ c', send_upcoming fuel cur c = Ret (if ok then None else Some EndSimulation, c') ∧
    repr_with F G c' out rest inn ∧ same_but_transmit c c' ∧
    same_contents F (output_buffer_pool c) (output_buffer_pool c') ∧
    transmits vs (actor (connector c)) (actor (connector c')).
Proof.
  revert c up. induction fuel as [|fuel IH]; intros c up Hr Hfuel; [lia|].
  destruct (Hr) as (Ha&(Hp&Hwf&Hcap&Hbs&Ho&Hu)&Hin). simpl send_upcoming.
  erewrite bind_run by done.
  inversion Hu as [Hq|m pd ms up' Hm Hu' Hq]; subst.
  { simpl. exists c. by split_and!; [..|constructor]. }
  destruct (Hm) as (_&_&_&Htime&Hview&_). cbn [upcoming_spec]. rewrite Htime.
  destruct (pd_time pd <=? cur)%Z; [|exists c; by split_and!; [..|constructor]].
  erewrite bind_run by done. set (c1 := set_upcoming_messages ms c).
  rewrite <- Hq in Hp. rewrite fmap_app, fmap_cons, app_assoc in Hp.
  eapply pool_inv_perm in Hp; [|symmetry; apply Permutation_middle].
  destruct (transmit_one c1 m _ pd _ Hp Hm Hview) as (l&g&p'&Hrun&Henc&Hp'&Hs&Hsh).
  rewrite Hrun. change (actor (connector c1)) with (actor (connector c)).
  pose proof (after_send_frame l g p' c1 Hsh) as Hframe.
  rewrite <- app_assoc, <- fmap_app in Hp', Hs.
  destruct (same_contents_app _ _ _ _ Hs) as [HF _].
  assert (repr_with F G (after_send l g p' c1) out up' inn) as Hr'.
  { split; [done|split; [|done]]. destruct Hsh as [? Hlen].
    change (output_buffer_pool c1) with (output_buffer_pool c) in *.
    destruct (out_msgs_same _ _ _ _ _ _ _ _ Hs Ho Hu').
    unfold out_repr. simpl. split_and!; (done || congruence). }
  pose proof (write_ok_result (actor (connector c))) as Hw. destruct (write_ok _).
  - rewrite Hw. simpl in Hfuel. specialize (IH _ _ Hr' ltac:(lia)).
    change (wr (actor (connector (after_send l g p' c1))))
      with (tail (wr (actor (connector c)))) in IH.
    change (address (after_send l g p' c1)) with (address c) in IH.
    destruct (upcoming_spec (address c) cur up' _) as [[vs rest] ok].
    destruct IH as (c'&?&?&?&?&?). exists c'.
    split_and!; [done..|by etrans|by eapply same_contents_trans|by econstructor].
  - destruct Hw as [e ->]. exists (after_send l g p' c1).
    split_and!; [done..|]. econstructor; [done|constructor].
Qed.
End sending.

(** ** Receiving *)

(** The receive loop on the bytes [l] when [inn] is in the queue, with [cap]
    buffers: the answer, the queue afterwards and the bytes not consumed. *)
Inductive receives `{FlatBuffers} (cap : nat) (e : io_error) :
    list packet → bytes → AfterDeadline → list packet → bytes → Prop :=
  | receives_goto inn l d l' :
      recv_spec MAX_PACKET_SIZE (length inn =? cap) e l = (Ok (VGoto d), l') →
      receives cap e inn l (NextDeadline d) inn l'
  | receives_end inn l l' :
      recv_spec MAX_PACKET_SIZE (length inn =? cap) e l = (Ok VEnd, l') →
      receives cap e inn l EndSimulation inn l'
  | receives_error inn l err l' :
      recv_spec MAX_PACKET_SIZE (length inn =? cap) e l = (Err err, l') →
      receives cap e inn l EndSimulation inn l'
  | receives_deliver inn l src dst v l1 a inn' l' :
      recv_spec MAX_PACKET_SIZE (length inn =? cap) e l = (Ok (VDeliver src dst v), l1) →
      receives cap e (inn ++ [mk_packet src dst v]) l1 a inn' l' →
      receives cap e inn l a inn' l'.

Lemma recv_spec_consumes `{FlatBuffers} bs full e l v l' :
  recv_spec bs full e l = (Ok v, l') → length l' < length l.
Proof.
  unfold recv_spec. destruct (Nat.ltb_spec (length l) 4); [done|].
  do 3 (case_match; [done|]). intros [= _ <-]. rewrite !length_drop. lia.
Qed.

Lemma recv_spec_full `{FlatBuffers} bs e l v l' : recv_spec bs true e l ≠ (Ok v, l').
Proof. unfold recv_spec. by repeat case_match. Qed.

(** The receive loop has one outcome. *)
Lemma receives_det `{FlatBuffers} cap e inn l a inn' l' a2 inn2 l2 :
  receives cap e inn l a inn' l' → receives cap e inn l a2 inn2 l2 →
  a = a2 ∧ inn' = inn2 ∧ l' = l2.
Proof.
  intros H1. revert a2 inn2 l2.
  induction H1 as [ | | |inn l src dst v l1 a inn' l' Hv _ IH]; intros a2 inn2 l2 H2;
    inversion H2; subst; try congruence; try (split_and!; congruence).
  apply IH. congruence.
Qed.

(** The loop adds at the end of the queue and never exceeds the buffers. *)
Lemma receives_queue `{FlatBuffers} cap e inn l a inn' l' :
  receives cap e inn l a inn' l' →
  ∃ new, inn' = inn ++ new ∧ (length inn ≤ cap → length inn' ≤ cap).
Proof.
  induction 1 as [inn|inn|inn|inn l src dst v l1 a inn' l' Hv _ (new&->&Hle)];
    try (exists []; rewrite app_nil_r; done).
  rewrite <- app_assoc in *. eexists. split; [done|]. intros Hcap. apply Hle.
  rewrite length_app. simpl. destruct (Nat.eqb_spec (length inn) cap) as [Heq|]; [|lia].
  by apply recv_spec_full in Hv.
Qed.

Definition same_but_receive {T Q} `{FlatBuffers} (c c' : Context T Q) : Prop :=
  address c' = address c ∧ timer_context c' = timer_context c ∧
  output_buffer_pool c' = output_buffer_pool c ∧
  outgoing_messages c' = outgoing_messages c ∧ upcoming_messages c' = upcoming_messages c ∧
  start_once c' = start_once c ∧ callbacks c' = callbacks c ∧
  length (buffer_busy (input_buffer_pool (connector c'))) =
    length (buffer_busy (input_buffer_pool (connector c))).

#[export] Instance same_but_receive_trans {T Q} `{FlatBuffers} :
  Transitive (same_but_receive (T := T) (Q := Q)).
Proof.
  intros a b c (?&?&?&?&?&?&?&?) (?&?&?&?&?&?&?&?). split_and!; congruence.
Qed.

Section receiving.
Context {T : Type} {Q : Type → Type} `{FL : FlatBuffersLaws, CH : Chrono}
  `{TM : !Timer T, TL : !TimerLaws T, AQ : ArrayQueueLaws Q}.
Implicit Types (c : Context T Q) (out up : list pending) (inn : list packet).

(** One receive on the connector of the context. *)
Lemma connector_recv_spec F G cap c out up inn :
  repr_with F G c out up inn → length G + cap = in_cap c →
  let '(v, l) := recv_spec MAX_PACKET_SIZE (length inn =? cap)
                   (rx_end (actor (connector c))) (rx (actor (connector c))) in
  ∃ r c', connector_recv c = Ret (r, c') ∧ same_but_receive c c' ∧
    actor (connector c') = set_rx l (actor (connector c)) ∧
    input_queue c' = input_queue c ∧
    same_contents (G ++ (deliver_inner <$> wq_elems (input_queue c)))
      (input_buffer_pool (connector c)) (input_buffer_pool (connector c')) ∧
    same_shape (input_buffer_pool (connector c)) (input_buffer_pool (connector c')) ∧
    in_result (G ++ (deliver_inner <$> wq_elems (input_queue c))) v r
      (input_buffer_pool (connector c')).
Proof.
  intros (_&_&Hp&_&Hbs&Hin) Hcap. apply Forall2_length in Hin.
  pose proof (MsgIn_recv_spec (actor (connector c)) _ _ Hp) as Hrecv.
  rewrite length_app, length_fmap, Hin, Hbs in Hrecv.
  assert ((length G + length inn =? length (buffer_busy (input_buffer_pool (connector c)))) =
    (length inn =? cap)) as Hfull.
  { unfold in_cap in Hcap. rewrite <- Hcap.
    destruct (Nat.eqb_spec (length inn) cap); [apply Nat.eqb_eq|apply Nat.eqb_neq]; lia. }
  rewrite Hfull in Hrecv. destruct (recv_spec _ _ _ _) as [v l].
  destruct Hrecv as (r&p'&Hrun&?&[]&?). 
  exists r, (set_connector (mk_connector (set_rx l (actor (connector c))) p'
                              (scratch_builder (connector c))) c).
  split; [|unfold same_but_receive; by split_and!].
  unfold connector_recv, UnixConnector_recv. apply zoom_run.
  by rewrite (zoom_run _ _ _ r _ (set_rx l (actor (connector c)), p')).
Qed.

(** The input side when the pool changed and no live buffer did. *)
Lemma in_repr_same G (p p' : BytesPool) (q : WaitfreeArrayQueue Q DeliverPacket) inn :
  in_repr G p q inn → pool_inv p' (G ++ (deliver_inner <$> wq_elems q)) →
  same_contents (G ++ (deliver_inner <$> wq_elems q)) p p' → same_shape p p' → in_repr G p' q inn.
Proof.
  intros (_&Hcap&Hbs&Hin) Hp Hs [? ?]. split_and!; [done|congruence..|].
  eapply delivered_at_same; [exact Hs| |done].
  intros. apply elem_of_app. right. by apply list_elem_of_fmap_2.
Qed.

(** A delivered packet always finds a slot in the queue: the pool has as
    many buffers as the queue has slots. *)
Lemma handle_deliver_spec F G c out up inn b src dst v :
  in_u32 (address c) →
  out_repr F (address c) (output_buffer_pool c) (outgoing_messages c)
    (upcoming_messages c) out up →
  wq_cap (input_queue c) = in_cap c →
  buffer_size (input_buffer_pool (connector c)) = MAX_PACKET_SIZE →
  Forall2 (delivered_at (input_buffer_pool (connector c))) (wq_elems (input_queue c)) inn →
  pool_inv (input_buffer_pool (connector c))
    (b :: G ++ (deliver_inner <$> wq_elems (input_queue c))) →
  packet_at (input_buffer_pool (connector c)) b src dst v →
  ∃ q, handle_actor_msg (MsgIn_DeliverPacket (mk_deliver b)) c =
      Ret (None, set_input_queue q c) ∧
    repr_with F G (set_input_queue q c) out up (inn ++ [mk_packet src dst v]).
Proof.
  intros Ha Hout Hcap Hbs Hin Hp Hk. pose proof (pool_inv_length _ _ Hp) as Hle.
  simpl in Hle. rewrite length_app, length_fmap in Hle.
  destruct (packet_at_accessors _ _ _ _ _ Hk) as (Hsrc&_&Hpay).
  destruct (wq_push_Ok (input_queue c) (mk_deliver b)) as (q&Hpush&Hq&Hqc).
  { rewrite Hcap. unfold in_cap. lia. }
  exists q. split.
  - unfold handle_actor_msg, on_input_pool.
    erewrite bind_run by (apply zoom_run; exact Hsrc).
    erewrite bind_run by (apply zoom_run; exact Hpay).
    erewrite bind_run by (apply zoom_run; exact Hpush). by destruct c as [? []].
  - split; [done|split; [done|]]. unfold in_repr. simpl. rewrite Hq, Hqc.
    split_and!; [|done..|apply Forall2_app; [done|by constructor]].
    eapply pool_inv_perm; [|exact Hp]. rewrite fmap_app, app_assoc. apply Permutation_cons_append.
Qed.

(** The receive loop returns, whatever the bytes: each message it goes on
    after consumed some. *)
Lemma recv_loop_spec F G cap fuel c out up inn :
  repr_with F G c out up inn → length G + cap = in_cap c →
  length (rx (actor (connector c))) < fuel →
  ∃ a c' inn' l', recv_loop fuel c = Ret (a, c') ∧
    receives cap (rx_end (actor (connector c))) inn (rx (actor (connector c))) a inn' l' ∧
    repr_with F G c' out up inn' ∧ same_but_receive c c' ∧
    same_contents G (input_buffer_pool (connector c)) (input_buffer_pool (connector c')) ∧
    actor (connector c') = set_rx l' (actor (connector c)).
Proof.
  revert c inn. induction fuel as [|fuel IH]; intros c inn Hr Hroom Hfuel; [lia|].
  simpl recv_loop. pose proof (connector_recv_spec F G cap c out up inn Hr Hroom) as Hrecv.
  destruct (recv_spec _ _ _ _) as [v l] eqn:Hv.
  destruct Hrecv as (r&c1&Hrun&Hframe&Hact&Hq&Hs&Hsh&Hres).
  erewrite bind_run by exact Hrun. destruct (Hr) as (Ha&Hout&Hin).
  destruct (same_contents_app _ _ _ _ Hs) as [HG Hs'].
  assert (pool_inv (input_buffer_pool (connector c1))
      (G ++ (deliver_inner <$> wq_elems (input_queue c))) →
    repr_with F G c1 out up inn) as Hsame.
  { intros Hp. destruct (Hframe) as (Ea&_&Eo&Es&Eu&_).
    split; [congruence|]. rewrite Ea, Eo, Es, Eu, Hq. split; [done|].
    by eapply in_repr_same. }
  destruct v as [[src dst v|d|]|e].
  - destruct Hres as (b&->&Hp1&Hk). destruct (Hframe) as (Ea&_&Eo&Es&Eu&_&_&Ec).
    destruct (handle_deliver_spec F G c1 out up inn b src dst v) as (q&Hh&Hr').
    { congruence. } { by rewrite Ea, Eo, Es, Eu. }
    { rewrite Hq. unfold in_cap. rewrite Ec. apply Hin. }
    { destruct Hsh, Hin as (?&?&?&?). congruence. }
    { rewrite Hq. destruct Hin as (?&?&?&?). eapply delivered_at_same; [exact Hs'| |done].
      intros. by apply list_elem_of_fmap_2. }
    { by rewrite Hq. } { done. }
    erewrite bind_run by exact Hh.
    destruct (IH _ _ Hr') as (a&c'&inn'&l'&Hrun'&Hrec&Hr''&Hframe'&HG'&Hact').
    { unfold in_cap in *. simpl. by rewrite Ec. }
    { simpl. rewrite Hact. apply recv_spec_consumes in Hv. simpl. lia. }
    simpl in Hrec, Hact'. rewrite Hact in Hrec.
    exists a, c', inn', l'.
    split_and!; [done| |done| |by eapply same_contents_trans|by rewrite Hact', Hact].
    + by eapply receives_deliver.
    + etrans; [exact Hframe|]. by destruct Hframe' as (?&?&?&?&?&?&?&?); split_and!.
  - destruct Hres as [-> Hp]. eexists _, c1, inn, l. split_and!; try done; [|by apply Hsame].
    by eapply receives_goto.
  - destruct Hres as [-> Hp]. eexists _, c1, inn, l. split_and!; try done; [|by apply Hsame].
    by eapply receives_end.
  - destruct Hres as [-> Hp]. eexists _, c1, inn, l. split_and!; try done; [|by apply Hsame].
    by eapply receives_error.
Qed.
End receiving.

(** ** The whole deadline *)

(** The callbacks of a deadline: the application is told about packets when
    the queue was empty and is not any more, and about the next deadline. *)
Definition notify_callbacks (inn inn' : list packet) (a : AfterDeadline) : list callback :=
  (if bool_decide (inn = []) && negb (bool_decide (inn' = [])) then [RecvCallback] else []) ++
  match a with NextDeadline d => [DeadlineCallback d] | EndSimulation => [] end.

Section deadline_spec.
Context `{FlatBuffers}.
Context (addr : Z) (prev cur : Duration) (cap : nat).

(** [deadline_spec out up inn s a out' up' inn' s' cbs]: with these messages
    pending and this socket, the deadline ends with [a] and the callbacks
    [cbs], and leaves the primed messages and socket.  The first three cases
    are the errors that end the simulation before the coordinator could
    answer. *)
Inductive deadline_spec (out up : list pending) (inn : list packet) (s : UnixStream) :
    AfterDeadline → list pending → list pending → list packet → UnixStream →
    list callback → Prop :=
  | deadline_outgoing vs rest s' :
      outgoing_spec addr prev cur out (wr s) = (vs, rest, false) →
      transmits vs s s' →
      deadline_spec out up inn s EndSimulation rest up inn s' []
  | deadline_upcoming vs vs' rest s1 s2 :
      outgoing_spec addr prev cur out (wr s) = (vs, [], true) → transmits vs s s1 →
      upcoming_spec addr cur up (wr s1) = (vs', rest, false) → transmits vs' s1 s2 →
      deadline_spec out up inn s EndSimulation [] rest inn s2 []
  | deadline_notify vs vs' rest s1 s2 s3 :
      outgoing_spec addr prev cur out (wr s) = (vs, [], true) → transmits vs s s1 →
      upcoming_spec addr cur up (wr s1) = (vs', rest, true) → transmits vs' s1 s2 →
      write_ok (wr s2) = false → transmits [WAtDeadline] s2 s3 →
      deadline_spec out up inn s EndSimulation [] rest inn s3 []
  | deadline_done vs vs' rest s1 s2 s3 a inn' l :
      outgoing_spec addr prev cur out (wr s) = (vs, [], true) → transmits vs s s1 →
      upcoming_spec addr cur up (wr s1) = (vs', rest, true) → transmits vs' s1 s2 →
      write_ok (wr s2) = true → transmits [WAtDeadline] s2 s3 →
      receives cap (rx_end s3) inn (rx s3) a inn' l →
      deadline_spec out up inn s a [] rest inn' (set_rx l s3) (notify_callbacks inn inn' a).
End deadline_spec.

Lemma outgoing_spec_ok addr prev cur out w vs rest :
  outgoing_spec addr prev cur out w = (vs, rest, true) →
  rest = [] ∧ vs = (λ m, out_view_of addr (clamp prev (pd_time m)) m) <$> out ∧
  Forall (λ m, pd_time m < prev ∨ pd_time m ≤ cur)%Z out.
Proof.
  revert w vs rest. induction out as [|m out IH]; intros w vs rest; simpl; [by intros [= <- <-]|].
  destruct ((prev <=? pd_time m)%Z && (cur <? pd_time m)%Z) eqn:Hb; [done|].
  destruct (write_ok w); [|done].
  destruct (outgoing_spec addr prev cur out (tail w)) as [[vs' rest'] ok] eqn:Ho.
  intros [= <- <- ->]. destruct (IH _ _ _ Ho) as (->&->&?). split_and!; [done..|].
  constructor; [|done]. apply andb_false_iff in Hb as [?%Z.leb_gt|?%Z.ltb_ge]; tauto.
Qed.

Lemma upcoming_spec_ok addr cur up w vs rest :
  upcoming_spec addr cur up w = (vs, rest, true) →
  ∃ sent, up = sent ++ rest ∧ vs = (λ m, out_view_of addr (pd_time m) m) <$> sent ∧
    Forall (λ m, pd_time m ≤ cur)%Z sent ∧ (∀ m, head rest = Some m → cur < pd_time m)%Z.
Proof.
  revert w vs rest. induction up as [|m up IH]; intros w vs rest; simpl.
  { intros [= <- <-]. by exists []. }
  destruct (Z.leb_spec (pd_time m) cur).
  - destruct (write_ok w); [|done].
    destruct (upcoming_spec addr cur up (tail w)) as [[vs' rest'] ok] eqn:Hu.
    intros [= <- <- ->]. destruct (IH _ _ _ Hu) as (sent&->&->&?&?).
    exists (m :: sent). split_and!; [done..|by constructor|done].
  - intros [= <- <-]. exists []. split_and!; [done..|constructor|]. by intros m' [= <-].
Qed.

Section at_deadline.
Context {T : Type} {Q : Type → Type} `{FL : FlatBuffersLaws, CH : Chrono}
  `{TM : !Timer T, TL : !TimerLaws T, AQ : ArrayQueueLaws Q}.
Implicit Types (c : Context T Q) (out up : list pending) (inn : list packet).

(** The context after the callbacks [cbs]. *)
Definition after_callbacks (cbs : list callback) (c : Context T Q) : Context T Q :=
  mk_context (address c) (connector c) (input_queue c) (timer_context c)
    (output_buffer_pool c) (outgoing_messages c) (upcoming_messages c) (start_once c)
    (callbacks c ++ cbs).

Lemma notify_application_run F G b c out up inn inn' a :
  repr_with F G c out up inn' → b = bool_decide (inn = []) →
  notify_application b a c = Ret (a, after_callbacks (notify_callbacks inn inn' a) c).
Proof.
  intros Hr ->. unfold notify_application. erewrite bind_run by done. cbn beta.
  rewrite (is_empty_repr F G c out up inn' Hr).
  unfold notify_callbacks, after_callbacks. destruct c as [??????? ? cbs].
  destruct (_ && _), a; simpl; unfold mbind, M_bind, call, modify, add_callback; simpl;
    by rewrite <- ?app_assoc, ?app_nil_r.
Qed.

(** Notification and reception. *)
Lemma notify_and_receive_with F G cap c out up inn :
  repr_with F G c out up inn → length G + cap = in_cap c →
  ∃ a c' inn' s3 cbs, notify_and_receive c = Ret (a, c') ∧
    repr_with F G c' out up inn' ∧ keeps F G c c' ∧ transmits [WAtDeadline] (actor (connector c)) s3 ∧
    address c' = address c ∧ timer_context c' = timer_context c ∧
    start_once c' = start_once c ∧ in_cap c' = in_cap c ∧ out_cap c' = out_cap c ∧
    callbacks c' = callbacks c ++ cbs ∧
    if write_ok (wr (actor (connector c))) then
      ∃ l, receives cap (rx_end s3) inn (rx s3) a inn' l ∧
        actor (connector c') = set_rx l s3 ∧ cbs = notify_callbacks inn inn' a
    else a = EndSimulation ∧ inn' = inn ∧ actor (connector c') = s3 ∧ cbs = [].
Proof.
  intros Hr Hroom. unfold notify_and_receive.
  destruct (UnixConnector_send_at_deadline (connector c) (output_buffer_pool c))
    as (l&f&Hsend&Henc).
  pose proof (write_ok_result (actor (connector c))) as Hw.
  assert (∀ s, transmits [WAtDeadline] s (written l s)) as Htr
    by (intros; econstructor; [done|constructor]).
  set (c1 := set_output_buffer_pool (output_buffer_pool c)
    (set_connector (mk_connector (written l (actor (connector c)))
       (input_buffer_pool (connector c)) f) c)).
  assert (repr_with F G c1 out up inn) as Hr1 by (destruct Hr as (?&?&?); by split_and!).
  erewrite bind_run by (apply zoom_run; exact Hsend). fold c1.
  destruct (write_ok _).
  2: { destruct Hw as [e ->]. eexists _, c1, inn, _, []. split; [done|].
       split_and!; try done. by rewrite app_nil_r. }
  rewrite Hw. do 2 (erewrite bind_run by done). cbn beta.
  destruct (recv_loop_spec F G cap (S (length (rx (actor (connector c1))))) c1 out up inn Hr1
    Hroom ltac:(lia)) as (a&c2&inn'&l'&Hloop&Hrec&Hr2&(?&?&Hpool&?&?&?&?&?)&HG&Hact).
  erewrite bind_run by exact Hloop.
  rewrite (notify_application_run F G _ c2 out up inn inn' a Hr2)
    by exact (is_empty_repr F G c1 out up inn Hr1).
  eexists a, _, inn', (written l (actor (connector c))), (notify_callbacks inn inn' a).
  split; [done|].
  split; [exact Hr2|]. split; [split; [simpl; by rewrite Hpool|exact HG]|]. split; [done|].
  unfold out_cap. simpl. rewrite Hpool.
  split_and!; try done; [by f_equal|]. exists l'. by split_and!.
Qed.

(** What a deadline keeps of the context. *)
Definition deadline_keeps (c c' : Context T Q) : Prop :=
  address c' = address c ∧ timer_context c' = timer_context c ∧
  start_once c' = start_once c ∧ in_cap c' = in_cap c ∧ out_cap c' = out_cap c.

Lemma transmit_keeps c c' : same_but_transmit c c' → deadline_keeps c c'.
Proof.
  intros (?&Hp&?&?&?&?&?). unfold deadline_keeps, in_cap, out_cap. rewrite Hp. by split_and!.
Qed.

(** The sending part: it ends the simulation as [deadline_spec] says, or all
    messages of the set and the waiting ones whose time has come are sent. *)
Lemma send_messages_with F G cap c out up inn :
  repr_with F G c out up inn → tc_handling (timer_context c) →
  Duration_wf (tc_prev (timer_context c)) →
  let prev := tc_prev (timer_context c) in
  let cur := tc_next (timer_context c) in
  ∃ o c' out' up', send_messages c = Ret (o, c') ∧ repr_with F G c' out' up' inn ∧
    same_but_transmit c c' ∧
    same_contents F (output_buffer_pool c) (output_buffer_pool c') ∧
    match o with
    | Some a => a = EndSimulation ∧
        deadline_spec (address c) prev cur cap out up inn (actor (connector c)) EndSimulation
          out' up' inn (actor (connector c')) [] ∧
        ((outgoing_spec (address c) prev cur out (wr (actor (connector c)))).2 = false ∨
         ∃ vs s1, transmits vs (actor (connector c)) s1 ∧
           (upcoming_spec (address c) cur up (wr s1)).2 = false)
    | None => out' = [] ∧ ∃ vs vs' s1,
        outgoing_spec (address c) prev cur out (wr (actor (connector c))) = (vs, [], true) ∧
        transmits vs (actor (connector c)) s1 ∧
        upcoming_spec (address c) cur up (wr s1) = (vs', up', true) ∧
        transmits vs' s1 (actor (connector c'))
    end.
Proof.
  intros Hr Hh Hprev prev cur. unfold send_messages, on_timer.
  assert (set_timer_context (timer_context c) c = c) as Heta by (by destruct c).
  erewrite bind_run by (apply zoom_run, tc_previous_deadline_run, Hh). rewrite Heta.
  erewrite bind_run by (apply zoom_run, tc_next_deadline_run, Hh). rewrite Heta.
  erewrite bind_run by done. cbn beta. fold prev cur.
  pose proof (send_outgoing_spec F G (S (length (slots (outgoing_messages c)))) prev cur 0 c
    out up inn Hr Hprev) as Hs1.
  destruct (outgoing_spec (address c) prev cur out _) as [[vs rest] ok] eqn:Ho.
  destruct Hs1 as (c1&Hrun1&Hr1&Hf1&HF1&Ht1); [|intros; lia|].
  { destruct Hr as (_&(_&_&_&_&Hlen%Forall2_length&_)&_). rewrite <- Hlen.
    unfold set_msgs. pose proof (omap_id_length (slots (outgoing_messages c))). lia. }
  erewrite bind_run by exact Hrun1. destruct (Hf1) as (Ea1&Ei1&_&_&_&Ec1&_).
  destruct ok.
  2: { eexists _, c1, rest, up. split; [done|].
       split_and!; try done; [by eapply deadline_outgoing|by left]. }
  destruct (outgoing_spec_ok _ _ _ _ _ _ _ Ho) as (->&_&_).
  erewrite bind_run by done. cbn beta.
  pose proof (send_upcoming_spec F G (S (length (upcoming_messages c1))) cur c1 [] up inn Hr1) as Hs2.
  destruct (upcoming_spec (address c1) cur up _) as [[vs' rest'] ok] eqn:Hu.
  destruct Hs2 as (c2&Hrun2&Hr2&Hf2&HF2&Ht2).
  { destruct Hr1 as (_&(_&_&_&_&_&Hlen%Forall2_length)&_). lia. }
  rewrite Hrun2. rewrite Ea1 in Hu. eexists _, c2, [], rest'. split; [done|].
  split; [done|]. split; [by etrans|]. split; [by eapply same_contents_trans|]. destruct ok.
  - split; [done|]. by eexists _, _, _.
  - split; [done|]. split; [by eapply deadline_upcoming|]. right.
    eexists _, _. split; [exact Ht1|]. by rewrite Hu.
Qed.

(** [at_deadline] implements [deadline_spec]: in every state of the pending
    messages, the queue and the socket, and whatever calls are under way, it
    returns.  [cap] buffers are left for packets beside those of the receives
    under way. *)
Lemma at_deadline_with F G cap c out up inn :
  repr_with F G c out up inn → length G + cap = in_cap c → tc_handling (timer_context c) →
  Duration_wf (tc_prev (timer_context c)) →
  ∃ a c' out' up' inn' cbs, at_deadline c = Ret (a, c') ∧ repr_with F G c' out' up' inn' ∧
    keeps F G c c' ∧ deadline_keeps c c' ∧ callbacks c' = callbacks c ++ cbs ∧
    deadline_spec (address c) (tc_prev (timer_context c)) (tc_next (timer_context c))
      cap out up inn (actor (connector c)) a out' up' inn' (actor (connector c')) cbs.
Proof.
  intros Hr Hroom Hh Hprev. unfold at_deadline.
  destruct (send_messages_with F G cap c out up inn Hr Hh Hprev)
    as (o&c2&out'&up'&Hrun&Hr2&Hf&HF&Ho).
  erewrite bind_run by exact Hrun. destruct (Hf) as (?&Hip&?&?&?&Ec2&?).
  assert (keeps F G c c2) as Hk by (split; [done|by rewrite Hip]).
  destruct o as [a|].
  { destruct Ho as (->&Hd&_). eexists _, c2, out', up', inn, []. split; [done|].
    rewrite app_nil_r. split_and!; try done. by apply transmit_keeps. }
  destruct Ho as (->&vs&vs'&s1&Hout&Ht1&Hup&Ht2).
  destruct (notify_and_receive_with F G cap c2 [] up' inn Hr2)
    as (a&c'&inn'&s3&cbs&Hrun3&Hr3&Hk3&Ht3&?&?&?&Hic&Hoc&Hcb&Hfin).
  { unfold in_cap. by rewrite Hip. }
  apply transmit_keeps in Hf as (?&?&?&Hic'&Hoc').
  exists a, c', [], up', inn', cbs.
  split_and!; [done|done|by etrans|unfold deadline_keeps; split_and!; congruence|congruence|].
  destruct (write_ok (wr (actor (connector c2)))) eqn:Hw.
  - destruct Hfin as (l&Hrec&->&->). by eapply deadline_done.
  - destruct Hfin as (->&->&->&->). by eapply deadline_notify.
Qed.

(** The same with no call under way. *)
Lemma at_deadline_spec c out up inn :
  repr c out up inn → tc_handling (timer_context c) →
  Duration_wf (tc_prev (timer_context c)) →
  ∃ a c' out' up' inn' cbs, at_deadline c = Ret (a, c') ∧ repr c' out' up' inn' ∧
    deadline_keeps c c' ∧ callbacks c' = callbacks c ++ cbs ∧
    deadline_spec (address c) (tc_prev (timer_context c)) (tc_next (timer_context c))
      (in_cap c) out up inn (actor (connector c)) a out' up' inn' (actor (connector c')) cbs.
Proof.
  intros Hr Hh Hp. destruct (at_deadline_with [] [] (in_cap c) c out up inn Hr eq_refl Hh Hp)
    as (a&c'&out'&up'&inn'&cbs&?&?&_&?&?&?). by exists a, c', out', up', inn', cbs.
Qed.

(** A deadline always returns and leaves the timer to its handler. *)
Lemma at_deadline_returns c out up inn :
  repr c out up inn → tc_handling (timer_context c) →
  Duration_wf (tc_prev (timer_context c)) →
  ∃ a c', at_deadline c = Ret (a, c') ∧ timer_context c' = timer_context c.
Proof.
  intros Hr Hh Hp.
  destruct (at_deadline_spec c out up inn Hr Hh Hp) as (a&c'&_&_&_&_&Hrun&_&(_&Et&_)&_).
  by exists a, c'.
Qed.
End at_deadline.
