(* ===== verification/ContextInit.v ===== *)
(** * ContextInit: creating and starting a context

    [Context::new] builds the pools, the queue and the message set with the
    same number of slots, which the invariant of the context depends on;
    [Context::start] reads the first deadline, once. *)
From S2P Require Import Prelude Std BufferPool BytesBuffer Wire FbBuffer Connector.
From S2P Require Import ConnectorSpec OutputMsgSet WaitfreeArrayQueue Chrono Error Timer.
From S2P Require Import Context ContextSpec DeadlineSpec.
From stdpp Require Import base option list numbers.
From Stdlib Require Import ZArith Lia Strings.Byte.

Section init.
Context {T : Type} {Q : Type → Type} `{FL : FlatBuffersLaws, CH : Chrono}
  `{TM : !Timer T, TL : !TimerLaws T, AQ : ArrayQueueLaws Q}.
Implicit Types (c : Context T Q).

Lemma create_send_packet_spec f t src dst v :
  fbb_fresh f → out_view_wf (WSend t src dst v) →
  ∃ f', create_send_packet_from_payload t src dst v f = Ret (tt, f') ∧
    holds f' (WSend t src dst v).
Proof.
  intros [Hf Hu] Hwf. unfold create_send_packet_from_payload.
  pose proof (create_vector_adds v f Hf ltac:(apply Hwf)) as (Hb&Hd&_&Hu1).
  unfold mbind, M_bind, fb_create. destruct (create_vector v f) as [o f1]. simpl in *.
  apply finish_send_packet_spec; (done || lia).
Qed.

Lemma MsgFbInitializer_init_run n :
  (Z.of_nat n ≤ 2 ^ 20)%Z → ∃ f, MsgFbInitializer_init n = Ret f ∧ fbb_fresh f.
Proof.
  intros Hn. unfold MsgFbInitializer_init.
  destruct (create_send_packet_spec (fbb_with_capacity n) (NANOS_PER_SEC + 1)%Z 1 1
    (replicate n x01)) as (f1&->&_); [apply with_capacity_building| |].
  { split_and!; [done..|]. unfold payload_wf. by rewrite length_replicate. }
  simpl. destruct (create_at_deadline_spec _ (reset_building f1)) as (f2&->&_). simpl.
  eexists. split; [done|]. apply reset_building.
Qed.

Lemma FbBuilder_calloc_run bs n :
  (Z.of_nat bs ≤ 2 ^ 20)%Z →
  ∃ l, FbBuilder_calloc (I := MsgFbInitializer) bs n = Ret l.
Proof.
  intros Hbs. destruct (MsgFbInitializer_init_run bs Hbs) as (f&Hf&_).
  induction n as [|n [l Hl]]; [by exists []|]. simpl. rewrite Hf. simpl. rewrite Hl. by eexists.
Qed.

Lemma FbPool_new_run bs n :
  (Z.of_nat bs ≤ 2 ^ 20)%Z →
  ∃ l, BufferPool_new (T := FbBuffer) bs n = Ret (mk_pool bs l (replicate n false)).
Proof.
  intros Hbs. destruct (FbBuilder_calloc_run bs n Hbs) as (l&Hl). exists l.
  unfold BufferPool_new. simpl. by rewrite Hl.
Qed.

Lemma BytesPool_new_run bs n :
  (Z.of_nat (bs * n) ≤ isize_max)%Z →
  ∃ p, BufferPool_new (T := BytesBuffer) bs n = Ret p ∧
    pool_inv (T := BytesBuffer) p [] ∧ buffer_size p = bs ∧ length (buffer_busy p) = n.
Proof.
  intros Hmax. destruct (BufferPool_new (T := BytesBuffer) bs n) as [p| |] eqn:Hp.
  2,3: unfold BufferPool_new in Hp; simpl in Hp; unfold BytesBuffer_calloc in Hp;
    by rewrite (proj2 (Z.leb_le _ _)) in Hp by lia.
  destruct (pool_inv_new _ _ _ Hp) as [Hpi Hlen]. exists p. split_and!; try done.
  unfold BufferPool_new in Hp. simpl in Hp. destruct (BytesBuffer_calloc bs n); [by injection Hp as <-|done..].
Qed.

(** [Context::new], when the socket, the timer and the registration are
    there: a context with nothing pending and [n] buffers per direction. *)
Lemma Context_new_spec addr n s tm :
  in_u32 addr → 0 < n → (Z.of_nat (MAX_PACKET_SIZE * n) ≤ isize_max)%Z →
  ∃ c, Context_new addr n (Ok s) (Ok tm) (Ok tt) = Ret (Ok c) ∧
    repr c [] [] [] ∧ in_cap c = n ∧ out_cap c = n ∧ address c = addr ∧
    actor (connector c) = s ∧ timer_context c = tm ∧ start_once c = false ∧ callbacks c = [].
Proof.
  intros Ha Hn Hmax. unfold Context_new, UnixConnector_new.
  destruct (BytesPool_new_run MAX_PACKET_SIZE n Hmax) as (ip&Hip&Hpi&Hbs&Hlen).
  destruct (MsgFbInitializer_init_run MAX_PACKET_SIZE ltac:(unfold MAX_PACKET_SIZE; lia))
    as (f&Hf&_).
  destruct (wq_new (I := DeliverPacket) n Hn) as (q&Hq&Hqe&Hqc).
  destruct (FbPool_new_run MAX_PACKET_SIZE n ltac:(unfold MAX_PACKET_SIZE; lia)) as (l&Hop).
  rewrite Hip. simpl. rewrite Hf. simpl. rewrite Hq. simpl. rewrite Hop. simpl.
  eexists. split; [done|]. destruct (pool_inv_new _ _ _ Hop) as [Hpo _].
  unfold in_cap, out_cap. simpl. rewrite Hlen, length_replicate.
  split_and!; try done. split; [done|split].
  - unfold out_repr. simpl. rewrite set_msgs_new, !length_replicate.
    split_and!; try done; [apply set_wf_new|constructor..].
  - unfold in_repr. simpl. rewrite Hqe, Hqc, Hlen.
    by split_and!.
Qed.

(** The context after [start] consumed the first message up to [l]. *)
Definition started (l : bytes) (c c' : Context T Q) : Prop :=
  start_once c' = true ∧ address c' = address c ∧
  actor (connector c') = set_rx l (actor (connector c)) ∧
  in_cap c' = in_cap c ∧ out_cap c' = out_cap c.

(** [Context::start] on every branch.  A message that is not a deadline is a
    protocol violation, and its buffer is free again; whatever happened, a
    second call does nothing. *)
Lemma Context_start_spec c out up inn :
  repr c out up inn →
  if start_once c then Context_start c = Ret (Err AlreadyStarted, c)
  else
    let '(v, l) := recv_spec MAX_PACKET_SIZE (length inn =? in_cap c)
                     (rx_end (actor (connector c))) (rx (actor (connector c))) in
    match v with
    | Ok (VGoto d) =>
        ∀ r tm, tc_start d (timer_context c) = Ret (r, tm) →
        ∃ c', Context_start c = Ret (map_err IoError r, c') ∧ repr c' out up inn ∧
          started l c c' ∧ timer_context c' = tm ∧
          callbacks c' = callbacks c ++ [DeadlineCallback d]
    | Ok _ =>
        ∃ c', Context_start c = Ret (Err ProtocolViolation, c') ∧ repr c' out up inn ∧
          started l c c' ∧ timer_context c' = timer_context c ∧ callbacks c' = callbacks c
    | Err e =>
        ∃ c', Context_start c = Ret (Err (IoError e), c') ∧ repr c' out up inn ∧
          started l c c' ∧ timer_context c' = timer_context c ∧ callbacks c' = callbacks c
    end.
Proof.
  intros Hr. unfold Context_start. erewrite bind_run by done. cbn beta.
  destruct (start_once c) eqn:Hs; [done|]. erewrite bind_run by done.
  set (c0 := set_start_once true c). assert (repr c0 out up inn) as Hr0 by exact Hr.
  pose proof (connector_recv_spec [] [] (in_cap c0) c0 out up inn Hr0 eq_refl) as Hrecv.
  change (in_cap c0) with (in_cap c) in Hrecv.
  change (actor (connector c0)) with (actor (connector c)) in Hrecv.
  destruct (recv_spec _ _ _ _) as [v l].
  destruct Hrecv as (r&c1&Hrun&(Ea&Et&Eo&Eg&Eu&Es&Ec&Ei)&Hact&Hq&Hsc&Hsh&Hres).
  assert (∀ (p : BytesPool) (k : UnixConnector), input_buffer_pool k = p →
    pool_inv p (deliver_inner <$> wq_elems (input_queue c0)) →
    same_contents (deliver_inner <$> wq_elems (input_queue c0))
      (input_buffer_pool (connector c0)) p → same_shape (input_buffer_pool (connector c0)) p →
    repr (set_connector k c1) out up inn) as Hsame.
  { intros p k Hk Hp Hc Hp'. destruct Hr0 as (Ha&Ho&Hi). split; [by rewrite <- Ea in Ha|].
    simpl. rewrite Ea, Eo, Eg, Eu, Hq, Hk. split; [done|]. by eapply in_repr_same. }
  assert (started l c c1) as Hst.
  { unfold started, in_cap, out_cap. rewrite Eo. by split_and!. }
  assert (set_connector (connector c1) c1 = c1) as Heta by (by destruct c1).
  destruct v as [[src dst v|d|]|e].
  - destruct Hres as (b&->&Hp&_). erewrite try_run_Ok by exact Hrun.
    destruct (Buffer_drop_spec _ _ _ Hp) as (p'&Hdrop&Hp'&Hs'&Hz&Hl).
    erewrite bind_run by (apply zoom_run; exact Hdrop).
    eexists. split; [done|]. split_and!; [| |done|done].
    + eapply Hsame; [done|done|by eapply same_contents_trans|]. etrans; [exact Hsh|by split].
    + destruct Hst as (?&?&?&Hic&?). split_and!; try done. unfold in_cap in *. simpl. congruence.
  - destruct Hres as [-> Hp]. intros r tm Hstart. erewrite try_run_Ok by exact Hrun.
    cbv beta iota. erewrite bind_run by done.
    assert (repr c1 out up inn) as Hr1 by (rewrite <- Heta; by eapply Hsame).
    destruct r as [o|e].
    + erewrite try_run_Ok by (apply zoom_run; simpl; rewrite Et; exact Hstart).
      eexists. split; [done|]. split_and!; [exact Hr1|done|done|simpl; by rewrite Ec].
    + erewrite try_run_Err by (apply zoom_run; simpl; rewrite Et; exact Hstart).
      eexists. split; [done|]. split_and!; [exact Hr1|done|done|simpl; by rewrite Ec].
  - destruct Hres as [-> Hp]. erewrite try_run_Ok by exact Hrun. exists c1.
    split_and!; try done. rewrite <- Heta. by eapply Hsame.
  - destruct Hres as [-> Hp]. erewrite try_run_Err by exact Hrun. exists c1.
    split_and!; try done. rewrite <- Heta. by eapply Hsame.
Qed.
End init.
