(* ===== verification/TestActor.v ===== *)
(** * TestActor: the scripted coordinator of the test helpers

    [connector/unix.rs], module [test_helpers].  The client is developed
    against an actor: a child process that accepts the client's connection and
    runs a script which sends and receives protocol messages.  A script is an
    interaction tree, since it blocks on the messages of a client that answers
    to it, and may loop as long as the client lives; its events are a call that
    returns at once and a receive.  [run_actor] executes a script until it
    returns or has to wait for the client. *)
From S2P Require Import Prelude Std BufferPool BytesBuffer Wire FbBuffer Connector.
From S2P Require Import ConnectorSpec ConnectorPeer ContextInit OutputMsgSet Error.
From stdpp Require Import base option list strings.
From Stdlib Require Import ZArith Lia.
From ITree Require Core.ITreeDefinition.

Abbreviation itree := ITreeDefinition.itree.
Abbreviation loop := ITreeDefinition.ITree.iter.
Abbreviation trigger := ITreeDefinition.ITree.trigger.
Abbreviation observe := ITreeDefinition.observe.

#[export] Instance itree_ret E : MRet (itree E) := λ A a,
  ITreeDefinition.go (ITreeDefinition.RetF a).
#[export] Instance itree_bind E : MBind (itree E) := λ A B f t, ITreeDefinition.ITree.bind t f.

(** ** The error of a script: what failed and where *)
Record ActorError := mk_actor_error { ae_error : Error; ae_context : string }.
Abbreviation TestResult A := (result A ActorError).

#[export] Instance ActorError_fmt `{Display io_error} : Display ActorError := λ self,
  s ← fmt (ae_error self); Ret (ae_context self +:+ ": " +:+ s).

Definition ACTOR_FAILURE_EXIT_CODE : Z := 123.

Definition check {A E} `{From E Error} (r : result A E) (context : string) : TestResult A :=
  map_err (λ e, mk_actor_error (from e) context) r.

Definition no_match : io_error := Custom InvalidData "Values do not match".

Definition check_eq {A} `{PartialEq A} (left right : A) (context : string) : TestResult unit :=
  check (if partial_eq left right then Ok tt else Err no_match) context.

(** ** TestActor *)
Record TestActor `{FlatBuffers} := mk_test_actor {
  client : UnixStream;
  ta_input_buffer_pool : BytesPool;
  ta_input_fb_buffer_pool : FbPool;
}.
Arguments mk_test_actor {_} _ _ _.

Section test_actor.
Context `{FlatBuffers}.

Definition TestActor_new (client : UnixStream) : outcome TestActor :=
  input_buffer_pool ← BufferPool_new (T := BytesBuffer) MAX_PACKET_SIZE 100;
  input_fb_buffer_pool ← BufferPool_new (T := FbBuffer) MAX_PACKET_SIZE 100;
  Ret (mk_test_actor client input_buffer_pool input_fb_buffer_pool).

(** The pool of a message that carries no packet. *)
Definition no_packets : BytesPool := mk_pool 0 [] [].

(** [send] consumes its message; [q] is the pool the packet in it borrows
    from, which the script owns and drops. *)
Definition TestActor_send (q : BytesPool) (msg : MsgIn) : M TestActor (TestResult unit) := λ a,
  '(r, (w, p, _)) ← MsgIn_send msg (client a, ta_input_fb_buffer_pool a, q);
  Ret (check r "Send failed", mk_test_actor w (ta_input_buffer_pool a) p).

Definition TestActor_recv : M TestActor (TestResult MsgOut) :=
  r ← zoom (λ a, (client a, ta_input_fb_buffer_pool a, ta_input_buffer_pool a))
        (λ '(w, p, q) _, mk_test_actor w q p) MsgOut_recv;
  mret (check r "Recv failed").

(** Dereferencing an actor gives its socket. *)
Definition on_client {A} : M UnixStream A → M TestActor A :=
  zoom client (λ w a, mk_test_actor w (ta_input_buffer_pool a) (ta_input_fb_buffer_pool a)).

(** Dropping a message that was received. *)
Definition drop_out (msg : MsgOut) : M TestActor unit :=
  match msg with
  | MsgOut_AtDeadline => mret tt
  | MsgOut_SendPacket pkt =>
      zoom ta_input_fb_buffer_pool
        (λ p a, mk_test_actor (client a) (ta_input_buffer_pool a) p)
        (Buffer_drop (send_inner pkt))
  end.

(** ** Scripts *)
Inductive actorE : Type → Type :=
  | Act {A} (m : M TestActor A) : actorE A
  | Recv : actorE (TestResult MsgOut).

Definition script : Type := itree actorE (TestResult unit).
Definition act {A} (m : M TestActor A) : itree actorE A := trigger (Act m).
Definition actor_recv : itree actorE (TestResult MsgOut) := trigger Recv.

(** The [?] operator of a script. *)
Definition try_t {A B} (t : itree actorE (TestResult A)) (k : A → itree actorE (TestResult B)) :
    itree actorE (TestResult B) :=
  r ← t; match r with Ok a => k a | Err e => mret (Err e) end.

Definition actor_send (msg : MsgIn) : script := act (TestActor_send no_packets msg).

Definition dummy_actor : script := mret (Ok tt).

(** ** Running a script

    [would_block] is the end of a stream whose peer is still connected: a
    receive that reaches it waits.  A receive that waits starts again when
    bytes have come, which has the same result, since nothing else touches the
    stream and the pools of the actor.  [Waiting k] is a script that waits for
    a message and goes on with [k]. *)
Inductive run_state (R : Type) :=
  | Waiting (k : TestResult MsgOut → itree actorE R)
  | Finished (r : R).

Definition await {R} (k : TestResult MsgOut → itree actorE R) : itree actorE R :=
  ITreeDefinition.go (ITreeDefinition.VisF Recv k).
End test_actor.
Arguments Waiting {_ _} _.
Arguments Finished {_ _} _.

Notation "x '←!' m ; k" := (try_t m (λ x, k))
  (at level 20, m at level 100, k at level 200, right associativity,
   format "x  '←!'  m ;  '/' k") : rust_scope.

Definition would_block : io_error := Os 11.

Section run.
Context `{FlatBuffers}.

Definition blocks {A} (r : TestResult A) : bool :=
  match r with Err e => bool_decide (ae_error e = IoError would_block) | Ok _ => false end.

Fixpoint run_actor {R} (fuel : nat) (t : itree actorE R) : M TestActor (run_state R) := λ a,
  match fuel with
  | O => OutOfFuel
  | S fuel =>
      match observe t with
      | ITreeDefinition.RetF r => Ret (Finished r, a)
      | ITreeDefinition.TauF t => run_actor fuel t a
      | ITreeDefinition.VisF e k =>
          match e in actorE X return (X → itree actorE R) → outcome (run_state R * TestActor) with
          | Act m => λ k, '(x, a') ← m a; run_actor fuel (k x) a'
          | Recv => λ k,
              '(r, a') ← TestActor_recv a;
              if blocks r then Ret (Waiting k, a) else run_actor fuel (k r) a'
          end k
      end
  end.

(** [TestActor::run]: [accept] is the outcome of [UnixListener::accept]. *)
Inductive actor_process :=
  | Blocked (k : TestResult MsgOut → script) (a : TestActor)
  | Draining (a : TestActor)
  | Exited (code : Z).

(** The exit code of the child process. *)
Definition exit_code (r : TestResult unit) : Z :=
  match r with Err _ => ACTOR_FAILURE_EXIT_CODE | Ok _ => 0%Z end.

(** A script that succeeded closes its side of the connection and reads until
    the client closes the other one; [shutdown] is the outcome of the first. *)
Definition after_script (shutdown : result unit io_error) (s : run_state (TestResult unit))
    (a : TestActor) : actor_process :=
  match s with
  | Waiting k => Blocked k a
  | Finished (Err e) => Exited (exit_code (Err e))
  | Finished (Ok _) => if is_ok shutdown then Draining a else Exited (exit_code (Ok tt))
  end.

Definition TestActor_run (fuel : nat) (accept : result UnixStream io_error)
    (shutdown : result unit io_error) (actor_fn : script) : outcome actor_process :=
  match accept with
  | Err e => Ret (Exited (exit_code (Err (mk_actor_error (from e) "Failed to accept connection"))))
  | Ok client =>
      actor ← TestActor_new client;
      '(s, a) ← run_actor fuel actor_fn actor;
      Ret (after_script shutdown s a)
  end.
End run.

(** ** TestActorDesc: the test's handle on the actor process

    The results of the system calls are arguments. *)
Record TestActorDesc := mk_desc { socket_path : string; pid : option Z }.

Inductive WaitStatus :=
  | WaitExited (pid status : Z)
  | WaitOther.

Definition io_kind (e : io_error) : option ErrorKind :=
  match e with Custom k _ => Some k | Os 2 => Some NotFound | Os _ => None end.

Definition remove_file_if_present (remove : result unit io_error) : result unit io_error :=
  match remove with
  | Err e => if bool_decide (io_kind e = Some NotFound) then Ok tt else Err e
  | Ok _ => Ok tt
  end.

(** In the parent process; [child] is the process that [fork] made. *)
Definition TestActorDesc_new (path : string) (remove bind : result unit io_error)
    (fork : result Z io_error) : outcome TestActorDesc :=
  match remove_file_if_present remove, bind, fork with
  | Ok _, Ok _, Ok child => Ret (mk_desc path (Some child))
  | _, _, _ => Panic UnwrapOnErr
  end.

Definition TestActorDesc_wait (waitpid : Z → result WaitStatus io_error) :
    M TestActorDesc (result Z unit) :=
  p ← gets pid;
  match p with
  | None => mret (Err tt)
  | Some pid =>
      match waitpid pid with
      | Err _ => panic UnwrapOnErr
      | Ok (WaitExited _ status) =>
          _ ← modify (λ d, mk_desc (socket_path d) None); mret (Ok status)
      | Ok WaitOther => mret (Err tt)
      end
  end.

(** The process a drop kills and reaps, if any. *)
Definition TestActorDesc_drop (remove : result unit io_error) (d : TestActorDesc) :
    outcome (option Z) :=
  match remove_file_if_present remove with
  | Err _ => Panic UnwrapOnErr
  | Ok _ => Ret (pid d)
  end.

(** ** Lemmas *)
Lemma observe_bind {E A B} (t : itree E A) (k : A → itree E B) :
  observe (t ≫= k) =
    match observe t with
    | ITreeDefinition.RetF r => observe (k r)
    | ITreeDefinition.TauF t => ITreeDefinition.TauF (t ≫= k)
    | ITreeDefinition.VisF e h => ITreeDefinition.VisF e (λ x, h x ≫= k)
    end.
Proof.
  transitivity (observe (match observe t with
    | ITreeDefinition.RetF r => k r
    | ITreeDefinition.TauF t => ITreeDefinition.go (ITreeDefinition.TauF (t ≫= k))
    | ITreeDefinition.VisF e h =>
        ITreeDefinition.go (ITreeDefinition.VisF e (λ x, h x ≫= k))
    end)); [reflexivity|]. by destruct (observe t).
Qed.

Lemma observe_iter {E A B} (f : A → itree E (A + B)) i :
  observe (loop f i) = observe (f i ≫= λ lr,
    match lr with
    | inl j => ITreeDefinition.go (ITreeDefinition.TauF (loop f j))
    | inr r => mret r
    end).
Proof. reflexivity. Qed.

(** ** What a script does, without fuel *)
Section runs.
Context `{FlatBuffers}.

Inductive runs {R} : itree actorE R → TestActor → run_state R → TestActor → Prop :=
  | runs_ret t r a : observe t = ITreeDefinition.RetF r → runs t a (Finished r) a
  | runs_tau t t' a s a' : observe t = ITreeDefinition.TauF t' → runs t' a s a' → runs t a s a'
  | runs_act t A (m : M TestActor A) k x a a1 s a' :
      observe t = ITreeDefinition.VisF (Act m) k → m a = Ret (x, a1) →
      runs (k x) a1 s a' → runs t a s a'
  | runs_recv t k r a a1 s a' :
      observe t = ITreeDefinition.VisF Recv k → TestActor_recv a = Ret (r, a1) →
      blocks r = false → runs (k r) a1 s a' → runs t a s a'
  | runs_wait t k r a a1 :
      observe t = ITreeDefinition.VisF Recv k → TestActor_recv a = Ret (r, a1) →
      blocks r = true → runs t a (Waiting k) a.

(** [run_actor] returns it once the fuel is enough. *)
Lemma runs_run {R} (t : itree actorE R) a s a' :
  runs t a s a' → ∃ n, ∀ fuel, n ≤ fuel → run_actor fuel t a = Ret (s, a').
Proof.
  induction 1 as [t r a Ho|t t' a s a' Ho _ [n IH]|t A m k x a a1 s a' Ho Hm _ [n IH]
    |t k r a a1 s a' Ho Hr Hb _ [n IH]|t k r a a1 Ho Hr Hb].
  1,5: exists 1.
  3-5: exists (S n).
  all: intros [|fuel] Hf; [lia|]; simpl; rewrite Ho; try done.
  - by rewrite Hr; simpl; rewrite Hb.
  - apply IH. lia.
  - rewrite Hm. apply IH. lia.
  - rewrite Hr. simpl. rewrite Hb. apply IH. lia.
Qed.

(** Conversely, what [run_actor] returns is a run. *)
Lemma run_runs {R} fuel (t : itree actorE R) a s a' :
  run_actor fuel t a = Ret (s, a') → runs t a s a'.
Proof.
  revert t a. induction fuel as [|fuel IH]; intros t a; [done|]. simpl.
  destruct (observe t) as [r|t'|X e k] eqn:Ho.
  - intros [= <- <-]. by apply runs_ret.
  - intros. eapply runs_tau; eauto.
  - destruct e as [A m|].
    + destruct (m a) as [[x a1]| |] eqn:Hm; [|done..]. intros. eapply runs_act; eauto.
    + destruct (TestActor_recv a) as [[r a1]| |] eqn:Hr; [|done..]. simpl.
      destruct (blocks r) eqn:Hb; [intros [= <- <-]; by eapply runs_wait|].
      intros. eapply runs_recv; eauto.
Qed.

Lemma run_actor_mono {R} n m (t : itree actorE R) a x :
  run_actor n t a = Ret x → n ≤ m → run_actor m t a = Ret x.
Proof.
  revert m t a. induction n as [|n IH]; intros [|m] t a; [done..|lia|]. simpl. intros Hrun Hle.
  destruct (observe t) as [r|t'|X e k]; [done|apply IH; [done|lia]|].
  destruct e as [A f|].
  - destruct (f a) as [[y a1]| |]; [|done..]. apply IH; [done|lia].
  - destruct (TestActor_recv a) as [[r a1]| |]; [|done..]. simpl in *.
    destruct (blocks r); [done|]. apply IH; [done|lia].
Qed.

Lemma runs_observe {R} (t t' : itree actorE R) a s a' :
  observe t' = observe t → runs t a s a' → runs t' a s a'.
Proof.
  intros Heq Hr. destruct Hr; rewrite <- Heq in *.
  - by apply runs_ret.
  - by eapply runs_tau.
  - by eapply runs_act.
  - by eapply runs_recv.
  - by eapply runs_wait.
Qed.
End runs.

(** ** Running a script step by step

    [leads t a t' a']: the script [t], run by the actor [a], comes to [t'] with
    the actor [a']. *)
Section leads.
Context `{FlatBuffers}.

Inductive leads {R} : itree actorE R → TestActor → itree actorE R → TestActor → Prop :=
  | leads_observe t t' a : observe t = observe t' → leads t a t' a
  | leads_tau t t1 t' a a' :
      observe t = ITreeDefinition.TauF t1 → leads t1 a t' a' → leads t a t' a'
  | leads_act t A (m : M TestActor A) k x a a1 t' a' :
      observe t = ITreeDefinition.VisF (Act m) k → m a = Ret (x, a1) →
      leads (k x) a1 t' a' → leads t a t' a'
  | leads_recv t k r a a1 t' a' :
      observe t = ITreeDefinition.VisF Recv k → TestActor_recv a = Ret (r, a1) →
      blocks r = false → leads (k r) a1 t' a' → leads t a t' a'.

Lemma leads_refl {R} (t : itree actorE R) a : leads t a t a.
Proof. by apply leads_observe. Qed.

Lemma observe_leads {R} (t u t' : itree actorE R) a a' :
  observe u = observe t → leads t a t' a' → leads u a t' a'.
Proof.
  intros Ho. destruct 1; rewrite <- Ho in *;
    [by apply leads_observe|by eapply leads_tau|by eapply leads_act|by eapply leads_recv].
Qed.

Lemma leads_trans {R} (t1 t2 t3 : itree actorE R) a1 a2 a3 :
  leads t1 a1 t2 a2 → leads t2 a2 t3 a3 → leads t1 a1 t3 a3.
Proof.
  induction 1; intros; [by eapply observe_leads|by eapply leads_tau; eauto
    |by eapply leads_act; eauto|by eapply leads_recv; eauto].
Qed.

Lemma leads_runs {R} (t t' : itree actorE R) a a' s a'' :
  leads t a t' a' → runs t' a' s a'' → runs t a s a''.
Proof.
  induction 1; intros; [by eapply runs_observe|by eapply runs_tau; eauto
    |by eapply runs_act; eauto|by eapply runs_recv; eauto].
Qed.

Lemma leads_finished {R} (t : itree actorE R) r a a' :
  leads t a (mret r) a' → runs t a (Finished r) a'.
Proof. intros Hl. eapply leads_runs; [exact Hl|]. by apply runs_ret. Qed.

(** The rest of a sequence waits while its first part runs. *)
Lemma leads_bind {R S} (t t' : itree actorE R) (k : R → itree actorE S) a a' :
  leads t a t' a' → leads (t ≫= k) a (t' ≫= k) a'.
Proof.
  induction 1 as [t t' a Ho|t t1 t' a a' Ho _ IH|t A m h x a a1 t' a' Ho Hm _ IH
    |t h r a a1 t' a' Ho Hr Hb _ IH].
  - apply leads_observe. by rewrite !observe_bind, Ho.
  - eapply leads_tau; [by rewrite observe_bind, Ho|done].
  - eapply leads_act; [by rewrite observe_bind, Ho|done..].
  - eapply leads_recv; [by rewrite observe_bind, Ho|done..].
Qed.

Lemma leads_next {R S} (t : itree actorE R) (k : R → itree actorE S) r a a1 t' a' :
  leads t a (mret r) a1 → leads (k r) a1 t' a' → leads (t ≫= k) a t' a'.
Proof.
  intros Ht Hk. eapply leads_trans; [by apply leads_bind|].
  eapply observe_leads; [|exact Hk]. by rewrite observe_bind.
Qed.

Lemma leads_do {A} (m : M TestActor A) x a a' :
  m a = Ret (x, a') → leads (act m) a (mret x) a'.
Proof. intros. eapply leads_act; [done|done|]. apply leads_refl. Qed.

Lemma leads_actor_recv r a a' :
  TestActor_recv a = Ret (r, a') → blocks r = false → leads actor_recv a (mret r) a'.
Proof. intros. eapply leads_recv; [done..|]. apply leads_refl. Qed.

(** One turn of a loop. *)
Definition loop_next {A R} (f : A → itree actorE (A + R)) (lr : A + R) : itree actorE R :=
  match lr with
  | inl j => ITreeDefinition.go (ITreeDefinition.TauF (loop f j))
  | inr r => mret r
  end.

Lemma leads_loop {A R} (f : A → itree actorE (A + R)) i a :
  leads (loop f i) a (f i ≫= loop_next f) a.
Proof. by apply leads_observe. Qed.

Lemma leads_loop_again {A R} (f : A → itree actorE (A + R)) j a :
  leads (loop_next f (inl j)) a (loop f j) a.
Proof. eapply leads_tau; [done|]. apply leads_refl. Qed.

(** A script that waits. *)
Lemma runs_blocked {R} (t : itree actorE R) k r a a1 :
  observe t = ITreeDefinition.VisF Recv k → TestActor_recv a = Ret (r, a1) →
  blocks r = true → runs t a (Waiting k) a.
Proof. intros. by eapply runs_wait. Qed.

Lemma runs_await {R} (t : itree actorE R) k a s a' :
  observe t = ITreeDefinition.VisF Recv k → runs t a s a' → runs (await k) a s a'.
Proof. intros Ho. by apply runs_observe. Qed.
End leads.
