(* ===== verification/ActorSpec.v ===== *)
(** * ActorSpec: what the operations of a test actor do

    [actor_ok a] says that an actor holds no buffer.  Sending a message adds
    one frame to its stream; receiving takes the frame at the head of the
    stream, and waits on an empty one. *)
From S2P Require Import Prelude Std BufferPool BytesBuffer Wire FbBuffer Connector.
From S2P Require Import ConnectorSpec ConnectorPeer Chrono Timer Context ContextInit.
From S2P Require Import OutputMsgSet Error TestActor.
From stdpp Require Import base option list strings.
From Stdlib Require Import ZArith Lia.

Section actor_spec.
Context `{FlatBuffersLaws}.

Definition actor_ok (a : TestActor) : Prop :=
  pool_inv (T := BytesBuffer) (ta_input_buffer_pool a) [] ∧
  pool_inv (T := FbBuffer) (ta_input_fb_buffer_pool a) [] ∧
  buffer_size (ta_input_buffer_pool a) = MAX_PACKET_SIZE ∧
  buffer_size (ta_input_fb_buffer_pool a) = MAX_PACKET_SIZE ∧
  length (buffer_busy (ta_input_buffer_pool a)) = 100 ∧
  length (buffer_busy (ta_input_fb_buffer_pool a)) = 100.

(** The actor with another stream, and what it has received. *)
Definition with_client (s : UnixStream) (a : TestActor) : TestActor :=
  mk_test_actor s (ta_input_buffer_pool a) (ta_input_fb_buffer_pool a).

Lemma TestActor_new_spec s : ∃ a, TestActor_new s = Ret a ∧ client a = s ∧ actor_ok a.
Proof.
  unfold TestActor_new.
  destruct (BytesPool_new_run MAX_PACKET_SIZE 100 ltac:(unfold MAX_PACKET_SIZE, isize_max; lia))
    as (ip&->&?&?&?).
  destruct (FbPool_new_run MAX_PACKET_SIZE 100 ltac:(unfold MAX_PACKET_SIZE; lia)) as (l&Hop).
  destruct (pool_inv_new _ _ _ Hop) as [Hpo _].
  cbn [mbind outcome_bind]. rewrite Hop. cbn [mbind outcome_bind].
  eexists. split; [done|]. split; [done|]. by split_and!.
Qed.

(** A message without a packet, or with a packet of the pool [q]. *)
Lemma TestActor_send_spec a q LQ msg v :
  actor_ok a → wr (client a) = [] → msg_is q LQ msg v → in_view_wf v →
  ∃ l a', TestActor_send q msg a = Ret (Ok tt, a') ∧ actor_ok a' ∧ frame_of v l ∧
    length l ≤ frame_bound (view_size v) ∧
    client a' = mk_stream (rx (client a)) (rx_end (client a)) (tx (client a) ++ l) [].
Proof.
  intros (Hq&Hp&?&Hz&?&Hb) Hw Hmsg Hwf.
  destruct (MsgIn_send_spec msg v (client a) (ta_input_fb_buffer_pool a) q [] LQ Hp)
    as (l&p'&q'&Hrun&Hf&Hlen&Hp'&[]); [simpl; lia| |done|done|].
  { rewrite Hz. unfold MAX_PACKET_SIZE. lia. }
  exists l. unfold TestActor_send. rewrite Hrun. unfold write_result, written. rewrite Hw.
  eexists. split; [done|]. split_and!; try done. unfold actor_ok. simpl.
  split_and!; try done; congruence.
Qed.

Lemma TestActor_recv_spec a w l rest :
  actor_ok a → encodes1 w l → out_view_wf w → rx (client a) = l ++ rest →
  frame_bound (out_size w) ≤ MAX_PACKET_SIZE + 4 →
  ∃ r a' a'', TestActor_recv a = Ret (Ok r, a') ∧ drop_out r a' = Ret (tt, a'') ∧
    actor_ok a'' ∧ client a'' = set_rx rest (client a) ∧
    match w with WAtDeadline => r = MsgOut_AtDeadline | WSend _ _ _ _ => ∃ p, r = MsgOut_SendPacket p end.
Proof.
  intros (Hq&Hp&Hz&Hzf&Hb&Hbf) Henc Hwf Hrx Hlen.
  destruct (encodes1_length _ _ Henc) as [_ Hl].
  destruct (MsgOut_recv_frame w l rest (client a) (ta_input_fb_buffer_pool a)
    (ta_input_buffer_pool a) [] [] Henc Hwf Hrx) as (r&p'&q'&Hrun&Hres&Hq'&[Hsp Hsq]&_);
    [lia|done|simpl; lia|done|simpl; lia|].
  assert (TestActor_recv a = Ret (Ok r, mk_test_actor (set_rx rest (client a)) q' p')) as Hrecv.
  { unfold TestActor_recv. by erewrite bind_run by (apply zoom_run; exact Hrun). }
  destruct Hsp, Hsq, w as [t src dst v|]; simpl in Hres.
  - destruct Hres as (b&f&->&Hpb&_&_).
    destruct (Buffer_drop_spec _ _ _ Hpb) as (p''&Hdrop&?&_&?&?).
    eexists _, _, _. split; [exact Hrecv|].
    split; [simpl; by erewrite zoom_run by exact Hdrop|].
    unfold actor_ok. simpl. split_and!; try done; [congruence..|by eexists].
  - destruct Hres as [-> Hp'].
    eexists _, _, _. split; [exact Hrecv|]. split; [done|].
    unfold actor_ok. simpl. split_and!; try done; congruence.
Qed.

(** On a stream that is empty and still open, a receive waits. *)
Lemma TestActor_recv_blocks a :
  rx (client a) = [] → rx_end (client a) = would_block →
  ∃ r a', TestActor_recv a = Ret (r, a') ∧ blocks r = true.
Proof.
  intros Hrx Hend. eexists (Err (mk_actor_error (IoError would_block) "Recv failed")), _.
  split; [|done].
  unfold TestActor_recv. erewrite bind_run; [|apply zoom_run; unfold MsgOut_recv;
    apply try_run_Err; apply zoom_run; simpl; rewrite read_prefixed_size_run, Hrx; done].
  by rewrite Hend.
Qed.
End actor_spec.
