(* ===== verification/TestHelpers.v ===== *)
(** * TestHelpers: the scripts and notifiers of the tests

    [tansiv-client/src/lib.rs], module [test_helpers]: the addresses, the
    scripts of the coordinator ([start_actor], [recv_one_msg_actor],
    [send_one_delayed_msg_actor], [send_one_msg_actor]) and the objects that
    record the callbacks. *)
From S2P Require Import Prelude Std BufferPool BytesBuffer Wire FbBuffer Connector.
From S2P Require Import ConnectorPeer OutputMsgSet Chrono Error VsgAddress Timer Context.
From S2P Require Import TestActor.
From stdpp Require Import base option list strings.
From Stdlib Require Import ZArith Lia Ascii.

(** ** Addresses *)
Definition local_vsg_address_str : list ascii :=
  ["1"; "0"; "."; "0"; "."; "0"; "."; "1"]%char.

Definition local_vsg_address : outcome Z :=
  ip ← unwrap (Ipv4Addr_from_str local_vsg_address_str);
  Ret (swap_bytes (u32_of_ipv4 ip)).

Definition remote_vsg_address : Z := swap_bytes (u32_of_ipv4 (mk_ipv4 10 0 1 1)).

(** ** Scripts *)
Definition START_ACTOR_DEADLINE : Duration := 100000%Z.
Definition RECV_ONE_MSG_ACTOR_SLICE : Duration := from_micros 100.
Definition SEND_ONE_MSG_ACTOR_DELAY_MICROS : Z := 100.
Definition SEND_ONE_MSG_ACTOR_DELAY : Duration := from_micros SEND_ONE_MSG_ACTOR_DELAY_MICROS.

Section scripts.
Context `{FlatBuffers, Profile}.

Definition start_actor : script :=
  _ ←! actor_send (MsgIn_GoToDeadline START_ACTOR_DEADLINE);
  actor_send MsgIn_EndSimulation.

(** One turn of the loop of [recv_one_msg_actor]: [inl] goes on with the next
    deadline, [inr] leaves the loop, by [break] or by the [?] operator. *)
Definition recv_one_msg_turn (deadline : Duration) :
    itree actorE (Duration + TestResult unit) :=
  deadline ← act (lift (Duration_add deadline RECV_ONE_MSG_ACTOR_SLICE));
  r ← actor_send (MsgIn_GoToDeadline deadline);
  match r with
  | Err e => mret (inr (Err e))
  | Ok _ =>
      r ← actor_recv;
      match r with
      | Err e => mret (inr (Err e))
      | Ok msg =>
          _ ← act (drop_out msg);
          match msg with
          | MsgOut_AtDeadline => mret (inl deadline)
          | MsgOut_SendPacket _ => mret (inr (Ok tt))
          end
      end
  end.

Definition recv_one_msg_actor : script :=
  _ ←! loop recv_one_msg_turn (from_micros 0);
  actor_send MsgIn_EndSimulation.

(** The packet of [send_one_delayed_msg_actor], in a pool of its own: a
    buffer of the size of the message, filled with the bytes of the builder. *)
Definition make_packet (src dst : Z) (msg : bytes) : outcome (TestResult (BytesPool * MsgIn)) :=
  '(_, builder) ← create_deliver_packet_unprefixed src dst msg (fbb_with_capacity 0);
  fb ← finished_data builder;
  buffer_pool ← BufferPool_new (T := BytesBuffer) (length fb) 1;
  '(r, buffer_pool) ← allocate_buffer (T := BytesBuffer) (Z.of_nat (length fb)) buffer_pool;
  match check r "Buffer allocation failed" with
  | Err e => Ret (Err e)
  | Ok buffer =>
      '(_, buffer_pool) ← Buffer_deref_mut buffer (modify (λ _, fb)) buffer_pool;
      '(r, buffer_pool) ← new_deliver_packet buffer buffer_pool;
      match r with
      | Err _ => Panic UnwrapOnErr
      | Ok packet => Ret (Ok (buffer_pool, packet))
      end
  end.

(** The inner loop: packets of the client are dropped until it is at the
    deadline. *)
Definition wait_at_deadline : itree actorE (TestResult unit) :=
  loop (λ _ : unit,
    r ← actor_recv;
    match r with
    | Err e => mret (inr (Err e))
    | Ok msg =>
        _ ← act (drop_out msg);
        match msg with
        | MsgOut_AtDeadline => mret (inr (Ok tt))
        | MsgOut_SendPacket _ => mret (inl tt)
        end
    end) tt.

(** One turn of the outer loop. *)
Definition send_delayed_turn (slice_micros delay_micros next_deadline_micros : Z) :
    itree actorE (Z + TestResult unit) :=
  if (next_deadline_micros <? delay_micros)%Z then
    r ← actor_send (MsgIn_GoToDeadline (from_micros next_deadline_micros));
    match r with
    | Err e => mret (inr (Err e))
    | Ok _ =>
        r ← wait_at_deadline;
        match r with
        | Err e => mret (inr (Err e))
        | Ok _ =>
            next_deadline_micros ← act (lift (add_u64 next_deadline_micros slice_micros));
            mret (inl next_deadline_micros)
        end
    end
  else mret (inr (Ok tt)).

Definition send_one_delayed_msg_actor (msg : bytes) (slice_micros delay_micros : Z) : script :=
  _ ←! loop (send_delayed_turn slice_micros delay_micros) slice_micros;
  _ ←! actor_send (MsgIn_GoToDeadline (from_micros delay_micros));
  src ← act (lift local_vsg_address);
  let dst := remote_vsg_address in
  p ←! act (lift (make_packet src dst msg));
  _ ←! act (TestActor_send p.1 p.2);
  actor_send MsgIn_EndSimulation.

Definition send_one_msg_actor (msg : bytes) : script :=
  send_one_delayed_msg_actor msg SEND_ONE_MSG_ACTOR_DELAY_MICROS SEND_ONE_MSG_ACTOR_DELAY_MICROS.
End scripts.

(** ** Notifiers

    [RecvNotifier] is a flag the callback raises; [wait] takes the number of
    times it finds the flag down. *)
Record RecvNotifier := mk_recv_notifier { notified : bool }.

Definition RecvNotifier_new : RecvNotifier := mk_recv_notifier false.
Definition RecvNotifier_notify : M RecvNotifier unit := modify (λ _, mk_recv_notifier true).
Fixpoint RecvNotifier_wait (fuel : nat) : M RecvNotifier unit :=
  match fuel with
  | O => out_of_fuel
  | S fuel =>
      b ← gets notified;
      if b : bool then modify (λ _, mk_recv_notifier false) else RecvNotifier_wait fuel
  end.

Record DeadlineNotifier := mk_deadline_notifier { dn_deadline : Duration; dn_num_called : Z }.

Definition INITIAL_DEADLINE : Duration := 0%Z.
Definition DeadlineNotifier_new : DeadlineNotifier := mk_deadline_notifier INITIAL_DEADLINE 0.
Definition DeadlineNotifier_notify (deadline : Duration) : M DeadlineNotifier unit :=
  modify (λ n, mk_deadline_notifier deadline (as_u64 (dn_num_called n + 1))).

(** What a deadline callback does to the data [D] it records. *)
Class DeadlineCallbacks (D : Type) := record_deadline : Duration → M D unit.
#[export] Instance DeadlineNotifier_callbacks : DeadlineCallbacks DeadlineNotifier :=
  DeadlineNotifier_notify.

(** The notifiers after the callbacks of a context. *)
Fixpoint run_callbacks {D} `{!DeadlineCallbacks D} (cbs : list callback) :
    M (RecvNotifier * D) unit :=
  match cbs with
  | [] => mret tt
  | RecvCallback :: cbs =>
      _ ← zoom fst (λ r '(_, d), (r, d)) RecvNotifier_notify; run_callbacks cbs
  | DeadlineCallback deadline :: cbs =>
      _ ← zoom snd (λ d '(r, _), (r, d)) (record_deadline deadline); run_callbacks cbs
  end.
