(* ===== verification/ScriptSpec.v ===== *)
(** * ScriptSpec: what the scripts of the test helpers do

    For each script of [TestHelpers], the code at which it waits for the
    client and what it does when the messages of a slice arrive. *)
From S2P Require Import Prelude Std BufferPool BytesBuffer Wire FbBuffer Connector.
From S2P Require Import ConnectorSpec ConnectorPeer Chrono Timer Context ContextInit.
From S2P Require Import OutputMsgSet Error VsgAddress TestActor ActorSpec TestHelpers.
From stdpp Require Import base option list strings.
From Stdlib Require Import ZArith Lia.

(** A message the actor can receive: its frame fits in a buffer. *)
Definition receivable (w : out_view) : Prop :=
  out_view_wf w ∧ frame_bound (out_size w) ≤ MAX_PACKET_SIZE + 4.

Lemma receivable_at_deadline : receivable WAtDeadline.
Proof. split; [done|]. unfold frame_bound, table_size, MAX_PACKET_SIZE. simpl. lia. Qed.

(** The bytes of one message to the client. *)
Definition frame_in `{FlatBuffers} (v : in_view) (l : bytes) : Prop :=
  frame_of v l ∧ length l ≤ frame_bound (view_size v).

Section steps.
Context `{FlatBuffersLaws}.

Definition plain (msg : MsgIn) (v : in_view) : Prop := msg_is no_packets [] msg v.

Lemma leads_send a q LQ msg v r e t :
  actor_ok a → client a = mk_stream r e t [] → msg_is q LQ msg v → in_view_wf v →
  ∃ l a', leads (act (TestActor_send q msg)) a (mret (Ok tt)) a' ∧ actor_ok a' ∧
    frame_in v l ∧ client a' = mk_stream r e (t ++ l) [].
Proof.
  intros Ha Hc Hm Hv. destruct (TestActor_send_spec a q LQ msg v Ha) as (l&a'&Hrun&Ha'&Hf&Hl&Hc');
    [by rewrite Hc|done|done|].
  exists l, a'. split_and!; [by apply leads_do|done|by split|by rewrite Hc', Hc].
Qed.

Lemma leads_plain a msg v r e t :
  actor_ok a → client a = mk_stream r e t [] → plain msg v → in_view_wf v →
  ∃ l a', leads (actor_send msg) a (mret (Ok tt)) a' ∧ actor_ok a' ∧
    frame_in v l ∧ client a' = mk_stream r e (t ++ l) [].
Proof. apply leads_send. Qed.

(** Receiving the next message of the client and dropping it. *)
Lemma leads_message {R} (f : ActorError → itree actorE R) (j : MsgOut → itree actorE R)
    a w l rest e t :
  actor_ok a → client a = mk_stream (l ++ rest) e t [] → encodes1 w l → receivable w →
  ∃ msg a', leads (r ← actor_recv;
        match r with Err e => f e | Ok msg => _ ← act (drop_out msg); j msg end)
      a (j msg) a' ∧ actor_ok a' ∧
    client a' = mk_stream rest e t [] ∧
    match w with WAtDeadline => msg = MsgOut_AtDeadline | _ => ∃ p, msg = MsgOut_SendPacket p end.
Proof.
  intros Ha Hc Henc [Hwf Hb].
  destruct (TestActor_recv_spec a w l rest Ha Henc Hwf) as (msg&a1&a2&Hrecv&Hdrop&Ha2&Hc2&Hmsg);
    [by rewrite Hc|done|].
  exists msg, a2. split_and!; [|done|by rewrite Hc2, Hc|done].
  eapply leads_next; [by apply leads_actor_recv|]. simpl.
  eapply leads_next; [by apply leads_do|]. apply leads_refl.
Qed.
End steps.

(** ** [recv_one_msg_actor] *)
Section recv_one.
Context `{FlatBuffersLaws}.

Definition recv_one_end (r : TestResult unit) : script :=
  match r with Ok _ => actor_send MsgIn_EndSimulation | Err e => mret (Err e) end.

(** The script at the head of its loop, and where it waits for the client
    after it has sent the deadline [d]. *)
Definition recv_one_from (d : Duration) : script := loop recv_one_msg_turn d ≫= recv_one_end.
Definition recv_one_next (d : Duration) (msg : MsgOut) :
    itree actorE (Duration + TestResult unit) :=
  match msg with
  | MsgOut_AtDeadline => mret (inl d)
  | MsgOut_SendPacket _ => mret (inr (Ok tt))
  end.
Definition recv_one_rest (d : Duration) : script :=
  ((r ← actor_recv;
    match r with
    | Err e => mret (inr (Err e))
    | Ok msg => _ ← act (drop_out msg); recv_one_next d msg
    end) ≫= loop_next recv_one_msg_turn) ≫= recv_one_end.

Lemma recv_one_sends d a r e t :
  actor_ok a → client a = mk_stream r e t [] → Duration_wf d →
  (d + RECV_ONE_MSG_ACTOR_SLICE ≤ Duration_MAX)%Z →
  ∃ l a', leads (recv_one_from d) a (recv_one_rest (d + RECV_ONE_MSG_ACTOR_SLICE)%Z) a' ∧
    actor_ok a' ∧ frame_in (VGoto (d + RECV_ONE_MSG_ACTOR_SLICE)%Z) l ∧
    client a' = mk_stream r e (t ++ l) [].
Proof.
  intros Ha Hc Hd Hmax. set (d' := (d + RECV_ONE_MSG_ACTOR_SLICE)%Z).
  destruct (leads_plain a (MsgIn_GoToDeadline d') (VGoto d') r e t Ha Hc eq_refl)
    as (l&a'&Hsend&Ha'&Hf&Hc').
  { unfold d', RECV_ONE_MSG_ACTOR_SLICE, from_micros in *. destruct Hd. split; lia. }
  exists l, a'. split_and!; try done. unfold recv_one_from, recv_one_rest.
  apply leads_bind. eapply leads_trans; [apply leads_loop|]. apply leads_bind.
  unfold recv_one_msg_turn.
  eapply leads_next; [apply leads_do; unfold lift; by rewrite Duration_add_Ret|].
  eapply leads_next; [exact Hsend|]. apply leads_refl.
Qed.

(** A slice without packets: the script goes on.  With a packet, it ends the
    simulation. *)
Lemma recv_one_goes_on d a l e t :
  actor_ok a → client a = mk_stream l e t [] → encodes [WAtDeadline] l →
  ∃ a', leads (recv_one_rest d) a (recv_one_from d) a' ∧ actor_ok a' ∧
    client a' = mk_stream [] e t [].
Proof.
  intros Ha Hc Henc. inversion Henc as [|w ws l1 l2 He1 He2]; subst. inversion He2; subst.
  unfold recv_one_rest.
  destruct (leads_message (λ e, mret (inr (Err e))) (recv_one_next d) a WAtDeadline l1 [] e t
    Ha Hc He1 receivable_at_deadline) as (msg&a'&Hl&Ha'&Hc'&->).
  exists a'. split_and!; try done. unfold recv_one_from. apply leads_bind.
  eapply leads_next; [exact Hl|]. apply leads_loop_again.
Qed.

Lemma recv_one_ends d a l e t tm src dst v ws :
  actor_ok a → client a = mk_stream l e t [] → encodes (WSend tm src dst v :: ws) l →
  receivable (WSend tm src dst v) →
  ∃ l' a', leads (recv_one_rest d) a (mret (Ok tt)) a' ∧ frame_in VEnd l' ∧
    tx (client a') = t ++ l'.
Proof.
  intros Ha Hc Henc Hw. inversion Henc as [|w ws' l1 l2 He1 He2]; subst.
  unfold recv_one_rest.
  destruct (leads_message (λ e, mret (inr (Err e))) (recv_one_next d) a _ l1 l2 e t
    Ha Hc He1 Hw) as (msg&a1&Hl&Ha1&Hc1&p&->).
  destruct (leads_plain a1 MsgIn_EndSimulation VEnd l2 e t Ha1 Hc1 I I) as (l'&a2&Hsend&_&Hf&Hc2).
  exists l', a2. split_and!; [|done|by rewrite Hc2].
  eapply (leads_next _ _ (Ok tt)); [|exact Hsend].
  eapply leads_next; [exact Hl|]. apply leads_refl.
Qed.

(** Where it waits. *)
Lemma recv_one_waits d :
  ∃ k, observe (recv_one_rest d) = ITreeDefinition.VisF Recv k.
Proof. unfold recv_one_rest. rewrite !observe_bind. by eexists. Qed.
End recv_one.

(** ** [send_one_delayed_msg_actor] *)
Section delayed.
Context `{FlatBuffersLaws, Profile}.
Context (msg : bytes) (slice delay : Z).
Hypotheses (Hmsg : payload_wf msg) (Hslice : in_u64 slice) (Hdelay : in_u64 delay).

(** The end of the script: the last deadline, the packet, the end. *)
Definition delayed_end (r : TestResult unit) : script :=
  match r with
  | Ok _ =>
      _ ←! actor_send (MsgIn_GoToDeadline (from_micros delay));
      src ← act (lift local_vsg_address);
      p ←! act (lift (make_packet src remote_vsg_address msg));
      _ ←! act (TestActor_send p.1 p.2);
      actor_send MsgIn_EndSimulation
  | Err e => mret (Err e)
  end.
Definition delayed_from (next : Z) : script := loop (send_delayed_turn slice delay) next ≫= delayed_end.

(** The code after the inner loop, and where the script waits once it has sent
    the deadline [next]. *)
Definition delayed_next (next : Z) (r : TestResult unit) : itree actorE (Z + TestResult unit) :=
  match r with
  | Err e => mret (inr (Err e))
  | Ok _ => n ← act (lift (add_u64 next slice)); mret (inl n)
  end.
Definition delayed_rest (next : Z) : script :=
  ((wait_at_deadline ≫= delayed_next next) ≫= loop_next (send_delayed_turn slice delay))
    ≫= delayed_end.

Lemma send_one_delayed_from :
  send_one_delayed_msg_actor msg slice delay = delayed_from slice.
Proof. reflexivity. Qed.

Definition local_address : Z := swap_bytes (u32_of_ipv4 (mk_ipv4 10 0 0 1)).

(** The packet is one message of its pool. *)
Lemma make_packet_spec src dst :
  in_u32 src → in_u32 dst →
  ∃ q p, make_packet src dst msg = Ret (Ok (q, p)) ∧ msg_is q [] p (VDeliver src dst msg).
Proof.
  intros Hsrc Hdst.
  destruct (create_deliver_packet_unprefixed_spec (fbb_with_capacity 0) src dst msg)
    as (f&body&Hrun&Hdata&Hlen&Hc); [apply with_capacity_building|done|].
  unfold make_packet. rewrite Hrun. simpl. rewrite Hdata. cbn [mbind outcome_bind].
  destruct (BytesPool_new_run (length body) 1) as (q0&->&Hq0&Hz&Hb0).
  { unfold in_u32, u32_max, isize_max in *. lia. }
  cbn [mbind outcome_bind].
  destruct (allocate_buffer_cases (T := BytesBuffer) (Z.of_nat (length body)) q0 [] Hq0) as
    [[? _]|[(_&?&_)|(_&_&i&q1&c&->&Hq1&_&_&_&Hg&_)]]; [lia|simpl in *; lia|].
  cbn [mbind outcome_bind check map_err].
  set (b := mk_buffer i (ib_new i (Z.to_nat (Z.of_nat (length body)))) : Buffer BytesBuffer) in *.
  destruct (Buffer_deref_mut_spec q1 b [] (modify (λ _, body)) c tt body Hq1 Hg eq_refl)
    as (q2&->&Hq2&_&Hg2&_).
  { unfold b. simpl. lia. }
  cbn [mbind outcome_bind].
  destruct (new_deliver_packet_spec q2 b [] body src dst msg Hq2 Hg2 Hc) as (q3&->&Hq3&Hk).
  cbn [mbind outcome_bind]. eexists q3, _. split; [done|]. by split.
Qed.

(** The inner loop drops the packets of the slice. *)
Definition is_packet (w : out_view) : Prop :=
  match w with WSend _ _ _ _ => True | WAtDeadline => False end.

Definition wait_next (m : MsgOut) : itree actorE (unit + TestResult unit) :=
  match m with
  | MsgOut_AtDeadline => mret (inr (Ok tt))
  | MsgOut_SendPacket _ => mret (inl tt)
  end.

Lemma wait_at_deadline_runs ps a l e t :
  actor_ok a → client a = mk_stream l e t [] → encodes (ps ++ [WAtDeadline]) l →
  Forall is_packet ps → Forall receivable ps →
  ∃ a', leads wait_at_deadline a (mret (Ok tt)) a' ∧ actor_ok a' ∧
    client a' = mk_stream [] e t [].
Proof.
  intros Ha Hc Henc Hp Hr. revert a l Ha Hc Henc.
  induction Hp as [|w ps Hw Hp IH]; intros a l Ha Hc Henc; simpl in Henc;
    inversion Henc as [|w' ws l1 l2 He1 He2]; subst.
  - inversion He2; subst.
    destruct (leads_message (λ e, mret (inr (Err e))) wait_next a _ l1 [] e t Ha Hc He1
      receivable_at_deadline) as (m&a'&Hl&Ha'&Hc'&->).
    exists a'. split_and!; try done.
    eapply leads_trans; [apply leads_loop|]. eapply leads_next; [exact Hl|]. apply leads_refl.
  - apply Forall_cons in Hr as [Hrw Hr]. destruct w as [tm src dst v|]; [|done].
    destruct (leads_message (λ e, mret (inr (Err e))) wait_next a _ l1 l2 e t Ha Hc He1 Hrw)
      as (m&a1&Hl&Ha1&Hc1&p&->).
    destruct (IH Hr a1 l2 Ha1 Hc1 He2) as (a'&Hl'&Ha'&Hc'). exists a'. split_and!; try done.
    eapply leads_trans; [apply leads_loop|]. eapply leads_next; [exact Hl|].
    eapply leads_trans; [apply leads_loop_again|exact Hl'].
Qed.

(** Before the last deadline the script sends the next one and waits. *)
Lemma delayed_sends next a r e t :
  actor_ok a → client a = mk_stream r e t [] → in_u64 next → (next < delay)%Z →
  ∃ l a', leads (delayed_from next) a (delayed_rest next) a' ∧ actor_ok a' ∧
    frame_in (VGoto (from_micros next)) l ∧ client a' = mk_stream r e (t ++ l) [].
Proof.
  intros Ha Hc Hn Hlt.
  destruct (leads_plain a (MsgIn_GoToDeadline (from_micros next)) (VGoto (from_micros next))
    r e t Ha Hc eq_refl (from_micros_wf _ Hn)) as (l&a'&Hsend&Ha'&Hf&Hc').
  exists l, a'. split_and!; try done. unfold delayed_from, delayed_rest.
  apply leads_bind. eapply leads_trans; [apply leads_loop|]. apply leads_bind.
  unfold send_delayed_turn. rewrite (proj2 (Z.ltb_lt _ _)) by done.
  eapply leads_next; [exact Hsend|]. apply leads_refl.
Qed.

(** The messages of the slice bring it back to the head of its loop. *)
Lemma delayed_answers next ps a l e t :
  actor_ok a → client a = mk_stream l e t [] → encodes (ps ++ [WAtDeadline]) l →
  Forall is_packet ps → Forall receivable ps → in_u64 (next + slice) →
  ∃ a', leads (delayed_rest next) a (delayed_from (next + slice)) a' ∧ actor_ok a' ∧
    client a' = mk_stream [] e t [].
Proof.
  intros Ha Hc Henc Hp Hr Hn.
  destruct (wait_at_deadline_runs ps a l e t Ha Hc Henc Hp Hr) as (a'&Hw&Ha'&Hc').
  exists a'. split_and!; try done. unfold delayed_rest, delayed_from. apply leads_bind.
  eapply leads_next; [|apply leads_loop_again].
  eapply leads_next; [exact Hw|]. simpl.
  eapply leads_next; [apply leads_do; unfold lift; by rewrite add_u64_Ret|]. apply leads_refl.
Qed.

(** From there on: the last deadline, the packet and the end, at once. *)
Lemma delayed_finishes next a r e t :
  actor_ok a → client a = mk_stream r e t [] → (delay ≤ next)%Z →
  ∃ l1 l2 l3 a', leads (delayed_from next) a (mret (Ok tt)) a' ∧
    frame_in (VGoto (from_micros delay)) l1 ∧
    frame_in (VDeliver local_address remote_vsg_address msg) l2 ∧ frame_in VEnd l3 ∧
    tx (client a') = t ++ l1 ++ l2 ++ l3.
Proof.
  intros Ha Hc Hle.
  assert (in_u32 local_address ∧ in_u32 remote_vsg_address) as [Hloc Hrem] by done.
  destruct (leads_plain a (MsgIn_GoToDeadline (from_micros delay)) (VGoto (from_micros delay))
    r e t Ha Hc eq_refl (from_micros_wf _ Hdelay)) as (l1&a1&Hs1&Ha1&Hf1&Hc1).
  destruct (make_packet_spec local_address remote_vsg_address Hloc Hrem) as (q&p&Hq&Hp).
  destruct (leads_send a1 q [] p _ _ _ _ Ha1 Hc1 Hp) as (l2&a2&Hs2&Ha2&Hf2&Hc2); [done|].
  destruct (leads_plain a2 MsgIn_EndSimulation VEnd _ _ _ Ha2 Hc2 I I) as (l3&a3&Hs3&_&Hf3&Hc3).
  exists l1, l2, l3, a3. split_and!; try done; [|by rewrite Hc3; simpl; rewrite !app_assoc].
  unfold delayed_from. apply (leads_next _ _ (Ok tt) _ a).
  - eapply leads_trans; [apply leads_loop|]. unfold send_delayed_turn.
    rewrite (proj2 (Z.ltb_ge _ _)) by done.
    eapply leads_next; [apply leads_refl|]. apply leads_refl.
  - unfold delayed_end, try_t. eapply leads_next; [exact Hs1|].
    eapply (leads_next _ _ local_address); [by apply leads_do|].
    eapply (leads_next _ _ (Ok (q, p))); [apply leads_do; unfold lift; by rewrite Hq|].
    eapply leads_next; [exact Hs2|exact Hs3].
Qed.

Lemma delayed_waits next :
  ∃ k, observe (delayed_rest next) = ITreeDefinition.VisF Recv k.
Proof.
  unfold delayed_rest, wait_at_deadline. rewrite !observe_bind, observe_iter, !observe_bind.
  by eexists.
Qed.
End delayed.
