(* ===== verification/HandleDeadline.v ===== *)
(** * HandleDeadline: a deadline, as the handlers of the timers see it

    [handle_deadline] is what the three [deadline_handler]s share: stop the
    clock, [Context::at_deadline], go on to the next deadline.  [deadline_sent]
    says what has left the node and what has become of each pending message,
    for a deadline the simulation survives and for one that ends it. *)
From S2P Require Import Prelude Std BufferPool BytesBuffer Wire FbBuffer Connector.
From S2P Require Import ConnectorSpec OutputMsgSet WaitfreeArrayQueue Chrono Error Timer.
From S2P Require Import Context ContextSpec DeadlineSpec.
From stdpp Require Import base option list numbers sorting relations.
From Stdlib Require Import ZArith Lia.

Lemma outgoing_spec_all_ok addr prev cur out w :
  Forall (λ o, o = None) w → Forall (λ m, pd_time m ≤ cur)%Z out →
  (outgoing_spec addr prev cur out w).2 = true.
Proof.
  intros Hw Ho. revert w Hw. induction Ho as [|m out Hm _ IH]; intros w Hw; [done|]. simpl.
  rewrite (proj2 (Z.ltb_ge _ _)), andb_false_r by done.
  assert (write_ok w = true) as -> by (by destruct Hw as [|?? ->]).
  assert (Forall (λ o, o = None) (tail w)) as Hw' by (destruct Hw; [constructor|done]).
  specialize (IH _ Hw'). by destruct (outgoing_spec addr prev cur out (tail w)) as [[??]?].
Qed.

Lemma upcoming_spec_all_ok addr cur up w :
  Forall (λ o, o = None) w → (upcoming_spec addr cur up w).2 = true.
Proof.
  revert w. induction up as [|m up IH]; intros w Hw; [done|]. simpl.
  destruct (pd_time m <=? cur)%Z; [|done].
  assert (write_ok w = true) as -> by (by destruct Hw as [|?? ->]).
  assert (Forall (λ o, o = None) (tail w)) as Hw' by (destruct Hw; [constructor|done]).
  specialize (IH _ Hw'). by destruct (upcoming_spec addr cur up (tail w)) as [[??]?].
Qed.

(** A deadline with a socket that accepts every write, which the simulation
    survives or where no message of the set is stamped beyond the deadline:
    the messages of the set leave first, with their times moved up to the
    start of the slice where needed, then the waiting messages whose time has
    come, then the notification. *)
Lemma deadline_complete `{FlatBuffers} addr prev cur cap out up inn s a out' up' inn' s' cbs :
  deadline_spec addr prev cur cap out up inn s a out' up' inn' s' cbs →
  Forall (λ o, o = None) (wr s) →
  a ≠ EndSimulation ∨ Forall (λ m, pd_time m ≤ cur)%Z out →
  out' = [] ∧ Forall (λ o, o = None) (wr s') ∧
  Forall (λ m, pd_time m < prev ∨ pd_time m ≤ cur)%Z out ∧
  (∃ sent l, up = sent ++ up' ∧ Forall (λ m, pd_time m ≤ cur)%Z sent ∧
    (∀ m, head up' = Some m → cur < pd_time m)%Z ∧ tx s' = tx s ++ l ∧
    encodes (((λ m, out_view_of addr (clamp prev (pd_time m)) m) <$> out) ++
             ((λ m, out_view_of addr (pd_time m) m) <$> sent) ++ [WAtDeadline]) l) ∧
  (∃ new, inn' = inn ++ new) ∧ cbs = notify_callbacks inn inn' a.
Proof.
  intros Hd Hw Ha.
  destruct Hd as [vs rest s' Ho Ht|vs vs' rest s1 s2 Ho Ht1 Hu Ht2|
    vs vs' rest s1 s2 s3 Ho Ht1 Hu Ht2 Hfail _|
    vs vs' rest s1 s2 s3 a inn' l Ho Ht1 Hu Ht2 _ Ht3 Hrec].
  - destruct Ha as [|Ha]; [done|]. pose proof (outgoing_spec_all_ok addr prev cur out _ Hw Ha) as Hok.
    by rewrite Ho in Hok.
  - destruct (transmits_tx _ _ _ Ht1 Hw) as (_&_&Hw1&_).
    pose proof (upcoming_spec_all_ok addr cur up _ Hw1) as Hok. by rewrite Hu in Hok.
  - destruct (transmits_tx _ _ _ (transmits_app _ _ _ _ _ Ht1 Ht2) Hw) as (_&_&Hw1&_).
    by destruct Hw1 as [|?? ->].
  - destruct (outgoing_spec_ok _ _ _ _ _ _ _ Ho) as (_&->&Hout).
    destruct (upcoming_spec_ok _ _ _ _ _ _ Hu) as (sent&->&->&Hsent&Hhead).
    pose proof (transmits_app _ _ _ _ _ Ht1 (transmits_app _ _ _ _ _ Ht2 Ht3)) as Ht.
    destruct (transmits_tx _ _ _ Ht Hw) as (_&_&?&bs&Htx&Henc).
    destruct (receives_queue _ _ _ _ _ _ _ Hrec) as (new&->&_).
    split_and!; [done..|by exists sent, bs|by exists new|done].
Qed.

(** ** Deadlines that may end the simulation *)

(** When the first writes succeed, the frames of as many messages are whole. *)
Lemma transmits_ok `{FlatBuffers} vs s s' :
  transmits vs s s' → Forall (λ o, o = None) (take (length vs) (wr s)) →
  wr s' = drop (length vs) (wr s) ∧ ∃ l, encodes vs l ∧ tx s' = tx s ++ l.
Proof.
  induction 1 as [s|w ws l s s' Hl _ IH]; simpl; intros Hw.
  { split; [done|]. exists []. rewrite app_nil_r. split; [constructor|done]. }
  unfold written in IH. simpl in IH.
  destruct (wr s) as [|o wr0]; simpl in *.
  - rewrite take_nil in IH. destruct IH as (->&l'&Hl'&->); [constructor|].
    rewrite drop_nil. split; [done|]. exists (l ++ l'). rewrite app_assoc. split; [by constructor|done].
  - apply Forall_cons in Hw as [-> Hw]. destruct (IH Hw) as (->&l'&Hl'&->).
    split; [done|]. exists (l ++ l'). rewrite app_assoc. split; [by constructor|done].
Qed.

Lemma transmits_app_inv `{FlatBuffers} vs vs' s s' :
  transmits (vs ++ vs') s s' → ∃ s1, transmits vs s s1 ∧ transmits vs' s1 s'.
Proof.
  revert s. induction vs as [|v vs IH]; simpl; intros s Ht; [by exists s; split; [constructor|]|].
  inversion Ht as [|???? ? Hl Ht']; subst. destruct (IH _ Ht') as (s1&?&?).
  exists s1. split; [by econstructor|done].
Qed.

(** One more write, which may fail: part of a frame. *)
Lemma transmits_one_tx `{FlatBuffers} w s s' :
  transmits [w] s s' → ∃ l r, encodes1 w (l ++ r) ∧ tx s' = tx s ++ l ∧
    (write_ok (wr s) = true → r = []).
Proof.
  intros Ht. inversion Ht as [|? ? l ? ? Hl Ht']; subst. inversion Ht'; subst.
  unfold written, write_ok. simpl. destruct (wr s) as [|[[n e]|] w0].
  - exists l, []. by rewrite app_nil_r.
  - exists (take n l), (drop n l). by rewrite take_drop.
  - exists l, []. by rewrite app_nil_r.
Qed.

(** A message of the set that the first loop sends. *)
Definition sendable (prev cur : Duration) (m : pending) : Prop :=
  (pd_time m < prev ∨ pd_time m ≤ cur)%Z.

Lemma outgoing_spec_sent addr prev cur out w vs rest ok :
  outgoing_spec addr prev cur out w = (vs, rest, ok) →
  ∃ sent lost tries, out = sent ++ lost ++ rest ∧ length lost ≤ 1 ∧ tries ⊆ lost ∧
    length tries ≤ 1 ∧
    vs = (λ m, out_view_of addr (clamp prev (pd_time m)) m) <$> sent ++ tries ∧
    Forall (sendable prev cur) (sent ++ tries) ∧
    Forall (λ o, o = None) (take (length sent) w) ∧ (ok = true → lost = [] ∧ tries = []).
Proof.
  revert w vs rest ok. induction out as [|m out IH]; intros w vs rest ok; simpl.
  { intros [= <- <- <-]. exists [], [], []. split_and!; (done || by constructor || set_solver). }
  destruct (_ && _) eqn:Hlate.
  { intros [= <- <- <-]. exists [], [m], []. split_and!; (done || by constructor || set_solver). }
  assert (sendable prev cur m) as Htime.
  { unfold sendable. apply andb_false_iff in Hlate as [?%Z.leb_gt|?%Z.ltb_ge]; lia. }
  destruct (write_ok w) eqn:Hw.
  - destruct (outgoing_spec addr prev cur out (tail w)) as [[vs' rest'] ok'] eqn:Ho.
    intros [= <- <- <-].
    destruct (IH _ _ _ _ Ho) as (sent&lost&tries&->&?&?&?&->&?&Hnone&?).
    exists (m :: sent), lost, tries. split_and!; try done.
    + simpl. by constructor.
    + destruct w as [|[[]|] w]; simpl in *; [by rewrite take_nil in *|done|by constructor].
  - intros [= <- <- <-]. exists [], [m], [m].
    split_and!; (done || by constructor || (constructor; [done|constructor])).
Qed.

Lemma upcoming_spec_sent addr cur up w vs rest ok :
  upcoming_spec addr cur up w = (vs, rest, ok) →
  ∃ sent lost tries, up = sent ++ lost ++ rest ∧ length lost ≤ 1 ∧ tries ⊆ lost ∧
    length tries ≤ 1 ∧
    vs = (λ m, out_view_of addr (pd_time m) m) <$> sent ++ tries ∧
    Forall (λ m, pd_time m ≤ cur)%Z (sent ++ tries) ∧
    Forall (λ o, o = None) (take (length sent) w) ∧
    (ok = true → lost = [] ∧ tries = [] ∧ ∀ m, head rest = Some m → cur < pd_time m)%Z.
Proof.
  revert w vs rest ok. induction up as [|m up IH]; intros w vs rest ok; simpl.
  { intros [= <- <- <-]. exists [], [], []. split_and!; (done || by constructor || set_solver). }
  destruct (Z.leb_spec (pd_time m) cur).
  2: { intros [= <- <- <-]. exists [], [], []. split_and!; try (done || by constructor || set_solver).
       intros _. split_and!; [done..|]. by intros m' [= <-]. }
  destruct (write_ok w) eqn:Hw.
  - destruct (upcoming_spec addr cur up (tail w)) as [[vs' rest'] ok'] eqn:Ho.
    intros [= <- <- <-].
    destruct (IH _ _ _ _ Ho) as (sent&lost&tries&->&?&?&?&->&?&Hnone&?).
    exists (m :: sent), lost, tries. split_and!; try done.
    + simpl. by constructor.
    + destruct w as [|[[]|] w]; simpl in *; [by rewrite take_nil in *|done|by constructor].
  - intros [= <- <- <-]. exists [], [m], [m].
    split_and!; (done || by constructor || (constructor; [done|constructor])).
Qed.

(** The packets of the messages of the set and of those beyond a deadline. *)
Definition set_views (addr : Z) (prev : Duration) (l : list pending) : list out_view :=
  (λ m, out_view_of addr (clamp prev (pd_time m)) m) <$> l.
Definition late_views (addr : Z) (l : list pending) : list out_view :=
  (λ m, out_view_of addr (pd_time m) m) <$> l.

(** What a deadline does to the messages [out] and [up] that were pending: it
    has sent the packets of [sent] and [sent'], has written the beginning of
    the frames [wt], at most one, [out'] and [up'] are left, and [lost] are the
    others, none when the simulation goes on and one otherwise at most. *)
Definition deadline_sends `{FlatBuffers} (addr : Z) (prev cur : Duration) (out up : list pending)
    (s : UnixStream) (a : AfterDeadline) (out' up' : list pending) (s' : UnixStream)
    (sent sent' lost : list pending) (wt note : list out_view) (l cut : bytes) : Prop :=
  out ++ up ≡ₚ (sent ++ sent') ++ (out' ++ up') ++ lost ∧ length lost ≤ 1 ∧
  out' `suffix_of` out ∧ (∃ x, up = sent' ++ x ++ up') ∧
  Forall (sendable prev cur) sent ∧ Forall (λ m, pd_time m ≤ cur)%Z sent' ∧
  (wt = [] ∨ wt = [WAtDeadline] ∨
   (∃ m, sendable prev cur m ∧ wt = set_views addr prev [m]) ∨
   (∃ m, m ∈ up ∧ (pd_time m ≤ cur)%Z ∧ wt = late_views addr [m])) ∧
  (note = [] ∨ note = [WAtDeadline] ∧ wt = []) ∧
  tx s' = tx s ++ l ++ cut ∧
  encodes (set_views addr prev sent ++ late_views addr sent' ++ note) l ∧
  (∃ r, encodes wt (cut ++ r)) ∧
  (a ≠ EndSimulation → lost = [] ∧ wt = [] ∧ note = [WAtDeadline] ∧ out' = [] ∧
     ∀ m, head up' = Some m → cur < pd_time m)%Z.

Lemma at_most_one {A} (l : list A) : length l ≤ 1 → l = [] ∨ ∃ x, l = [x].
Proof. destruct l as [|x [|]]; simpl; [by left|by right; exists x|lia]. Qed.

Lemma encodes_nil_inv `{FlatBuffers} l : encodes [] l → l = [].
Proof. by inversion 1. Qed.

(** The messages of a loop: those before the last are whole frames. *)
Lemma transmits_tries `{FlatBuffers} vs wt s s' :
  transmits (vs ++ wt) s s' → Forall (λ o, o = None) (take (length vs) (wr s)) → length wt ≤ 1 →
  ∃ l cut r, encodes vs l ∧ encodes wt (cut ++ r) ∧ tx s' = tx s ++ l ++ cut.
Proof.
  intros (s1&H1&H2)%transmits_app_inv Hw [->|[w ->]]%at_most_one;
    destruct (transmits_ok _ _ _ H1 Hw) as (_&l&Hl&Htx).
  - inversion H2; subst. exists l, [], []. split_and!; [done|exact encodes_nil|]. by rewrite app_nil_r.
  - destruct (transmits_one_tx _ _ _ H2) as (l2&r&?&Htx2&_). exists l, l2, r.
    rewrite Htx2, Htx, app_assoc. split_and!; [done| |done]. by apply encodes_singleton.
Qed.

Lemma outgoing_done `{FlatBuffers} addr prev cur out s vs s1 :
  outgoing_spec addr prev cur out (wr s) = (vs, [], true) → transmits vs s s1 →
  Forall (sendable prev cur) out ∧
  ∃ l, encodes (set_views addr prev out) l ∧ tx s1 = tx s ++ l.
Proof.
  intros Ho Ht.
  destruct (outgoing_spec_sent _ _ _ _ _ _ _ _ Ho) as (sent&?&?&->&_&_&_&->&Hs&Hw&Hl).
  destruct (Hl eq_refl) as [-> ->]. rewrite !app_nil_r in *. split; [done|].
  apply (transmits_ok _ _ _ Ht). by rewrite length_fmap.
Qed.

Lemma upcoming_done `{FlatBuffers} addr cur up s vs rest s1 :
  upcoming_spec addr cur up (wr s) = (vs, rest, true) → transmits vs s s1 →
  ∃ sent l, up = sent ++ rest ∧ Forall (λ m, pd_time m ≤ cur)%Z sent ∧
    (∀ m, head rest = Some m → cur < pd_time m)%Z ∧
    encodes (late_views addr sent) l ∧ tx s1 = tx s ++ l.
Proof.
  intros Ho Ht.
  destruct (upcoming_spec_sent _ _ _ _ _ _ _ Ho) as (sent&?&?&->&_&_&_&->&Hs&Hw&Hl).
  destruct (Hl eq_refl) as (->&->&Hh). rewrite !app_nil_r in *.
  destruct (transmits_ok _ _ _ Ht) as (_&l&?&?); [by rewrite length_fmap|].
  by exists sent, l.
Qed.

Lemma deadline_sent `{FlatBuffers} addr prev cur cap out up inn s a out' up' inn' s' cbs :
  deadline_spec addr prev cur cap out up inn s a out' up' inn' s' cbs →
  ∃ sent sent' lost wt note l cut,
    deadline_sends addr prev cur out up s a out' up' s' sent sent' lost wt note l cut.
Proof.
  intros Hd. destruct Hd as [vs rest s' Ho Ht|vs vs' rest s1 s2 Ho Ht1 Hu Ht2|
    vs vs' rest s1 s2 s3 Ho Ht1 Hu Ht2 Hfail Ht3|
    vs vs' rest s1 s2 s3 a inn' bs Ho Ht1 Hu Ht2 Hok Ht3 Hrec].
  - destruct (outgoing_spec_sent _ _ _ _ _ _ _ _ Ho)
      as (sent&lost&tries&->&Hl&Hsub&Hl'&->&[Hs Htr]%Forall_app&Hw&_).
    rewrite fmap_app in Ht.
    destruct (transmits_tries _ _ _ _ Ht) as (l&cut&r&?&?&?); [by rewrite length_fmap..|].
    exists sent, [], lost, (set_views addr prev tries), [], l, cut.
    split_and!; try done; rewrite ?app_nil_r; try done.
    + rewrite (Permutation_app_comm lost), <- !app_assoc. f_equiv. f_equiv.
      apply Permutation_app_comm.
    + exists (sent ++ lost). by rewrite app_assoc.
    + by exists [].
    + apply at_most_one in Hl' as [->|[m ->]]; [by left|].
      right; right; left. exists m. apply Forall_cons in Htr as [? _]. by split.
    + by left.
    + by exists r.
  - destruct (outgoing_done _ _ _ _ _ _ _ Ho Ht1) as (Hs&l1&Hl1&Htx1).
    destruct (upcoming_spec_sent _ _ _ _ _ _ _ Hu)
      as (sent&lost&tries&->&Hl&Hsub&Hl'&->&[Hs2 Htr]%Forall_app&Hw&_).
    rewrite fmap_app in Ht2.
    destruct (transmits_tries _ _ _ _ Ht2) as (l&cut&r&?&?&Htx2); [by rewrite length_fmap..|].
    exists out, sent, lost, (late_views addr tries), [], (l1 ++ l), cut.
    split_and!; try done; rewrite ?app_nil_r; try done.
    + rewrite <- app_assoc. simpl. do 2 f_equiv. apply Permutation_app_comm.
    + by apply suffix_nil.
    + by exists lost.
    + apply at_most_one in Hl' as [->|[m ->]]; [by left|].
      right; right; right. exists m. apply Forall_cons in Htr as [? _]. split_and!; [|done..]. set_solver.
    + by left.
    + by rewrite Htx2, Htx1, <- !app_assoc.
    + by apply encodes_app.
    + by exists r.
  - destruct (outgoing_done _ _ _ _ _ _ _ Ho Ht1) as (Hs&l1&Hl1&Htx1).
    destruct (upcoming_done _ _ _ _ _ _ _ Hu Ht2) as (sent&l2&->&Hs2&_&Hl2&Htx2).
    destruct (transmits_one_tx _ _ _ Ht3) as (l3&r&?&Htx3&_).
    exists out, sent, [], [WAtDeadline], [], (l1 ++ l2), l3.
    split_and!; try done; rewrite ?app_nil_r; simpl; try done.
    + by rewrite app_assoc.
    + lia.
    + by apply suffix_nil.
    + by exists [].
    + by right; left.
    + by left.
    + by rewrite Htx3, Htx2, Htx1, <- !app_assoc.
    + by apply encodes_app.
    + exists r. by apply encodes_singleton.
  - destruct (outgoing_done _ _ _ _ _ _ _ Ho Ht1) as (Hs&l1&Hl1&Htx1).
    destruct (upcoming_done _ _ _ _ _ _ _ Hu Ht2) as (sent&l2&->&Hs2&Hh&Hl2&Htx2).
    destruct (transmits_one_tx _ _ _ Ht3) as (l3&r&Hl3&Htx3&Hr).
    rewrite (Hr Hok), app_nil_r in Hl3.
    exists out, sent, [], [], [WAtDeadline], (l1 ++ l2 ++ l3), [].
    split_and!; try done; rewrite ?app_nil_r; simpl; try done.
    + by rewrite app_assoc.
    + lia.
    + by apply suffix_nil.
    + by exists [].
    + by left.
    + by right.
    + by rewrite Htx3, Htx2, Htx1, <- !app_assoc.
    + apply encodes_app; [done|]. apply encodes_app; [done|]. by apply encodes_singleton.
    + exists []. exact encodes_nil.
Qed.

(** The next deadline is a duration. *)
Lemma classify_wf `{FlatBuffers} body d : classify body = Ok (VGoto d) → Duration_wf d.
Proof.
  unfold classify, time_parts, u64_try_from, u32_try_from, Duration_wf, Duration_MAX.
  intros Hc. repeat (case_match; simplify_eq/=); rewrite ?andb_true_iff, ?Z.leb_le in *;
    unfold u64_max, u32_max, NANOS_PER_SEC in *; lia.
Qed.

Lemma receives_wf `{FlatBuffers} cap e inn l d inn' l' :
  receives cap e inn l (NextDeadline d) inn' l' → Duration_wf d.
Proof.
  intros Hr. remember (NextDeadline d) as a. induction Hr as [inn l d' l' Hv| | |]; simplify_eq; auto.
  unfold recv_spec in Hv. repeat (case_match; simplify_eq/=). by eapply classify_wf.
Qed.

Lemma deadline_spec_wf `{FlatBuffers} addr prev cur cap out up inn s d out' up' inn' s' cbs :
  deadline_spec addr prev cur cap out up inn s (NextDeadline d) out' up' inn' s' cbs →
  Duration_wf d.
Proof. inversion 1; subst. by eapply receives_wf. Qed.

Lemma sorted_suffix (cur : Z) (l : list Z) :
  StronglySorted Z.le l → (∀ x, head l = Some x → cur < x)%Z → Forall (λ x, cur < x)%Z l.
Proof.
  intros Hs Hh. destruct Hs as [|x l Hs Hx]; constructor; [by apply Hh|].
  eapply Forall_impl; [exact Hx|]. intros y ?. simpl. specialize (Hh x eq_refl). lia.
Qed.

Lemma StronglySorted_app_r {A} (R : relation A) l l' :
  StronglySorted R (l ++ l') → StronglySorted R l'.
Proof. induction l as [|x l IH]; simpl; [done|]. intros [? _]%StronglySorted_inv. auto. Qed.

Lemma StronglySorted_snoc (R : relation Z) l x :
  StronglySorted R l → Forall (λ y, R y x) l → StronglySorted R (l ++ [x]).
Proof.
  induction 1 as [|y l Hs IH Hy]; simpl; intros Hx; [by repeat constructor|].
  apply Forall_cons in Hx as [??]. constructor; [by apply IH|].
  apply Forall_app. by split; [|constructor].
Qed.

Section system.
Context {T : Type} {Q : Type → Type} `{FL : FlatBuffersLaws, CH : Chrono}
  `{TM : !Timer T, TL : !TimerLaws T, TH : !TimerHandler T, THL : !TimerHandlerLaws T}
  `{AQ : ArrayQueueLaws Q}.
Implicit Types (c : Context T Q) (out up : list pending) (inn : list packet).

(** One deadline: [Some d] when the simulation goes on to [d]. *)
Definition handle_deadline : M (Context T Q) (option Duration) :=
  f ← on_timer tc_freeze;
  after_deadline ← at_deadline;
  match after_deadline with
  | NextDeadline deadline => _ ← on_timer (tc_resume f deadline); mret (Some deadline)
  | EndSimulation => mret None
  end.

(** The destinations and payloads of the packets of a sequence of messages. *)
Definition carried (ws : list out_view) : list (Z * bytes) :=
  omap (λ w, match w with WSend _ _ dst v => Some (dst, v) | WAtDeadline => None end) ws.
Definition waiting (l : list pending) : list (Z * bytes) :=
  (λ m, (pd_dst m, pd_payload m)) <$> l.

Lemma carried_app ws ws' : carried (ws ++ ws') = carried ws ++ carried ws'.
Proof. apply omap_app. Qed.

Lemma carried_views addr (f : pending → Duration) l :
  carried ((λ m, out_view_of addr (f m) m) <$> l) = waiting l.
Proof. induction l as [|m l IH]; [done|]. csimpl. by f_equal. Qed.

Lemma up_times_wf {F G} c out up inn :
  repr_with F G c out up inn → Forall (λ m, Duration_wf (spb_send_time m)) (upcoming_messages c).
Proof.
  intros (_&(_&_&_&_&_&Hu)&_). induction Hu as [|m pd ms l (_&_&_&Ht&Hw&_) _ IH]; constructor;
    [by rewrite Ht|done].
Qed.

Lemma up_last {F G} c out up inn t' :
  repr_with F G c out up inn →
  (∀ m, list.last (upcoming_messages c) = Some m → (spb_send_time m ≤ t')%Z) →
  StronglySorted Z.le (pd_time <$> up) → Forall (λ t, t ≤ t')%Z (pd_time <$> up).
Proof.
  intros (_&(_&_&_&_&_&Hu)&_) Hlast Hs.
  destruct up as [|pd up _] using rev_ind; [constructor|].
  apply Forall2_app_inv_r in Hu as (q&m&Hq&Hm&He).
  apply Forall2_cons_inv_r in Hm as (m'&?&(_&_&_&Ht&_)&->%Forall2_nil_inv_r&->).
  rewrite He, last_snoc in Hlast. specialize (Hlast _ eq_refl). rewrite Ht in Hlast.
  rewrite fmap_app in *. apply Forall_app. split; [|by repeat constructor].
  clear -Hs Hlast. induction (pd_time <$> up) as [|t l IH]; simpl in *; [constructor|].
  apply StronglySorted_inv in Hs as [Hs Ht]. constructor; [|by apply IH].
  apply Forall_app in Ht as [_ Ht]. apply Forall_cons in Ht as [Ht _]. simpl in Ht. lia.
Qed.

(** The time a message is queued with is a duration. *)
Lemma overrun_wf {F G} c out up inn t o :
  repr_with F G c out up inn → Duration_wf t →
  tc_check_deadline_overrun t (upcoming_messages c) (timer_context c) =
    Ret (o, timer_context c) → Duration_wf (default t o).
Proof.
  intros Hr Ht Ho. destruct (tc_overrun_spec (timer_context c) t (upcoming_messages c))
    as (o'&Ho'&Hcase). rewrite Ho in Ho'. simplify_eq.
  destruct o' as [t'|]; [|done]. destruct Hcase as (_&_&Hc&_).
  apply Hc; [done|by eapply up_times_wf].
Qed.

(** [send] on every branch. *)
Lemma Context_send_spec c out up inn dst msg t tm :
  repr c out up inn → in_u32 dst → tc_simulation_now (timer_context c) = Ret (t, tm) →
  ∃ r c', Context_send dst msg c = Ret (r, c') ∧ timer_context c' = tm ∧
    connector c' = connector c ∧ input_queue c' = input_queue c ∧
    if MAX_PACKET_SIZE <? length msg then r = Err SizeTooBig ∧ repr c' out up inn
    else if length out + length up =? out_cap c then
      r = Err NoMemoryAvailable ∧ repr c' out up inn
    else r = Ok tt ∧
      ∃ o, tc_check_deadline_overrun t (upcoming_messages c) tm = Ret (o, tm) ∧
      match o with
      | None => ∃ l1 l2, out = l1 ++ l2 ∧ repr c' (l1 ++ mk_pending t dst msg :: l2) up inn
      | Some t' => (t ≤ t')%Z ∧ (tc_next tm < t')%Z ∧
          repr c' out (up ++ [mk_pending t' dst msg]) inn
      end.
Proof.
  intros Hr Hdst Hnow. set (c1 := set_timer_context tm c).
  assert (repr c1 out up inn) as Hr1 by exact Hr.
  destruct (tc_now_frame _ _ _ Hnow) as (Hwf&_).
  destruct (tc_overrun_spec (timer_context c1) t (upcoming_messages c1)) as (o&Ho&Hcase).
  pose proof (overrun_wf _ _ _ _ _ _ Hr1 Hwf Ho) as Hwf'.
  pose proof (send_at_spec c1 out up inn t dst msg o Hr1 Hdst Hwf Ho Hwf') as Hspec.
  change (out_cap c1) with (out_cap c) in Hspec.
  assert (Context_send dst msg c = send_at t dst msg c1) as ->
    by (unfold Context_send, on_timer; by erewrite bind_run by (apply zoom_run; exact Hnow)).
  destruct (_ <? _); [|destruct (_ =? _)]; [by eexists _, c1..|].
  destruct Hspec as (c'&Hrun&(_&?&?&?&_)&_&Hr'). eexists _, c'. split_and!; try done.
  exists o. split; [done|]. destruct o as [t'|]; [|done]. by destruct Hcase as (?&?&_).
Qed.

(** What the handler does when it returns: [at_deadline] on the deadlines of the
    slice that ends, also while calls are under way; a next deadline is a
    duration and becomes the deadline of the timer. *)
Lemma handle_deadline_with F G cap c c' out up inn o :
  repr_with F G c out up inn → length G + cap = in_cap c → tc_wf (timer_context c) →
  handle_deadline c = Ret (o, c') →
  tc_wf (timer_context c') ∧
  match o with
  | Some d => Duration_wf d ∧ tc_prev (timer_context c') = tc_next (timer_context c) ∧
      tc_next (timer_context c') = d
  | None => tc_prev (timer_context c') = tc_prev (timer_context c) ∧
      tc_next (timer_context c') = tc_next (timer_context c)
  end ∧
  ∃ out' up' inn' cbs, repr_with F G c' out' up' inn' ∧ keeps F G c c' ∧
    deadline_spec (address c) (tc_prev (timer_context c)) (tc_next (timer_context c))
      cap out up inn (actor (connector c)) (from_option NextDeadline EndSimulation o)
      out' up' inn' (actor (connector c')) cbs ∧ callbacks c' = callbacks c ++ cbs.
Proof.
  intros Hr Hroom [Hp Hn] Hrun. unfold handle_deadline, on_timer in Hrun.
  unfold mbind at 1, M_bind at 1, zoom in Hrun.
  destruct (tc_freeze (timer_context c)) as [[f tm]| |] eqn:Hf; [|done..].
  destruct (tc_freeze_frame _ _ _ Hf) as (Hh&Ep&En).
  set (c1 := set_timer_context tm c) in *.
  destruct (at_deadline_with F G cap c1 out up inn Hr Hroom Hh ltac:(by simpl; rewrite Ep))
    as (a&c2&out'&up'&inn'&cbs&Had&Hr2&Hk&(_&Et&_)&Hcb&Hspec).
  change (timer_context c1) with tm in *. rewrite Ep, En in Hspec.
  erewrite bind_run in Hrun by exact Had. unfold tc_wf. destruct a as [d|].
  - unfold mbind, M_bind in Hrun. rewrite Et in Hrun.
    destruct (tc_resume f d tm) as [[[] tm']| |] eqn:Hres; [|done..].
    injection Hrun as <- <-. destruct (tc_resume_frame _ _ _ _ Hres) as [Ep' En'].
    pose proof (deadline_spec_wf _ _ _ _ _ _ _ _ _ _ _ _ _ _ Hspec). simpl.
    rewrite Ep', En', En. split_and!; try done. by exists out', up', inn', cbs.
  - injection Hrun as <- <-. rewrite Et, Ep, En. split_and!; try done.
    by exists out', up', inn', cbs.
Qed.
End system.
