(* ===== verification/ContextFine.v ===== *)
(** * ContextFine: the calls of a context, part by part

    Application threads send and receive while the deadline handler runs between
    two time slices.  Each call is split where it can be interrupted, by the
    handler or by another thread: [send] records its time, allocates a buffer,
    asks the timer about a late time, and queues its message; [recv] takes a
    packet off the queue, then reads it.  Between two parts a call holds a
    buffer.  Any number of calls are under way at once.  A deadline may end the
    simulation, and any write to the socket may fail. *)
From S2P Require Import Prelude Std BufferPool BytesBuffer Wire FbBuffer Connector.
From S2P Require Import ConnectorSpec OutputMsgSet WaitfreeArrayQueue Chrono Error Timer.
From S2P Require Import Context ContextSpec DeadlineSpec HandleDeadline.
From stdpp Require Import base option list numbers sorting relations.
From Stdlib Require Import ZArith Lia.

(** A call under way: what is still to be done. *)
Inductive call_pc :=
  | Timed (t : Duration) (dst : Z) (msg : bytes)
  | Allocated (t : Duration) (dst : Z) (msg : bytes) (b : Buffer FbBuffer)
  | Checked (t : Duration) (dst : Z) (msg : bytes) (b : Buffer FbBuffer) (o : option Duration)
  | Popped (d : DeliverPacket) (buf : bytes).

(** The buffers it holds. *)
Definition out_held (k : call_pc) : option (Buffer FbBuffer) :=
  match k with Allocated _ _ _ b | Checked _ _ _ b _ => Some b | _ => None end.
Definition in_held (k : call_pc) : option (Buffer BytesBuffer) :=
  match k with Popped d _ => Some (deliver_inner d) | _ => None end.

(** The time of a message that was found late and is not queued yet. *)
Definition late_time (k : call_pc) : option Duration :=
  match k with Checked _ _ _ _ o => o | _ => None end.

(** The context with the calls under way and, as a record of the past, the
    destinations and payloads that [send] accepted and whether a deadline has
    ended the simulation. *)
Record fine (T : Type) (Q : Type → Type) `{FlatBuffers} := mk_fine {
  fine_ctx : Context T Q;
  fine_calls : list call_pc;
  fine_accepted : list (Z * bytes);
  fine_ended : bool;
}.
Arguments mk_fine {_ _ _} _ _ _ _.
Arguments fine_ctx {_ _ _} _.
Arguments fine_calls {_ _ _} _.
Arguments fine_accepted {_ _ _} _.
Arguments fine_ended {_ _ _} _.

(** The kinds of steps; a deadline carries the answer of the coordinator. *)
Inductive move :=
  | MSend
  | MRecv
  | MPart (k : call_pc)
  | MDeadline (o : option Duration).

Section fine.
Context {T : Type} {Q : Type → Type} `{FL : FlatBuffersLaws, CH : Chrono}
  `{TM : !Timer T, TL : !TimerLaws T, TH : !TimerHandler T, THL : !TimerHandlerLaws T}
  `{AQ : ArrayQueueLaws Q}.
Implicit Types (c : Context T Q) (out up : list pending) (inn : list packet).
Implicit Types (l : list call_pc).

(** What a part of a call does: the call afterwards, if it goes on, and the
    message it has sent, if it has. *)
Inductive part : call_pc → Context T Q → option call_pc → option (Z * bytes) → Context T Q → Prop :=
  | part_allocate c c' t dst msg b :
      send_allocate msg c = Ret (Ok b, c') →
      part (Timed t dst msg) c (Some (Allocated t dst msg b)) None c'
  | part_refuse c c' t dst msg e :
      send_allocate msg c = Ret (Err e, c') → part (Timed t dst msg) c None None c'
  | part_check c c' t dst msg b o :
      send_check t c = Ret (o, c') →
      part (Allocated t dst msg b) c (Some (Checked t dst msg b o)) None c'
  | part_queue c c' t dst msg b o :
      send_queue t dst msg b o c = Ret (Ok tt, c') →
      part (Checked t dst msg b o) c None (Some (dst, msg)) c'
  | part_fail c c' t dst msg b o e :
      send_queue t dst msg b o c = Ret (Err e, c') → part (Checked t dst msg b o) c None None c'
  | part_read c c' d buf r :
      recv_read d buf c = Ret (r, c') → part (Popped d buf) c None None c'.

(** A deadline that ends the simulation is the last one: no handler arms another
    alarm then. *)
Inductive fine_step : move → fine T Q → fine T Q → Prop :=
  | fine_send c l acc e t tm dst msg :
      in_u32 dst → tc_simulation_now (timer_context c) = Ret (t, tm) →
      fine_step MSend (mk_fine c l acc e)
        (mk_fine (set_timer_context tm c) (Timed t dst msg :: l) acc e)
  | fine_recv c c' l acc e buf d :
      on_queue WaitfreeArrayQueue_pop c = Ret (Some d, c') →
      fine_step MRecv (mk_fine c l acc e) (mk_fine c' (Popped d buf :: l) acc e)
  | fine_recv_empty c c' l acc e :
      on_queue WaitfreeArrayQueue_pop c = Ret (None, c') →
      fine_step MRecv (mk_fine c l acc e) (mk_fine c' l acc e)
  | fine_part c c' l1 k l2 k' m acc e :
      part k c k' m c' →
      fine_step (MPart k) (mk_fine c (l1 ++ k :: l2) acc e)
        (mk_fine c' (l1 ++ option_list k' ++ l2) (option_list m ++ acc) e)
  | fine_deadline c c' l acc o :
      handle_deadline c = Ret (o, c') →
      fine_step (MDeadline o) (mk_fine c l acc false)
        (mk_fine c' l acc (match o with None => true | Some _ => false end)).

(** ** Reachable states

    [fine_init] are the states a context can start from, once the first
    deadline is set.  [reachable_by ok] are the states reached by steps that
    [ok] allows. *)
Definition fine_init (s : fine T Q) : Prop :=
  repr (fine_ctx s) [] [] [] ∧ tc_inv (timer_context (fine_ctx s)) ∧
  fine_calls s = [] ∧ fine_accepted s = [] ∧ fine_ended s = false ∧
  tx (actor (connector (fine_ctx s))) = [].

Definition allowed_step (ok : move → fine T Q → Prop) (s s' : fine T Q) : Prop :=
  ∃ a, fine_step a s s' ∧ ok a s.
Definition reachable_by (ok : move → fine T Q → Prop) (s : fine T Q) : Prop :=
  ∃ s0, fine_init s0 ∧ rtc (allowed_step ok) s0 s.

Definition any_move (_ : move) (_ : fine T Q) : Prop := True.

(** The coordinator does not go back in time. *)
Definition forward (a : move) (s : fine T Q) : Prop :=
  match a with
  | MDeadline (Some d) => (tc_next (timer_context (fine_ctx s)) ≤ d)%Z
  | _ => True
  end.

(** Between the moment a message is found late and the moment it is queued
    no other call asks about a late time and no deadline comes. *)
Definition late_first (a : move) (s : fine T Q) : Prop :=
  match a with
  | MPart (Allocated _ _ _ _) | MDeadline _ => omap late_time (fine_calls s) = []
  | _ => True
  end.
Definition orderly (a : move) (s : fine T Q) : Prop := forward a s ∧ late_first a s.

(** ** The invariant *)

(** What a call under way relies on. *)
Definition call_ok c (k : call_pc) : Prop :=
  match k with
  | Timed t dst _ => Duration_wf t ∧ in_u32 dst
  | Allocated t dst msg b =>
      Duration_wf t ∧ in_u32 dst ∧ length msg ≤ MAX_PACKET_SIZE ∧
      fresh_at (output_buffer_pool c) b
  | Checked t dst msg b o =>
      Duration_wf (default t o) ∧ in_u32 dst ∧ length msg ≤ MAX_PACKET_SIZE ∧
      fresh_at (output_buffer_pool c) b
  | Popped d _ => ∃ k, delivered_at (input_buffer_pool (connector c)) d k
  end.

Definition fine_repr c l out up inn : Prop :=
  repr_with (omap out_held l) (omap in_held l) c out up inn ∧ Forall (call_ok c) l.

(** Every accepted message has left in a whole frame, waits, or is [lost]; what
    follows the whole frames on the wire is the beginning of at most one more.
    Both are empty as long as the simulation goes on. *)
Definition fine_inv (s : fine T Q) : Prop :=
  ∃ out up inn ws bs cut lost,
    fine_repr (fine_ctx s) (fine_calls s) out up inn ∧ tc_wf (timer_context (fine_ctx s)) ∧
    encodes ws bs ∧ tx (actor (connector (fine_ctx s))) = bs ++ cut ∧
    fine_accepted s ≡ₚ carried ws ++ (waiting out ++ waiting up) ++ lost ∧
    (∃ wt r, length wt ≤ 1 ∧ encodes wt (cut ++ r)) ∧ length lost ≤ 1 ∧
    (fine_ended s = false → cut = [] ∧ lost = []).

Lemma fine_inv_init s : fine_init s → fine_inv s.
Proof.
  intros (?&?&Hs&Ha&?&Htx). exists [], [], [], [], [], [], []. unfold fine_repr. rewrite Hs, Ha, Htx.
  split_and!; try done; [by apply tc_inv_wf|apply encodes_nil| |simpl; lia].
  exists [], []. split; [simpl; lia|apply encodes_nil].
Qed.

Lemma fresh_at_same F (p p' : FbPool) b :
  same_contents F p p' → b ∈ F → fresh_at p b → fresh_at p' b.
Proof. intros Hs Hb (f&?&?). exists f. by rewrite Hs. Qed.

(** A call does not notice what keeps the buffers of the calls. *)
Lemma call_ok_keeps c c' l k :
  keeps (omap out_held l) (omap in_held l) c c' → k ∈ l → call_ok c k → call_ok c' k.
Proof.
  intros [Ho Hi] Hk. destruct k as [t dst msg|t dst msg b|t dst msg b o|d buf]; simpl; [done|..].
  1,2: intros (?&?&?&?); split_and!; try done; eapply fresh_at_same; [exact Ho| |done];
    apply list_elem_of_omap; by eexists.
  intros (k&Hd). exists k. eapply packet_at_same; [exact Hi| |exact Hd].
  apply list_elem_of_omap. by eexists.
Qed.

Lemma calls_ok_keeps c c' l :
  keeps (omap out_held l) (omap in_held l) c c' → Forall (call_ok c) l → Forall (call_ok c') l.
Proof. rewrite !Forall_forall. intros Hk Hl k ?. eapply call_ok_keeps; eauto. Qed.

(** The order of the calls does not matter. *)
Lemma fine_repr_perm c l l' out up inn :
  l ≡ₚ l' → fine_repr c l out up inn → fine_repr c l' out up inn.
Proof.
  intros Hl [Hr Hok]. split; [|by rewrite <- Hl].
  eapply repr_with_perm; [..|exact Hr]; by rewrite Hl.
Qed.

(** ** Parts *)
Lemma send_check_spec F G c out up inn t :
  repr_with F G c out up inn → Duration_wf t →
  ∃ o, send_check t c = Ret (o, c) ∧ Duration_wf (default t o) ∧
    tc_check_deadline_overrun t (upcoming_messages c) (timer_context c) =
      Ret (o, timer_context c).
Proof.
  intros Hr Ht. destruct (tc_overrun_spec (timer_context c) t (upcoming_messages c)) as (o&Ho&_).
  exists o. split_and!; [|by eapply overrun_wf|done].
  unfold send_check, on_timer. erewrite bind_run by done. erewrite zoom_run by exact Ho.
  by destruct c.
Qed.

(** Each part of a call can be done, whatever the others have done since the
    part before it.  Once a send has its buffer it does not fail. *)
Lemma part_returns c l k out up inn :
  fine_repr c (k :: l) out up inn →
  ∃ k' m c', part k c k' m c' ∧
    match k with
    | Timed t dst msg =>
        if (MAX_PACKET_SIZE <? length msg) ||
           (length (omap out_held l) + (length out + length up) =? out_cap c)
        then k' = None ∧ m = None
        else ∃ b, k' = Some (Allocated t dst msg b) ∧ m = None
    | Allocated t dst msg b => ∃ o, k' = Some (Checked t dst msg b o) ∧ m = None
    | Checked t dst msg b o => k' = None ∧ m = Some (dst, msg)
    | Popped d buf => ∃ p, delivered_at (input_buffer_pool (connector c)) d p ∧
        recv_read d buf c = Ret (recv_result [p] buf, c')
    end.
Proof.
  intros [Hr [Hk Hl]%Forall_cons].
  destruct k as [t dst msg|t dst msg b|t dst msg b o|d buf]; simpl in *.
  - pose proof (send_allocate_spec _ _ c out up inn msg Hr) as Ha.
    destruct (_ <? _); [|destruct (_ =? _)]; simpl.
    1,2: by eexists _, _, _; split; [by eapply part_refuse|].
    destruct Ha as (b&c'&Ha&_). eexists _, _, _. split; [by eapply part_allocate|by exists b].
  - destruct Hk as (Ht&_). destruct (send_check_spec _ _ c out up inn t Hr Ht) as (o&Ho&_).
    eexists _, _, _. split; [by eapply part_check|by exists o].
  - destruct Hk as (Ht&Hd&Hm&Hf).
    destruct (send_queue_spec _ _ b c out up inn t dst msg o Hr Hf Hd Ht Hm) as (c'&Hq&_).
    eexists _, _, _. split; [by eapply part_queue|done].
  - destruct Hk as (p&Hp). destruct (recv_read_spec _ _ c out up inn d p buf Hr Hp) as (c'&Hrun&_).
    eexists _, _, _. split; [by eapply part_read|by exists p].
Qed.

(** What it does: the accepted messages and the waiting ones go together, and
    only a message found late waits beyond the deadline. *)
Lemma part_spec c c' l k k' m out up inn :
  fine_repr c (k :: l) out up inn → part k c k' m c' →
  actor (connector c') = actor (connector c) ∧ timer_context c' = timer_context c ∧
  ∃ out' up', fine_repr c' (option_list k' ++ l) out' up' inn ∧
    waiting out' ++ waiting up' ≡ₚ option_list m ++ waiting out ++ waiting up ∧
    up' = up ++ match k with
                | Checked _ dst msg _ (Some t') => [mk_pending t' dst msg]
                | _ => []
                end ∧
    out' ≡ₚ match k with
            | Checked t dst msg _ None => [mk_pending t dst msg]
            | _ => []
            end ++ out.
Proof.
  intros [Hr [Hk Hl]%Forall_cons] Hp.
  destruct Hp as [c c' t dst msg b Hrun|c c' t dst msg e Hrun|c c' t dst msg b o Hrun
    |c c' t dst msg b o Hrun|c c' t dst msg b o e Hrun|c c' d buf r Hrun]; simpl in *.
  - pose proof (send_allocate_spec _ _ c out up inn msg Hr) as Ha.
    destruct (Nat.ltb_spec MAX_PACKET_SIZE (length msg)); [congruence|].
    destruct (_ =? _); [congruence|].
    destruct Ha as (b'&c1&Ha&(_&Ek&_&Et&_)&_&_&_&Hkeep&Hr'&Hf). rewrite Ha in Hrun. simplify_eq.
    rewrite Ek, Et. split_and!; [done..|]. exists out, up. rewrite app_nil_r. split; [|done].
    split; [done|]. constructor; [|by eapply calls_ok_keeps]. destruct Hk. by split_and!.
  - pose proof (send_allocate_spec _ _ c out up inn msg Hr) as Ha.
    assert (c' = c) as ->.
    { destruct (_ <? _); [congruence|]. destruct (_ =? _); [congruence|].
      destruct Ha as (b&c1&Ha&_). congruence. }
    split_and!; [done..|]. exists out, up. by rewrite app_nil_r.
  - destruct Hk as (Ht&Hd&Hm&Hf).
    destruct (send_check_spec _ _ c out up inn t Hr Ht) as (o'&Ho&Hwf&_).
    rewrite Ho in Hrun. simplify_eq. split_and!; [done..|]. exists out, up. rewrite app_nil_r.
    split; [|done]. split; [done|]. constructor; [by split_and!|done].
  - destruct Hk as (Ht&Hd&Hm&Hf).
    destruct (send_queue_spec _ _ b c out up inn t dst msg o Hr Hf Hd Ht Hm)
      as (c1&Hq&(_&Ek&_&Et&_)&_&Hkeep&Hr'). rewrite Hq in Hrun. simplify_eq.
    rewrite Ek, Et. split_and!; [done..|]. pose proof (calls_ok_keeps _ _ _ Hkeep Hl).
    destruct o as [t'|].
    + exists out, (up ++ [mk_pending t' dst msg]). split_and!; [done| |done..]. unfold waiting.
      rewrite fmap_app, app_assoc. simpl. by rewrite <- Permutation_cons_append.
    + destruct Hr' as (l1&l2&->&Hr'). exists (l1 ++ mk_pending t dst msg :: l2), up.
      rewrite app_nil_r. split_and!; [done| |done|]; [|by rewrite <- Permutation_middle].
      unfold waiting. rewrite !fmap_app, fmap_cons. simpl. by rewrite <- Permutation_middle.
  - destruct Hk as (Ht&Hd&Hm&Hf).
    destruct (send_queue_spec _ _ b c out up inn t dst msg o Hr Hf Hd Ht Hm) as (c1&Hq&_).
    congruence.
  - destruct Hk as (p&Hp).
    destruct (recv_read_spec _ _ c out up inn d p buf Hr Hp)
      as (c1&Hq&Hr'&(_&Ea&Et&_)&_&_&Hkeep). rewrite Hq in Hrun. simplify_eq.
    split_and!; [done..|]. exists out, up. rewrite app_nil_r. split; [|done]. split; [done|].
    by eapply calls_ok_keeps.
Qed.

(** ** Steps *)
Lemma fine_inv_part c c' l1 k l2 k' m acc e :
  fine_inv (mk_fine c (l1 ++ k :: l2) acc e) → part k c k' m c' →
  fine_inv (mk_fine c' (l1 ++ option_list k' ++ l2) (option_list m ++ acc) e).
Proof.
  intros (out&up&inn&ws&bs&cut&lost&Hr&Ht&Hws&Htx&Hacc&?&?&?) Hp. simpl in *.
  apply (fine_repr_perm _ _ (k :: l1 ++ l2)) in Hr; [|by rewrite Permutation_middle].
  destruct (part_spec _ _ _ _ _ _ _ _ _ Hr Hp) as (Ea&Et&out'&up'&Hr'&Hm&_).
  exists out', up', inn, ws, bs, cut, lost. simpl. rewrite Ea, Et. split_and!; try done.
  - eapply fine_repr_perm; [|exact Hr']. by rewrite !app_assoc, (Permutation_app_comm l1).
  - rewrite Hacc, Hm, !app_assoc. by rewrite (Permutation_app_comm (carried ws)).
Qed.

Lemma fine_inv_pop c c' l acc e o :
  fine_inv (mk_fine c l acc e) → on_queue WaitfreeArrayQueue_pop c = Ret (o, c') →
  ∀ buf, fine_inv (mk_fine c' (option_list ((λ d, Popped d buf) <$> o) ++ l) acc e).
Proof.
  intros (out&up&inn&ws&bs&cut&lost&[Hr Hl]&Hrest) Hrun buf. simpl in *.
  destruct (recv_pop_spec _ _ c out up inn Hr) as (q&Hpop&Hq).
  unfold on_queue in Hrun. erewrite zoom_run in Hrun by exact Hpop. injection Hrun as <- <-.
  destruct inn as [|p inn].
  - destruct Hq as [-> Hr']. by exists out, up, [], ws, bs, cut, lost.
  - destruct Hq as (d&->&Hr'&Hd). exists out, up, inn, ws, bs, cut, lost. split; [|done].
    split; [done|]. constructor; [by exists p|done].
Qed.

(** The input buffers that the calls leave. *)
Lemma fine_room c l out up inn :
  fine_repr c l out up inn → ∃ cap, length (omap in_held l) + cap = in_cap c.
Proof.
  intros [Hr _]. exists (in_cap c - length (omap in_held l)). destruct Hr as (_&_&Hp&_).
  apply pool_inv_length in Hp. rewrite length_app in Hp. unfold in_cap. lia.
Qed.

(** A deadline while calls are under way. *)
Lemma fine_at_deadline c l out up inn :
  fine_repr c l out up inn → tc_handling (timer_context c) →
  Duration_wf (tc_prev (timer_context c)) →
  ∃ a c' cap out' up' inn' cbs, at_deadline c = Ret (a, c') ∧ fine_repr c' l out' up' inn' ∧
    deadline_spec (address c) (tc_prev (timer_context c)) (tc_next (timer_context c))
      cap out up inn (actor (connector c)) a out' up' inn' (actor (connector c')) cbs.
Proof.
  intros Hr Hh Hp. destruct (fine_room _ _ _ _ _ Hr) as (cap&Hcap). destruct Hr as [Hr Hl].
  destruct (at_deadline_with _ _ cap c out up inn Hr Hcap Hh Hp)
    as (a&c'&out'&up'&inn'&cbs&?&?&?&_&_&?).
  exists a, c', cap, out', up', inn', cbs. split_and!; [done| |done].
  split; [done|by eapply calls_ok_keeps].
Qed.

Lemma fine_deadline_run c c' l out up inn o :
  fine_repr c l out up inn → tc_wf (timer_context c) → handle_deadline c = Ret (o, c') →
  tc_wf (timer_context c') ∧
  match o with
  | Some d => Duration_wf d ∧ tc_prev (timer_context c') = tc_next (timer_context c) ∧
      tc_next (timer_context c') = d
  | None => tc_prev (timer_context c') = tc_prev (timer_context c) ∧
      tc_next (timer_context c') = tc_next (timer_context c)
  end ∧
  ∃ out' up' inn' sent sent' lost wt note bs cut, fine_repr c' l out' up' inn' ∧
    deadline_sends (address c) (tc_prev (timer_context c)) (tc_next (timer_context c))
      out up (actor (connector c)) (from_option NextDeadline EndSimulation o) out' up'
      (actor (connector c')) sent sent' lost wt note bs cut.
Proof.
  intros [Hr Hl] Ht Hrun. destruct (fine_room c l out up inn (conj Hr Hl)) as (cap&Hcap).
  destruct (handle_deadline_with _ _ cap c c' out up inn o Hr Hcap Ht Hrun)
    as (?&?&out'&up'&inn'&cbs&?&?&Hspec&_).
  destruct (deadline_sent _ _ _ _ _ _ _ _ _ _ _ _ _ _ Hspec)
    as (sent&sent'&lost&wt&note&bs&cut&Hs).
  split_and!; [done..|]. exists out', up', inn', sent, sent', lost, wt, note, bs, cut.
  split; [|done]. split; [done|by eapply calls_ok_keeps].
Qed.

Lemma fine_inv_deadline c c' l acc o :
  fine_inv (mk_fine c l acc false) → handle_deadline c = Ret (o, c') →
  fine_inv (mk_fine c' l acc (match o with None => true | Some _ => false end)).
Proof.
  intros (out&up&inn&ws&bs0&cut0&lost0&Hr&Ht&Hws&Htx&Hacc&_&_&He) Hrun. simpl in *.
  destruct (He eq_refl) as [-> ->]. rewrite !app_nil_r in *.
  destruct (fine_deadline_run _ _ _ _ _ _ _ Hr Ht Hrun)
    as (Ht'&_&out'&up'&inn'&sent&sent'&lost&wt&note&bs&cut&Hr'&Hs).
  destruct Hs as (Hperm&Hl&_&_&_&_&Hwt&Hnote&Htx'&Henc&(r&Hr0)&Hgo).
  eexists out', up', inn', (ws ++ _), (bs0 ++ bs), cut, (waiting lost). simpl.
  rewrite Htx', Htx. split_and!; try done.
  - by apply encodes_app.
  - by rewrite !app_assoc.
  - rewrite Hacc, !carried_app. unfold set_views, late_views. rewrite !carried_views.
    assert (carried note = []) as -> by (by destruct Hnote as [->|[-> _]]).
    unfold waiting. rewrite app_nil_r, <- !fmap_app, Hperm, !fmap_app. by rewrite <- !app_assoc.
  - exists wt, r. split; [|done].
    destruct Hwt as [->|[->|[(m&_&->)|(m&_&_&->)]]]; simpl; lia.
  - unfold waiting. by rewrite length_fmap.
  - intros Ho. destruct o as [d|]; [|done]. destruct (Hgo ltac:(done)) as (->&->&_).
    split; [|done]. by apply encodes_nil_inv, app_nil in Hr0 as [-> _].
Qed.

Lemma fine_inv_step a s s' : fine_inv s → fine_step a s s' → fine_inv s'.
Proof.
  intros Hi Hstep. destruct Hstep as [c l acc e t tm dst msg Hd Hnow|c c' l acc e buf d Hp
    |c c' l acc e Hp|c c' l1 k l2 k' m acc e Hp|c c' l acc o Hrun].
  - destruct Hi as (out&up&inn&ws&bs&cut&lost&[Hr Hl]&Ht&Hrest).
    destruct (tc_now_frame _ _ _ Hnow) as (Hwf&_). pose proof (tc_wf_now _ _ _ Ht Hnow).
    exists out, up, inn, ws, bs, cut, lost. split; [split; [done|by constructor]|].
    split; [done|exact Hrest].
  - exact (fine_inv_pop _ _ _ _ _ _ Hi Hp buf).
  - exact (fine_inv_pop _ _ _ _ _ _ Hi Hp []).
  - by eapply fine_inv_part.
  - by eapply fine_inv_deadline.
Qed.

(** Induction on the steps to a reachable state. *)
Lemma reachable_by_ind (ok : move → fine T Q → Prop) (P : fine T Q → Prop) :
  (∀ s, fine_init s → P s) →
  (∀ a s s', fine_inv s → P s → ok a s → fine_step a s s' → P s') →
  ∀ s, reachable_by ok s → P s.
Proof.
  intros Hinit Hstep s (s0&Hi&Hs). pose proof (Hinit _ Hi) as HP. apply fine_inv_init in Hi.
  induction Hs as [|s0 s1 s (a&Ha&Hok) _ IH]; [done|].
  apply IH; [by eapply fine_inv_step|by eapply Hstep].
Qed.

Lemma fine_inv_reachable ok s : reachable_by ok s → fine_inv s.
Proof.
  revert s. apply reachable_by_ind; [apply fine_inv_init|]. intros a s s' Hi _ _. by apply fine_inv_step.
Qed.

(** The calls of a reachable state, and what they can do. *)
Lemma fine_calls_return s l1 k l2 :
  fine_inv s → fine_calls s = l1 ++ k :: l2 →
  ∃ k' m c', part k (fine_ctx s) k' m c' ∧
    match k with
    | Allocated t dst msg b => ∃ o, k' = Some (Checked t dst msg b o)
    | Checked t dst msg b o => m = Some (dst, msg)
    | _ => True
    end.
Proof.
  intros (out&up&inn&ws&bs&cut&lost&Hr&_) Hs. rewrite Hs in Hr.
  apply (fine_repr_perm _ _ (k :: l1 ++ l2)) in Hr; [|by rewrite Permutation_middle].
  destruct (part_returns _ _ _ _ _ _ Hr) as (k'&m&c'&Hp&Hk). exists k', m, c'. split; [done|].
  destruct k; [done|destruct Hk as (o&->&_); by exists o|by destruct Hk|done].
Qed.

(** ** A schedule that can be run *)
Inductive act :=
  | ASend (dst : Z) (msg : bytes)
  | APart (i : nat)
  | ADeadline.

(** What a part gives, as [part] says. *)
Definition part_exec (k : call_pc) (c : Context T Q) :
    option (option call_pc * option (Z * bytes) * Context T Q) :=
  match k with
  | Timed t dst msg =>
      match send_allocate msg c with
      | Ret (Ok b, c') => Some (Some (Allocated t dst msg b), None, c')
      | Ret (Err _, c') => Some (None, None, c')
      | _ => None
      end
  | Allocated t dst msg b =>
      match send_check t c with
      | Ret (o, c') => Some (Some (Checked t dst msg b o), None, c')
      | _ => None
      end
  | Checked t dst msg b o =>
      match send_queue t dst msg b o c with
      | Ret (Ok _, c') => Some (None, Some (dst, msg), c')
      | Ret (Err _, c') => Some (None, None, c')
      | _ => None
      end
  | Popped d buf =>
      match recv_read d buf c with Ret (_, c') => Some (None, None, c') | _ => None end
  end.

(** The call that began last is the first of the list. *)
Definition act_exec (a : act) (s : fine T Q) : option (move * fine T Q) :=
  let '(mk_fine c l acc e) := s in
  match a with
  | ASend dst msg =>
      match tc_simulation_now (timer_context c) with
      | Ret (t, tm) =>
          if (0 <=? dst)%Z && (dst <=? u32_max)%Z
          then Some (MSend, mk_fine (set_timer_context tm c) (Timed t dst msg :: l) acc e)
          else None
      | _ => None
      end
  | APart i =>
      k ← l !! i;
      '(k', m, c') ← part_exec k c;
      Some (MPart k, mk_fine c' (take i l ++ option_list k' ++ drop (S i) l)
              (option_list m ++ acc) e)
  | ADeadline =>
      if e then None
      else match handle_deadline c with
           | Ret (o, c') =>
               Some (MDeadline o, mk_fine c' l acc (match o with None => true | Some _ => false end))
           | _ => None
           end
  end.

(** [okb] decides which steps are allowed. *)
Fixpoint acts_exec (okb : move → fine T Q → bool) (acts : list act) (s : fine T Q) :
    option (fine T Q) :=
  match acts with
  | [] => Some s
  | a :: acts => '(m, s') ← act_exec a s; if okb m s then acts_exec okb acts s' else None
  end.

Definition forwardb (a : move) (s : fine T Q) : bool :=
  match a with
  | MDeadline (Some d) => (tc_next (timer_context (fine_ctx s)) <=? d)%Z
  | _ => true
  end.
Definition orderlyb (a : move) (s : fine T Q) : bool :=
  forwardb a s &&
  match a, omap late_time (fine_calls s) with
  | (MPart (Allocated _ _ _ _) | MDeadline _), _ :: _ => false
  | _, _ => true
  end.

Lemma forwardb_sound a s : forwardb a s = true → forward a s.
Proof. destruct a as [| | |[d|]]; simpl; intros ?; try done. by apply Z.leb_le. Qed.
Lemma orderlyb_sound a s : orderlyb a s = true → orderly a s.
Proof.
  intros [Hf Hl]%andb_prop. split; [by apply forwardb_sound|]. unfold late_first.
  destruct a as [| |[]|]; try done; by destruct (omap late_time (fine_calls s)).
Qed.

Lemma part_exec_sound k c k' m c' :
  part_exec k c = Some (k', m, c') → part k c k' m c'.
Proof.
  destruct k as [t dst msg|t dst msg b|t dst msg b o|d buf]; simpl; intros Hk.
  - destruct (send_allocate msg c) as [[[b|e] c1]| |] eqn:He; simplify_eq; by econstructor.
  - destruct (send_check t c) as [[o c1]| |] eqn:He; simplify_eq; by econstructor.
  - destruct (send_queue t dst msg b o c) as [[[[]|e] c1]| |] eqn:He; simplify_eq; by econstructor.
  - destruct (recv_read d buf c) as [[r c1]| |] eqn:He; simplify_eq; by econstructor.
Qed.

Lemma act_exec_sound a s m s' : act_exec a s = Some (m, s') → fine_step m s s'.
Proof.
  destruct s as [c l acc e]. destruct a as [dst msg|i|]; simpl.
  - destruct (tc_simulation_now (timer_context c)) as [[t tm]| |] eqn:Hn; [|done..].
    destruct (Z.leb_spec 0 dst), (Z.leb_spec dst u32_max); simpl; [|done..].
    intros [= <- <-]. by apply fine_send.
  - intros (k&Hk&([[k' m'] c']&He%part_exec_sound&[= <- <-])%bind_Some)%bind_Some.
    rewrite <- (take_drop_middle l i k Hk) at 1. by apply fine_part.
  - destruct e; [done|]. destruct (handle_deadline c) as [[o c']| |] eqn:Hd; [|done..].
    intros [= <- <-]. by apply fine_deadline.
Qed.

Lemma acts_exec_reachable okb (ok : move → fine T Q → Prop) acts s s' :
  (∀ a s, okb a s = true → ok a s) →
  reachable_by ok s → acts_exec okb acts s = Some s' → reachable_by ok s'.
Proof.
  intros Hok. revert s. induction acts as [|a acts IH]; intros s Hs; simpl; [by intros [= <-]|].
  intros ([m s1]&Ha%act_exec_sound&Hrun)%bind_Some. destruct (okb m s) eqn:Hb; [|done].
  eapply IH; [|exact Hrun]. destruct Hs as (s0&Hi&Hs). exists s0. split; [done|].
  eapply rtc_r; [exact Hs|]. exists m. auto.
Qed.

Lemma fine_repr_upcoming c l out up inn :
  fine_repr c l out up inn → spb_send_time <$> upcoming_messages c = pd_time <$> up.
Proof.
  intros [(_&(_&_&_&_&_&Hu)&_) _]. clear -Hu.
  induction Hu as [|m pd ms l (_&_&_&Ht&_) _ IH]; [done|]. csimpl. by f_equal.
Qed.
Lemma fine_repr_outgoing c l out up inn :
  fine_repr c l out up inn →
  spb_send_time <$> set_msgs (outgoing_messages c) = pd_time <$> out.
Proof.
  intros [(_&(_&_&_&_&Ho&_)&_) _]. clear -Ho.
  induction Ho as [|m pd ms l (_&_&_&Ht&_) _ IH]; [done|]. csimpl. by f_equal.
Qed.

(** ** The deadlines are in order *)
Lemma tc_inv_step a s s' :
  fine_inv s → tc_inv (timer_context (fine_ctx s)) → forward a s → fine_step a s s' →
  tc_inv (timer_context (fine_ctx s')).
Proof.
  intros (out&up&inn&ws&bs&cut&lost&Hr&Hwf&_) Ht Hf Hstep.
  destruct Hstep as [c l acc e t tm dst msg Hd Hnow|c c' l acc e buf d Hp
    |c c' l acc e Hp|c c' l1 k l2 k' m acc e Hp|c c' l acc o Hrun]; simpl in *.
  - by eapply tc_inv_now.
  - unfold on_queue in Hp. by apply zoom_inv in Hp as (q&_&->).
  - unfold on_queue in Hp. by apply zoom_inv in Hp as (q&_&->).
  - apply (fine_repr_perm _ _ (k :: l1 ++ l2)) in Hr; [|by rewrite Permutation_middle].
    by destruct (part_spec _ _ _ _ _ _ _ _ _ Hr Hp) as (_&->&_).
  - destruct (fine_deadline_run _ _ _ _ _ _ _ Hr Hwf Hrun) as (_&Ho&_). unfold tc_inv in *.
    destruct o as [d|]; [destruct Ho as ([??]&->&->); lia|destruct Ho as [-> ->]; lia].
Qed.

(** ** Messages beyond a deadline

    At most one call has found its message late and not queued it yet; that
    message is stamped after the deadline and not before those that wait. *)
Definition late_inv (s : fine T Q) : Prop :=
  let times := spb_send_time <$> upcoming_messages (fine_ctx s) in
  let tm := timer_context (fine_ctx s) in
  StronglySorted Z.le times ∧ Forall (λ t, tc_prev tm < t)%Z times ∧
  (omap late_time (fine_calls s) = [] ∨
   ∃ t, omap late_time (fine_calls s) = [t] ∧ (tc_next tm < t)%Z ∧ Forall (λ t', t' ≤ t)%Z times).

Lemma late_inv_frame c c' l l' acc acc' e e' :
  spb_send_time <$> upcoming_messages c' = spb_send_time <$> upcoming_messages c →
  tc_prev (timer_context c') = tc_prev (timer_context c) →
  tc_next (timer_context c') = tc_next (timer_context c) →
  omap late_time l' = omap late_time l →
  late_inv (mk_fine c l acc e) → late_inv (mk_fine c' l' acc' e').
Proof. intros Hu Hp Hn Hl. unfold late_inv. simpl. by rewrite Hu, Hp, Hn, Hl. Qed.

Lemma omap_late_part l1 k l2 k' :
  late_time k = k' ≫= late_time →
  omap late_time (l1 ++ option_list k' ++ l2) = omap late_time (l1 ++ k :: l2).
Proof.
  intros Hk. rewrite !omap_app. f_equal. simpl. rewrite Hk.
  destruct k' as [k'|]; simpl; [by destruct (late_time k')|done].
Qed.

(** The check of a late time, when no late message is under way. *)
Lemma late_inv_check c l1 t dst msg b o l2 acc acc' e e' out up inn :
  fine_repr c (l1 ++ Allocated t dst msg b :: l2) out up inn → Duration_wf t →
  omap late_time (l1 ++ Allocated t dst msg b :: l2) = [] → send_check t c = Ret (o, c) →
  late_inv (mk_fine c (l1 ++ Allocated t dst msg b :: l2) acc e) →
  late_inv (mk_fine c (l1 ++ Checked t dst msg b o :: l2) acc' e').
Proof.
  intros Hr Ht Hnone Hc (Hs&Hp&_). split_and!; [done..|]. simpl in *.
  rewrite omap_app in Hnone |- *. simpl in *. apply app_nil in Hnone as [-> ->]. simpl.
  destruct o as [t'|]; [right|by left]. exists t'. split; [done|].
  destruct (send_check_spec _ _ c out up inn t (proj1 Hr) Ht) as (o&Ho&_&Hov).
  rewrite Hc in Ho. simplify_eq.
  destruct (tc_overrun_spec (timer_context c) t (upcoming_messages c)) as (o&Ho&Hcase).
  rewrite Hov in Ho. simplify_eq. destruct Hcase as (?&_&_&Hlast). split; [done|].
  rewrite (fine_repr_upcoming _ _ _ _ _ Hr) in *. by eapply up_last; [apply Hr|..].
Qed.

(** The queueing of a late message. *)
Lemma late_inv_queue c c' l1 t dst msg b t' l2 acc acc' e e' :
  tc_inv (timer_context c) → timer_context c' = timer_context c →
  spb_send_time <$> upcoming_messages c' = (spb_send_time <$> upcoming_messages c) ++ [t'] →
  late_inv (mk_fine c (l1 ++ Checked t dst msg b (Some t') :: l2) acc e) →
  late_inv (mk_fine c' (l1 ++ l2) acc' e').
Proof.
  intros Ht Et Hu (Hs&Hp&Hk). unfold late_inv. simpl in *. rewrite Et, Hu.
  rewrite omap_app in Hk |- *. simpl in Hk.
  assert (omap late_time l1 = [] ∧ omap late_time l2 = [] ∧
    (tc_next (timer_context c) < t')%Z ∧
    Forall (λ x, x ≤ t')%Z (spb_send_time <$> upcoming_messages c)) as (->&->&Hn&Hle).
  { destruct Hk as [Hk|(x&Hk&?)]; [by destruct (omap late_time l1)|].
    destruct (omap late_time l1) as [|y l]; simplify_eq/=; [done|by destruct l]. }
  apply tc_inv_ordered in Ht. split_and!; [by apply StronglySorted_snoc| |by left].
  apply Forall_app. split; [done|]. constructor; [lia|constructor].
Qed.

Lemma late_inv_part c c' l1 k l2 k' m acc acc' e :
  fine_inv (mk_fine c (l1 ++ k :: l2) acc e) → tc_inv (timer_context c) →
  late_inv (mk_fine c (l1 ++ k :: l2) acc e) →
  late_first (MPart k) (mk_fine c (l1 ++ k :: l2) acc e) → part k c k' m c' →
  late_inv (mk_fine c' (l1 ++ option_list k' ++ l2) acc' e).
Proof.
  intros (out&up&inn&ws&bs&cut&lost&Hr0&_) Ht Hinv Hfirst Hp. simpl in Hr0.
  assert (fine_repr c (k :: l1 ++ l2) out up inn) as Hr
    by (eapply fine_repr_perm; [|exact Hr0]; by rewrite Permutation_middle).
  destruct (part_spec _ _ _ _ _ _ _ _ _ Hr Hp) as (_&Et&out'&up'&Hr'&_&Hup'&_).
  pose proof (fine_repr_upcoming _ _ _ _ _ Hr) as Hu.
  pose proof (fine_repr_upcoming _ _ _ _ _ Hr') as Hu'. rewrite Hup' in Hu'.
  destruct Hp as [c c' t dst msg b _|c c' t dst msg x _|c c' t dst msg b o Hc
    |c c' t dst msg b o _|c c' t dst msg b o x _|c c' d buf r _];
    try destruct o as [t'|]; rewrite ?app_nil_r in Hu'.
  1,2,6,8,9: eapply late_inv_frame; [..|exact Hinv]; [congruence..|by apply omap_late_part].
  3,4: eapply late_inv_queue; [done..| |exact Hinv]; by rewrite Hu', fmap_app, Hu.
  all: destruct Hr as [Hr [(Hwf&_) _]%Forall_cons];
    destruct (send_check_spec _ _ c out up inn t Hr Hwf) as (o&Ho&_); rewrite Ho in Hc;
    simplify_eq; by eapply late_inv_check.
Qed.

Lemma late_inv_deadline c c' l acc o :
  fine_inv (mk_fine c l acc false) → late_inv (mk_fine c l acc false) → omap late_time l = [] →
  handle_deadline c = Ret (o, c') →
  ∀ acc' e', late_inv (mk_fine c' l acc' e').
Proof.
  intros (out&up&inn&ws&bs&cut&lost&Hr&Ht&_) (Hs&Hp&_) Hl Hrun acc' e'. simpl in *.
  destruct (fine_deadline_run _ _ _ _ _ _ _ Hr Ht Hrun)
    as (_&Ho&out'&up'&inn'&sent&sent'&lost'&wt&note&bs'&cut'&Hr'&Hsends).
  destruct Hsends as (_&_&_&(x&Hx)&_&_&_&_&_&_&_&Hgo).
  rewrite (fine_repr_upcoming _ _ _ _ _ Hr), Hx, app_assoc, fmap_app in Hs, Hp.
  unfold late_inv. simpl. rewrite (fine_repr_upcoming _ _ _ _ _ Hr').
  apply StronglySorted_app_r in Hs. apply Forall_app in Hp as [_ Hp].
  split_and!; [done| |by left]. destruct o as [d|].
  - destruct Ho as (_&->&_). apply sorted_suffix; [done|].
    destruct (Hgo ltac:(done)) as (_&_&_&_&Hh). intros y Hy.
    destruct up' as [|m up']; simplify_eq/=. by apply Hh.
  - by destruct Ho as [-> _].
Qed.

Lemma late_inv_step a s s' :
  fine_inv s → tc_inv (timer_context (fine_ctx s)) → late_inv s → late_first a s →
  fine_step a s s' → late_inv s'.
Proof.
  intros Hi Ht Hinv Hfirst Hstep.
  destruct Hstep as [c l acc e t tm dst msg Hd Hnow|c c' l acc e buf d Hp
    |c c' l acc e Hp|c c' l1 k l2 k' m acc e Hp|c c' l acc o Hrun]; simpl in Ht.
  - destruct (tc_now_frame _ _ _ Hnow) as (_&Ep&En).
    eapply late_inv_frame; [..|exact Hinv]; done.
  - unfold on_queue in Hp. apply zoom_inv in Hp as (q&_&->).
    eapply late_inv_frame; [..|exact Hinv]; done.
  - unfold on_queue in Hp. apply zoom_inv in Hp as (q&_&->).
    eapply late_inv_frame; [..|exact Hinv]; done.
  - by eapply late_inv_part.
  - by eapply late_inv_deadline.
Qed.

Lemma orderly_inv s :
  reachable_by orderly s → tc_inv (timer_context (fine_ctx s)) ∧ late_inv s.
Proof.
  revert s. apply (reachable_by_ind orderly).
  - intros s (Hr&Ht&Hc&_). split; [done|].
    assert (upcoming_messages (fine_ctx s) = []) as Hu.
    { destruct Hr as (_&(_&_&_&_&_&Hu)&_). by apply Forall2_nil_inv_r in Hu. }
    unfold late_inv. rewrite Hu, Hc. split_and!; [constructor|constructor|by left].
  - intros a s s' Hi [Ht Hl] [Hf Hfirst] Hstep.
    split; [by eapply tc_inv_step|by eapply late_inv_step].
Qed.

(** ** Timers that find no message late *)
Definition no_late (s : fine T Q) : Prop :=
  upcoming_messages (fine_ctx s) = [] ∧ omap late_time (fine_calls s) = [].

(** With such a timer no message ever waits beyond a deadline, and every run is
    orderly whose deadlines do not go back. *)
Lemma no_late_step `{ON : !OverrunNever T} a s s' :
  fine_inv s → no_late s → fine_step a s s' → no_late s'.
Proof.
  intros (out&up&inn&ws&bs&cut&lost&Hr&Ht&_) [Hup Hl] Hstep.
  assert (up = []) as ->.
  { pose proof (fine_repr_upcoming _ _ _ _ _ Hr) as Hu. rewrite Hup in Hu. simpl in Hu.
    by apply symmetry, fmap_nil_inv in Hu. }
  assert (∀ c l out inn acc e, fine_repr c l out [] inn → omap late_time l = [] →
    no_late (mk_fine c l acc e)) as Hno.
  { intros c l out0 inn0 acc e Hu%fine_repr_upcoming ?. split; [|done]. by apply fmap_nil_inv in Hu. }
  destruct Hstep as [c l acc e t tm dst msg Hd Hnow|c c' l acc e buf d Hp
    |c c' l acc e Hp|c c' l1 k l2 k' m acc e Hp|c c' l acc o Hrun]; simpl in *.
  - done.
  - unfold on_queue in Hp. by apply zoom_inv in Hp as (q&_&->).
  - unfold on_queue in Hp. by apply zoom_inv in Hp as (q&_&->).
  - assert (fine_repr c (k :: l1 ++ l2) out [] inn) as Hr1
      by (eapply fine_repr_perm; [|exact Hr]; by rewrite Permutation_middle).
    destruct (part_spec _ _ _ _ _ _ _ _ _ Hr1 Hp) as (_&_&out'&up'&Hr'&_&Hup'&_).
    assert (late_time k = None) as Hk.
    { rewrite omap_app in Hl. simpl in Hl. apply app_nil in Hl as [_ Hl]. by destruct (late_time k). }
    assert (up' = []) as -> by (rewrite Hup'; by destruct k as [| |????[]|]).
    eapply Hno; [eapply fine_repr_perm; [|exact Hr'];
      by rewrite !app_assoc, (Permutation_app_comm l1)|].
    rewrite (omap_late_part l1 k); [done|]. rewrite Hk.
    destruct Hp as [| |c c' t dst msg b o Hc| | |]; try done. simpl.
    unfold send_check, on_timer in Hc. erewrite bind_run in Hc by done.
    erewrite zoom_run in Hc by apply tc_overrun_never. by simplify_eq.
  - destruct (fine_deadline_run _ _ _ _ _ _ _ Hr Ht Hrun)
      as (_&_&out'&up'&inn'&sent&sent'&lost'&wt&note&bs'&cut'&Hr'&Hsends).
    destruct Hsends as (_&_&_&(x&Hx)&_).
    symmetry in Hx. apply app_nil in Hx as [_ [_ ->]%app_nil]. by eapply Hno.
Qed.

Lemma no_late_reachable `{ON : !OverrunNever T} ok s : reachable_by ok s → no_late s.
Proof.
  revert s. apply (reachable_by_ind ok).
  - intros s (Hr&_&Hc&_). split; [|by rewrite Hc].
    destruct Hr as (_&(_&_&_&_&_&Hu)&_). by apply Forall2_nil_inv_r in Hu.
  - intros a s s' ?? _. by apply no_late_step.
Qed.

Lemma forward_orderly `{ON : !OverrunNever T} s : reachable_by forward s → reachable_by orderly s.
Proof.
  intros (s0&Hi&Hs). exists s0. split; [done|].
  assert (reachable_by forward s0) as Hr by (by exists s0).
  clear Hi. induction Hs as [|s0 s1 s (a&Ha&Hf) _ IH]; [done|].
  eapply rtc_l; [|apply IH].
  - exists a. split; [done|]. split; [done|]. unfold late_first.
    destruct (no_late_reachable _ _ Hr) as [_ ->]. by destruct a as [| |[]|].
  - destruct Hr as (x&?&?). exists x. split; [done|]. eapply rtc_r; [done|]. by exists a.
Qed.

(** ** Timers that report late messages *)
Definition in_time (s : fine T Q) : Prop :=
  let next := tc_next (timer_context (fine_ctx s)) in
  Forall (λ t, t ≤ next)%Z (spb_send_time <$> set_msgs (outgoing_messages (fine_ctx s))) ∧
  Forall (λ k, match k with Checked t _ _ _ None => (t ≤ next)%Z | _ => True end) (fine_calls s).

Lemma in_time_part `{OC : !OverrunChecked T} c c' l1 k l2 k' m acc acc' e out up inn :
  fine_repr c (l1 ++ k :: l2) out up inn → in_time (mk_fine c (l1 ++ k :: l2) acc e) →
  part k c k' m c' → in_time (mk_fine c' (l1 ++ option_list k' ++ l2) acc' e).
Proof.
  intros Hr [Ho Hk] Hp. simpl in *. rewrite (fine_repr_outgoing _ _ _ _ _ Hr) in Ho.
  apply (fine_repr_perm _ _ (k :: l1 ++ l2)) in Hr; [|by rewrite Permutation_middle].
  destruct (part_spec _ _ _ _ _ _ _ _ _ Hr Hp) as (_&Et&out'&up'&Hr'&_&_&Hout').
  apply Forall_app in Hk as [Hk1 [Hk Hk2]%Forall_cons].
  unfold in_time. simpl. rewrite (fine_repr_outgoing _ _ _ _ _ Hr'), Hout', Et.
  rewrite fmap_app, !Forall_app. split_and!; try done.
  - destruct k as [| |????[]|]; by constructor.
  - destruct Hp as [| |c c' t dst msg b [t'|] Hc| | |]; repeat constructor; simpl in *.
    unfold send_check, on_timer in Hc. apply bind_inv in Hc as (q&c1&[-> ->]%gets_inv&Hc).
    apply zoom_inv in Hc as (tm&Hc&_). by eapply tc_overrun_None.
Qed.

Lemma in_time_step `{OC : !OverrunChecked T} a s s' :
  fine_inv s → in_time s → forward a s → fine_step a s s' → in_time s'.
Proof.
  intros (out&up&inn&ws&bs&cut&lost&Hr&Ht&_) Hin Hf Hstep.
  destruct Hstep as [c l acc e t tm dst msg Hd Hnow|c c' l acc e buf d Hp
    |c c' l acc e Hp|c c' l1 k l2 k' m acc e Hp|c c' l acc o Hrun]; simpl in *.
  - destruct (tc_now_frame _ _ _ Hnow) as (_&_&En), Hin. unfold in_time. simpl. rewrite En.
    split; [done|]. by constructor.
  - unfold on_queue in Hp. apply zoom_inv in Hp as (q&_&->). destruct Hin.
    split; [done|]. by constructor.
  - unfold on_queue in Hp. by apply zoom_inv in Hp as (q&_&->).
  - by eapply in_time_part.
  - destruct (fine_deadline_run _ _ _ _ _ _ _ Hr Ht Hrun)
      as (_&Ho&out'&up'&inn'&sent&sent'&lost'&wt&note&bs'&cut'&Hr'&Hsends).
    destruct Hsends as (_&_&[x Hx]&_&_&_&_&_&_&_&_&Hgo). destruct Hin as [H1 H2].
    simpl in *. rewrite (fine_repr_outgoing _ _ _ _ _ Hr), Hx, fmap_app in H1.
    apply Forall_app in H1 as [_ H1]. unfold in_time. simpl.
    rewrite (fine_repr_outgoing _ _ _ _ _ Hr'). destruct o as [d|].
    + destruct Ho as (_&_&->), (Hgo ltac:(done)) as (_&_&_&->&_). split; [constructor|].
      eapply Forall_impl; [exact H2|]. intros [| |????[]|]; simpl; lia.
    + by destruct Ho as (_&->).
Qed.

Lemma in_time_reachable `{OC : !OverrunChecked T} ok s :
  (∀ a s, ok a s → forward a s) → reachable_by ok s → in_time s.
Proof.
  intros Hok. revert s. apply (reachable_by_ind ok).
  - intros s (Hr&_&Hc&_). unfold in_time. rewrite Hc.
    rewrite (fine_repr_outgoing _ [] [] [] []) by (by split). split; constructor.
  - intros a s s' Hi Ht Ha. apply in_time_step; auto.
Qed.
End fine.

(** The states reached by any steps at all. *)
Abbreviation fine_reachable := (reachable_by any_move).
