(* ===== verification/Cosim.v ===== *)
(** * Cosim: a client and the actor it is connected to

    The tests run a client against a scripted actor: two processes that
    exchange bytes over a socket, where a receive waits for the other side.
    [world] is the pair; the actor runs when the client waits.  The live
    versions of the receive, of the deadline and of its handler are those of
    [Context] and [HandleDeadline] with a receive that waits.  [live_recorded]
    relates the two: a deadline against a live actor is a deadline on the
    bytes the actor sends, recorded. *)
From S2P Require Import Prelude Std BufferPool BytesBuffer Wire FbBuffer Connector.
From S2P Require Import ConnectorSpec OutputMsgSet WaitfreeArrayQueue Chrono Error Timer.
From S2P Require Import Context ContextSpec DeadlineSpec HandleDeadline TestActor ActorSpec.
From stdpp Require Import base option list numbers.
From Stdlib Require Import ZArith Lia.

(** The socket of a client. *)
Abbreviation sock c := (actor (connector c)).

Record world (T : Type) (Q : Type → Type) `{FlatBuffers} := mk_world {
  w_ctx : Context T Q;
  w_proc : actor_process;
}.
Arguments mk_world {_ _ _} _ _.
Arguments w_ctx {_ _ _} _.
Arguments w_proc {_ _ _} _.

Section cosim.
Context {T : Type} {Q : Type → Type} `{FB : FlatBuffers, CH : Chrono}
  `{TM : !Timer T, TH : !TimerHandler T, AQ : !ArrayQueue Q}.

Abbreviation World := (world T Q).
Abbreviation Ctx := (Context T Q).

Definition on_ctx {A} : M Ctx A → M World A := zoom w_ctx (λ c w, mk_world c (w_proc w)).

(** The client with another socket. *)
Definition map_stream (f : UnixStream → UnixStream) (c : Ctx) : Ctx :=
  set_connector (mk_connector (f (actor (connector c))) (input_buffer_pool (connector c))
                   (scratch_builder (connector c))) c.

(** What the client meets after the last byte of the actor. *)
Definition peer_end (p : actor_process) : io_error :=
  match p with Blocked _ _ => would_block | _ => eof end.

(** The actor receives what the client has sent, runs until it waits or ends,
    and what it sends reaches the client. *)
Definition actor_turn (fuel : nat) : M World unit := λ w,
  let s := actor (connector (w_ctx w)) in
  match w_proc w with
  | Blocked k a =>
      '(st, a) ← run_actor fuel (await k)
        (with_client (mk_stream (rx (client a) ++ tx s) would_block [] (wr (client a))) a);
      let l := tx (client a) in
      let p := after_script (Ok tt) st
                 (with_client (mk_stream (rx (client a)) would_block [] (wr (client a))) a) in
      Ret (tt, mk_world (map_stream (λ s, mk_stream (rx s ++ l) (peer_end p) [] (wr s)) (w_ctx w)) p)
  | p => Ret (tt, mk_world (map_stream (λ s, mk_stream (rx s) (peer_end p) [] (wr s)) (w_ctx w)) p)
  end.

Definition client_blocks {A} (r : result A io_error) : bool :=
  match r with Err e => bool_decide (e = would_block) | Ok _ => false end.

(** [Connector::recv] of a client that is connected: when it has to wait the
    actor runs.  If the actor waits as well, the receive never returns. *)
Definition live_recv (fuel : nat) : M World (result MsgIn io_error) := λ w,
  '(r, w1) ← on_ctx connector_recv w;
  if client_blocks r then
    '(_, w1) ← actor_turn fuel w;
    '(r, w2) ← on_ctx connector_recv w1;
    if client_blocks r then OutOfFuel else Ret (r, w2)
  else Ret (r, w1).

Fixpoint live_recv_loop (n fuel : nat) : M World AfterDeadline :=
  match n with
  | O => out_of_fuel
  | S n =>
      msg ← live_recv fuel;
      match msg with
      | Ok msg =>
          o ← on_ctx (handle_actor_msg msg);
          match o with
          | Some after_deadline => mret after_deadline
          | None => live_recv_loop n fuel
          end
      | Err _ => mret EndSimulation
      end
  end.

Definition live_notify_and_receive (fuel : nat) : M World AfterDeadline :=
  r ← on_ctx (connector_send MsgOut_AtDeadline);
  match r with
  | Err _ => mret EndSimulation
  | Ok _ =>
      may_notify ← on_ctx (gets (λ c, WaitfreeArrayQueue_is_empty (input_queue c)));
      after_deadline ← live_recv_loop fuel fuel;
      on_ctx (notify_application may_notify after_deadline)
  end.

Definition live_at_deadline (fuel : nat) : M World AfterDeadline :=
  o ← on_ctx send_messages;
  match o with
  | Some after_deadline => mret after_deadline
  | None => live_notify_and_receive fuel
  end.

Definition live_handle_deadline (fuel : nat) : M World (option Duration) :=
  f ← on_ctx (on_timer tc_freeze);
  after_deadline ← live_at_deadline fuel;
  match after_deadline with
  | NextDeadline deadline => _ ← on_ctx (on_timer (tc_resume f deadline)); mret (Some deadline)
  | EndSimulation => mret None
  end.
End cosim.

(** ** Code that a change of its state does not concern *)
Section stable.
Context {St : Type} (φ : St → St).

(** [m] does the same on the state that [φ] makes of its state. *)
Definition stable {A} (m : M St A) : Prop :=
  ∀ s x s', m s = Ret (x, s') → m (φ s) = Ret (x, φ s').

Lemma stable_ret {A} (a : A) : stable (mret a).
Proof. by intros s x s' [= <- <-]. Qed.

Lemma stable_bind {A B} (m : M St A) (k : A → M St B) :
  stable m → (∀ a, stable (k a)) → stable (m ≫= k).
Proof.
  intros Hm Hk s x s' (a&s1&H1&H2)%bind_inv. erewrite bind_run by (by apply Hm). by apply Hk.
Qed.

Lemma stable_lift {A} (m : outcome A) : stable (lift m).
Proof. intros s x s' [-> ->]%lift_inv. done. Qed.

Lemma stable_gets {A} (g : St → A) : (∀ s, g (φ s) = g s) → stable (gets g).
Proof. intros Hg s x s' [= <- <-]. unfold gets. by rewrite Hg. Qed.

Lemma stable_modify (g : St → St) : (∀ s, g (φ s) = φ (g s)) → stable (modify g).
Proof. intros Hg s x s' [= <- <-]. unfold modify. by rewrite Hg. Qed.

Lemma stable_out_of_fuel {A} : stable (A := A) out_of_fuel.
Proof. done. Qed.
End stable.

Lemma stable_id {St A} (m : M St A) : stable id m.
Proof. by intros s x s'. Qed.

(** A call on a part of the state, where [φ] acts as [ψ]. *)
Lemma stable_zoom {St P A} φ ψ (get : St → P) set (m : M P A) :
  (∀ s, get (φ s) = ψ (get s)) → (∀ p s, set (ψ p) (φ s) = φ (set p s)) →
  stable ψ m → stable φ (zoom get set m).
Proof.
  intros Hg Hs Hm s x s' (p&Hp&->)%zoom_inv.
  rewrite (zoom_run get set m x (φ s) (ψ p)); [by rewrite Hs|]. rewrite Hg. by apply Hm.
Qed.

Lemma stable_zoom_id {St P A} φ (get : St → P) set (m : M P A) :
  (∀ s, get (φ s) = get s) → (∀ p s, set p (φ s) = φ (set p s)) → stable φ (zoom get set m).
Proof. intros. apply (stable_zoom φ id); [done..|apply stable_id]. Qed.

(** ** Sending does not look at the bytes to come *)
Section blind.
Context {T : Type} {Q : Type → Type} `{FL : FlatBuffersLaws, CH : Chrono}
  `{TM : !Timer T, TL : !TimerLaws T, AQ : ArrayQueueLaws Q}.
Implicit Types (c : Context T Q).

(** Bytes that come later, up to the end [e]. *)
Definition more (l : bytes) (e : io_error) (s : UnixStream) : UnixStream :=
  mk_stream (rx s ++ l) e (tx s) (wr s).

Lemma stable_write l e d : stable (more l e) (write_all d).
Proof.
  intros s x s'. unfold write_all. destruct (wr s) as [|[[]|]] eqn:Hw; simpl; rewrite Hw;
    by intros [= <- <-].
Qed.

Lemma stable_send l e msg :
  stable (map_stream (T := T) (Q := Q) (more l e)) (connector_send msg).
Proof.
  apply (stable_zoom _ (λ '(k, p), (mk_connector (more l e (actor k)) (input_buffer_pool k)
    (scratch_builder k), p))); [done|by intros [k p] c|].
  unfold UnixConnector_send. apply stable_bind; [by apply stable_modify; intros [k p]|intros _].
  apply (stable_zoom _ (λ '(w, b, p), (more l e w, b, p)));
    [by intros [k p]|by intros [[w b] p] [k p']|].
  destruct msg as [|pkt]; unfold MsgOut_send.
  - apply stable_bind; [apply stable_zoom_id; [by intros [[w b] p]|by intros b' [[w b] p]]|intros _].
    apply stable_bind; [by apply stable_gets; intros [[w b] p]|intros b].
    apply stable_bind; [apply stable_lift|intros d].
    apply (stable_zoom _ (more l e)); [by intros [[w b'] p]|by intros w' [[w b'] p]|].
    apply stable_write.
  - apply stable_bind; [apply stable_zoom_id; [by intros [[w b] p]|by intros b' [[w b] p]]|intros b].
    apply stable_bind; [apply stable_lift|intros d].
    apply stable_bind; [|intros r].
    { apply (stable_zoom _ (more l e)); [by intros [[w b'] p]|by intros w' [[w b'] p]|].
      apply stable_write. }
    apply stable_bind; [apply stable_zoom_id; [by intros [[w b'] p]|by intros b' [[w ?] p]]|intros _].
    apply stable_ret.
Qed.

(** Parts of the context other than the socket. *)
Lemma stable_part {P A} f (get : Context T Q → P) set (m : M P A) :
  (∀ c, get (map_stream f c) = get c) →
  (∀ p c, set p (map_stream f c) = map_stream f (set p c)) →
  stable (map_stream f) (zoom get set m).
Proof. apply stable_zoom_id. Qed.

Lemma stable_send_outgoing l e fuel prev cur index :
  stable (map_stream (T := T) (Q := Q) (more l e)) (send_outgoing fuel prev cur index).
Proof.
  revert index. induction fuel as [|fuel IH]; intros index; [done|]. simpl.
  apply stable_bind; [by apply stable_part|intros [[m i]|]]; [|apply stable_ret].
  destruct (_ && _).
  - apply stable_bind; [by apply stable_part|intros _; apply stable_ret].
  - apply stable_bind; [by apply stable_part|intros pkt].
    apply stable_bind; [apply stable_send|intros [?|?]]; [apply IH|apply stable_ret].
Qed.

Lemma stable_send_upcoming l e fuel cur :
  stable (map_stream (T := T) (Q := Q) (more l e)) (send_upcoming fuel cur).
Proof.
  induction fuel as [|fuel IH]; [done|]. simpl.
  apply stable_bind; [by apply stable_gets|intros [|m q]]; [apply stable_ret|].
  destruct (_ <=? _)%Z; [|apply stable_ret].
  apply stable_bind; [by apply stable_modify|intros _].
  apply stable_bind; [by apply stable_part|intros pkt].
  apply stable_bind; [apply stable_send|intros [?|?]]; [apply IH|apply stable_ret].
Qed.

Lemma stable_send_messages l e :
  stable (map_stream (T := T) (Q := Q) (more l e)) send_messages.
Proof.
  apply stable_bind; [by apply stable_part|intros prev].
  apply stable_bind; [by apply stable_part|intros cur].
  apply stable_bind; [by apply stable_gets|intros fuel].
  apply stable_bind; [apply stable_send_outgoing|intros [a|]]; [apply stable_ret|].
  apply stable_bind; [by apply stable_gets|intros fuel']. apply stable_send_upcoming.
Qed.

(** Handling a message and notifying do not use the socket at all. *)
Lemma stable_handle_actor_msg f msg : stable (map_stream (T := T) (Q := Q) f) (handle_actor_msg msg).
Proof.
  destruct msg as [d|d|]; simpl; [|apply stable_ret..].
  apply stable_bind; [by apply stable_part|intros _].
  apply stable_bind; [by apply stable_part|intros _].
  apply stable_bind; [by apply stable_part|intros [|[d']]]; [apply stable_ret|].
  apply stable_bind; [by apply stable_part|intros _; apply stable_ret].
Qed.

Lemma stable_notify_application f b a :
  stable (map_stream (T := T) (Q := Q) f) (notify_application b a).
Proof.
  apply stable_bind; [by apply stable_gets|intros e].
  apply stable_bind; [destruct (_ && _); [by apply stable_modify|apply stable_ret]|intros _].
  apply stable_bind; [destruct a; [by apply stable_modify|apply stable_ret]|intros _].
  apply stable_ret.
Qed.
End blind.

(** ** A receive that does not reach the end of the stream *)
Section recv_more.
Context {T : Type} {Q : Type → Type} `{FL : FlatBuffersLaws, CH : Chrono}
  `{TM : !Timer T, TL : !TimerLaws T, AQ : ArrayQueueLaws Q}.
Implicit Types (c : Context T Q).

Definition retx (t : bytes) (s : UnixStream) : UnixStream := mk_stream (rx s) (rx_end s) t (wr s).

(** It does not depend on what was sent. *)
Lemma stable_retx_recv t : stable (map_stream (T := T) (Q := Q) (retx t)) connector_recv.
Proof.
  assert (∀ n, stable (retx t) (read_exact n)) as Hread.
  { intros n s x s'. unfold read_exact. simpl. destruct (_ <=? _); by intros [= <- <-]. }
  apply (stable_zoom _ (λ k, mk_connector (retx t (actor k)) (input_buffer_pool k)
    (scratch_builder k))); [done..|].
  apply (stable_zoom _ (λ '(s, p), (retx t s, p))); [done|by intros [s p] k|].
  unfold MsgIn_recv, try. apply stable_bind; [|intros [size|e]; [|apply stable_ret]].
  { apply (stable_zoom _ (retx t)); [by intros [s p]|by intros s' [s p]|].
    apply stable_bind; [apply Hread|intros [?|?]; apply stable_ret]. }
  apply stable_bind; [|intros [b|e]; [|apply stable_ret]].
  { by apply stable_zoom_id; [intros [s p]|intros p' [s p]]. }
  apply stable_bind; [|intros r].
  { apply (stable_zoom _ (retx t)); [by intros [s p]|by intros s' [s p]|apply Hread]. }
  by apply stable_zoom_id; [intros [s p]|intros p' [s p]].
Qed.

Lemma read_exact_more l e n s d s' :
  read_exact n s = Ret (Ok d, s') → read_exact n (more l e s) = Ret (Ok d, more l e s').
Proof.
  unfold read_exact, more. simpl. destruct (Nat.leb_spec n (length (rx s))); [|done].
  intros [= <- <-]. rewrite length_app, (proj2 (Nat.leb_le _ _)) by lia.
  by rewrite take_app_le, drop_app_le.
Qed.

Lemma read_exact_inv n s r s' :
  read_exact n s = Ret (r, s') → (∃ d, r = Ok d) ∨ r = Err (rx_end s).
Proof. unfold read_exact. destruct (_ <=? _); intros [= <- _]; eauto. Qed.

(** Nor on what comes after the bytes that it reads. *)
Lemma MsgIn_recv_more l e s p r s' p' :
  MsgIn_recv (s, p) = Ret (r, (s', p')) → r ≠ Err (rx_end s) →
  MsgIn_recv (more l e s, p) = Ret (r, (more l e s', p')).
Proof.
  unfold MsgIn_recv, try. intros (r1&[s1 p1]&Hsize&Hrun)%bind_inv Hne.
  apply zoom_inv in Hsize as (s2&Hsize&[= -> ->]). simpl in Hsize.
  unfold read_prefixed_size, try in Hsize. apply bind_inv in Hsize as (r2&s3&Hread&Hsize).
  destruct (read_exact_inv _ _ _ _ Hread) as [[d ->]| ->].
  2: { injection Hsize as <- <-. by injection Hrun as <- _. }
  injection Hsize as <- <-.
  erewrite bind_run.
  2: { apply zoom_run. unfold read_prefixed_size, try.
       by erewrite bind_run by (by apply read_exact_more). }
  apply bind_inv in Hrun as (r3&[s4 p4]&Hal&Hrun).
  apply zoom_inv in Hal as (p5&Hal&[= -> ->]). simpl in Hal.
  erewrite bind_run by (apply zoom_run; exact Hal).
  destruct r3 as [b|e3]; [|by injection Hrun as <- <- <-].
  apply bind_inv in Hrun as (r4&[s6 p6]&Hread2&Hrun).
  apply zoom_inv in Hread2 as (s7&Hread2&[= -> ->]). simpl in Hread2.
  assert (rx_end s3 = rx_end s) as Hend.
  { revert Hread. unfold read_exact. by destruct (_ <=? _); intros [= _ <-]. }
  destruct (read_exact_inv _ _ _ _ Hread2) as [[d2 ->]| ->].
  - erewrite bind_run by (apply zoom_run; by apply read_exact_more).
    apply zoom_inv in Hrun as (p7&Hrun&[= -> ->]). by erewrite zoom_run by exact Hrun.
  - exfalso. apply zoom_inv in Hrun as (p7&Hrun&_). unfold drop_ret in Hrun. simpl in Hrun.
    apply bind_inv in Hrun as ([]&p8&_&Hrun). injection Hrun as <- _. by rewrite Hend in Hne.
Qed.

Lemma recv_more l e c r c' :
  connector_recv c = Ret (r, c') → r ≠ Err (rx_end (actor (connector c))) →
  connector_recv (map_stream (more l e) c) = Ret (r, map_stream (more l e) c').
Proof.
  intros (k&Hk&->)%zoom_inv Hne. apply zoom_inv in Hk as ([s p]&Hk&->). simpl in Hk.
  unfold connector_recv, UnixConnector_recv.
  erewrite zoom_run; [|apply zoom_run; apply MsgIn_recv_more; [exact Hk|done]]. done.
Qed.
End recv_more.

(** ** A live deadline is a recorded one *)
Section recorded.
Context {T : Type} {Q : Type → Type} `{FL : FlatBuffersLaws, CH : Chrono}
  `{TM : !Timer T, TL : !TimerLaws T, TH : !TimerHandler T, AQ : ArrayQueueLaws Q}.
Implicit Types (c : Context T Q) (w : world T Q).

Lemma map_stream_id c f : f (sock c) = sock c → map_stream f c = c.
Proof. unfold map_stream. intros ->. by destruct c as [? []]. Qed.

Lemma more_nil c : map_stream (more [] (rx_end (sock c))) c = c.
Proof. apply map_stream_id. unfold more. rewrite app_nil_r. by destruct (sock c). Qed.

Lemma retx_same c : map_stream (retx (tx (sock c))) c = c.
Proof. apply map_stream_id. by destruct (sock c). Qed.

Lemma more_more l l' e e' c :
  map_stream (more l' e') (map_stream (more l e) c) = map_stream (more (l ++ l') e') c.
Proof. unfold map_stream, more. simpl. by rewrite app_assoc. Qed.

(** The errors of a receive: the end of the stream, or one of the client's. *)
Lemma parse_in_error b msg p e p' :
  parse_in b msg p = Ret (Err e, p') → e ≠ would_block.
Proof.
  unfold parse_in, new_deliver_packet, drop_ret.
  repeat case_match; intros; run_inv; repeat case_match; run_inv; done.
Qed.

Lemma recv_error_block c c' :
  connector_recv c = Ret (Err would_block, c') → rx_end (sock c) = would_block.
Proof.
  intros (k&Hk&->)%zoom_inv. apply zoom_inv in Hk as ([s p]&Hk&->). simpl in Hk.
  revert Hk. generalize (sock c), (input_buffer_pool (connector c)). clear c. intros s0 p0.
  unfold MsgIn_recv, try. intros (r1&[s1 p1]&Hsize&Hrun)%bind_inv.
  apply zoom_inv in Hsize as (s2&Hsize&[= -> ->]). simpl in Hsize.
  rewrite read_prefixed_size_run in Hsize.
  destruct (length (rx s0) <? 4); injection Hsize as <- <-; [by injection Hrun|].
  apply bind_inv in Hrun as (r3&[s4 p4]&Hal&Hrun).
  apply zoom_inv in Hal as (p5&Hal&[= -> ->]). simpl in Hal.
  destruct r3 as [b|e3].
  2: { injection Hrun as He _ _. unfold from, from_refl in He. subst e3.
       unfold connector_allocate_buffer in Hal.
       apply bind_inv in Hal as ([|[]]&?&_&Hal); by injection Hal. }
  apply bind_inv in Hrun as (r4&[s6 p6]&Hread&Hrun).
  apply zoom_inv in Hread as (s7&Hread&[= -> ->]). simpl in Hread.
  apply zoom_inv in Hrun as (p7&Hrun&_).
  destruct (read_exact_inv _ _ _ _ Hread) as [[d ->]| ->]; simpl in Hrun.
  - exfalso. apply bind_inv in Hrun as (?&?&_&Hrun). apply bind_inv in Hrun as (?&?&_&Hrun).
    destruct (root_FromTansivMsg _); [by apply parse_in_error in Hrun|].
    unfold drop_ret in Hrun. by run_inv.
  - unfold drop_ret in Hrun. by run_inv.
Qed.

(** Receiving only consumes bytes; handling leaves the socket alone. *)
Lemma recv_keeps c r c' :
  connector_recv c = Ret (r, c') →
  rx_end (sock c') = rx_end (sock c) ∧ tx (sock c') = tx (sock c).
Proof.
  intros (k&Hk&->)%zoom_inv. apply zoom_inv in Hk as ([s p]&Hk&->). simpl in *.
  revert Hk. generalize (sock c), (input_buffer_pool (connector c)). clear c. intros s0 p0.
  assert (∀ n (s s' : UnixStream) r, read_exact n s = Ret (r, s') →
    rx_end s' = rx_end s ∧ tx s' = tx s) as Hread.
  { intros n s1 s2 r1. unfold read_exact. by destruct (_ <=? _); intros [= _ <-]. }
  unfold MsgIn_recv, try. intros (r1&[s1 p1]&Hsize&Hrun)%bind_inv.
  apply zoom_inv in Hsize as (s2&Hsize&[= -> ->]). simpl in Hsize.
  unfold read_prefixed_size, try in Hsize. apply bind_inv in Hsize as (r2&s3&Hr&Hsize).
  apply Hread in Hr. assert (s2 = s3) as -> by (destruct r2; by injection Hsize).
  destruct r1 as [size|e1]; [|by injection Hrun as _ <- _].
  apply bind_inv in Hrun as (r3&[s4 p4]&Hal&Hrun).
  apply zoom_inv in Hal as (p5&_&[= -> ->]). destruct r3 as [b|e3]; [|by injection Hrun as _ <- _].
  apply bind_inv in Hrun as (r4&[s6 p6]&Hr2&Hrun).
  apply zoom_inv in Hr2 as (s7&Hr2&[= -> ->]). simpl in Hr2. apply Hread in Hr2.
  apply zoom_inv in Hrun as (p7&_&[= -> _]). destruct Hr, Hr2. split; congruence.
Qed.

Lemma handle_keeps msg c o c' : handle_actor_msg msg c = Ret (o, c') → sock c' = sock c.
Proof.
  unfold handle_actor_msg, on_input_pool, on_queue. intros Hrun.
  destruct msg as [d|d|]; run_inv; try done.
  repeat case_match; run_inv; done.
Qed.

(** The turn of the actor only adds bytes to the client's stream. *)
Lemma actor_turn_ctx fuel w u w' :
  actor_turn fuel w = Ret (u, w') →
  ∃ l e, w_ctx w' = map_stream (retx []) (map_stream (more l e) (w_ctx w)).
Proof.
  unfold actor_turn. destruct (w_proc w) as [k a|a|code].
  - destruct (run_actor _ _ _) as [[st a']| |]; [|done..]. intros [= _ <-]. by eexists _, _.
  - intros [= _ <-]. exists [], eof. unfold map_stream, retx, more. simpl. by rewrite app_nil_r.
  - intros [= _ <-]. exists [], eof. unfold map_stream, retx, more. simpl. by rewrite app_nil_r.
Qed.

(** A live receive as a receive on recorded bytes: the client either had
    enough of them, or waited at the end of the stream for [l]. *)
Lemma live_recv_inv fuel w r w' :
  live_recv fuel w = Ret (r, w') →
  connector_recv (w_ctx w) = Ret (r, w_ctx w') ∧ client_blocks r = false ∨
  rx_end (sock (w_ctx w)) = would_block ∧ client_blocks r = false ∧ tx (sock (w_ctx w')) = [] ∧
  ∃ l e, connector_recv (map_stream (more l e) (w_ctx w)) =
    Ret (r, map_stream (retx (tx (sock (w_ctx w)))) (w_ctx w')).
Proof.
  unfold live_recv. destruct (on_ctx connector_recv w) as [[r0 w0]| |] eqn:Hr0; [|done..].
  apply zoom_inv in Hr0 as (c0&Hr0&->). simpl. destruct (client_blocks r0) eqn:Hb0.
  2: { intros [= <- <-]. by left. }
  destruct (actor_turn fuel w) as [[u w1]| |] eqn:Hturn; [|done..]. simpl.
  destruct (on_ctx connector_recv w1) as [[r1 w2]| |] eqn:Hr1; [|done..]. simpl.
  destruct (client_blocks r1) eqn:Hb1; [done|]. intros [= <- <-]. right.
  destruct r0 as [|e0]; [done|]. apply bool_decide_eq_true in Hb0 as ->.
  split; [by eapply recv_error_block|]. split; [done|].
  destruct (actor_turn_ctx _ _ _ _ Hturn) as (l&e&Hctx).
  apply zoom_inv in Hr1 as (c2&Hr1&->). simpl. rewrite Hctx in Hr1. split.
  - by apply recv_keeps in Hr1 as [_ ->].
  - exists l, e. by apply (stable_retx_recv (tx (sock (w_ctx w)))) in Hr1.
Qed.

Lemma stable_retx_recv_loop t n : stable (map_stream (T := T) (Q := Q) (retx t)) (recv_loop n).
Proof.
  induction n as [|n IH]; [done|]. simpl. apply stable_bind; [apply stable_retx_recv|].
  intros [msg|e]; [|apply stable_ret].
  apply stable_bind; [apply stable_handle_actor_msg|intros [a|]; [apply stable_ret|apply IH]].
Qed.

Lemma live_recv_loop_recorded n fuel w a w' :
  live_recv_loop n fuel w = Ret (a, w') →
  ∃ l e, (rx_end (sock (w_ctx w)) ≠ would_block → l = [] ∧ e = rx_end (sock (w_ctx w))) ∧
    recv_loop n (map_stream (more l e) (w_ctx w)) =
      Ret (a, map_stream (retx (tx (sock (w_ctx w)))) (w_ctx w')).
Proof.
  revert w. induction n as [|n IH]; intros w; [done|]. simpl live_recv_loop.
  intros (r&w1&Hrecv&Hrun)%bind_inv.
  set (k (r : result MsgIn io_error) := match r with
    | Ok msg => o ← handle_actor_msg msg;
        match o with Some x => mret x | None => recv_loop n end
    | Err _ => mret EndSimulation
    end : M (Context T Q) AfterDeadline).
  (* What is left after the receive, on the client of [w1]. *)
  assert (∃ l e, (rx_end (sock (w_ctx w1)) ≠ would_block → l = [] ∧ e = rx_end (sock (w_ctx w1))) ∧
    (client_blocks r = false → is_ok r = false → l = [] ∧ e = rx_end (sock (w_ctx w1))) ∧
    k r (map_stream (more l e) (w_ctx w1)) =
      Ret (a, map_stream (retx (tx (sock (w_ctx w1)))) (w_ctx w'))) as (l&e&Hside&Herr&Hk).
  { destruct r as [msg|e]; simpl in Hrun.
    2: { injection Hrun as <- <-. exists [], (rx_end (sock (w_ctx w1))).
         split_and!; try done. by rewrite more_nil, retx_same. }
    apply bind_inv in Hrun as (o&w2&Hh&Hrun). apply zoom_inv in Hh as (c2&Hh&->).
    pose proof (handle_keeps _ _ _ _ Hh) as Hs. destruct o as [x|].
    - injection Hrun as <- <-. exists [], (rx_end (sock (w_ctx w1))). split_and!; try done.
      rewrite more_nil. simpl. erewrite bind_run by exact Hh. simpl.
      rewrite <- Hs. by rewrite retx_same.
    - destruct (IH _ Hrun) as (l&e&Hside&Hl). simpl in *. rewrite Hs in *.
      exists l, e. split_and!; [done..|]. simpl.
      by erewrite bind_run by (apply stable_handle_actor_msg; exact Hh). }
  destruct (live_recv_inv _ _ _ _ Hrecv) as [[Hc Hnb]|(Hend&Hnb&Htx&l1&e1&Hc)].
  - destruct (recv_keeps _ _ _ Hc) as [He Ht]. rewrite He, Ht in *.
    exists l, e. split; [done|]. simpl recv_loop. fold k. destruct r as [msg|e'].
    + by erewrite bind_run by (by apply recv_more).
    + destruct (Herr Hnb eq_refl) as [-> ->]. rewrite <- He, more_nil in *.
      rewrite He, more_nil. by erewrite bind_run by exact Hc.
  - rewrite Htx in Hk. exists (l1 ++ l), e. split; [by rewrite Hend|].
    rewrite <- (more_more l1 l e1). simpl recv_loop. fold k.
    assert (stable (map_stream (T := T) (Q := Q) (retx (tx (sock (w_ctx w))))) (k r)) as Hst.
    { destruct r as [msg|e']; [|apply stable_ret].
      apply stable_bind; [apply stable_handle_actor_msg|].
      intros [x|]; [apply stable_ret|apply stable_retx_recv_loop]. }
    apply Hst in Hk. destruct r as [msg|e'].
    + erewrite bind_run by (by apply recv_more). exact Hk.
    + destruct (Herr Hnb eq_refl) as [-> ->]. destruct (recv_keeps _ _ _ Hc) as [He _].
      rewrite more_nil in Hk. simpl in He. rewrite He, more_more, app_nil_r.
      erewrite bind_run by exact Hc. exact Hk.
Qed.

Lemma recv_loop_mono n m c x : recv_loop n c = Ret x → n ≤ m → recv_loop m c = Ret x.
Proof.
  revert m c. induction n as [|n IH]; intros [|m] c; [done..|lia|]. simpl.
  destruct x as [a c']. intros (r&c1&Hr&Hrun)%bind_inv Hle. erewrite bind_run by exact Hr.
  destruct r as [msg|e]; [|done]. apply bind_inv in Hrun as (o&c2&Hh&Hrun).
  erewrite bind_run by exact Hh. destruct o; [done|]. apply IH; [done|lia].
Qed.

(** The deadline of a connected client is [at_deadline] on the bytes [l] that
    the actor sent meanwhile, up to the bytes the client sent, which the actor
    has consumed. *)
Lemma live_at_deadline_recorded fuel w a w' out up inn :
  repr (w_ctx w) out up inn → tc_handling (timer_context (w_ctx w)) →
  Duration_wf (tc_prev (timer_context (w_ctx w))) →
  live_at_deadline fuel w = Ret (a, w') →
  ∃ l e t, at_deadline (map_stream (more l e) (w_ctx w)) =
    Ret (a, map_stream (retx t) (w_ctx w')).
Proof.
  intros Hr Hh Hp (o&w1&Hsend&Hrun)%bind_inv. apply zoom_inv in Hsend as (c1&Hsend&->).
  assert (∀ c' : Context T Q, ∃ l e t,
    c' = map_stream (retx t) c' ∧ map_stream (more l e) (w_ctx w) = w_ctx w) as Hsame.
  { intros c'. eexists [], _, _. split; [by rewrite retx_same|apply more_nil]. }
  destruct o as [a'|].
  { injection Hrun as <- <-. destruct (Hsame c1) as (l&e&t&Ht&Hm). exists l, e, t.
    rewrite Hm. simpl. rewrite <- Ht. unfold at_deadline. by erewrite bind_run by exact Hsend. }
  apply bind_inv in Hrun as (r&w2&Hat&Hrun). apply zoom_inv in Hat as (c2&Hat&->).
  destruct r as [[]|e0].
  2: { injection Hrun as <- <-. destruct (Hsame c2) as (l&e&t&Ht&Hm). exists l, e, t.
       rewrite Hm. simpl. rewrite <- Ht. unfold at_deadline. erewrite bind_run by exact Hsend.
       unfold notify_and_receive. by erewrite bind_run by exact Hat. }
  apply bind_inv in Hrun as (b&w3&Hb&Hrun). apply zoom_inv in Hb as (c3&[= <- <-]&->).
  apply bind_inv in Hrun as (a'&w4&Hloop&Hrun). apply zoom_inv in Hrun as (c5&Hn&->).
  assert (a' = a) as ->.
  { unfold notify_application in Hn. by run_inv. }
  destruct (live_recv_loop_recorded _ _ _ _ _ Hloop) as (l&e&_&Hrec). simpl in Hrec.
  exists l, e, (tx (sock c2)). unfold at_deadline.
  erewrite bind_run by (apply stable_send_messages; exact Hsend). unfold notify_and_receive.
  erewrite bind_run by (apply stable_send; exact Hat).
  cbv beta iota. do 2 (erewrite bind_run by done).
  assert (∃ out' up', repr (map_stream (more l e) c2) out' up' inn) as (out'&up'&Hr2).
  { destruct (send_messages_with [] [] 0 _ _ _ _ Hr Hh Hp) as (o&c1'&out'&up'&Hrun'&Hr1&_&_).
    rewrite Hsend in Hrun'. injection Hrun' as <- <-. exists out', up'.
    destruct (UnixConnector_send_at_deadline (connector c1) (output_buffer_pool c1))
      as (l'&f&Hs&_). apply zoom_inv in Hat as ([k p]&Hat&->). simpl in Hat.
    rewrite Hs in Hat. injection Hat as _ <- <-. destruct Hr1 as (?&?&?). by split_and!. }
  destruct (recv_loop_spec [] [] _ (S (length (rx (sock (map_stream (more l e) c2)))))
    _ _ _ _ Hr2 eq_refl ltac:(lia)) as (a2&c'&inn'&l'&Hloop2&_).
  assert ((a2, c') = (a, map_stream (retx (tx (sock c2))) (w_ctx w4))) as [= -> ->].
  { set (n := S (length (rx (sock (map_stream (more l e) c2))))) in *.
    apply (recv_loop_mono _ (max n fuel)) in Hloop2; [|lia].
    apply (recv_loop_mono _ (max n fuel)) in Hrec; [|lia]. congruence. }
  cbn beta. erewrite bind_run by exact Hloop2.
  apply (stable_notify_application (retx (tx (sock c2)))) in Hn. exact Hn.
Qed.

(** More fuel gives the same result. *)
Lemma actor_turn_mono n m w x : actor_turn n w = Ret x → n ≤ m → actor_turn m w = Ret x.
Proof.
  unfold actor_turn. intros Hrun Hle. destruct (w_proc w) as [k a|a|code]; [|done..].
  destruct (run_actor n _ _) as [y| |] eqn:Ha; [|done..].
  by rewrite (run_actor_mono _ m _ _ _ Ha Hle).
Qed.

Lemma live_recv_mono n m w x : live_recv n w = Ret x → n ≤ m → live_recv m w = Ret x.
Proof.
  unfold live_recv. intros Hrun Hle. destruct (on_ctx connector_recv w) as [[r w1]| |]; [|done..].
  simpl in *. destruct (client_blocks r); [|done].
  destruct (actor_turn n w) as [y| |] eqn:Ha; [|done..].
  by rewrite (actor_turn_mono _ m _ _ Ha Hle).
Qed.

Lemma live_recv_loop_mono n m f g w x :
  live_recv_loop n f w = Ret x → n ≤ m → f ≤ g → live_recv_loop m g w = Ret x.
Proof.
  revert m w. induction n as [|n IH]; intros [|m] w; [done..|lia|]. simpl.
  destruct x as [a w']. intros (r&w1&Hr&Hrun)%bind_inv Hle Hfg.
  erewrite bind_run by (eapply live_recv_mono; [exact Hr|done]).
  destruct r as [msg|e]; [|done]. apply bind_inv in Hrun as (o&w2&Hh&Hrun).
  erewrite bind_run by exact Hh. destruct o; [done|]. apply IH; [done|lia|done].
Qed.

Lemma live_at_deadline_mono n m w x :
  live_at_deadline n w = Ret x → n ≤ m → live_at_deadline m w = Ret x.
Proof.
  destruct x as [a w']. intros (o&w1&Hs&Hrun)%bind_inv Hle. unfold live_at_deadline.
  erewrite bind_run by exact Hs. destruct o; [done|].
  apply bind_inv in Hrun as (r&w2&Hat&Hrun). unfold live_notify_and_receive.
  erewrite bind_run by exact Hat. destruct r; [|done].
  apply bind_inv in Hrun as (b&w3&Hb&Hrun). erewrite bind_run by exact Hb.
  apply bind_inv in Hrun as (y&w4&Hloop&Hrun).
  by erewrite bind_run by (eapply live_recv_loop_mono; [exact Hloop|done..]).
Qed.

(** So a deadline has one result, whatever the fuel. *)
Lemma live_at_deadline_det n m w x y :
  live_at_deadline n w = Ret x → (∀ fuel, m ≤ fuel → live_at_deadline fuel w = Ret y) → x = y.
Proof.
  intros Hx Hy. specialize (Hy (max n m) ltac:(lia)).
  apply (live_at_deadline_mono _ (max n m)) in Hx; [congruence|lia].
Qed.
End recorded.
