(* ===== verification/CosimSpec.v ===== *)
(** * CosimSpec: a deadline against a waiting actor

    What a live deadline does, in terms of the script: the client sends the
    packets of the slice and the notification, the script runs on those bytes
    until it waits or ends, and the client receives what it sent. *)
From S2P Require Import Prelude Std BufferPool BytesBuffer Wire FbBuffer Connector.
From S2P Require Import ConnectorSpec OutputMsgSet WaitfreeArrayQueue Chrono Error Timer.
From S2P Require Import Context ContextSpec DeadlineSpec HandleDeadline TestActor ActorSpec.
From S2P Require Import Cosim.
From stdpp Require Import base option list numbers.
From Stdlib Require Import ZArith Lia.

(** A socket with nothing to read that is still connected. *)
Definition blank : UnixStream := mk_stream [] would_block [] [].

(** The messages of a deadline: the set, the waiting messages that are due,
    the notification. *)
Definition slice_views (addr : Z) (prev : Duration) (out sent : list pending) : list out_view :=
  ((λ m, out_view_of addr (clamp prev (pd_time m)) m) <$> out) ++
  ((λ m, out_view_of addr (pd_time m) m) <$> sent) ++ [WAtDeadline].

(** The process and the stream after a turn in which the script ran to [st]. *)
Definition turned `{FlatBuffers} (st : run_state (TestResult unit)) (a : TestActor) :
    actor_process :=
  after_script (Ok tt) st
    (with_client (mk_stream (rx (client a)) would_block [] (wr (client a))) a).

(** The connection of a client to an actor that runs [actor_fn]: the client's
    socket, with what the script sent first, and the process. *)
Definition connect `{FlatBuffers} (fuel : nat) (actor_fn : script) :
    outcome (UnixStream * actor_process) :=
  a ← TestActor_new blank;
  '(st, a) ← run_actor fuel actor_fn a;
  Ret (mk_stream (tx (client a)) (peer_end (turned st a)) [] [], turned st a).

Lemma connect_runs_new `{FlatBuffersLaws} t (P : UnixStream → actor_process → Prop) :
  (∀ a, TestActor_new blank = Ret a → actor_ok a → client a = blank → ∃ st a', runs t a st a' ∧
    P (mk_stream (tx (client a')) (peer_end (turned st a')) [] []) (turned st a')) →
  ∃ n s p, P s p ∧ ∀ fuel, n ≤ fuel → connect fuel t = Ret (s, p).
Proof.
  intros Ht. destruct (TestActor_new_spec blank) as (a&Ha&Hc&Hok).
  destruct (Ht a Ha Hok Hc) as (st&a'&Hr&HP). destruct (runs_run _ _ _ _ Hr) as (n&Hn).
  exists n. eexists _, _. split; [exact HP|]. intros fuel Hf. unfold connect. rewrite Ha. simpl.
  by rewrite Hn.
Qed.

Lemma connect_runs `{FlatBuffersLaws} t (P : UnixStream → actor_process → Prop) :
  (∀ a, actor_ok a → client a = blank → ∃ st a', runs t a st a' ∧
    P (mk_stream (tx (client a')) (peer_end (turned st a')) [] []) (turned st a')) →
  ∃ n s p, P s p ∧ ∀ fuel, n ≤ fuel → connect fuel t = Ret (s, p).
Proof. intros Ht. apply connect_runs_new. auto. Qed.

Section live.
Context {T : Type} {Q : Type → Type} `{FL : FlatBuffersLaws, CH : Chrono}
  `{TM : !Timer T, TL : !TimerLaws T, TH : !TimerHandler T, AQ : ArrayQueueLaws Q}.
Implicit Types (c : Context T Q) (w : world T Q) (out up : list pending) (inn : list packet).

(** The first receive of a loop that never waits. *)
Lemma recv_loop_first n c a c' :
  recv_loop n c = Ret (a, c') → a ≠ EndSimulation ∨ rx_end (sock c) ≠ would_block →
  ∃ r c1, connector_recv c = Ret (r, c1) ∧ client_blocks r = false.
Proof.
  destruct n as [|n]; [done|]. simpl. intros (r&c1&Hr&Hrun)%bind_inv Ha.
  exists r, c1. split; [done|]. destruct r as [|e]; [done|]. simpl in *.
  apply bool_decide_eq_false. intros ->.
  injection Hrun as <- _. destruct Ha as [|Ha]; [done|]. by apply Ha, (recv_error_block c c1).
Qed.

(** A receive loop that never waits is the one of the context. *)
Lemma live_loop_unblocked n fuel c p a c' :
  recv_loop n c = Ret (a, c') → a ≠ EndSimulation ∨ rx_end (sock c) ≠ would_block →
  live_recv_loop n fuel (mk_world c p) = Ret (a, mk_world c' p).
Proof.
  revert c. induction n as [|n IH]; intros c Hloop Ha; [done|].
  destruct (recv_loop_first _ _ _ _ Hloop Ha) as (r&c1&Hr&Hb). simpl in *.
  erewrite bind_run in Hloop by exact Hr. rename Hloop into Hrun.
  erewrite bind_run.
  2: { unfold live_recv, on_ctx. erewrite zoom_run by exact Hr. simpl. by rewrite Hb. }
  destruct r as [msg|e]; [|by injection Hrun as <- <-].
  apply bind_inv in Hrun as (o&c2&Hh&Hrun).
  erewrite bind_run by (apply zoom_run; exact Hh).
  destruct o as [x|]; [by injection Hrun as <- <-|]. apply IH; [done|].
  apply handle_keeps in Hh as ->. by destruct (recv_keeps _ _ _ Hr) as [-> _].
Qed.

(** Waiting for the actor. *)
Lemma live_loop_turn n fuel w w1 x c0 r c1 :
  connector_recv (w_ctx w) = Ret (Err would_block, c0) → actor_turn fuel w = Ret (tt, w1) →
  connector_recv (w_ctx w1) = Ret (r, c1) → client_blocks r = false →
  live_recv_loop n fuel w1 = Ret x → live_recv_loop n fuel w = Ret x.
Proof.
  intros Hr0 Hturn Hr1 Hb. destruct n as [|n]; [done|]. simpl. destruct x as [a w'].
  intros (r'&w2&Hr&Hrun)%bind_inv.
  assert (live_recv fuel w = Ret (r', w2)) as Hl; [|by erewrite bind_run by exact Hl].
  unfold live_recv, on_ctx in *. erewrite zoom_run in Hr by exact Hr1. simpl in Hr.
  rewrite Hb in Hr. injection Hr as <- <-.
  erewrite zoom_run by exact Hr0. simpl. rewrite Hturn. simpl.
  erewrite zoom_run by exact Hr1. simpl. by rewrite Hb.
Qed.

Lemma transmits_wr ws s s' :
  transmits ws s s' → wr s = [] →
  ∃ l, s' = mk_stream (rx s) (rx_end s) (tx s ++ l) [] ∧ encodes ws l.
Proof.
  induction 1 as [s|w ws l s s' Hl _ IH]; intros Hw.
  { exists []. rewrite app_nil_r. split; [|constructor]. destruct s. by simplify_eq/=. }
  unfold written in IH. rewrite Hw in IH. destruct IH as (l'&->&Hl'); [done|]. simpl.
  exists (l ++ l'). split; [by rewrite app_assoc|by constructor].
Qed.

(** The sending half of a deadline, on a socket that takes every write. *)
Lemma sending_run c out up inn :
  repr c out up inn → tc_handling (timer_context c) →
  Duration_wf (tc_prev (timer_context c)) → wr (sock c) = [] →
  let prev := tc_prev (timer_context c) in
  let cur := tc_next (timer_context c) in
  (∃ c', send_messages c = Ret (Some EndSimulation, c') ∧ callbacks c' = callbacks c ∧
    ¬ Forall (λ m, pd_time m ≤ cur)%Z out) ∨
  (∃ c1 c2 sent up' l, send_messages c = Ret (None, c1) ∧
    connector_send MsgOut_AtDeadline c1 = Ret (Ok tt, c2) ∧ repr c2 [] up' inn ∧
    deadline_keeps c c2 ∧ callbacks c2 = callbacks c ∧ input_queue c2 = input_queue c ∧
    sock c2 = mk_stream (rx (sock c)) (rx_end (sock c)) (tx (sock c) ++ l) [] ∧
    encodes (slice_views (address c) prev out sent) l ∧ up = sent ++ up' ∧
    Forall (λ m, pd_time m < prev ∨ pd_time m ≤ cur)%Z out ∧
    Forall (λ m, pd_time m ≤ cur)%Z sent).
Proof.
  intros Hr Hh Hp Hw prev cur.
  destruct (send_messages_with [] [] (in_cap c) c out up inn Hr Hh Hp)
    as (o&c1&out'&up'&Hrun&Hr1&Hf&_&Ho). destruct o as [a|].
  { destruct Ho as (->&_&Ho). left. exists c1. split; [done|]. split; [apply Hf|]. intros Hall.
    destruct Ho as [Ho|(vs&s1&Ht&Ho)].
    - rewrite Hw, outgoing_spec_all_ok in Ho; [done|constructor|done].
    - destruct (transmits_wr _ _ _ Ht Hw) as (l&->&_).
      rewrite upcoming_spec_all_ok in Ho; [done|constructor]. }
  right. destruct Ho as (->&vs&vs'&s1&Ho&Ht1&Hu&Ht2).
  destruct (outgoing_spec_ok _ _ _ _ _ _ _ Ho) as (_&->&Hout).
  destruct (upcoming_spec_ok _ _ _ _ _ _ Hu) as (sent&->&->&Hsent&_).
  destruct (UnixConnector_send_at_deadline (connector c1) (output_buffer_pool c1))
    as (l&f&Hsend&Henc).
  destruct (transmits_wr _ _ _ (transmits_app _ _ _ _ _ Ht1 Ht2) Hw) as (l'&Hs1&Hl').
  pose proof (encodes_app _ _ _ _ Hl' (encodes_singleton _ _ Henc)) as Hall.
  destruct (Hf) as (?&?&?&?&?&?&?).
  unfold write_result, written in Hsend. rewrite Hs1 in Hsend. simpl in Hsend.
  eexists c1, _, sent, up', (l' ++ l). split; [done|].
  split; [unfold connector_send; erewrite zoom_run by exact Hsend; done|].
  destruct Hr1 as (?&?&?). split_and!; try done.
  - apply transmit_keeps in Hf as (?&?&?&?&?). by split_and!.
  - simpl. by rewrite app_assoc.
  - unfold slice_views. by rewrite app_assoc.
Qed.

(** The client's half of the deadline, after the notification: the callbacks. *)
Lemma live_finish c1 c2 c3 out up inn inn' x p p' fuel :
  connector_send MsgOut_AtDeadline c1 = Ret (Ok tt, c2) → repr c2 out up inn →
  live_recv_loop fuel fuel (mk_world c2 p) = Ret (x, mk_world c3 p') → repr c3 out up inn' →
  live_notify_and_receive fuel (mk_world c1 p) =
    Ret (x, mk_world (after_callbacks (notify_callbacks inn inn' x) c3) p').
Proof.
  intros Hs Hr Hloop Hr3. unfold live_notify_and_receive.
  erewrite bind_run by (apply zoom_run; exact Hs). cbv beta iota. erewrite bind_run by done.
  cbv beta. erewrite bind_run by exact Hloop.
  unfold on_ctx. erewrite zoom_run; [done|]. simpl.
  apply (notify_application_run [] [] _ c3 out up inn inn' x Hr3).
  exact (is_empty_repr [] [] c2 out up inn Hr).
Qed.

Lemma recv_blank c out up inn :
  repr c out up inn → rx (sock c) = [] → rx_end (sock c) = would_block →
  ∃ c', connector_recv c = Ret (Err would_block, c').
Proof.
  intros Hr Hrx He. pose proof (connector_recv_spec [] [] (in_cap c) c out up inn Hr eq_refl) as Hrecv.
  rewrite Hrx, He in Hrecv. simpl in Hrecv. destruct Hrecv as (r&c'&Hrun&_&_&_&_&_&->&_).
  by exists c'.
Qed.

(** The waiting loop of the client: the script runs to [st] on what the client
    has sent, then the client reads what the script has sent. *)
Lemma live_loop_blocked c k a l out up inn st a1 x inn' rest :
  repr c out up inn → sock c = mk_stream [] would_block l [] → client a = blank →
  runs (await k) (with_client (mk_stream l would_block [] []) a) st a1 →
  receives (in_cap c) (peer_end (turned st a1)) inn (tx (client a1)) x inn' rest →
  x ≠ EndSimulation ∨ peer_end (turned st a1) ≠ would_block →
  ∃ n c', (∀ fuel, n ≤ fuel →
      live_recv_loop fuel fuel (mk_world c (Blocked k a)) = Ret (x, mk_world c' (turned st a1))) ∧
    repr c' out up inn' ∧ same_but_receive c c' ∧
    sock c' = mk_stream rest (peer_end (turned st a1)) [] [].
Proof.
  intros Hr Hs Ha Hruns Hrec Hx. destruct (runs_run _ _ _ _ Hruns) as (n0&Hact).
  set (p := turned st a1) in *.
  set (c3 := map_stream (λ s, mk_stream (rx s ++ tx (client a1)) (peer_end p) [] (wr s)) c).
  assert (repr c3 out up inn) as Hr3 by exact Hr.
  assert (sock c3 = mk_stream (tx (client a1)) (peer_end p) [] []) as Hs3
    by (unfold c3; simpl; by rewrite Hs).
  destruct (recv_loop_spec [] [] (in_cap c3) (S (length (rx (sock c3)))) c3 out up inn Hr3 eq_refl
    ltac:(lia)) as (x'&c4&inn2&l2&Hloop&Hrec2&Hr4&Hf&_&Hs4).
  rewrite Hs3 in Hrec2. simpl in Hrec2.
  destruct (receives_det _ _ _ _ _ _ _ _ _ _ Hrec Hrec2) as (<-&<-&<-).
  exists (max n0 (S (length (rx (sock c3))))), c4. split_and!; [|done| |by rewrite Hs4, Hs3].
  2: { destruct Hf as (?&?&?&?&?&?&?&?). by split_and!. }
  intros fuel Hfuel.
  assert (x ≠ EndSimulation ∨ rx_end (sock c3) ≠ would_block) as Hx' by (by rewrite Hs3).
  destruct (recv_blank c out up inn Hr) as (c0&Hblank); [by rewrite Hs..|].
  destruct (recv_loop_first _ _ _ _ Hloop Hx') as (r&c5&Hfirst&Hnb).
  eapply (live_loop_turn _ _ _ (mk_world c3 p)); [exact Hblank| |exact Hfirst|done|].
  - unfold actor_turn. simpl. rewrite Hs, Ha. simpl. rewrite Hact by lia. done.
  - apply live_loop_unblocked; [|done]. eapply recv_loop_mono; [exact Hloop|lia].
Qed.

(** A deadline of a client whose actor waits for it.  Either a message of the
    set is stamped beyond the deadline and the simulation ends, or the script
    gets the messages of the slice, and the deadline does what the client
    makes of its answer. *)
Lemma live_deadline_blocked c k a out up inn :
  repr c out up inn → tc_handling (timer_context c) →
  Duration_wf (tc_prev (timer_context c)) → sock c = blank → client a = blank →
  let prev := tc_prev (timer_context c) in
  let cur := tc_next (timer_context c) in
  (∃ c', (∀ fuel, live_at_deadline fuel (mk_world c (Blocked k a)) =
      Ret (EndSimulation, mk_world c' (Blocked k a))) ∧ callbacks c' = callbacks c ∧
    ¬ Forall (λ m, pd_time m ≤ cur)%Z out) ∨
  (∃ sent up' l, up = sent ++ up' ∧ encodes (slice_views (address c) prev out sent) l ∧
    Forall (λ m, pd_time m < prev ∨ pd_time m ≤ cur)%Z out ∧
    Forall (λ m, pd_time m ≤ cur)%Z sent ∧
    ∀ st a1 x inn' rest,
      runs (await k) (with_client (mk_stream l would_block [] []) a) st a1 →
      receives (in_cap c) (peer_end (turned st a1)) inn (tx (client a1)) x inn' rest →
      x ≠ EndSimulation ∨ peer_end (turned st a1) ≠ would_block →
      ∃ n c', (∀ fuel, n ≤ fuel → live_at_deadline fuel (mk_world c (Blocked k a)) =
          Ret (x, mk_world c' (turned st a1))) ∧
        repr c' [] up' inn' ∧ deadline_keeps c c' ∧
        callbacks c' = callbacks c ++ notify_callbacks inn inn' x ∧
        sock c' = mk_stream rest (peer_end (turned st a1)) [] []).
Proof.
  intros Hr Hh Hp Hs Ha prev cur.
  destruct (sending_run c out up inn Hr Hh Hp) as [(c'&Hsend&Hcb'&Hn)|
    (c1&c2&sent&up'&l&Hsend&Hat&Hr2&Hk2&Hcb&Hq&Hs2&Henc&->&Hout&Hsent)]; [by rewrite Hs|left|right].
  { exists c'. split; [|by split]. intros fuel. unfold live_at_deadline.
    by erewrite bind_run by (apply zoom_run; exact Hsend). }
  exists sent, up', l. split_and!; try done. intros st a1 x inn' rest Hruns Hrec Hx.
  rewrite Hs in Hs2. simpl in Hs2. destruct (Hk2) as (Ea&Et&Es&Ei&Eo).
  rewrite <- Ei in Hrec.
  destruct (live_loop_blocked c2 k a l [] up' inn st a1 x inn' rest Hr2 Hs2 Ha Hruns Hrec Hx)
    as (n&c3&Hloop&Hr3&Hf&Hs3).
  exists n, (after_callbacks (notify_callbacks inn inn' x) c3). split_and!; [|done|..|done].
  - intros fuel Hfuel. unfold live_at_deadline.
    erewrite bind_run by (apply zoom_run; exact Hsend).
    by apply (live_finish c1 c2 c3 [] up' inn inn'); [..|apply Hloop|].
  - destruct Hf as (?&?&Hpool&?&?&?&?&?). unfold deadline_keeps, in_cap, out_cap in *. simpl.
    rewrite Hpool. split_and!; congruence.
  - destruct Hf as (?&?&?&?&?&?&Hcb'&?). simpl. congruence.
Qed.

(** A deadline of a client whose actor has ended: it reads what is left. *)
Lemma live_deadline_ended c p out up inn :
  repr c out up inn → tc_handling (timer_context c) →
  Duration_wf (tc_prev (timer_context c)) → wr (sock c) = [] → rx_end (sock c) ≠ would_block →
  (∃ c', (∀ fuel, live_at_deadline fuel (mk_world c p) = Ret (EndSimulation, mk_world c' p)) ∧
    ¬ Forall (λ m, pd_time m ≤ tc_next (timer_context c))%Z out) ∨
  (∃ sent up' x inn' rest n c', up = sent ++ up' ∧
    receives (in_cap c) (rx_end (sock c)) inn (rx (sock c)) x inn' rest ∧
    (∀ fuel, n ≤ fuel → live_at_deadline fuel (mk_world c p) = Ret (x, mk_world c' p)) ∧
    repr c' [] up' inn' ∧ deadline_keeps c c' ∧
    callbacks c' = callbacks c ++ notify_callbacks inn inn' x).
Proof.
  intros Hr Hh Hp Hw He.
  destruct (sending_run c out up inn Hr Hh Hp Hw) as [(c'&Hsend&Hcb'&Hn)|
    (c1&c2&sent&up'&l&Hsend&Hat&Hr2&(Ea&Et&Es&Ei&Eo)&Hcb&Hq&Hs2&_&->&_&_)]; [left|right].
  { exists c'. split; [|done]. intros fuel. unfold live_at_deadline.
    by erewrite bind_run by (apply zoom_run; exact Hsend). }
  destruct (recv_loop_spec [] [] (in_cap c2) (S (length (rx (sock c2)))) c2 [] up' inn Hr2 eq_refl
    ltac:(lia)) as (x&c3&inn'&rest&Hloop&Hrec&Hr3&Hf&_&Hs3).
  rewrite Hs2 in Hrec. simpl in Hrec. rewrite Ei in Hrec.
  exists sent, up', x, inn', rest, (S (length (rx (sock c2)))),
    (after_callbacks (notify_callbacks inn inn' x) c3). split_and!; [done|done| |done|..].
  - intros fuel Hfuel. unfold live_at_deadline.
    erewrite bind_run by (apply zoom_run; exact Hsend).
    apply (live_finish c1 c2 c3 [] up' inn inn'); [done..| |done].
    apply live_loop_unblocked; [by eapply recv_loop_mono|right; by rewrite Hs2].
  - destruct Hf as (?&?&Hpool&?&?&?&?&?). unfold deadline_keeps, in_cap, out_cap in *. simpl.
    rewrite Hpool. split_and!; congruence.
  - destruct Hf as (?&?&?&?&?&?&Hcb'&?). simpl. congruence.
Qed.
End live.
