(* ===== verification/ConnectorTests.v ===== *)
(** * ConnectorTests: the tests of the connector

    [connector/unix.rs], module [test]: a connector against an actor that
    writes messages by hand or checks what it receives.  A test is a
    computation that panics when an assertion fails; [run_client_and_actor]
    connects both sides, runs the client, closes its socket and checks the exit
    status of the actor.  The lemmas compute what the actors write and what a
    fresh connector reads of it. *)
From S2P Require Import Prelude Std BufferPool BytesBuffer Wire FbBuffer Connector.
From S2P Require Import ConnectorSpec ConnectorPeer OutputMsgSet Error ContextInit TestActor.
From S2P Require Import ActorSpec ScriptSpec CosimSpec.
From stdpp Require Import base option list strings.
From Stdlib Require Import ZArith Lia Strings.Byte.

Section tests.
Context `{FlatBuffers}.

(** ** The actors *)
(** A message built by hand and written to the socket of the actor. *)
Definition write_built (build : M Fbb unit) (context : string) : script :=
  act (λ a,
    '(_, builder) ← build (fbb_with_capacity 0);
    data ← finished_data builder;
    '(r, w) ← write_all data (client a);
    Ret (check r context, with_client w a)).

(** The message of [send_go_to_deadline], with any [Time]. *)
Definition build_goto (seconds nseconds : Z) : M Fbb unit :=
  let time := mk_time seconds nseconds in
  goto_deadline ← fb_create (GotoDeadline_create (Some time));
  msg ← fb_create (FromTansivMsg_create FromTansiv_GotoDeadline (Some goto_deadline));
  fb_finish (finish_size_prefixed msg).

Definition send_go_to_deadline (seconds nseconds : Z) : script :=
  write_built (build_goto seconds nseconds) "Failed to go to deadline message".

Definition send_deliver_packet (src dst : Z) (payload : bytes) : script :=
  write_built (create_deliver_packet src dst payload) "Failed to send payload".

Definition GO_TO_DEADLINE_SECONDS : Z := 2.
Definition GO_TO_DEADLINE_NSECONDS : Z := 100000.
Definition DELIVER_PACKET_SIZE : Z := 42.
Definition DELIVER_PACKET_SRC : Z := 0.
Definition DELIVER_PACKET_DST : Z := 1.
Definition PACKET_PAYLOAD : bytes :=
  String.list_byte_of_string "abcdefghijklmnopqrstuvwxyz0123456789ABCDEF".

Definition recv_go_to_deadline_oob_nseconds_actor : script := send_go_to_deadline 0 u64_max.
Definition recv_go_to_deadline_actor : script :=
  send_go_to_deadline GO_TO_DEADLINE_SECONDS GO_TO_DEADLINE_NSECONDS.

Definition big_payload : bytes := <[MAX_PACKET_SIZE := x01]> (replicate (MAX_PACKET_SIZE + 1) x00).
Definition recv_deliver_packet_payload_too_big_actor : script :=
  send_deliver_packet DELIVER_PACKET_SRC DELIVER_PACKET_DST big_payload.
Definition recv_deliver_packet_actor : script :=
  _ ← act (assert (Z.of_nat (length PACKET_PAYLOAD) =? DELIVER_PACKET_SIZE)%Z);
  send_deliver_packet DELIVER_PACKET_SRC DELIVER_PACKET_DST PACKET_PAYLOAD.

Definition recv_gibberish_actor : script :=
  act (λ a,
    '(r, w) ← write_all (replicate MAX_PACKET_SIZE x00) (client a);
    Ret (check r "Failed to send payload", with_client w a)).

Definition wrong_message_type : io_error := Custom InvalidData "Wrong message type".
Definition recv_at_deadline : script :=
  msg ←! actor_recv;
  _ ← act (drop_out msg);
  mret (check (match msg with MsgOut_AtDeadline => Ok tt | _ => Err wrong_message_type end)
    "Received wrong message type").

(** ** The client *)
Abbreviation ClientState := (UnixConnector * FbPool)%type.

Definition client_recv : M ClientState (result MsgIn io_error) :=
  zoom fst (λ k '(_, p), (k, p)) UnixConnector_recv.

(** The builders a client lends to [send]; these tests need none. *)
Definition no_builders : FbPool := mk_pool 0 [] [].

Definition expect_invalid_data : M ClientState unit :=
  msg ← client_recv;
  match msg with
  | Ok _ => panic AssertionFailed
  | Err e => assert (bool_decide (io_kind e = Some InvalidData))
  end.

Definition expect_go_to_deadline : M ClientState unit :=
  msg ← client_recv;
  match msg with
  | Ok (MsgIn_GoToDeadline deadline) =>
      _ ← assert (as_secs deadline =? GO_TO_DEADLINE_SECONDS)%Z;
      assert (subsec_nanos deadline =? GO_TO_DEADLINE_NSECONDS)%Z
  | _ => panic AssertionFailed
  end.

(** The input buffers of the connector. *)
Definition on_input {A} : M BytesPool A → M ClientState A :=
  zoom (λ s, input_buffer_pool s.1)
    (λ q '(k, p), (mk_connector (actor k) q (scratch_builder k), p)).

Definition expect_packet : M ClientState unit :=
  msg ← client_recv;
  match msg with
  | Ok (MsgIn_DeliverPacket m) =>
      payload ← on_input (DeliverPacket_payload m);
      _ ← assert (bool_decide (payload = PACKET_PAYLOAD));
      on_input (Buffer_drop (deliver_inner m))
  | _ => panic AssertionFailed
  end.

Definition send_one_at_deadline : M ClientState unit :=
  r ← UnixConnector_send MsgOut_AtDeadline; lift (unwrap_ok r).

(** ** Running a test *)
(** What becomes of the actor when the client has sent [data] and closed its
    socket: the exit code of its process. *)
Definition actor_exit (fuel : nat) (data : bytes) (p : actor_process) : outcome Z :=
  match p with
  | Blocked k a =>
      '(st, _) ← run_actor fuel (await k)
        (with_client (mk_stream (rx (client a) ++ data) eof [] (wr (client a))) a);
      match st with Finished r => Ret (exit_code r) | Waiting _ => OutOfFuel end
  | Draining _ => Ret (exit_code (Ok tt))
  | Exited code => Ret code
  end.

(** [num_buffers] is that of the configuration, [child] the process of the
    actor. *)
Definition run_client_and_actor (num_buffers : nat) (child : Z) (fuel : nat)
    (client_fn : M ClientState unit) (actor_fn : script) : outcome unit :=
  desc ← TestActorDesc_new "titi" (Ok tt) (Ok tt) (Ok child);
  '(s, p) ← connect fuel actor_fn;
  r ← UnixConnector_new (Ok s) num_buffers;
  connector ← unwrap_ok r;
  '(_, (connector, _)) ← client_fn (connector, no_builders);
  status ← actor_exit fuel (tx (actor connector)) p;
  '(r, _) ← TestActorDesc_wait (λ pid, Ok (WaitExited pid status)) desc;
  status ← unwrap_ok r;
  if (status =? 0)%Z then Ret tt else Panic AssertionFailed.

Section cases.
Context (num_buffers : nat) (child : Z) (fuel : nat).
Abbreviation run := (run_client_and_actor num_buffers child fuel).

Definition recv_go_to_deadline_oob_nseconds : outcome unit :=
  run expect_invalid_data recv_go_to_deadline_oob_nseconds_actor.
Definition recv_go_to_deadline : outcome unit :=
  run expect_go_to_deadline recv_go_to_deadline_actor.
Definition recv_deliver_packet_payload_too_big : outcome unit :=
  run expect_invalid_data recv_deliver_packet_payload_too_big_actor.
Definition recv_deliver_packet__ : outcome unit := run expect_packet recv_deliver_packet_actor.
Definition recv_gibberish : outcome unit := run expect_invalid_data recv_gibberish_actor.
Definition send_at_deadline : outcome unit := run send_one_at_deadline recv_at_deadline.
Definition send_at_deadline_twice : outcome unit :=
  run (_ ← send_one_at_deadline; send_one_at_deadline) recv_at_deadline.

(** The tests of the constructor; [not_found] is the outcome of connecting to a
    path that does not exist. *)
Definition valid_server_path : outcome unit :=
  '(s, _) ← connect fuel dummy_actor;
  connector ← UnixConnector_new (Ok s) num_buffers;
  if is_ok connector then Ret tt else Panic AssertionFailed.
Definition invalid_server_path (not_found : io_error) : outcome unit :=
  '(_, _) ← connect fuel dummy_actor;
  connector ← UnixConnector_new (Err not_found) num_buffers;
  if is_ok connector then Panic AssertionFailed else Ret tt.
Definition valid_input_buffer_size : outcome unit :=
  '(s, _) ← connect fuel dummy_actor;
  r ← UnixConnector_new (Ok s) num_buffers;
  connector ← unwrap_ok r;
  '(r, p) ← allocate_buffer (T := BytesBuffer) (Z.of_nat MAX_PACKET_SIZE)
              (input_buffer_pool connector);
  input_buffer ← unwrap_ok r;
  '(l, _) ← Buffer_deref_mut input_buffer (gets length) p;
  if l =? MAX_PACKET_SIZE then Ret tt else Panic AssertionFailed.
End cases.
End tests.

Section runs.
Context `{FlatBuffersLaws}.

(** A script that writes [l] and returns. *)
Lemma connect_writes (t : script) l :
  (∀ a, client a = blank → ∃ a', leads t a (mret (Ok tt)) a' ∧
    client a' = mk_stream [] would_block l []) →
  ∃ n a', ∀ fuel, n ≤ fuel → connect fuel t = Ret (mk_stream l eof [] [], Draining a').
Proof.
  intros Ht. destruct (connect_runs t (λ s p, s = mk_stream l eof [] [] ∧ ∃ a', p = Draining a'))
    as (n&s&p&[-> [a' ->]]&Hn).
  - intros a _ Hc. destruct (Ht a Hc) as (a'&Hl&Hc').
    exists (Finished (Ok tt)), a'. split; [by apply leads_finished|]. rewrite Hc'.
    split; [done|by eexists].
  - by exists n, a'.
Qed.

Lemma leads_write_built build context f l a :
  build (fbb_with_capacity 0) = Ret (tt, f) → finished_data f = Ret l → client a = blank →
  leads (write_built build context) a (mret (Ok tt))
    (with_client (mk_stream [] would_block l []) a).
Proof.
  intros Hb Hf Hc. apply leads_do. rewrite Hb. simpl. rewrite Hf. simpl. by rewrite Hc.
Qed.

(** A fresh connector reads what [recv_spec] says. *)
Lemma new_connector_recv num_buffers s :
  0 < num_buffers → (Z.of_nat (MAX_PACKET_SIZE * num_buffers) ≤ isize_max)%Z →
  ∃ k, UnixConnector_new (Ok s) num_buffers = Ret (Ok k) ∧ actor k = s ∧
    pool_inv (T := BytesBuffer) (input_buffer_pool k) [] ∧
    buffer_size (input_buffer_pool k) = MAX_PACKET_SIZE ∧
    length (buffer_busy (input_buffer_pool k)) = num_buffers ∧
    ∃ r p', in_result [] (recv_spec MAX_PACKET_SIZE false (rx_end s) (rx s)).1 r p' ∧
      UnixConnector_recv k = Ret (r,
        mk_connector (set_rx (recv_spec MAX_PACKET_SIZE false (rx_end s) (rx s)).2 s) p'
          (scratch_builder k)).
Proof.
  intros Hn Hmax. unfold UnixConnector_new.
  destruct (BytesPool_new_run MAX_PACKET_SIZE num_buffers Hmax) as (ip&->&Hpi&Hbs&Hlen).
  destruct (MsgFbInitializer_init_run MAX_PACKET_SIZE ltac:(unfold MAX_PACKET_SIZE; lia))
    as (f&Hf&_).
  cbn [mbind outcome_bind]. rewrite Hf. cbn [mbind outcome_bind].
  eexists. split; [done|]. simpl. split_and!; [done..|].
  pose proof (MsgIn_recv_spec s ip [] Hpi) as Hrecv. rewrite Hbs, Hlen in Hrecv.
  rewrite (proj2 (Nat.eqb_neq (length []) _)) in Hrecv by (simpl; lia).
  destruct (recv_spec _ _ _ _) as [v l]. destruct Hrecv as (r&p'&Hrun&_&_&Hres).
  exists r, p'. split; [done|]. unfold UnixConnector_recv. by erewrite zoom_run by exact Hrun.
Qed.

(** A test whose actor writes [l] and whose client receives once. *)
Lemma run_reads num_buffers child t l (client_fn : M (UnixConnector * FbPool) unit) :
  0 < num_buffers → (Z.of_nat (MAX_PACKET_SIZE * num_buffers) ≤ isize_max)%Z →
  (∃ n a', ∀ fuel, n ≤ fuel → connect fuel t = Ret (mk_stream l eof [] [], Draining a')) →
  (∀ k k' r, UnixConnector_recv k = Ret (r, k') →
     in_result [] (recv_spec MAX_PACKET_SIZE false eof l).1 r (input_buffer_pool k') →
     ∃ s, client_fn (k, no_builders) = Ret (tt, s)) →
  ∃ n, ∀ fuel, n ≤ fuel → run_client_and_actor num_buffers child fuel client_fn t = Ret tt.
Proof.
  intros Hn Hmax (n&a'&Hconn) Hclient. exists n. intros fuel Hf.
  unfold run_client_and_actor.
  cbn [TestActorDesc_new remove_file_if_present mbind outcome_bind].
  rewrite Hconn by done. cbn [mbind outcome_bind].
  destruct (new_connector_recv num_buffers (mk_stream l eof [] []) Hn Hmax)
    as (k&Hk&_&_&_&_&r&p'&Hres&Hrun).
  rewrite Hk. cbn [mbind outcome_bind unwrap_ok].
  destruct (Hclient k _ r Hrun Hres) as ([k2 p2]&Hc). by rewrite Hc.
Qed.

Lemma client_recv_run k k' r p :
  UnixConnector_recv k = Ret (r, k') → client_recv (k, p) = Ret (r, (k', p)).
Proof. intros Hr. unfold client_recv. by erewrite zoom_run by exact Hr. Qed.

(** The client of a test that expects bad data. *)
Lemma reads_invalid k k' r p v e :
  UnixConnector_recv k = Ret (r, k') → in_result [] v r (input_buffer_pool k') → v = Err e →
  io_kind e = Some InvalidData → ∃ s, expect_invalid_data (k, p) = Ret (tt, s).
Proof.
  intros Hr Hres -> He. destruct Hres as [-> _]. unfold expect_invalid_data.
  erewrite bind_run by (by apply client_recv_run). cbv beta iota.
  rewrite bool_decide_true by done. by eexists.
Qed.

(** The messages of [send_go_to_deadline]. *)
Lemma build_goto_spec f s n :
  fbb_fresh f → in_u64 s → in_u64 n →
  ∃ f' l, build_goto s n f = Ret (tt, f') ∧ finished_data f' = Ret l ∧
    ∀ e, recv_spec MAX_PACKET_SIZE false e l =
      (if (n <? NANOS_PER_SEC)%Z then Ok (VGoto (s * NANOS_PER_SEC + n)%Z) else Err time_error, []).
Proof.
  intros [Hf Hu] Hs Hn. unfold build_goto, fb_create, fb_finish, mbind, M_bind.
  assert (fb_object_wf (OGotoDeadline (mk_goto (Some (mk_time s n))))) as Hwf by done.
  pose proof (GotoDeadline_adds _ f Hf Hwf) as (Hb1&Hd1&_&Hu1).
  destruct (GotoDeadline_create _ f) as [o1 f1]. simpl in *.
  pose proof (FromTansivMsg_adds f1 o1 _ _ _ Hb1 Hd1 Hwf eq_refl) as (Hb2&Hd2&_&Hu2).
  destruct (FromTansivMsg_create _ _ f1) as [o2 f2]. simpl in *.
  destruct (finish_size_prefixed_from f2 o2 _ Hb2 Hd2) as (f3&body&->&Hdata&Hl&Hroot&Hlen).
  exists f3, (frame body). split_and!; [done..|]. intros e.
  rewrite <- (app_nil_r (frame body)), recv_spec_body; [|done|].
  2: { unfold table_size, MAX_PACKET_SIZE in *. lia. }
  f_equal. unfold classify. rewrite Hroot.
  cbn [from_content_type content_as_goto_deadline].
  unfold time_parts, u64_try_from, u32_try_from. cbn [seconds nseconds].
  destruct Hs as [Hs0 Hs1], Hn as [Hn0 _].
  rewrite (proj2 (Z.leb_le _ _) Hs0), (proj2 (Z.leb_le _ _) Hs1). simpl.
  rewrite (proj2 (Z.leb_le _ _) Hn0). simpl.
  destruct (Z.ltb_spec n NANOS_PER_SEC).
  - rewrite (proj2 (Z.leb_le n u32_max)) by (unfold u32_max, NANOS_PER_SEC in *; lia). simpl.
    by rewrite (proj2 (Z.ltb_lt _ _)).
  - destruct (Z.leb_spec n u32_max); simpl; [|done]. by rewrite (proj2 (Z.ltb_ge _ _)).
Qed.

Lemma send_go_to_deadline_connects s n :
  in_u64 s → in_u64 n →
  ∃ l, (∀ e, recv_spec MAX_PACKET_SIZE false e l =
      (if (n <? NANOS_PER_SEC)%Z then Ok (VGoto (s * NANOS_PER_SEC + n)%Z) else Err time_error, [])) ∧
    ∃ m a', ∀ fuel, m ≤ fuel →
      connect fuel (send_go_to_deadline s n) = Ret (mk_stream l eof [] [], Draining a').
Proof.
  intros Hs Hn. destruct (build_goto_spec (fbb_with_capacity 0) s n) as (f&l&Hb&Hd&Hl);
    [apply with_capacity_building|done..|].
  exists l. split; [done|]. apply connect_writes. intros a Ha. eexists.
  split; [by eapply leads_write_built|done].
Qed.

Lemma send_deliver_packet_writes src dst v :
  in_view_wf (VDeliver src dst v) →
  ∃ l, frame_in (VDeliver src dst v) l ∧ ∀ a, client a = blank →
    ∃ a', leads (send_deliver_packet src dst v) a (mret (Ok tt)) a' ∧
      client a' = mk_stream [] would_block l [].
Proof.
  intros Hv. destruct (create_deliver_packet_spec (fbb_with_capacity 0) src dst v)
    as (f&Hb&l&Hd&Hl); [apply with_capacity_building|done|].
  exists l. split; [done|]. intros a Ha. eexists. split; [by eapply leads_write_built|done].
Qed.

(** The actor that waits for the notification of a deadline. *)
Lemma recv_at_deadline_waits : ∃ k, observe recv_at_deadline = ITreeDefinition.VisF Recv k.
Proof. unfold recv_at_deadline, try_t. rewrite observe_bind. by eexists. Qed.

(** A script that starts with a receive waits, with the actor as it was made
    but for its stream. *)
Lemma connect_waits t k :
  observe t = ITreeDefinition.VisF Recv k →
  ∃ n a, (∀ fuel, n ≤ fuel → connect fuel t = Ret (blank, Blocked k a)) ∧
    actor_ok a ∧ client a = blank ∧
    ∃ a0, TestActor_new blank = Ret a0 ∧
      ta_input_fb_buffer_pool a = ta_input_fb_buffer_pool a0.
Proof.
  intros Hk.
  destruct (connect_runs_new t (λ s p, s = blank ∧ ∃ a, p = Blocked k a ∧
    actor_ok a ∧ client a = blank ∧ ∃ a0, TestActor_new blank = Ret a0 ∧
      ta_input_fb_buffer_pool a = ta_input_fb_buffer_pool a0)) as (n&s&p&(->&a&->&Ha)&Hn).
  - intros a Hnew Ha Hc. destruct (TestActor_recv_blocks a) as (r&a'&Hr&Hb); [by rewrite Hc..|].
    exists (Waiting k), a. split; [by eapply runs_blocked|].
    split; [simpl; by rewrite Hc|].
    eexists _. split; [reflexivity|]. split_and!; [done| |by exists a]. simpl. by rewrite Hc.
  - by exists n, a.
Qed.

Lemma recv_at_deadline_finishes a l rest :
  actor_ok a → encodes1 WAtDeadline l →
  ∃ a', leads recv_at_deadline (with_client (mk_stream (l ++ rest) eof [] []) a) (mret (Ok tt)) a'.
Proof.
  intros Ha Hl. set (a0 := with_client _ a). assert (actor_ok a0) as Ha0 by exact Ha.
  destruct (leads_message (λ e, mret (Err e)) (λ msg, mret (check
    (match msg with MsgOut_AtDeadline => Ok tt | _ => Err wrong_message_type end)
    "Received wrong message type")) a0 WAtDeadline l rest eof [] Ha0 eq_refl Hl
    receivable_at_deadline) as (msg&a'&Hlead&_&_&->).
  exists a'. eapply leads_trans; [exact Hlead|]. apply leads_refl.
Qed.

(** A script that succeeds on what the client sent exits with success. *)
Lemma actor_exit_success t k a a' data :
  observe t = ITreeDefinition.VisF Recv k → client a = blank →
  leads t (with_client (mk_stream data eof [] []) a) (mret (Ok tt)) a' →
  ∃ n, ∀ fuel, n ≤ fuel → actor_exit fuel data (Blocked k a) = Ret 0%Z.
Proof.
  intros Hk Hc Hlead.
  destruct (runs_run (await k) (with_client (mk_stream data eof [] []) a) _ a'
    (runs_await _ _ _ _ _ Hk (leads_finished _ _ _ _ Hlead))) as (n&Hn).
  exists n. intros fuel Hf. unfold actor_exit. rewrite Hc. simpl. by rewrite Hn.
Qed.

(** A test whose client sends bytes on which the actor succeeds. *)
Lemma run_exchange num_buffers child t k (client_fn : M (UnixConnector * FbPool) unit)
    (data : bytes → Prop) :
  0 < num_buffers → (Z.of_nat (MAX_PACKET_SIZE * num_buffers) ≤ isize_max)%Z →
  observe t = ITreeDefinition.VisF Recv k →
  (∀ c, actor c = blank → ∃ c' p', client_fn (c, no_builders) = Ret (tt, (c', p')) ∧
     data (tx (actor c'))) →
  (∀ a a0 l, actor_ok a → TestActor_new blank = Ret a0 →
     ta_input_fb_buffer_pool a = ta_input_fb_buffer_pool a0 → data l →
     ∃ a', leads t (with_client (mk_stream l eof [] []) a) (mret (Ok tt)) a') →
  ∃ n, ∀ fuel, n ≤ fuel → run_client_and_actor num_buffers child fuel client_fn t = Ret tt.
Proof.
  intros Hnb Hmax Hk Hclient Hactor. destruct (connect_waits t k Hk)
    as (n&a&Hconn&Ha&Hca&a0&Ha0&Hpool).
  destruct (new_connector_recv num_buffers blank Hnb Hmax) as (c&Hnew&Hc&_).
  destruct (Hclient c Hc) as (c'&p'&Hrun&Htx).
  destruct (Hactor a a0 _ Ha Ha0 Hpool Htx) as (a'&Hlead).
  destruct (actor_exit_success t k a a' _ Hk Hca Hlead) as (n'&Hexit).
  exists (max n n'). intros fuel Hf. unfold run_client_and_actor.
  cbn [TestActorDesc_new remove_file_if_present mbind outcome_bind].
  rewrite Hconn by lia. cbn [mbind outcome_bind]. rewrite Hnew.
  cbn [mbind outcome_bind unwrap_ok]. rewrite Hrun. cbn [mbind outcome_bind].
  rewrite Hexit by lia. done.
Qed.

(** A test whose client sends the notification first. *)
Lemma run_sends num_buffers child (client_fn : M (UnixConnector * FbPool) unit) :
  0 < num_buffers → (Z.of_nat (MAX_PACKET_SIZE * num_buffers) ≤ isize_max)%Z →
  (∀ k, actor k = blank → ∃ k' p' l rest, client_fn (k, no_builders) = Ret (tt, (k', p')) ∧
     tx (actor k') = l ++ rest ∧ encodes1 WAtDeadline l) →
  ∃ n, ∀ fuel, n ≤ fuel →
    run_client_and_actor num_buffers child fuel client_fn recv_at_deadline = Ret tt.
Proof.
  intros Hnb Hmax Hclient. destruct recv_at_deadline_waits as (k&Hk).
  eapply (run_exchange _ _ _ k _ (λ l, ∃ l1 rest, l = l1 ++ rest ∧ encodes1 WAtDeadline l1));
    [done..| |].
  - intros c Hc. destruct (Hclient c Hc) as (c'&p'&l&rest&?&?&?). exists c', p'.
    split; [done|by exists l, rest].
  - intros a _ _ Ha _ _ (l&rest&->&Hl). by apply recv_at_deadline_finishes.
Qed.

Lemma send_one_at_deadline_run k p :
  wr (actor k) = [] →
  ∃ l f, encodes1 WAtDeadline l ∧ send_one_at_deadline (k, p) =
    Ret (tt, (mk_connector (mk_stream (rx (actor k)) (rx_end (actor k)) (tx (actor k) ++ l) [])
                (input_buffer_pool k) f, p)).
Proof.
  intros Hw. destruct (UnixConnector_send_at_deadline k p) as (l&f&Hrun&Hl).
  exists l, f. split; [done|]. unfold send_one_at_deadline.
  erewrite bind_run by exact Hrun. unfold write_result, written. by rewrite Hw.
Qed.

(** ** Every test passes *)
Section pass.
Context (num_buffers : nat) (child : Z).
Hypotheses (Hn : 0 < num_buffers)
  (Hmax : (Z.of_nat (MAX_PACKET_SIZE * num_buffers) ≤ isize_max)%Z).

(** [t] passes once the fuel is enough. *)
Definition passes (t : nat → outcome unit) : Prop := ∃ n, ∀ fuel, n ≤ fuel → t fuel = Ret tt.

Lemma oob_nseconds_passes : passes (recv_go_to_deadline_oob_nseconds num_buffers child).
Proof.
  destruct (send_go_to_deadline_connects 0 u64_max) as (l&Hl&Hc); [done..|].
  eapply run_reads; [done..|exact Hc|]. intros k k' r Hr Hres.
  by eapply reads_invalid; [exact Hr|exact Hres|by rewrite Hl|].
Qed.

Lemma goto_passes : passes (recv_go_to_deadline num_buffers child).
Proof.
  destruct (send_go_to_deadline_connects GO_TO_DEADLINE_SECONDS GO_TO_DEADLINE_NSECONDS)
    as (l&Hl&Hc); [done..|].
  eapply run_reads; [done..|exact Hc|]. intros k k' r Hr Hres. rewrite Hl in Hres.
  destruct Hres as [-> _]. eexists. unfold expect_go_to_deadline.
  erewrite bind_run by (by apply client_recv_run). done.
Qed.

Lemma gibberish_passes : passes (recv_gibberish num_buffers child).
Proof.
  eapply (run_reads _ _ _ (replicate MAX_PACKET_SIZE x00)); [done..| |].
  - apply connect_writes. intros a Ha. eexists. split; [|].
    + apply leads_do. rewrite Ha. reflexivity.
    + done.
  - intros k k' r Hr Hres. eapply (reads_invalid k k' r _ _ new_format_error); [exact Hr|exact Hres| |done].
    change (replicate MAX_PACKET_SIZE x00) with (frame [] ++ replicate (MAX_PACKET_SIZE - 4) x00).
    rewrite recv_spec_body by (simpl; lia || done). simpl. unfold classify.
    destruct (root_FromTansivMsg []) as [m|] eqn:Hm; [|done].
    apply root_from_size in Hm. simpl in Hm. lia.
Qed.

Lemma too_big_passes : passes (recv_deliver_packet_payload_too_big num_buffers child).
Proof.
  assert (length big_payload = MAX_PACKET_SIZE + 1) as Hlen
    by (unfold big_payload; by rewrite length_insert, length_replicate).
  destruct (send_deliver_packet_writes DELIVER_PACKET_SRC DELIVER_PACKET_DST big_payload)
    as (l&[Hl _]&Hc).
  { split_and!; [done..|]. unfold payload_wf. rewrite Hlen. unfold MAX_PACKET_SIZE. lia. }
  eapply run_reads; [done..|exact (connect_writes _ _ Hc)|]. intros k k' r Hr Hres.
  destruct (recv_spec_frame_long _ _ _ l [] MAX_PACKET_SIZE false eof Hl) as (rest&Hrec).
  { rewrite Hlen. lia. }
  rewrite app_nil_r in Hrec. by eapply reads_invalid; [exact Hr|exact Hres|by rewrite Hrec|].
Qed.

Lemma packet_passes : passes (recv_deliver_packet__ num_buffers child).
Proof.
  destruct (send_deliver_packet_writes DELIVER_PACKET_SRC DELIVER_PACKET_DST PACKET_PAYLOAD)
    as (l&Hl&Hc).
  { split_and!; [done..|]. unfold payload_wf. simpl. lia. }
  eapply run_reads; [done..|apply (connect_writes _ l)|].
  - intros a Ha. destruct (Hc a Ha) as (a'&Hlead&Hca). exists a'. split; [|done].
    eapply leads_next; [by apply leads_do|exact Hlead].
  - intros k k' r Hr Hres. rewrite <- (app_nil_r l), (recv_spec_frame _ l [] _ _ (proj1 Hl)) in Hres.
    2: { destruct Hl as [_ Hl]. unfold frame_bound, table_size, MAX_PACKET_SIZE in *.
         simpl in Hl. lia. }
    destruct Hres as (b&->&Hp&Hpk). destruct (packet_at_accessors _ _ _ _ _ Hpk) as (_&_&Hpay).
    destruct (Buffer_drop_spec _ _ _ Hp) as (p''&Hdrop&_).
    eexists. unfold expect_packet. erewrite bind_run by (by apply client_recv_run).
    cbv beta iota. unfold on_input. erewrite bind_run by (apply zoom_run; exact Hpay).
    cbv beta. rewrite bool_decide_true by done.
    erewrite bind_run by done. by erewrite zoom_run by exact Hdrop.
Qed.

Lemma at_deadline_passes : passes (send_at_deadline num_buffers child).
Proof.
  apply run_sends; [done..|]. intros k Hk.
  destruct (send_one_at_deadline_run k no_builders) as (l&f&Hl&Hrun); [by rewrite Hk|].
  eexists _, _, l, []. split; [exact Hrun|]. rewrite app_nil_r. by rewrite Hk.
Qed.

Lemma at_deadline_twice_passes : passes (send_at_deadline_twice num_buffers child).
Proof.
  apply run_sends; [done..|]. intros k Hk.
  destruct (send_one_at_deadline_run k no_builders) as (l&f&Hl&Hrun); [by rewrite Hk|].
  erewrite bind_run by exact Hrun. rewrite Hk in *. simpl.
  edestruct (send_one_at_deadline_run (mk_connector (mk_stream [] would_block l [])
    (input_buffer_pool k) f) no_builders) as (l'&f'&_&Hrun'); [done|].
  eexists _, _, l, l'. split; [exact Hrun'|]. done.
Qed.

Lemma constructor_passes not_found :
  passes (valid_server_path num_buffers) ∧
  passes (λ fuel, invalid_server_path num_buffers fuel not_found) ∧
  passes (valid_input_buffer_size num_buffers).
Proof.
  destruct (connect_writes dummy_actor []) as (n&a'&Hconn).
  { intros a Ha. exists a. split; [apply leads_refl|done]. }
  destruct (new_connector_recv num_buffers (mk_stream [] eof [] []) Hn Hmax)
    as (k&Hk&_&Hp&Hbs&Hlen&_).
  split_and!; exists n; intros fuel Hf.
  - unfold valid_server_path. rewrite Hconn by done. cbn [mbind outcome_bind]. by rewrite Hk.
  - unfold invalid_server_path. by rewrite Hconn.
  - unfold valid_input_buffer_size. rewrite Hconn by done. cbn [mbind outcome_bind]. rewrite Hk.
    cbn [mbind outcome_bind unwrap_ok].
    destruct (allocate_buffer_cases (T := BytesBuffer) (Z.of_nat MAX_PACKET_SIZE)
      (input_buffer_pool k) [] Hp) as [[Hlt _]|[(_&Hfull&_)|(_&_&i&p'&c&Hrun&Hp'&_&_&_&Hg&Hok&_)]].
    + rewrite Hbs in Hlt. lia.
    + simpl in Hfull. lia.
    + rewrite Hrun. cbn [mbind outcome_bind unwrap_ok].
      destruct (Buffer_deref_mut_spec p' _ [] (gets length) c (length c) c Hp' Hg eq_refl Hok)
        as (p''&->&_).
      cbn [mbind outcome_bind]. rewrite Hok. by rewrite Nat2Z.id, Nat.eqb_refl.
Qed.
End pass.
End runs.
