(* ===== verification/ConnectorPacketTest.v ===== *)
(** * ConnectorPacketTest: the test that sends a packet

    [connector/unix.rs], [send_send_packet]: the client sends a packet that
    [make_ref_send_packet] builds; the actor builds the packet it received again
    and compares it with its own reference.  What is compared are the roots of
    two finished FlatBuffers, whose type and [PartialEq] belong to the FlatBuffers
    library: they are the class [MsgRoot].  Comparing equal bytes needs no more
    than that [==] is reflexive, since the builders of client, actor and
    reference are prepared and reset alike, so that they give equal bytes. *)
From S2P Require Import Prelude Std BufferPool BytesBuffer Wire WireRef FbBuffer Connector.
From S2P Require Import ConnectorSpec ConnectorPeer OutputMsgSet Error ContextInit TestActor.
From S2P Require Import ActorSpec ScriptSpec CosimSpec ConnectorTests.
From stdpp Require Import base option list strings.
From Stdlib Require Import ZArith Lia Strings.Byte.

(** [tansiv::ToTansivMsg<'a>], a position in the bytes of a message, and
    [flatbuffers::size_prefixed_root] *)
Class MsgRoot `{FlatBuffers} := {
  MsgRef : Type;
  size_prefixed_root : bytes → option MsgRef;
  MsgRef_eq :: PartialEq MsgRef;
}.
Class MsgRootLaws `{MsgRoot} := {
  size_prefixed_root_frame body m :
    root_ToTansivMsg body = Some m → ∃ r, size_prefixed_root (frame body) = Some r;
  MsgRef_eq_refl (r : MsgRef) : partial_eq r r = true;
}.

Section test.
Context `{MsgRoot}.

Definition REF_MSG : bytes :=
  String.list_byte_of_string "abcdefghijklmnopqrstuvwxyz0123456789ABCDEF".

(** The message, with the pool of one buffer it keeps alive. *)
Definition make_ref_send_packet : outcome (MsgOut * FbPool) :=
  buffer_pool ← BufferPool_new (T := FbBuffer) MAX_PACKET_SIZE 1;
  '(r, buffer_pool) ← allocate_buffer (Z.of_nat (length REF_MSG)) buffer_pool;
  buffer ← unwrap_ok r;
  send_time ← Duration_new 3 200;
  '(r, buffer_pool) ← SendPacketBuilder_new 0 1 send_time REF_MSG buffer buffer_pool;
  send_packet_builder ← unwrap_ok r;
  '(pkt, buffer_pool) ← SendPacketBuilder_finish send_packet_builder send_time buffer_pool;
  Ret (MsgOut_SendPacket pkt, buffer_pool).

(** [size_prefixed_root] of the finished data of a packet of the pool [p] *)
Definition packet_root (pkt : SendPacket) (p : FbPool) : outcome MsgRef :=
  '(fbb, _) ← Buffer_deref (send_inner pkt) p;
  data ← finished_data fbb;
  unwrap (size_prefixed_root data).

(** The reference, with its pool, or an error when it is no packet *)
Definition expected_packet : M TestActor (TestResult (SendPacket * FbPool)) := λ a,
  '(msg, p) ← make_ref_send_packet;
  Ret (check (match msg with
              | MsgOut_SendPacket builder => Ok (builder, p)
              | _ => Err wrong_message_type
              end) "Wrong message type crafter (critical)", a).

(** The comparison; both messages are dropped after it. *)
Definition compare_packets (expected : SendPacket * FbPool) (actual : SendPacket) :
    M TestActor (TestResult unit) := λ a,
  expected ← packet_root expected.1 expected.2;
  actual_root ← packet_root actual (ta_input_fb_buffer_pool a);
  let r := check_eq expected actual_root "Messages are differents" in
  '(_, a) ← drop_out (MsgOut_SendPacket actual) a;
  Ret (r, a).

Definition send_send_packet_actor : script :=
  actual_msg ←! actor_recv;
  expected ←! act expected_packet;
  match actual_msg with
  | MsgOut_SendPacket actual => act (compare_packets expected actual)
  | _ => mret (check (Err wrong_message_type) "Wrong message type")
  end.

(** The client *)
Definition send_ref_packet : M (UnixConnector * FbPool) unit :=
  '(msg, p) ← lift make_ref_send_packet;
  _ ← modify (λ '(connector, _), (connector, p));
  r ← UnixConnector_send msg;
  lift (unwrap_ok r).

Definition send_send_packet (num_buffers : nat) (child : Z) (fuel : nat) : outcome unit :=
  run_client_and_actor num_buffers child fuel send_ref_packet send_send_packet_actor.
End test.

Section passes.
Context `{FL : FlatBuffersLaws, MR : !MsgRoot, ML : !MsgRootLaws}.

Definition ref_time : Duration := 3000000200%Z.
Definition ref_view : out_view := WSend ref_time 0 1 REF_MSG.

Lemma ref_view_wf : out_view_wf ref_view.
Proof. split_and!; [done..|]. unfold payload_wf. simpl. lia. Qed.

(** A new pool lends its first builder, reset, first. *)
Lemma first_builder bs n size (p p1 : FbPool) (b : Buffer FbBuffer) f :
  BufferPool_new (T := FbBuffer) bs (S n) = Ret p →
  allocate_buffer size p = Ret (Ok b, p1) → ib_get (inner b) p1 (index b) = Ret f →
  ∃ g, MsgFbInitializer_init bs = Ret g ∧ f = fbb_reset g.
Proof.
  unfold BufferPool_new. simpl. destruct (MsgFbInitializer_init bs) as [g| |]; [|done..]. simpl.
  destruct (FbBuilder_calloc bs n) as [l| |]; [|done..]. simpl. intros [= <-].
  unfold allocate_buffer, mbind, M_bind, gets. simpl. destruct (_ <=? _)%Z; [|done]. simpl.
  intros [= <- <-]. simpl. unfold FbBuilder_get. simpl. intros [= <-]. by exists g.
Qed.

(** The reference packet and the bytes it stands for. *)
Definition ref_built (f : Fbb) : Prop :=
  ∃ g, MsgFbInitializer_init MAX_PACKET_SIZE = Ret g ∧
    create_send_packet_from_payload ref_time 0 1 REF_MSG (fbb_reset g) = Ret (tt, f).

Lemma make_ref_send_packet_run :
  ∃ b p f, make_ref_send_packet = Ret (MsgOut_SendPacket (mk_send_packet b), p) ∧
    pool_inv p [b] ∧ ib_get (inner b) p (index b) = Ret f ∧ holds f ref_view ∧ ref_built f.
Proof.
  unfold make_ref_send_packet.
  destruct (FbPool_new_run MAX_PACKET_SIZE 1 ltac:(unfold MAX_PACKET_SIZE; lia)) as (l&Hnew).
  destruct (pool_inv_new _ _ _ Hnew) as [Hp Hlen]. rewrite Hnew. cbn [mbind outcome_bind].
  destruct (allocate_buffer_cases (T := FbBuffer) (Z.of_nat (length REF_MSG)) _ [] Hp) as
    [[Hlt _]|[(_&Hfull&_)|(_&_&i&p1&f0&Hal&Hp1&_&_&_&Hg&_&Hf0)]];
    [unfold MAX_PACKET_SIZE in *; simpl in *; lia|simpl in *; lia|].
  rewrite Hal. cbn [mbind outcome_bind unwrap_ok].
  change (Duration_new 3 200) with (Ret ref_time). cbn [mbind outcome_bind].
  destruct ref_view_wf as (Ht&Hs&Hd&Hv).
  destruct (SendPacketBuilder_new_spec p1 _ [] 0 1 ref_time REF_MSG f0 Hp1 Hg Hf0 Hv)
    as (o&p2&Hrun&Hb&Hp2&_). rewrite Hrun. cbn [mbind outcome_bind unwrap_ok].
  destruct (SendPacketBuilder_finish_spec p2
    (mk_send_packet_builder 0 1 ref_time _ o) [] REF_MSG ref_time Hp2 Hb ref_view_wf)
    as (f&p3&Hfin&Hg3&Hh&Hp3&_). rewrite Hfin. cbn [mbind outcome_bind].
  destruct (first_builder _ _ _ _ _ _ _ Hnew Hal Hg) as (g&Hinit&->).
  destruct (SendPacketBuilder_built _ _ _ _ _ _ _ _ _ _ _ _ Hg Hrun Hfin) as (f'&Hc&Hg').
  cbn [spb_payload] in Hg3, Hp3. rewrite Hg3 in Hg'. injection Hg' as <-.
  eexists _, p3, f. split_and!; [done..|]. by exists g.
Qed.

Lemma ref_built_det f f' : ref_built f → ref_built f' → f = f'.
Proof. intros (g&Hg&Hf) (g'&Hg'&Hf'). congruence. Qed.

(** Its root, in whatever pool it lies. *)
Lemma ref_root f :
  holds f ref_view → ∃ r, ∀ b (p : FbPool),
    ib_get (inner b) p (index b) = Ret f → packet_root (mk_send_packet b) p = Ret r.
Proof.
  intros (l&Hl&body&->&_&Hroot&_). destruct (size_prefixed_root_frame body _ Hroot) as (r&Hr).
  exists r. intros b p Hg. unfold packet_root. simpl. unfold Buffer_deref. rewrite Hg. simpl.
  rewrite Hl. simpl. by rewrite Hr.
Qed.

Lemma send_ref_packet_run c :
  actor c = blank → ∃ c' p', send_ref_packet (c, no_builders) = Ret (tt, (c', p')) ∧
    encodes1 ref_view (tx (actor c')).
Proof.
  intros Hc. destruct make_ref_send_packet_run as (b&p&f&Hmake&Hp&Hg&Hh&_).
  destruct (UnixConnector_send_packet c p b [] f _ Hp Hg Hh) as (l&p'&g&Hsend&Hl&_).
  unfold send_ref_packet. erewrite bind_run by (unfold lift; by rewrite Hmake).
  cbv beta iota. erewrite bind_run by done. cbv beta iota. erewrite bind_run by exact Hsend.
  eexists _, p'. rewrite Hc. by split.
Qed.

(** What the actor receives is the reference, built again. *)
Lemma recv_ref_packet a a0 l :
  actor_ok a → TestActor_new blank = Ret a0 →
  ta_input_fb_buffer_pool a = ta_input_fb_buffer_pool a0 → rx (client a) = l →
  encodes1 ref_view l →
  ∃ b a' f, TestActor_recv a = Ret (Ok (MsgOut_SendPacket (mk_send_packet b)), a') ∧
    pool_inv (ta_input_fb_buffer_pool a') [b] ∧
    ib_get (inner b) (ta_input_fb_buffer_pool a') (index b) = Ret f ∧ ref_built f.
Proof.
  intros (Hq&Hp&Hz&Hzf&Hb&Hbf) Hnew Hpool Hrx Henc.
  destruct (encodes1_length _ _ Henc) as [_ Hl]. rewrite <- (app_nil_r l) in Hrx.
  destruct (MsgOut_recv_frame ref_view l [] (client a) (ta_input_fb_buffer_pool a)
    (ta_input_buffer_pool a) [] [] Henc ref_view_wf Hrx)
    as (r&p'&q'&Hrun&Hres&_&_&fb&p1&f0&Hal&Hg&->&f&Hc&Hg'); [|done|simpl; lia|done|simpl; lia|].
  { rewrite Hz. unfold frame_bound, table_size, MAX_PACKET_SIZE in *. simpl in Hl. lia. }
  destruct Hres as (b&f1&[= <-]&Hpb&_&_).
  assert (∃ p0, BufferPool_new (T := FbBuffer) MAX_PACKET_SIZE 100 = Ret p0 ∧
    ta_input_fb_buffer_pool a = p0) as (p0&Hp0&Hap).
  { revert Hnew. unfold TestActor_new.
    destruct (BufferPool_new (T := BytesBuffer) _ _) as [ip| |]; [|done..].
    cbn [mbind outcome_bind].
    destruct (BufferPool_new (T := FbBuffer) _ _) as [op| |]; [|done..].
    cbn [mbind outcome_bind]. intros [= <-]. by exists op. }
  rewrite Hap in Hal. destruct (first_builder _ _ _ _ _ _ _ Hp0 Hal Hg) as (g&Hinit&->).
  exists fb, (mk_test_actor (set_rx [] (client a)) q' p'), f. split; [|split_and!; [exact Hpb|exact Hg'|by exists g]].
  unfold TestActor_recv. by erewrite bind_run by (apply zoom_run; exact Hrun).
Qed.

Lemma send_send_packet_actor_succeeds a a0 l :
  actor_ok a → TestActor_new blank = Ret a0 →
  ta_input_fb_buffer_pool a = ta_input_fb_buffer_pool a0 → encodes1 ref_view l →
  ∃ a', leads send_send_packet_actor (with_client (mk_stream l eof [] []) a) (mret (Ok tt)) a'.
Proof.
  intros Ha Hnew Hpool Hl. set (a1 := with_client _ a).
  destruct (recv_ref_packet a1 a0 l Ha Hnew Hpool eq_refl Hl) as (b&a2&f&Hrecv&Hp&Hg&Hf).
  destruct make_ref_send_packet_run as (b'&p&f'&Hmake&_&Hg'&Hh&Hf').
  destruct (ref_root f' Hh) as (r&Hroot).
  rewrite (ref_built_det _ _ Hf Hf') in Hg.
  destruct (Buffer_drop_spec _ _ _ Hp) as (p''&Hdrop&_).
  eexists. eapply leads_next; [by apply leads_actor_recv|]. simpl.
  eapply leads_next; [apply leads_do; unfold expected_packet; by rewrite Hmake|]. simpl.
  apply leads_do. unfold compare_packets. simpl.
  rewrite (Hroot _ _ Hg'). cbn [mbind outcome_bind]. rewrite (Hroot _ _ Hg).
  cbn [mbind outcome_bind]. erewrite zoom_run by exact Hdrop. cbn [mbind outcome_bind].
  unfold check_eq. by rewrite MsgRef_eq_refl.
Qed.

Lemma send_send_packet_passes num_buffers child :
  0 < num_buffers → (Z.of_nat (MAX_PACKET_SIZE * num_buffers) ≤ isize_max)%Z →
  passes (send_send_packet num_buffers child).
Proof.
  intros Hn Hmax.
  assert (∃ k, observe send_send_packet_actor = ITreeDefinition.VisF Recv k) as (k&Hk).
  { unfold send_send_packet_actor, try_t. rewrite observe_bind. by eexists. }
  eapply (run_exchange _ _ _ k _ (encodes1 ref_view)); [done..| |].
  - intros c Hc. by apply send_ref_packet_run.
  - intros a a0 l ????. by eapply send_send_packet_actor_succeeds.
Qed.
End passes.

(** ** A root for the serializer of [WireRef]: the bytes themselves *)
#[export] Instance MsgRoot_ref : MsgRoot (H := FlatBuffers_ref) := {
  MsgRef := bytes;
  size_prefixed_root l := root_ToTansivMsg (drop 4 l) ≫= λ _, Some l;
  MsgRef_eq := λ l l', bool_decide (l = l');
}.
#[export] Instance MsgRootLaws_ref : MsgRootLaws (H0 := MsgRoot_ref).
Proof.
  split.
  - intros body m Hm. exists (frame body).
    change (root_ToTansivMsg body ≫= (λ _, Some (frame body)) = Some (frame body)). by rewrite Hm.
  - intros r. by apply bool_decide_eq_true.
Qed.
