(* ===== verification/CosimRun.v ===== *)
(** * CosimRun: whole simulations of a client and a scripted actor

    The steps of a world: the application sends or receives, or a deadline
    falls.  Against [recv_one_msg_actor] every deadline is the next multiple of
    the slice, until the client sends something; against
    [send_one_delayed_msg_actor] the deadlines are the multiples of the slice
    below the delay and the delay itself, where the packet is delivered. *)
From S2P Require Import Prelude Std BufferPool BytesBuffer Wire FbBuffer Connector.
From S2P Require Import ConnectorSpec ConnectorPeer OutputMsgSet WaitfreeArrayQueue Chrono.
From S2P Require Import Error Timer Context ContextSpec DeadlineSpec HandleDeadline TestActor.
From S2P Require Import ActorSpec TestHelpers ScriptSpec Cosim CosimSpec ContextInit.
From stdpp Require Import base option list numbers.
From Stdlib Require Import ZArith Lia.

(** A payload that the actor can receive. *)
Definition small (v : bytes) : Prop := length v + 4 * table_size ≤ MAX_PACKET_SIZE.

(** A message that [send] refuses for its size or that the actor can receive. *)
Definition answerable (msg : bytes) : Prop := length msg ≤ MAX_PACKET_SIZE → small msg.

Definition slice_packets (addr : Z) (prev : Duration) (out sent : list pending) : list out_view :=
  ((λ m, out_view_of addr (clamp prev (pd_time m)) m) <$> out) ++
  ((λ m, out_view_of addr (pd_time m) m) <$> sent).

Lemma slice_views_packets addr prev out sent :
  slice_views addr prev out sent = slice_packets addr prev out sent ++ [WAtDeadline].
Proof. unfold slice_views, slice_packets. by rewrite app_assoc. Qed.

Lemma slice_packets_nil addr prev out sent :
  slice_packets addr prev out sent = [] → out = [] ∧ sent = [].
Proof. intros [?%fmap_nil_inv ?%fmap_nil_inv]%app_nil. done. Qed.

Lemma slice_packets_are addr prev out sent : Forall is_packet (slice_packets addr prev out sent).
Proof. apply Forall_app. split; apply Forall_fmap; by apply Forall_true. Qed.

(** The deadlines among the callbacks, and whether packets were announced. *)
Definition callback_deadlines (cbs : list callback) : list Duration :=
  omap (λ cb, match cb with DeadlineCallback d => Some d | RecvCallback => None end) cbs.
Definition has_recv (cbs : list callback) : bool :=
  existsb (λ cb, match cb with RecvCallback => true | _ => false end) cbs.

Section worlds.
Context {T : Type} {Q : Type → Type} `{FL : FlatBuffersLaws, CH : Chrono}
  `{TM : !Timer T, TL : !TimerLaws T, TH : !TimerHandler T, THL : !TimerHandlerLaws T}
  `{AQ : ArrayQueueLaws Q}.
Implicit Types (c : Context T Q) (w : world T Q) (out up : list pending) (inn : list packet).

(** The application sends messages that [ok] allows, receives, or a deadline
    falls that the simulation survives, no later than [horizon]. *)
Inductive wstep (ok : bytes → Prop) (horizon : Duration) : world T Q → world T Q → Prop :=
  | wstep_send c c' p dst msg r :
      in_u32 dst → ok msg → Context_send dst msg c = Ret (r, c') →
      wstep ok horizon (mk_world c p) (mk_world c' p)
  | wstep_recv c c' p buf r :
      Context_recv buf c = Ret (r, c') → wstep ok horizon (mk_world c p) (mk_world c' p)
  | wstep_deadline fuel w w' d :
      live_handle_deadline fuel w = Ret (Some d, w') → (d ≤ horizon)%Z → wstep ok horizon w w'.

(** The deadlines one after the other until the end of the simulation, at most
    [n] of them; the application makes no calls in between. *)
Fixpoint handle_deadlines (n fuel : nat) : M (world T Q) unit :=
  match n with
  | O => out_of_fuel
  | S n =>
      o ← live_handle_deadline fuel;
      match o with Some _ => handle_deadlines n fuel | None => mret tt end
  end.

(** The messages of the set are in time for the deadline. *)
Definition in_time w : Prop :=
  Forall (λ m, spb_send_time m ≤ tc_next (timer_context (w_ctx w)))%Z
    (set_msgs (outgoing_messages (w_ctx w))).

Lemma repr_times c out up inn z :
  repr c out up inn →
  Forall (λ m, spb_send_time m ≤ z)%Z (set_msgs (outgoing_messages c)) ↔
  Forall (λ m, pd_time m ≤ z)%Z out.
Proof.
  intros (_&(_&_&_&_&Ho&_)&_). induction Ho as [|m pd ms l (_&_&_&Ht&_) _ IH]; [done|].
  split; intros [? ?%IH]%list.Forall_cons; constructor; by rewrite ?Ht in *.
Qed.

(** A client between two deadlines, with this socket. *)
Definition client_at c out up inn (s : UnixStream) : Prop :=
  repr c out up inn ∧ tc_inv (timer_context c) ∧ sock c = s ∧
  Forall (λ m, small (pd_payload m)) (out ++ up).

(** The deadlines the application was told about. *)
Definition deadlines c : list Duration := callback_deadlines (callbacks c).

(** What the calls of the application leave alone. *)
Definition same_run c c' : Prop :=
  callbacks c' = callbacks c ∧ tc_next (timer_context c') = tc_next (timer_context c) ∧
  in_cap c' = in_cap c.

Lemma client_at_send c c' out up inn s dst msg r :
  client_at c out up inn s → in_u32 dst → answerable msg → Context_send dst msg c = Ret (r, c') →
  ∃ out' up', client_at c' out' up' inn s ∧ same_run c c' ∧
    match r with
    | Ok _ => out' ≠ [] ∨ ∃ t q tm d tm', tc_check_deadline_overrun t q tm = Ret (Some d, tm')
    | Err _ => out' = out ∧ up' = up
    end.
Proof.
  intros (Hr&Ht&Hs&Hsm) Hdst Hmsg Hrun. unfold Context_send, on_timer in Hrun.
  apply bind_inv in Hrun as (t&c1&Hnow&Hrun). apply zoom_inv in Hnow as (tm&Hnow&->).
  destruct (tc_now_frame _ _ _ Hnow) as (Hwf&Hp&Hn).
  pose proof (tc_inv_now _ _ _ Ht Hnow) as Ht'.
  set (c1 := set_timer_context tm c) in *.
  assert (repr c1 out up inn) as Hr1 by exact Hr.
  destruct (tc_overrun_spec (timer_context c1) t (upcoming_messages c1)) as (o&Ho&_).
  pose proof (overrun_wf _ _ _ _ _ _ Hr1 Hwf Ho) as Hwf'.
  pose proof (send_at_spec c1 out up inn t dst msg o Hr1 Hdst Hwf Ho Hwf') as Hspec.
  assert (client_at c1 out up inn s) as Hc1 by (by split_and!).
  destruct (Nat.ltb_spec MAX_PACKET_SIZE (length msg)) as [|Hle]; [|destruct (_ =? _)].
  1,2: rewrite Hspec in Hrun; injection Hrun as <- <-; by exists out, up.
  specialize (Hmsg Hle).
  destruct Hspec as (c2&Hrun2&(Ea&Ek&Eq&Et&Es&Ec)&_&Hr2). rewrite Hrun2 in Hrun.
  injection Hrun as <- <-.
  assert (∀ out' up', repr c2 out' up' inn →
    Forall (λ m, small (pd_payload m)) (out' ++ up') →
    client_at c2 out' up' inn s ∧ same_run c c2) as Hdone.
  { intros out' up' ??. unfold client_at, same_run, in_cap. rewrite Ec, Et, Ek. by split_and!. }
  apply Forall_app in Hsm as [Hsm1 Hsm2]. destruct o as [t'|].
  - exists out, (up ++ [mk_pending t' dst msg]).
    destruct (Hdone out (up ++ [mk_pending t' dst msg]) Hr2) as [? Hrun'].
    { apply Forall_app. split; [done|]. apply Forall_app. by split; [|constructor]. }
    split; [done|]. split; [done|]. right. by eexists _, _, _, _, _.
  - destruct Hr2 as (o1&o2&->&Hr2). exists (o1 ++ mk_pending t dst msg :: o2), up.
    destruct (Hdone _ _ Hr2) as [? Hrun'].
    { apply Forall_app in Hsm1 as [??]. apply Forall_app. split; [|done]. apply Forall_app.
      by split; [|constructor]. }
    split; [done|]. split; [done|]. left. by intros [_ ?]%app_nil.
Qed.

Lemma client_at_recv c c' out up inn s buf r :
  client_at c out up inn s → Context_recv buf c = Ret (r, c') →
  client_at c' out up (tail inn) s ∧ same_run c c'.
Proof.
  intros (Hr&Ht&Hs&Hsm) Hrun.
  destruct (Context_recv_spec c out up inn buf Hr) as (c1&Hrun1&Hr1&Hf&Hcap).
  rewrite Hrun1 in Hrun. injection Hrun as <- <-. destruct Hf as (_&Ek&Et&_&_&_&_&Ec).
  unfold client_at, same_run. rewrite Ek, Et, Ec. by split_and!.
Qed.

(** The packets of a slice can be received by the actor. *)
Lemma slice_packets_receivable c out up inn s sent up' :
  client_at c out up inn s → up = sent ++ up' →
  Forall receivable
    (slice_packets (address c) (tc_prev (timer_context c)) out sent).
Proof.
  intros ((Ha&(_&_&_&_&Ho&Hu)&_)&Ht&_&Hsm) ->.
  destruct (tc_inv_wf _ Ht) as [Hp _]. apply Forall_app in Hsm as [Hso Hsu].
  apply Forall_app in Hsu as [Hsu _].
  assert (∀ v, small v → frame_bound (length v) ≤ MAX_PACKET_SIZE + 4) as Hb
    by (unfold small, frame_bound; lia).
  assert (∀ ms l, Forall2 (msg_at (output_buffer_pool c) (address c)) ms l →
    Forall (λ m, out_view_wf (out_view_of (address c) (pd_time m) m)) l) as Hwf.
  { intros ms l. induction 1 as [|m pd ms l (_&_&_&_&Hw) _ IH]; by constructor. }
  apply Hwf in Ho, Hu. apply Forall_app in Hu as [Hu _].
  rewrite Forall_forall in Ho, Hu, Hso, Hsu.
  apply Forall_app. split; apply Forall_fmap, Forall_forall; intros m Hm; split; simpl.
  - destruct (Ho m Hm) as (?&?&?&?). split_and!; try done. by apply clamp_wf.
  - by apply Hb, Hso.
  - exact (Hu m Hm).
  - by apply Hb, Hsu.
Qed.

(** The handler around a live deadline. *)
Lemma live_handle_inv fuel c p o w' :
  tc_inv (timer_context c) → live_handle_deadline fuel (mk_world c p) = Ret (o, w') →
  ∃ f tm a w1, let c0 := set_timer_context tm c in
    tc_handling tm ∧ tc_inv tm ∧ tc_prev tm = tc_prev (timer_context c) ∧
    tc_next tm = tc_next (timer_context c) ∧
    live_at_deadline fuel (mk_world c0 p) = Ret (a, w1) ∧
    match a with
    | NextDeadline d => o = Some d ∧ ∃ tm', tc_resume f d (timer_context (w_ctx w1)) = Ret (tt, tm') ∧
        w' = mk_world (set_timer_context tm' (w_ctx w1)) (w_proc w1)
    | EndSimulation => o = None ∧ w' = w1
    end ∧ tc_freeze (timer_context c) = Ret (f, tm).
Proof.
  intros Ht (f&w0&Hf&Hrun)%bind_inv. apply zoom_inv in Hf as (c0&Hf&->).
  apply zoom_inv in Hf as (tm&Hf&->). simpl in Hf.
  destruct (tc_freeze_spec _ _ _ Ht Hf) as (Hh&Ht'&Hp&Hn).
  apply bind_inv in Hrun as (a&w1&Had&Hrun). exists f, tm, a, w1. split_and!; try done.
  destruct a as [d|]; [|by injection Hrun as <- <-].
  apply bind_inv in Hrun as ([]&w2&Hres&Hrun). apply zoom_inv in Hres as (c2&Hres&->).
  apply zoom_inv in Hres as (tm'&Hres&->). injection Hrun as <- <-. split; [done|].
  by exists tm'.
Qed.

(** What the handler does to the timer. *)
Lemma live_handle_timer fuel c p o w' out up inn s :
  client_at c out up inn s → live_handle_deadline fuel (mk_world c p) = Ret (o, w') →
  ∃ f tm, tc_freeze (timer_context c) = Ret (f, tm) ∧ out_cap (w_ctx w') = out_cap c ∧
    match o with
    | Some d => tc_resume f d tm = Ret (tt, timer_context (w_ctx w'))
    | None => timer_context (w_ctx w') = tm
    end.
Proof.
  intros (Hr&Ht&_) Hrun.
  destruct (live_handle_inv fuel c p o w' Ht Hrun) as (f&tm&a&w1&Hh&Ht1&_&_&Hlive&Hend&Hf).
  exists f, tm. split; [done|].
  assert (timer_context (w_ctx w1) = tm ∧ out_cap (w_ctx w1) = out_cap c) as [Ew1 Eo1].
  { destruct (live_at_deadline_recorded fuel (mk_world (set_timer_context tm c) p) a w1
      out up inn Hr Hh (proj1 (tc_inv_wf _ Ht1)) Hlive) as (l&e&t&Hat).
    edestruct (at_deadline_spec (map_stream (more l e) (set_timer_context tm c)) out up inn)
      as (a'&c2&?&?&?&?&Hat'&_&(_&Et&_&_&Eo)&_); [exact Hr|exact Hh|by apply tc_inv_wf|].
    cbn [w_ctx] in Hat. rewrite Hat in Hat'. injection Hat' as _ <-. by split. }
  destruct a as [d|]; [|by destruct Hend as [-> ->]].
  destruct Hend as (->&tm'&Hres&->). by rewrite Ew1 in Hres.
Qed.

Lemma deadlines_after c c' inn inn' a :
  callbacks c' = callbacks c ++ notify_callbacks inn inn' a →
  deadlines c' = deadlines c ++ match a with NextDeadline d => [d] | EndSimulation => [] end.
Proof.
  unfold deadlines, callback_deadlines. intros ->. rewrite omap_app. f_equal. unfold notify_callbacks.
  destruct (_ && _), a; done.
Qed.

Lemma repr_no_messages c out up inn :
  repr c out up inn → set_msgs (outgoing_messages c) = [] ↔ out = [].
Proof.
  intros (_&(_&_&_&_&Ho%Forall2_length&_)&_).
  split; intros Hn; rewrite Hn in Ho; by apply nil_length_inv.
Qed.

(** Reading the frames of the script. *)
Lemma frame_fits v l : frame_in v l → view_size v + 4 * table_size ≤ MAX_PACKET_SIZE →
  length l ≤ MAX_PACKET_SIZE + 4.
Proof. intros [_ Hl] Hv. unfold frame_bound in Hl. lia. Qed.

Lemma receives_frame cap e inn v l rest :
  frame_in v l → view_size v + 4 * table_size ≤ MAX_PACKET_SIZE → length inn < cap →
  recv_spec MAX_PACKET_SIZE (length inn =? cap) e (l ++ rest) = (Ok v, rest).
Proof.
  intros Hf Hv Hcap. rewrite (proj2 (Nat.eqb_neq _ _)) by lia.
  apply recv_spec_frame; [apply Hf|by eapply frame_fits].
Qed.

Lemma goto_fits d : view_size (VGoto d) + 4 * table_size ≤ MAX_PACKET_SIZE.
Proof. unfold table_size, MAX_PACKET_SIZE. simpl. lia. Qed.
Lemma end_fits : view_size VEnd + 4 * table_size ≤ MAX_PACKET_SIZE.
Proof. unfold table_size, MAX_PACKET_SIZE. simpl. lia. Qed.

(** ** Progress

    The deadline of [w] returns, with a next deadline that the timer can take. *)
Context `{TP : !TimerProgress T}.

Definition answers (limit : Duration) w : Prop :=
  ∀ f tm, tc_freeze (timer_context (w_ctx w)) = Ret (f, tm) →
  ∃ n x w', (∀ fuel, n ≤ fuel →
      live_at_deadline fuel (mk_world (set_timer_context tm (w_ctx w)) (w_proc w)) =
        Ret (x, w')) ∧
    match x with
    | NextDeadline d => timer_context (w_ctx w') = tm ∧ (0 ≤ tc_next tm ≤ d)%Z ∧ (d ≤ limit)%Z
    | EndSimulation => True
    end.

Definition ready w : Prop := tc_ready (timer_context (w_ctx w)).

Lemma handle_returns limit w :
  answers limit w → ready w → (limit ≤ tc_limit)%Z →
  ∃ n o w', (∀ fuel, n ≤ fuel → live_handle_deadline fuel w = Ret (o, w')) ∧
    (o ≠ None → ready w').
Proof.
  intros Hans Hr Hlim. destruct (tc_freeze_returns _ Hr) as (f&tm&Hf&Hp).
  destruct (Hans f tm Hf) as (n&x&w1&Hlive&Hx). unfold ready.
  assert (∀ fuel, n ≤ fuel → live_handle_deadline fuel w = (match x with
    | NextDeadline d => _ ← on_ctx (on_timer (tc_resume f d)); mret (Some d)
    | EndSimulation => mret None end) w1) as Hrun.
  { intros fuel Hfuel. unfold live_handle_deadline.
    erewrite bind_run by (apply zoom_run; apply zoom_run; exact Hf).
    by erewrite bind_run by (by apply Hlive). }
  destruct x as [d|].
  - destruct Hx as (Ht&Hn&Hd). rewrite <- Ht in Hp, Hn.
    destruct (tc_resume_returns _ f d Hp Hn ltac:(lia)) as (tm'&Hres&Hr').
    exists n. eexists _, _. split.
    + intros fuel Hfuel. rewrite Hrun by done.
      by erewrite bind_run by (apply zoom_run; apply zoom_run; exact Hres).
    + intros _. exact Hr'.
  - exists n. eexists _, _. split; [intros fuel Hfuel; by rewrite Hrun|done].
Qed.

Lemma live_handle_deadline_det n fuel w x y :
  live_handle_deadline fuel w = Ret x → (∀ fuel, n ≤ fuel → live_handle_deadline fuel w = Ret y) →
  x = y.
Proof.
  intros Hx Hy. destruct x as [o w']. specialize (Hy (max n fuel) ltac:(lia)).
  enough (live_handle_deadline (max n fuel) w = Ret (o, w')) by congruence.
  unfold live_handle_deadline in *. apply bind_inv in Hx as (f&w1&Hf&Hx).
  erewrite bind_run by exact Hf. apply bind_inv in Hx as (a&w2&Ha&Hx).
  erewrite bind_run; [exact Hx|]. eapply live_at_deadline_mono; [exact Ha|lia].
Qed.

Lemma ready_deadline limit fuel w d w' :
  answers limit w → ready w → (limit ≤ tc_limit)%Z →
  live_handle_deadline fuel w = Ret (Some d, w') → ready w'.
Proof.
  intros Hans Hr Hlim Hrun. destruct (handle_returns limit w Hans Hr Hlim) as (n&o&w2&Hall&Hr2).
  pose proof (live_handle_deadline_det _ _ _ _ _ Hrun Hall) as [= <- <-]. by apply Hr2.
Qed.

(** The calls of the application do not disturb the timer. *)
Lemma ready_send c c' p dst msg r :
  ready (mk_world c p) → Context_send dst msg c = Ret (r, c') → (∃ out up inn, repr c out up inn) →
  in_u32 dst → ready (mk_world c' p).
Proof.
  intros Hr Hrun (out&up&inn&Hrep) Hdst. destruct (tc_now_returns _ Hr) as (t&tm&Hnow&Hr').
  destruct (Context_send_spec c out up inn dst msg t tm Hrep Hdst Hnow) as (r'&c1&Hrun'&Ht&_).
  rewrite Hrun' in Hrun. injection Hrun as <- <-. unfold ready. simpl. by rewrite Ht.
Qed.

Lemma ready_recv c c' p buf r :
  ready (mk_world c p) → Context_recv buf c = Ret (r, c') → (∃ out up inn, repr c out up inn) →
  ready (mk_world c' p).
Proof.
  intros Hr Hrun (out&up&inn&Hrep). unfold ready in *. cbn [w_ctx] in *.
  destruct (Context_recv_spec c out up inn buf Hrep) as (c1&Hrun1&_&(_&_&Et&_)&_).
  rewrite Hrun1 in Hrun. injection Hrun as <- <-. by rewrite Et.
Qed.

Lemma ready_step ok limit horizon w w' :
  wstep ok horizon w w' → ready w → answers limit w → (limit ≤ tc_limit)%Z →
  (∃ out up inn, repr (w_ctx w) out up inn) → ready w'.
Proof.
  intros Hstep Hr Hans Hlim Hrep. destruct Hstep as [|c c' p buf r Hrun|];
    eauto using ready_send, ready_recv, ready_deadline.
Qed.

(** ** Starting

    A client that was just created, with [s] for its socket. *)
Definition fresh_client c (s : UnixStream) : Prop :=
  repr c [] [] [] ∧ start_once c = false ∧ callbacks c = [] ∧ 0 < in_cap c ∧ sock c = s ∧
  tc_created (timer_context c).

Context `{TSL : !TimerStartLaws T}.

(** It starts with the deadline [d] and the offset [off]. *)
Definition begun c (d : Duration) (off : CDuration) c1 : Prop :=
  Context_start c = Ret (Ok off, c1) ∧
  tc_start d (timer_context c) = Ret (Ok off, timer_context c1) ∧
  callbacks c1 = [DeadlineCallback d] ∧ out_cap c1 = out_cap c ∧ start_once c1 = true.

(** Starting it reads the first deadline. *)
Lemma start_client c l rest e d :
  fresh_client c (mk_stream (l ++ rest) e [] []) → frame_in (VGoto d) l → (0 ≤ d ≤ tc_limit)%Z →
  ∃ off c1, begun c d off c1 ∧ tc_ready (timer_context c1) ∧
    client_at c1 [] [] [] (mk_stream rest e [] []) ∧ tc_next (timer_context c1) = d ∧
    in_cap c1 = in_cap c.
Proof.
  intros (Hr&Hs&Hcb&Hcap&Hsock&Hn) Hf Hd.
  destruct (tc_start_returns _ d Hn Hd) as (off&tm&Hstart&Hready).
  assert (Duration_wf d) as Hwf by (destruct tc_limit_wf; split; lia).
  apply tc_created_next in Hn.
  pose proof (Context_start_spec c [] [] [] Hr) as Hspec. rewrite Hs, Hsock in Hspec.
  cbn [rx rx_end] in Hspec.
  rewrite (receives_frame _ _ [] (VGoto d)) in Hspec; [|done|apply goto_fits|done].
  destruct (Hspec _ _ Hstart) as (c1&Hrun&Hr1&(Hst&_&Hs1&Hi&Ho)&Ht&Hcb1).
  destruct (tc_start_spec _ _ _ _ Hn Hwf Hstart) as (Hinv&_&Hnext).
  exists off, c1. unfold begun. rewrite Ht, Hcb1, Hcb. split; [done|]. split_and!; try done.
  unfold client_at. rewrite Ht, Hs1, Hsock. by split_and!.
Qed.
End worlds.

(** ** [recv_one_msg_actor] *)
Section recv_one_world.
Context {T : Type} {Q : Type → Type} `{FL : FlatBuffersLaws, CH : Chrono}
  `{TM : !Timer T, TL : !TimerLaws T, TH : !TimerHandler T, THL : !TimerHandlerLaws T}
  `{TP : !TimerProgress T, AQ : ArrayQueueLaws Q}.
Implicit Types (c : Context T Q) (w : world T Q) (out up : list pending) (inn : list packet).

Abbreviation SLICE := RECV_ONE_MSG_ACTOR_SLICE.

(** The script waits after it has sent the deadline [d]. *)
Definition recv_one_at (d : Duration) (p : actor_process) : Prop :=
  ∃ k a, p = Blocked k a ∧ observe (recv_one_rest d) = ITreeDefinition.VisF Recv k ∧
    actor_ok a ∧ client a = blank.

Lemma turned_waiting k a : turned (Waiting k) a = Blocked k
  (with_client (mk_stream (rx (client a)) would_block [] (wr (client a))) a).
Proof. done. Qed.

(** A deadline without packets: the next deadline is one slice later. *)
Lemma recv_one_deadline c out up d p :
  client_at c out up [] blank → tc_handling (timer_context c) → recv_one_at d p →
  0 < in_cap c → Duration_wf d → (d + SLICE ≤ Duration_MAX)%Z →
  (∃ c', (∀ fuel, live_at_deadline fuel (mk_world c p) = Ret (EndSimulation, mk_world c' p)) ∧
    callbacks c' = callbacks c ∧
    ¬ Forall (λ m, pd_time m ≤ tc_next (timer_context c))%Z out) ∨
  (∃ sent up', up = sent ++ up' ∧ Forall (λ m, pd_time m ≤ tc_next (timer_context c))%Z sent ∧
    ∃ n c' x p', (∀ fuel, n ≤ fuel →
        live_at_deadline fuel (mk_world c p) = Ret (x, mk_world c' p')) ∧
      repr c' [] up' [] ∧ deadline_keeps c c' ∧
      callbacks c' = callbacks c ++ notify_callbacks [] [] x ∧
      if bool_decide (out = [] ∧ sent = []) then
        x = NextDeadline (d + SLICE)%Z ∧ recv_one_at (d + SLICE)%Z p' ∧ sock c' = blank
      else x = EndSimulation ∧ ∃ a, p' = Draining a).
Proof.
  intros Hc Hh (k&a&->&Hk&Ha&Hca) Hcap Hd Hmax. destruct (Hc) as (Hr&Ht&Hs&_).
  destruct (tc_inv_wf _ Ht) as [Hp _].
  destruct (live_deadline_blocked c k a out up [] Hr Hh Hp Hs Hca)
    as [?|(sent&up'&l&->&Henc&_&Hsent&Hlive)]; [by left|right].
  exists sent, up'. split_and!; [done..|].
  rewrite slice_views_packets in Henc.
  pose proof (slice_packets_receivable _ _ _ _ _ _ _ Hc eq_refl) as Hrec.
  set (a0 := with_client (mk_stream l would_block [] []) a) in *.
  assert (actor_ok a0) as Ha0 by exact Ha.
  destruct (bool_decide_reflect (out = [] ∧ sent = [])) as [[-> ->]|Hne].
  - destruct (recv_one_goes_on d a0 l would_block [] Ha0 eq_refl Henc) as (a1&Hl1&Ha1&Hc1).
    destruct (recv_one_sends d a1 _ _ _ Ha1 Hc1 Hd Hmax) as (l2&a2&Hl2&Ha2&Hf2&Hc2).
    destruct (recv_one_waits (d + SLICE)%Z) as (k'&Hk').
    destruct (TestActor_recv_blocks a2) as (r&a3&Hrecv&Hblk); [by rewrite Hc2..|].
    assert (runs (await k) a0 (Waiting k') a2) as Hruns.
    { eapply runs_await; [exact Hk|]. eapply leads_runs; [exact Hl1|].
      eapply leads_runs; [exact Hl2|]. by eapply runs_blocked. }
    edestruct (Hlive _ _ (NextDeadline (d + SLICE)%Z) [] [] Hruns) as (n&c'&Hrun&Hr'&Hk2&Hcb&Hs').
    { rewrite Hc2. simpl. rewrite <- (app_nil_r l2). constructor.
      apply (receives_frame _ _ []); [done|apply goto_fits|done]. }
    { by left. }
    exists n, c', (NextDeadline (d + SLICE)%Z), (turned (Waiting k') a2). split_and!; try done.
    eexists k', _. split; [done|]. split_and!; [done|done|]. simpl. by rewrite Hc2.
  - destruct (slice_packets (address c) _ out sent) as [|w ws] eqn:Hws.
    { by apply slice_packets_nil in Hws. }
    pose proof (slice_packets_are (address c) (tc_prev (timer_context c)) out sent) as Hpk.
    rewrite Hws in Hpk. apply Forall_cons_1 in Hpk as [Hw _]. apply Forall_cons_1 in Hrec as [Hrw _].
    destruct w as [tm src dst v|]; [|done].
    destruct (recv_one_ends d a0 l would_block [] tm src dst v _ Ha0 eq_refl Henc Hrw)
      as (l'&a1&Hl1&Hf1&Htx).
    assert (runs (await k) a0 (Finished (Ok tt)) a1) as Hruns.
    { eapply runs_await; [exact Hk|]. by apply leads_finished. }
    edestruct (Hlive _ _ EndSimulation [] [] Hruns) as (n&c'&Hrun&Hr'&Hk2&Hcb&Hs').
    { rewrite Htx. simpl. rewrite <- (app_nil_r l'). apply receives_end.
      apply (receives_frame _ _ []); [done|apply end_fits|done]. }
    { by right. }
    exists n, c', EndSimulation, (turned (Finished (Ok tt)) a1). split_and!; try done.
    by eexists.
Qed.

(** Between two deadlines: the script has sent the deadlines up to the current
    one, [S j] slices after the start. *)
Definition recv_one_after (j : nat) out up w : Prop :=
  client_at (w_ctx w) out up [] blank ∧
  recv_one_at (Z.of_nat (S j) * SLICE)%Z (w_proc w) ∧ 0 < in_cap (w_ctx w) ∧
  tc_next (timer_context (w_ctx w)) = (Z.of_nat (S j) * SLICE)%Z ∧
  deadlines (w_ctx w) = (λ i, Z.of_nat i * SLICE)%Z <$> seq 1 (S j) ∧
  (Z.of_nat (S (S j)) * SLICE ≤ tc_limit)%Z.
Definition recv_one_inv w : Prop := ∃ j out up, recv_one_after j out up w.

Lemma slices_next j : (Z.of_nat j * SLICE + SLICE)%Z = (Z.of_nat (S j) * SLICE)%Z.
Proof. lia. Qed.

Lemma recv_one_after_deadline fuel j out up w o w' :
  recv_one_after j out up w → live_handle_deadline fuel w = Ret (o, w') →
  match o with
  | Some d => out = [] ∧ d = (Z.of_nat (S (S j)) * SLICE)%Z ∧
      callbacks (w_ctx w') = callbacks (w_ctx w) ++ [DeadlineCallback d] ∧
      ((d ≤ tc_limit - SLICE)%Z → recv_one_after (S j) [] up w')
  | None => (out ≠ [] ∨ up ≠ []) ∧ callbacks (w_ctx w') = callbacks (w_ctx w)
  end ∧
  (out ≠ [] → in_time w → ∃ a, w_proc w' = Draining a).
Proof.
  intros (Hc&Hat&Hcap&Hn&Hdl&Hmax) Hrun. destruct w as [c p].
  cbn [w_ctx w_proc] in *. destruct tc_limit_wf as [_ Hlim].
  destruct (Hc) as (Hr&Ht&Hs&Hsm).
  destruct (live_handle_inv fuel c p o w' Ht Hrun) as (f&tm&a&w1&Hh&Ht0&_&Hn0&Hlive&Hend&_).
  set (c0 := set_timer_context tm c) in *.
  set (d := (Z.of_nat (S j) * SLICE)%Z) in *.
  assert (client_at c0 out up [] blank) as Hc0 by (by split_and!).
  assert (Duration_wf d) as Hd.
  { unfold d, Duration_wf, RECV_ONE_MSG_ACTOR_SLICE, from_micros in *. lia. }
  assert (0 < SLICE)%Z as Hpos by done.
  destruct (recv_one_deadline c0 out up d p Hc0 Hh Hat Hcap Hd)
    as [(c'&Hall&Hcb'&Hlate)|(sent&up'&->&Hsent&n&c'&x&p'&Hall&Hr'&Hk'&Hcb&Hcase)].
  { unfold d. rewrite slices_next. lia. }
  - pose proof (live_at_deadline_det _ 0 _ _ _ Hlive (λ f _, Hall f)) as [= -> ->].
    destruct Hend as [-> ->]. split_and!; try done.
    + left. intros ->. by apply Hlate.
    + intros _ Hin. exfalso. apply Hlate.
      simpl. rewrite Hn0, <- Hn in *. by apply (repr_times c out up [] _ Hr).
  - pose proof (live_at_deadline_det _ _ _ _ _ Hlive Hall) as [= -> ->].
    destruct (bool_decide_reflect (out = [] ∧ sent = [])) as [[-> ->]|Hp].
    + destruct Hcase as (->&Hat'&Hs'). destruct Hend as (->&tm'&Hres&->).
      cbn [w_ctx w_proc] in *.
      split; [|done]. split; [done|]. split; [unfold d; lia|]. split; [exact Hcb|]. intros Hle.
      destruct Hk' as (_&Et&_&Ei&_). rewrite Et in Hres. simpl in Hres.
      destruct (tc_resume_spec tm f (d + SLICE)%Z tm' Ht0 Hh
        ltac:(unfold Duration_wf in *; lia) ltac:(lia) Hres)
        as (Ht'&_&Hn').
      unfold recv_one_after. cbn [w_ctx w_proc]. rewrite <- slices_next. fold d.
      split_and!; try done.
      * change (0 < in_cap c'). by rewrite Ei.
      * change (deadlines (set_timer_context tm' c')) with (deadlines c').
        rewrite (deadlines_after c0 c' [] [] _ Hcb).
        change (deadlines c0) with (deadlines c). rewrite Hdl.
        rewrite (seq_S (S j) 1), fmap_app. f_equal. simpl. f_equal. unfold d. lia.
      * unfold d in *. rewrite slices_next in *. lia.
    + destruct Hcase as (->&a'&->). destruct Hend as [-> ->]. cbn [w_ctx].
      rewrite Hcb, app_nil_r. split_and!; [|done|].
      * destruct out; [right|by left]. intros [-> _]%app_nil. by apply Hp.
      * intros _ _. by exists a'.
Qed.

Lemma recv_one_inv_step w w' :
  recv_one_inv w → wstep answerable (tc_limit - SLICE)%Z w w' → recv_one_inv w'.
Proof.
  intros (j&out&up&Hi) Hstep.
  destruct Hstep as [c c' p dst msg r Hdst Hm Hrun|c c' p buf r Hrun|f w w' d Hrun Hd].
  - destruct Hi as (Hc&Hat&Hcap&Hn&Hdl&Hmax). simpl in *.
    destruct (client_at_send _ _ _ _ _ _ _ _ _ Hc Hdst Hm Hrun) as (out'&up'&Hc'&(Ecb&En&Ei)&_).
    exists j, out', up'. unfold recv_one_after, deadlines. simpl. rewrite Ecb, En, Ei.
    by split_and!.
  - destruct Hi as (Hc&Hat&Hcap&Hn&Hdl&Hmax). simpl in *.
    destruct (client_at_recv _ _ _ _ _ _ _ _ Hc Hrun) as (Hc'&Ecb&En&Ei).
    exists j, out, up. unfold recv_one_after, deadlines. simpl. rewrite Ecb, En, Ei.
    by split_and!.
  - destruct (recv_one_after_deadline f j out up w (Some d) w' Hi Hrun) as ((_&_&_&Hn)&_).
    exists (S j), [], up. by apply Hn.
Qed.

(** Every deadline returns. *)
Lemma recv_one_inv_answers w :
  recv_one_inv w → answers tc_limit w.
Proof.
  intros (j&out&up&Hc&Hat&Hcap&Hn&_&Hmax) f tm Hf. destruct w as [c p]. cbn [w_ctx w_proc] in *.
  destruct (Hc) as (Hr&Ht&Hs&Hsm). destruct tc_limit_wf as [_ Hlim].
  destruct (tc_freeze_spec _ _ _ Ht Hf) as (Hh&Ht0&_&Hn0).
  assert (client_at (set_timer_context tm c) out up [] blank) as Hc0 by (by split_and!).
  destruct (recv_one_deadline _ out up _ p Hc0 Hh Hat Hcap)
    as [(c'&Hall&_)|(sent&up'&_&_&n&c'&x&p'&Hall&_&Hk&_&Hcase)].
  { unfold Duration_wf, RECV_ONE_MSG_ACTOR_SLICE, from_micros in *. lia. }
  { rewrite slices_next. lia. }
  - exists 0, EndSimulation. by eexists.
  - exists n, x. eexists. split; [exact Hall|]. destruct (bool_decide _).
    + destruct Hcase as (->&_). destruct Hk as (_&Et&_). cbn [w_ctx]. split; [exact Et|].
      rewrite Hn0, Hn, slices_next. unfold RECV_ONE_MSG_ACTOR_SLICE, from_micros in *. lia.
    + by destruct Hcase as (->&_).
Qed.

Context `{TSL : !TimerStartLaws T}.

(** The first deadline is one slice. *)
Lemma recv_one_connects :
  ∃ n l p, (frame_in (VGoto SLICE) l ∧ recv_one_at SLICE p) ∧
    ∀ fuel, n ≤ fuel →
      connect fuel recv_one_msg_actor = Ret (mk_stream l would_block [] [], p).
Proof.
  destruct (connect_runs recv_one_msg_actor (λ s p, ∃ l, s = mk_stream l would_block [] [] ∧
    frame_in (VGoto SLICE) l ∧ recv_one_at SLICE p)) as (n&s&p&(l&->&Hf&Hp)&Hn).
  - intros a Ha Hc.
    destruct (recv_one_sends 0%Z a _ _ _ Ha Hc) as (l&a'&Hl&Ha'&Hf&Hc'); [done|done|].
    destruct (recv_one_waits (0 + SLICE)%Z) as (k&Hk).
    destruct (TestActor_recv_blocks a') as (r&a3&Hrecv&Hblk); [by rewrite Hc'..|].
    exists (Waiting k), a'. split.
    { eapply (leads_runs recv_one_msg_actor); [exact Hl|]. by eapply runs_blocked. }
    exists l. split; [by rewrite Hc'|]. split; [done|].
    eexists k, _. split; [done|]. split_and!; [done|done|]. simpl. by rewrite Hc'.
  - by exists n, l, p.
Qed.

Lemma recv_one_starts c l p :
  fresh_client c (mk_stream l would_block [] []) → frame_in (VGoto SLICE) l →
  recv_one_at SLICE p → (2 * SLICE ≤ tc_limit)%Z →
  ∃ off c1, begun c SLICE off c1 ∧ recv_one_after 0 [] [] (mk_world c1 p) ∧
    ready (mk_world c1 p).
Proof.
  intros Hc Hf Hp Hlim. destruct (Hc) as (_&_&_&Hcap&_).
  rewrite <- (app_nil_r l) in Hc.
  destruct (start_client c l [] would_block SLICE Hc Hf)
    as (off&c1&Hrun&Hready&Hc1&Hn&Hi);
    [unfold RECV_ONE_MSG_ACTOR_SLICE, from_micros in *; lia|].
  exists off, c1. split; [done|]. split; [|done]. destruct Hrun as (_&_&Hcb&_).
  unfold recv_one_after, deadlines. cbn [w_ctx w_proc].
  rewrite Hcb, Hi. split_and!; try done.
Qed.
End recv_one_world.

(** ** The notifiers of the tests *)
(** They hold the last deadline, the number of deadlines and whether packets
    came. *)
Lemma run_callbacks_spec cbs r d :
  in_u64 (dn_num_called d) →
  run_callbacks cbs (r, d) =
    Ret (tt, (mk_recv_notifier (notified r || has_recv cbs),
              mk_deadline_notifier (default (dn_deadline d) (list.last (callback_deadlines cbs)))
                (as_u64 (dn_num_called d + Z.of_nat (length (callback_deadlines cbs)))))).
Proof.
  revert r d. induction cbs as [|cb cbs IH]; intros [b] [dl n] Hn; simpl in Hn.
  { simpl. rewrite Z.add_0_r, as_u64_id, orb_false_r by done. done. }
  destruct cb as [|d']; simpl run_callbacks.
  - erewrite bind_run by done. cbv beta. rewrite IH by done. simpl. by rewrite orb_true_r.
  - erewrite bind_run by done. cbv beta. rewrite IH.
    2: { simpl. unfold in_u64, as_u64, u64_max. pose proof (Z.mod_pos_bound (n + 1) (2 ^ 64)). lia. }
    simpl. do 4 f_equal.
    + rewrite last_cons. by destruct (list.last (callback_deadlines cbs)).
    + unfold as_u64. rewrite Zplus_mod_idemp_l. f_equal. lia.
Qed.
