(* ===== verification/CosimDelayed.v ===== *)
(** * CosimDelayed: simulations against [send_one_delayed_msg_actor]

    The deadlines are the multiples of the slice below the delay, then the
    delay; at that deadline the client receives the packet and the simulation
    ends. *)
From S2P Require Import Prelude Std BufferPool BytesBuffer Wire FbBuffer Connector.
From S2P Require Import ConnectorSpec ConnectorPeer OutputMsgSet WaitfreeArrayQueue Chrono.
From S2P Require Import Error Timer Context ContextSpec DeadlineSpec HandleDeadline TestActor.
From S2P Require Import ActorSpec TestHelpers ScriptSpec Cosim CosimSpec CosimRun.
From stdpp Require Import base option list numbers.
From Stdlib Require Import ZArith Lia.

Section delayed_world.
Context {T : Type} {Q : Type → Type} `{FL : FlatBuffersLaws, CH : Chrono}
  `{TM : !Timer T, TL : !TimerLaws T, TH : !TimerHandler T, THL : !TimerHandlerLaws T}
  `{TP : !TimerProgress T, AQ : ArrayQueueLaws Q, PR : Profile}.
Implicit Types (c : Context T Q) (w : world T Q) (out up : list pending) (inn : list packet).

Context (msg : bytes) (slice delay : Z).
Hypotheses (Hmsg : small msg) (Hslice : (0 < slice)%Z) (Hdelay : (0 ≤ delay)%Z)
  (Hmax : (delay + slice ≤ u64_max)%Z).

Lemma msg_wf : payload_wf msg.
Proof. unfold payload_wf. revert Hmsg. unfold small, MAX_PACKET_SIZE. lia. Qed.
Lemma slice_u64 : in_u64 slice.
Proof. unfold in_u64. lia. Qed.
Lemma delay_u64 : in_u64 delay.
Proof. unfold in_u64. lia. Qed.

(** The packet, as the application reads it. *)
Definition delayed_packet : packet := mk_packet local_address remote_vsg_address msg.

(** The number of deadlines before the last one, and all of them. *)
Definition before_last : nat := Z.to_nat ((delay - 1) / slice).
Definition slices (j : nat) : list Duration :=
  (λ i, from_micros (Z.of_nat i * slice)) <$> seq 1 j.
Definition schedule : list Duration := slices before_last ++ [from_micros delay].

Lemma before_last_spec j : j ≤ before_last ↔ j = 0 ∨ (Z.of_nat j * slice < delay)%Z.
Proof.
  unfold before_last. pose proof (Z.div_mod (delay - 1) slice ltac:(lia)) as Hdm.
  pose proof (Z.mod_pos_bound (delay - 1) slice Hslice) as Hm.
  set (q := ((delay - 1) / slice)%Z) in *. split; [intros Hj|intros [->|Hj]; [lia|]].
  - destruct j as [|j]; [by left|right]. nia.
  - assert (Z.of_nat j ≤ q)%Z; [nia|lia].
Qed.

Lemma slices_S j : slices (S j) = slices j ++ [from_micros (Z.of_nat (S j) * slice)].
Proof. unfold slices. by rewrite seq_S, fmap_app. Qed.

(** Where the script is once it has sent a deadline: it waits at [next], or it
    has ended and the rest of its messages is on its way. *)
Definition delayed_blocked (next : Z) (p : actor_process) : Prop :=
  ∃ k a, p = Blocked k a ∧
    observe (delayed_rest msg slice delay next) = ITreeDefinition.VisF Recv k ∧
    actor_ok a ∧ client a = blank.
Definition delayed_ended (s : UnixStream) (p : actor_process) : Prop :=
  (∃ a, p = Draining a) ∧ ∃ l2 l3,
    frame_in (VDeliver local_address remote_vsg_address msg) l2 ∧ frame_in VEnd l3 ∧
    s = mk_stream (l2 ++ l3) eof [] [].

(** The script from the head of its loop, run until it waits or ends. *)
Lemma delayed_from_runs next a :
  actor_ok a → client a = blank → in_u64 next →
  ∃ st a' d l rest, runs (delayed_from msg slice delay next) a st a' ∧
    frame_in (VGoto d) l ∧ tx (client a') = l ++ rest ∧
    if (next <? delay)%Z then
      d = from_micros next ∧ rest = [] ∧ delayed_blocked next (turned st a') ∧
      peer_end (turned st a') = would_block
    else d = from_micros delay ∧ delayed_ended (mk_stream rest eof [] []) (turned st a') ∧
      peer_end (turned st a') = eof.
Proof.
  intros Ha Hc Hn. pose proof delay_u64 as Hd. destruct (Z.ltb_spec next delay).
  - destruct (delayed_sends msg slice delay next a _ _ _ Ha Hc Hn) as (l&a'&Hl&Ha'&Hf&Hc'); [done|].
    destruct (delayed_waits msg slice delay next) as (k&Hk).
    destruct (TestActor_recv_blocks a') as (r&a3&Hrecv&Hblk); [by rewrite Hc'..|].
    exists (Waiting k), a', (from_micros next), l, [].
    split; [eapply leads_runs; [exact Hl|]; by eapply runs_blocked|].
    split_and!; try done; [by rewrite Hc', app_nil_r|].
    eexists k, _. split; [done|]. split_and!; [done|done|]. simpl. by rewrite Hc'.
  - destruct (delayed_finishes msg slice delay msg_wf Hd next a _ _ _ Ha Hc)
      as (l1&l2&l3&a'&Hl&Hf1&Hf2&Hf3&Htx); [done|].
    exists (Finished (Ok tt)), a', (from_micros delay), l1, (l2 ++ l3).
    split; [by apply leads_finished|]. split_and!; try done. split; [by eexists|].
    by exists l2, l3.
Qed.

(** What the client makes of the answer of the script to a deadline. *)
Definition delayed_next_world (next : Z) c' (p' : actor_process) (x : AfterDeadline) : Prop :=
  if (next <? delay)%Z then
    x = NextDeadline (from_micros next) ∧ delayed_blocked next p' ∧ sock c' = blank
  else x = NextDeadline (from_micros delay) ∧ delayed_ended (sock c') p'.

(** A deadline before the last one. *)
Lemma delayed_deadline c out up next p :
  client_at c out up [] blank → tc_handling (timer_context c) → delayed_blocked next p →
  0 < in_cap c → in_u64 (next + slice) →
  (∃ c', (∀ fuel, live_at_deadline fuel (mk_world c p) = Ret (EndSimulation, mk_world c' p)) ∧
    ¬ Forall (λ m, pd_time m ≤ tc_next (timer_context c))%Z out) ∨
  (∃ sent up' n c' x p', up = sent ++ up' ∧
    (∀ fuel, n ≤ fuel → live_at_deadline fuel (mk_world c p) = Ret (x, mk_world c' p')) ∧
    repr c' [] up' [] ∧ deadline_keeps c c' ∧
    callbacks c' = callbacks c ++ notify_callbacks [] [] x ∧
    delayed_next_world (next + slice) c' p' x).
Proof.
  intros Hc Hh (k&a&->&Hk&Ha&Hca) Hcap Hn. destruct (Hc) as (Hr&Ht&Hs&_).
  destruct (tc_inv_wf _ Ht) as [Hp _].
  destruct (live_deadline_blocked c k a out up [] Hr Hh Hp Hs Hca)
    as [(c'&Hall&_&Hl)|(sent&up'&l&->&Henc&_&Hsent&Hlive)]; [left; by exists c'|right].
  rewrite slice_views_packets in Henc.
  pose proof (slice_packets_receivable _ _ _ _ _ _ _ Hc eq_refl) as Hrec.
  pose proof (slice_packets_are (address c) (tc_prev (timer_context c)) out sent) as Hpk.
  set (a0 := with_client (mk_stream l would_block [] []) a) in *.
  destruct (delayed_answers msg slice delay next _ a0 l would_block [] Ha eq_refl Henc Hpk Hrec Hn)
    as (a1&Hl1&Ha1&Hc1).
  destruct (delayed_from_runs (next + slice) a1 Ha1 Hc1 Hn)
    as (st&a2&d&l2&rest&Hruns&Hf&Htx&Hcase).
  assert (runs (await k) a0 st a2) as Hrun2.
  { eapply runs_await; [exact Hk|]. by eapply leads_runs. }
  destruct (Hlive _ _ (NextDeadline d) [] rest Hrun2) as (n&c'&Hrun&Hr'&Hk2&Hcb&Hs').
  { rewrite Htx. constructor. apply (receives_frame _ _ []); [done|apply goto_fits|done]. }
  { by left. }
  exists sent, up', n, c', (NextDeadline d), (turned st a2). split_and!; try done.
  unfold delayed_next_world. rewrite Hs'. destruct (_ <? _)%Z.
  - destruct Hcase as (->&->&?&->). by split_and!.
  - destruct Hcase as (->&?&->). by split_and!.
Qed.

(** The last one. *)
Lemma delayed_last c out up p s :
  client_at c out up [] s → tc_handling (timer_context c) → delayed_ended s p → 0 < in_cap c →
  (∃ c', (∀ fuel, live_at_deadline fuel (mk_world c p) = Ret (EndSimulation, mk_world c' p)) ∧
    ¬ Forall (λ m, pd_time m ≤ tc_next (timer_context c))%Z out) ∨
  (∃ up' n c', (∀ fuel, n ≤ fuel →
      live_at_deadline fuel (mk_world c p) = Ret (EndSimulation, mk_world c' p)) ∧
    repr c' [] up' [delayed_packet] ∧ deadline_keeps c c' ∧
    callbacks c' = callbacks c ++ [RecvCallback]).
Proof.
  intros (Hr&Ht&Hs&_) Hh ((a&->)&l2&l3&Hf2&Hf3&->) Hcap.
  destruct (tc_inv_wf _ Ht) as [Hp _].
  destruct (live_deadline_ended c (Draining a) out up [] Hr Hh Hp)
    as [?|(sent&up'&x&inn'&rest&n&c'&->&Hrec&Hrun&Hr'&Hk&Hcb)]; [by rewrite Hs..|by left|right].
  rewrite Hs in Hrec. simpl in Hrec.
  assert (∃ rest', receives (in_cap c) eof [] (l2 ++ l3) EndSimulation [delayed_packet] rest')
    as (rest'&Hrec').
  { destruct (decide (in_cap c = 1)) as [Hone|Hmore].
    - destruct (recv_spec_frame_full VEnd l3 [] MAX_PACKET_SIZE eof (proj1 Hf3)) as (l'&Hfull);
        [by apply (frame_fits VEnd l3 Hf3), end_fits|].
      exists l'. eapply receives_deliver; [by apply (receives_frame _ _ []); [exact Hf2|exact Hmsg|]|].
      eapply receives_error. simpl. rewrite Hone, <- (app_nil_r l3). exact Hfull.
    - exists []. eapply receives_deliver; [by apply (receives_frame _ _ []); [exact Hf2|exact Hmsg|]|].
      apply receives_end. rewrite <- (app_nil_r l3).
      apply receives_frame; [done|apply end_fits|simpl; lia]. }
  destruct (receives_det _ _ _ _ _ _ _ _ _ _ Hrec Hrec') as (->&->&_).
  by exists up', n, c'.
Qed.

(** The worlds between two deadlines. *)
Definition delayed_inv w : Prop :=
  0 < in_cap (w_ctx w) ∧ ∃ out up s, client_at (w_ctx w) out up [] s ∧
    ((∃ j, S j ≤ before_last ∧ s = blank ∧
       delayed_blocked (Z.of_nat (S j) * slice) (w_proc w) ∧
       tc_next (timer_context (w_ctx w)) = from_micros (Z.of_nat (S j) * slice) ∧
       deadlines (w_ctx w) = slices (S j)) ∨
     (delayed_ended s (w_proc w) ∧ tc_next (timer_context (w_ctx w)) = from_micros delay ∧
       deadlines (w_ctx w) = schedule)).

Lemma next_u64 j : j ≤ before_last → in_u64 (Z.of_nat (S j) * slice).
Proof.
  intros [->|Hj]%before_last_spec; unfold in_u64; [lia|]. nia.
Qed.

Lemma from_micros_mono x y : (x ≤ y)%Z → (from_micros x ≤ from_micros y)%Z.
Proof. unfold from_micros. lia. Qed.

(** The next deadline after [j] slices, with what the script sent for it. *)
Lemma delayed_next_inv c tm' c' p' x j up' :
  j ≤ before_last → repr c' [] up' [] → Forall (λ m, small (pd_payload m)) up' →
  0 < in_cap c' → callbacks c' = callbacks c ++ notify_callbacks [] [] x →
  deadlines c = slices j → delayed_next_world (Z.of_nat (S j) * slice) c' p' x →
  ∃ d, x = NextDeadline d ∧ (from_micros (Z.of_nat j * slice) ≤ d ≤ from_micros delay)%Z ∧
    (tc_inv tm' → tc_next tm' = d → delayed_inv (mk_world (set_timer_context tm' c') p')).
Proof.
  intros Hj Hr Hsm Hcap Hcb Hdl Hnext. unfold delayed_next_world in Hnext.
  pose proof (deadlines_after c c' [] [] x Hcb) as Hdl'. rewrite Hdl in Hdl'.
  destruct (Z.ltb_spec (Z.of_nat (S j) * slice) delay) as [Hlt|Hge].
  - destruct Hnext as (->&Hb&Hs). eexists. split; [done|].
    split; [split; apply from_micros_mono; nia|].
    intros Ht Hn. split; [done|]. exists [], up', blank. split; [by split_and!|].
    left. exists j. split_and!; try done; [by apply before_last_spec; right|].
    change (deadlines c' = slices (S j)). by rewrite Hdl', slices_S.
  - destruct Hnext as (->&He). eexists. split; [done|].
    assert (j = before_last) as ->.
    { destruct (decide (j = before_last)) as [|Hne]; [done|].
      assert (S j ≤ before_last) as [|]%before_last_spec; lia. }
    split.
    { split; [|done]. apply from_micros_mono. assert (before_last ≤ before_last) as [Hz|]%before_last_spec by lia;
        [rewrite Hz; lia|lia]. }
    intros Ht Hn. split; [done|]. exists [], up', (sock c'). split; [by split_and!|].
    right. split_and!; try done.
Qed.

Lemma delayed_inv_deadline fuel w o w' :
  delayed_inv w → live_handle_deadline fuel w = Ret (o, w') →
  match o with
  | Some d => delayed_inv w' ∧ in_time w' ∧
      callbacks (w_ctx w') = callbacks (w_ctx w) ++ [DeadlineCallback d]
  | None => in_time w →
      deadlines (w_ctx w') = schedule ∧ (∃ a, w_proc w' = Draining a) ∧
      callbacks (w_ctx w') = callbacks (w_ctx w) ++ [RecvCallback] ∧
      ∃ up', repr (w_ctx w') [] up' [delayed_packet]
  end.
Proof.
  intros (Hcap&out&up&s&Hc&Hphase) Hrun. destruct w as [c p]. cbn [w_ctx w_proc] in *.
  destruct (Hc) as (Hr&Ht&Hs&Hsm).
  destruct (live_handle_inv fuel c p o w' Ht Hrun) as (f&tm&a&w1&Hh&Ht0&_&Hn0&Hlive&Hend&_).
  set (c0 := set_timer_context tm c) in *.
  assert (client_at c0 out up [] s) as Hc0 by (by split_and!).
  assert (¬ Forall (λ m, pd_time m ≤ tc_next (timer_context c0))%Z out →
    ¬ Forall (λ m, spb_send_time m ≤ tc_next (timer_context c))%Z
        (set_msgs (outgoing_messages c))) as Hlate.
  { intros Hl Hall. apply Hl. simpl. rewrite Hn0. by apply (repr_times c out up [] _ Hr). }
  destruct Hphase as [(j&Hj&->&Hb&Hn&Hdl)|(He&Hn&Hdl)].
  - destruct (delayed_deadline c0 out up _ p Hc0 Hh Hb Hcap)
      as [(c'&Hall&Hl)|(sent&up'&n&c'&x&p'&->&Hall&Hr'&Hk&Hcb&Hnext)].
    { replace (_ + _)%Z with (Z.of_nat (S (S j)) * slice)%Z by lia. by apply next_u64. }
    { pose proof (live_at_deadline_det _ 0 _ _ _ Hlive (λ f _, Hall f)) as [= -> ->].
      destruct Hend as [-> ->]. intros Hin. by destruct (Hlate Hl). }
    pose proof (live_at_deadline_det _ _ _ _ _ Hlive Hall) as [= -> ->].
    destruct Hk as (_&Et&_&Ei&_).
    replace (_ + _)%Z with (Z.of_nat (S (S j)) * slice)%Z in Hnext by lia.
    apply Forall_app in Hsm as [_ Hsm]. apply Forall_app in Hsm as [_ Hsm].
    cbn [w_ctx w_proc] in *.
    destruct x as [d|]; [|unfold delayed_next_world in Hnext; by destruct (_ <? _)%Z, Hnext].
    destruct Hend as (->&tm'&Hres&->).
    destruct (delayed_next_inv c0 tm' c' p' _ _ up' Hj Hr' Hsm ltac:(by rewrite Ei) Hcb Hdl Hnext)
      as (d'&[= <-]&Hle&Hinv).
    rewrite Et in Hres. simpl in Hres.
    destruct (tc_resume_spec tm f d tm' Ht0 Hh) as (Ht'&_&Hn');
      [|rewrite Hn0, Hn; apply Hle|done|].
    { pose proof (from_micros_wf delay delay_u64) as [_ ?]. unfold Duration_wf, from_micros in *.
      lia. }
    split_and!; [by apply Hinv| |done]. unfold in_time. cbn [w_ctx].
    change (outgoing_messages _) with (outgoing_messages c').
    by rewrite (proj2 (repr_no_messages c' [] up' [] Hr')).
  - destruct (delayed_last c0 out up p s Hc0 Hh He Hcap)
      as [(c'&Hall&Hl)|(up'&n&c'&Hall&Hr'&Hk&Hcb)].
    { pose proof (live_at_deadline_det _ 0 _ _ _ Hlive (λ f _, Hall f)) as [= -> ->].
      destruct Hend as [-> ->]. intros Hin. by destruct (Hlate Hl). }
    pose proof (live_at_deadline_det _ _ _ _ _ Hlive Hall) as [= -> ->].
    destruct Hend as [-> ->]. cbn [w_ctx w_proc]. intros _. split_and!; try done.
    + unfold deadlines, callback_deadlines in *. rewrite Hcb, omap_app. simpl. by rewrite app_nil_r.
    + apply He.
    + by exists up'.
Qed.

Lemma delayed_inv_step horizon w w' : delayed_inv w → wstep answerable horizon w w' → delayed_inv w'.
Proof.
  intros Hi Hstep. destruct Hstep as [c c' p dst m r Hdst Hm Hrun|c c' p buf r Hrun|f w w' d Hrun _].
  - destruct Hi as (Hcap&out&up&s&Hc&Hphase). cbn [w_ctx w_proc] in *.
    destruct (client_at_send _ _ _ _ _ _ _ _ _ Hc Hdst Hm Hrun) as (out'&up'&Hc'&(Ecb&En&Ei)&_).
    unfold delayed_inv. cbn [w_ctx w_proc]. rewrite Ei. split; [done|]. exists out', up', s.
    split; [done|]. unfold deadlines in *. by rewrite Ecb, En.
  - destruct Hi as (Hcap&out&up&s&Hc&Hphase). cbn [w_ctx w_proc] in *.
    destruct (client_at_recv _ _ _ _ _ _ _ _ Hc Hrun) as (Hc'&Ecb&En&Ei).
    unfold delayed_inv. cbn [w_ctx w_proc]. rewrite Ei. split; [done|]. exists out, up, s.
    split; [done|]. unfold deadlines in *. by rewrite Ecb, En.
  - by apply (delayed_inv_deadline f w (Some d)) in Hrun as [? _].
Qed.

(** Every deadline returns. *)
Lemma delayed_inv_answers w : delayed_inv w → answers (from_micros delay) w.
Proof.
  intros (Hcap&out&up&s&Hc&Hphase) f tm Hf. destruct w as [c p]. cbn [w_ctx w_proc] in *.
  destruct (Hc) as (Hr&Ht&Hs&Hsm).
  destruct (tc_freeze_spec _ _ _ Ht Hf) as (Hh&Ht0&_&Hn0).
  set (c0 := set_timer_context tm c) in *.
  assert (client_at c0 out up [] s) as Hc0 by (by split_and!).
  destruct Hphase as [(j&Hj&->&Hb&Hn&Hdl)|(He&_)].
  - destruct (delayed_deadline c0 out up _ p Hc0 Hh Hb Hcap)
      as [(c'&Hall&_)|(sent&up'&n&c'&x&p'&->&Hall&Hr'&Hk&Hcb&Hnext)].
    { replace (_ + _)%Z with (Z.of_nat (S (S j)) * slice)%Z by lia. by apply next_u64. }
    { exists 0, EndSimulation. by eexists. }
    exists n, x. eexists. split; [exact Hall|]. destruct Hk as (_&Et&_&Ei&_).
    replace (_ + _)%Z with (Z.of_nat (S (S j)) * slice)%Z in Hnext by lia.
    apply Forall_app in Hsm as [_ Hsm]. apply Forall_app in Hsm as [_ Hsm].
    destruct (delayed_next_inv c0 tm c' p' x _ up' Hj Hr' Hsm ltac:(by rewrite Ei) Hcb Hdl Hnext)
      as (d&->&[Hlo Hhi]&_). cbn [w_ctx]. rewrite Hn0, Hn. split_and!; try done.
    unfold from_micros. lia.
  - destruct (delayed_last c0 out up p s Hc0 Hh He Hcap) as [(c'&Hall&_)|(up'&n&c'&Hall&_)].
    + exists 0, EndSimulation. by eexists.
    + exists n, EndSimulation. by eexists.
Qed.

Lemma delayed_inv_prefix w : delayed_inv w → deadlines (w_ctx w) `prefix_of` schedule.
Proof.
  intros (_&out&up&s&_&[(j&Hj&_&_&_&->)|(_&_&->)]); [|done].
  unfold schedule. apply prefix_app_r. exists (drop (S j) (slices before_last)).
  unfold slices. rewrite <- fmap_drop, <- fmap_app. f_equal.
  rewrite <- (take_drop (S j) (seq 1 before_last)) at 1. f_equal. by rewrite take_seq, Nat.min_l.
Qed.

(** Handling the deadlines that are left delivers the packet. *)
Lemma deadlines_told w w' d :
  delayed_inv w' → callbacks (w_ctx w') = callbacks (w_ctx w) ++ [DeadlineCallback d] →
  deadlines (w_ctx w') = deadlines (w_ctx w) ++ [d] ∧
  drop (length (deadlines (w_ctx w))) schedule = d :: drop (length (deadlines (w_ctx w'))) schedule.
Proof.
  intros Hi Hcb. assert (deadlines (w_ctx w') = deadlines (w_ctx w) ++ [d]) as Hd.
  { unfold deadlines, callback_deadlines. by rewrite Hcb, omap_app. }
  split; [done|]. destruct (delayed_inv_prefix w' Hi) as [k ->]. rewrite drop_app_length, Hd.
  by rewrite <- app_assoc, drop_app_length.
Qed.

Lemma delayed_runs_to_end w :
  delayed_inv w → ready w → in_time w → (from_micros delay ≤ tc_limit)%Z →
  ∃ n w', (∀ k fuel, n ≤ k → n ≤ fuel → handle_deadlines k fuel w = Ret (tt, w')) ∧
    (∃ a, w_proc w' = Draining a) ∧
    callbacks (w_ctx w') = callbacks (w_ctx w) ++
      (DeadlineCallback <$> drop (length (deadlines (w_ctx w))) schedule) ++ [RecvCallback] ∧
    ∃ up', repr (w_ctx w') [] up' [delayed_packet].
Proof.
  remember (drop (length (deadlines (w_ctx w))) schedule) as todo eqn:Htodo.
  revert w Htodo. induction todo as [|d todo IH]; intros w Htodo Hi Hr Hin Hlim;
    destruct (handle_returns _ w (delayed_inv_answers w Hi) Hr Hlim) as (n&o&w1&Hrun&Hr1);
    pose proof (delayed_inv_deadline _ _ _ _ Hi (Hrun n ltac:(lia))) as Hw1;
    (destruct o as [d'|]; [destruct Hw1 as (Hi1&Hin1&Hcb1);
      destruct (deadlines_told w w1 d' Hi1 Hcb1) as [Hd1 Hdrop];
      rewrite <- Htodo in Hdrop; simplify_eq|destruct (Hw1 Hin) as (Hd1&Ha&Hcb1&Hup)]).
  - exists (S n), w1. split_and!; try done.
    intros [|k] fuel ??; [lia|]. simpl. by erewrite bind_run by (apply Hrun; lia).
  - destruct (IH w1) as (n'&w'&Hrun'&Ha&Hcb&Hup); try done; [by apply Hr1|].
    exists (S (max n n')), w'. split_and!; try done.
    + intros [|k] fuel ??; [lia|]. simpl. erewrite bind_run by (apply Hrun; lia).
      apply Hrun'; lia.
    + by rewrite Hcb, Hcb1, <- app_assoc.
  - unfold deadlines, callback_deadlines in Hd1. rewrite Hcb1, omap_app, app_nil_r in Hd1.
    fold (callback_deadlines (callbacks (w_ctx w))) in Hd1. fold (deadlines (w_ctx w)) in Hd1.
    by rewrite Hd1, drop_all in Htodo.
Qed.

Context `{TSL : !TimerStartLaws T}.

(** The first deadline: the slice, or the delay when it is shorter. *)
Definition first_deadline : Duration := from_micros (Z.min slice delay).

Definition delayed_connected (l rest : bytes) (e : io_error) (p : actor_process) : Prop :=
  frame_in (VGoto first_deadline) l ∧
  if (slice <? delay)%Z then rest = [] ∧ e = would_block ∧ delayed_blocked slice p
  else e = eof ∧ delayed_ended (mk_stream rest eof [] []) p.

Lemma delayed_connects :
  ∃ n l rest e p, delayed_connected l rest e p ∧ ∀ fuel, n ≤ fuel →
    connect fuel (send_one_delayed_msg_actor msg slice delay) =
      Ret (mk_stream (l ++ rest) e [] [], p).
Proof.
  destruct (connect_runs (send_one_delayed_msg_actor msg slice delay)
    (λ s p, ∃ l rest e, s = mk_stream (l ++ rest) e [] [] ∧ delayed_connected l rest e p))
    as (n&s&p&(l&rest&e&->&Hp)&Hn).
  - intros a Ha Hc. rewrite send_one_delayed_from.
    destruct (delayed_from_runs slice a Ha Hc slice_u64)
      as (st&a'&d&l&rest&Hruns&Hf&Htx&Hcase).
    exists st, a'. split; [done|]. exists l, rest, (peer_end (turned st a')).
    split; [by rewrite Htx|]. unfold delayed_connected, first_deadline.
    destruct (Z.ltb_spec slice delay).
    + destruct Hcase as (->&->&?&->). rewrite Z.min_l by lia. by split_and!.
    + destruct Hcase as (->&?&->). rewrite Z.min_r by lia. by split_and!.
  - by exists n, l, rest, e, p.
Qed.

Lemma delayed_starts c l rest e p :
  fresh_client c (mk_stream (l ++ rest) e [] []) → delayed_connected l rest e p →
  (from_micros delay ≤ tc_limit)%Z →
  ∃ off c1, begun c first_deadline off c1 ∧ delayed_inv (mk_world c1 p) ∧
    ready (mk_world c1 p) ∧ in_time (mk_world c1 p).
Proof.
  intros Hc [Hf Hp] Hlim. destruct (Hc) as (_&_&_&Hcap&_).
  destruct (start_client c l rest e first_deadline Hc Hf)
    as (off&c1&Hrun&Hready&Hc1&Hn&Hi).
  { unfold first_deadline, from_micros in *. lia. }
  destruct (Hrun) as (_&_&Hcb&_). exists off, c1. split; [done|]. split; [|split; [done|]].
  2: { unfold in_time. cbn [w_ctx]. by rewrite (proj2 (repr_no_messages c1 [] [] [] (proj1 Hc1))). }
  unfold delayed_inv, deadlines. cbn [w_ctx w_proc].
  rewrite Hcb, Hi. split; [done|]. exists [], []. eexists. split; [exact Hc1|].
  destruct (Z.ltb_spec slice delay) as [Hlt|Hge]; unfold first_deadline in *.
  - rewrite Z.min_l in * by lia. destruct Hp as (->&->&Hp). left. exists 0.
    change (Z.of_nat 1) with 1%Z. unfold slices. simpl. rewrite Z.mul_1_l. split_and!; try done.
    + apply before_last_spec. right. lia.
    + change (Z.of_nat 1) with 1%Z. by rewrite Z.mul_1_l.
  - rewrite Z.min_r in * by lia. destruct Hp as (->&Hp). right. split_and!; try done.
    unfold schedule. assert (before_last = 0) as ->; [|done].
    destruct (decide (1 ≤ before_last)) as [[|]%before_last_spec|]; lia.
Qed.
End delayed_world.
