(* ===== verification/Handlers.v ===== *)
(** * Handlers: the deadline handlers of the three timers

    Each timer has its own [deadline_handler] around [Context::at_deadline]:
    the signal handler of [timer/process.rs], the timer callback of
    [timer/qemu/mod.rs] and the function the virtual machine calls in
    [timer/qemukvm/mod.rs].  The argument [alive] says whether the weak
    reference to the context could be upgraded.  The theorems relate them to
    [handle_deadline], on which the guarantees of the context are proved. *)
From S2P Require Import Prelude Std BufferPool BytesBuffer Wire FbBuffer Connector.
From S2P Require Import ConnectorSpec OutputMsgSet WaitfreeArrayQueue Chrono Error LibcTimer.
From S2P Require Import Timer TimerProcess TimerProcessSpec TimerQemu TimerKvm Context.
From S2P Require Import ContextSpec DeadlineSpec HandleDeadline.
From stdpp Require Import base option list numbers.
From Stdlib Require Import ZArith Lia.

Local Open Scope Z_scope.

Section process.
Context {O : Type} {Q : Type → Type} `{FL : FlatBuffersLaws, CL : ChronoLaws}
  `{LC : Libc, PX : !Posix O, LK : !LocalClock O, AQ : ArrayQueueLaws Q}.

Definition Process_deadline_handler (alive : bool) :
    M (Context (ProcessTimer (S := O)) Q) unit :=
  if alive then
    f ← on_timer freeze_time;
    after_deadline ← at_deadline;
    match after_deadline with
    | NextDeadline deadline =>
        r ← on_timer (thaw_time_to_deadline (Some f) deadline); lift (unwrap_ok r)
    | EndSimulation => on_timer (set_stopped true)
    end
  else mret tt.
End process.

Section qemu.
Context {O : Type} {Q : Type → Type} `{FL : FlatBuffersLaws, CL : ChronoLaws}
  `{QM : !Qemu O, AQ : ArrayQueueLaws Q}.

Definition Qemu_deadline_handler (alive : bool) : M (Context (QemuTimer (S := O)) Q) unit :=
  if alive then
    after_deadline ← at_deadline;
    match after_deadline with
    | NextDeadline deadline => on_timer (Qemu_set_next_deadline deadline)
    | EndSimulation => mret tt
    end
  else mret tt.
End qemu.

Section kvm.
Context {O : Type} {Q : Type → Type} `{FL : FlatBuffersLaws, CL : ChronoLaws}
  `{KV : !Kvm O, PR : Profile, AQ : ArrayQueueLaws Q}.

Definition set_guest_tsc (v : Z) (p : KvmTimer (S := O)) : KvmTimer (S := O) :=
  (mk_kvm_timer (k_prev_deadline p.1) (k_next_deadline p.1) v (k_vmx_timer_value p.1)
     (k_tsc_freq p.1) (k_fd p.1) (k_refs p.1), p.2).

(** The result is the length of the slice that begins, in nanoseconds. *)
Definition Kvm_deadline_handler (alive : bool) (guest_tsc : Z) :
    M (Context (KvmTimer (S := O)) Q) Z :=
  _ ← on_timer (modify (set_guest_tsc guest_tsc));
  _ ← (if alive then
         after_deadline ← at_deadline;
         match after_deadline with
         | NextDeadline deadline => on_timer (Kvm_set_next_deadline deadline)
         | EndSimulation => panic ExplicitPanic
         end
       else mret tt);
  next ← on_timer (kfield k_next_deadline);
  prev ← on_timer (kfield k_prev_deadline);
  lift (sub_u64 (as_u64 (as_nanos next)) (as_u64 (as_nanos prev))).
End kvm.

(** ** The handlers and [handle_deadline] *)
Section simulation.
Context {Q : Type → Type} `{FL : FlatBuffersLaws, CL : ChronoLaws, AQ : ArrayQueueLaws Q}.

(** What the handler does once the deadline is handled. *)
Definition conclude {C A} (m : outcome (option Duration * C)) (next : C → outcome (A * C))
    (ended : C → outcome (A * C)) : outcome (A * C) :=
  match m with
  | Ret (Some _, c) => next c
  | Ret (None, c) => ended c
  | Panic e => Panic e
  | OutOfFuel => OutOfFuel
  end.

Lemma Process_handler_eq {O} `{LC : Libc, PX : !Posix O, LK : !LocalClock O, PL : !PosixLaws O}
    (c : Context (ProcessTimer (S := O)) Q) :
  Process_deadline_handler true c =
    conclude (handle_deadline c) (λ c', Ret (tt, c')) (on_timer (set_stopped true)).
Proof.
  unfold Process_deadline_handler, handle_deadline, on_timer, zoom, mbind, M_bind. simpl.
  destruct (freeze_time (timer_context c)) as [[f tm]| |]; [|done..].
  destruct (at_deadline _) as [[[d|] c1]| |]; try done. unfold mbind, M_bind.
  destruct (thaw_time_to_deadline (Some f) d (timer_context c1)) as [[[[]|e] tm']| |]; done.
Qed.

Lemma Qemu_handler_eq {O} `{QM : !Qemu O, QL : !QemuLaws O} (c : Context (QemuTimer (S := O)) Q) :
  Qemu_deadline_handler true c =
    conclude (handle_deadline c) (λ c', Ret (tt, c')) (λ c', Ret (tt, c')).
Proof.
  unfold Qemu_deadline_handler, handle_deadline, on_timer, zoom, mbind, M_bind. simpl.
  assert (set_timer_context (timer_context c) c = c) as -> by (by destruct c).
  destruct (at_deadline c) as [[[d|] c1]| |]; try done. unfold mbind, M_bind.
  destruct (Qemu_set_next_deadline d (timer_context c1)) as [[[] tm']| |]; done.
Qed.

Lemma Kvm_handler_eq {O} `{KV : !Kvm O, PR : Profile} guest_tsc
    (c : Context (KvmTimer (S := O)) Q) :
  Kvm_deadline_handler true guest_tsc c =
    conclude (handle_deadline (set_timer_context (set_guest_tsc guest_tsc (timer_context c)) c))
      (λ c', r ← sub_u64 (as_u64 (k_next_deadline (timer_context c').1))
                         (as_u64 (k_prev_deadline (timer_context c').1)); Ret (r, c'))
      (λ _, Panic ExplicitPanic).
Proof.
  set (c1 := set_timer_context (set_guest_tsc guest_tsc (timer_context c)) c).
  unfold Kvm_deadline_handler, handle_deadline, on_timer, zoom, mbind, M_bind, modify. simpl.
  change (set_timer_context (set_guest_tsc guest_tsc (timer_context c)) c) with c1.
  assert (∀ c : Context (KvmTimer (S := O)) Q, set_timer_context (timer_context c) c = c)
    as Heta by (by intros []).
  change (set_guest_tsc guest_tsc (timer_context c)) with (timer_context c1). rewrite Heta.
  destruct (at_deadline c1) as [[[d|] c2]| |]; try done. unfold mbind, M_bind.
  destruct (Kvm_set_next_deadline d (timer_context c2)) as [[[] tm']| |]; done.
Qed.

(** The handler once the outcome of [at_deadline] is known. *)
Lemma Kvm_handler_run {O} `{KV : !Kvm O, PR : Profile} guest_tsc
    (c c2 : Context (KvmTimer (S := O)) Q) a :
  let tm := set_guest_tsc guest_tsc (timer_context c) in
  at_deadline (set_timer_context tm c) = Ret (a, c2) → timer_context c2 = tm →
  Kvm_deadline_handler true guest_tsc c =
    match a with
    | NextDeadline d =>
        '(_, tm') ← Kvm_set_next_deadline d tm;
        r ← sub_u64 (as_u64 (k_next_deadline tm'.1)) (as_u64 (k_prev_deadline tm'.1));
        Ret (r, set_timer_context tm' c2)
    | EndSimulation => Panic ExplicitPanic
    end.
Proof.
  intros tm Had Et. rewrite Kvm_handler_eq. fold tm. unfold handle_deadline, on_timer.
  unfold zoom, mbind, M_bind. simpl. change (set_timer_context tm (set_timer_context tm c))
    with (set_timer_context tm c).
  rewrite Had. destruct a as [d|]; [|done]. rewrite Et.
  by destruct (Kvm_set_next_deadline d tm) as [[[] tm']| |].
Qed.
End simulation.
