(* ===== verification/Lifetime.v ===== *)
(** * Lifetime: the references to a context

    [Context::new] puts the context behind an [Arc] and registers a weak
    reference with the timer; [vsg_init] hands the strong one to the caller as a
    raw pointer, [vsg_cleanup] takes it back, and a deadline handler upgrades
    the weak one for as long as it runs; that of KVM follows a raw pointer to the
    context before and after.  [process] holds the reference counts
    and the registrations of [timer/process.rs] (the globals [CONTEXT] and
    [INIT]), [timer/qemu/mod.rs] and [timer/qemukvm/mod.rs] (the field
    [context]).  Following a pointer to a context that was freed is
    [Panic DanglingPointer]. *)
From S2P Require Import Prelude Std BufferPool BytesBuffer Wire FbBuffer Connector.
From S2P Require Import OutputMsgSet WaitfreeArrayQueue Chrono Error LibcTimer Timer.
From S2P Require Import TimerProcess TimerQemu TimerKvm Context Handlers.
From stdpp Require Import base option list gmap relations strings.
From Stdlib Require Import ZArith Lia.

Record arc (A : Type) := mk_arc { strong : nat; pointee : A }.
Arguments mk_arc {_} _ _.
Arguments strong {_} _.
Arguments pointee {_} _.

(** Contexts are named by the order of their creation; [destroyed] lists the
    freed ones as their destructor left them. *)
Record process (A : Type) := mk_process {
  arcs : gmap nat (arc A);
  created : nat;
  CONTEXT : option nat;
  INIT : bool;
  timer_contexts : gmap nat nat;
  destroyed : list A;
}.
Arguments mk_process {_} _ _ _ _ _ _.
Arguments arcs {_} _.
Arguments created {_} _.
Arguments CONTEXT {_} _.
Arguments INIT {_} _.
Arguments timer_contexts {_} _.
Arguments destroyed {_} _.

Definition process_init {A} : process A := mk_process ∅ 0 None false ∅ [].

Section references.
Context {A : Type}.
Implicit Types (p : process A) (id : nat).

Definition set_arcs (m : gmap nat (arc A)) p : process A :=
  mk_process m (created p) (CONTEXT p) (INIT p) (timer_contexts p) (destroyed p).

Definition find_arc id : M (process A) (arc A) := λ p,
  match arcs p !! id with Some x => Ret (x, p) | None => Panic DanglingPointer end.

(** [Arc::new] *)
Definition Arc_new (a : A) : M (process A) nat := λ p,
  Ret (created p, mk_process (<[created p := mk_arc 1 a]> (arcs p)) (S (created p)) (CONTEXT p)
    (INIT p) (timer_contexts p) (destroyed p)).

(** [Arc::clone] *)
Definition Arc_clone id : M (process A) unit :=
  x ← find_arc id;
  modify (λ p, set_arcs (<[id := mk_arc (S (strong x)) (pointee x)]> (arcs p)) p).

(** A call through a reference. *)
Definition Arc_run {B} id (m : M A B) : M (process A) B :=
  x ← find_arc id;
  r ← lift (m (pointee x));
  _ ← modify (λ p, set_arcs (<[id := mk_arc (strong x) r.2]> (arcs p)) p);
  mret r.1.

(** Dropping an [Arc]; [destroy] runs the destructor of the last one. *)
Definition Arc_drop (destroy : M A unit) id : M (process A) unit :=
  x ← find_arc id;
  if decide (strong x = 1) then
    r ← lift (destroy (pointee x));
    modify (λ p, mk_process (delete id (arcs p)) (created p) (CONTEXT p) (INIT p)
      (timer_contexts p) (destroyed p ++ [r.2]))
  else modify (λ p, set_arcs (<[id := mk_arc (pred (strong x)) (pointee x)]> (arcs p)) p).

(** [Weak::upgrade]; [Weak::new] is [None]. *)
Definition Weak_upgrade (w : option nat) : M (process A) (option nat) :=
  alive ← gets (λ p, w ≫= λ id, _ ← arcs p !! id; Some id);
  match alive with
  | Some id => _ ← Arc_clone id; mret (Some id)
  | None => mret None
  end.

(** ** Registration *)
Definition single_context : io_error :=
  Custom Other "Implementation only supports a single context".

Definition set_CONTEXT id : M (process A) unit :=
  modify (λ p, mk_process (arcs p) (created p) (Some id) (INIT p) (timer_contexts p) (destroyed p)).

(** [register] of the process timer: [INIT.call_once] runs its closure the
    first time only. *)
Definition Process_register id : M (process A) (result unit io_error) :=
  done ← gets INIT;
  if done : bool then mret (Err single_context)
  else
    _ ← modify (λ p, mk_process (arcs p) (created p) (CONTEXT p) true (timer_contexts p)
                       (destroyed p));
    _ ← set_CONTEXT id;
    mret (Ok tt).

(** The one compiled for the tests. *)
Definition Process_register_test id : M (process A) (result unit io_error) :=
  _ ← set_CONTEXT id; mret (Ok tt).

Definition set_timer_contexts id : M (process A) unit :=
  modify (λ p, mk_process (arcs p) (created p) (CONTEXT p) (INIT p)
    (<[id := id]> (timer_contexts p)) (destroyed p)).
Definition Qemu_register id : M (process A) (result unit io_error) :=
  _ ← set_timer_contexts id; mret (Ok tt).
Definition Kvm_register id : M (process A) (result unit io_error) :=
  _ ← set_timer_contexts id; mret (Ok tt).

(** The timer is chosen when the client is compiled ([timer/mod.rs]); the tests
    use that of a process. *)
Inductive feature := process_feature | process_test | qemu | qemukvm.
Definition register (f : feature) : nat → M (process A) (result unit io_error) :=
  match f with
  | process_feature => Process_register
  | process_test => Process_register_test
  | qemu => Qemu_register
  | qemukvm => Kvm_register
  end.

(** [Context::new] from the construction of the [Arc] on; [new] is the outcome
    of what comes before. *)
Definition Context_create (destroy : M A unit)
    (register : nat → M (process A) (result unit io_error))
    (new : outcome (result A Error)) : M (process A) (result nat Error) :=
  r ← lift new;
  match r with
  | Err e => mret (Err e)
  | Ok context =>
      id ← Arc_new context;
      r ← register id;
      match r with
      | Err e => _ ← Arc_drop destroy id; mret (Err (from e))
      | Ok _ => mret (Ok id)
      end
  end.

(** [vsg_cleanup]; [NULL] is [None]. *)
Definition vsg_cleanup (destroy : M A unit) (context : option nat) : M (process A) unit :=
  match context with
  | Some id => Arc_drop destroy id
  | None => mret tt
  end.

(** A [deadline_handler] around its work: the weak reference [w] is upgraded
    while the handler runs. *)
Definition handler (destroy : M A unit) (w : option nat) (body : M A unit) :
    M (process A) unit :=
  o ← Weak_upgrade w;
  match o with
  | Some id => _ ← Arc_run id body; Arc_drop destroy id
  | None => mret tt
  end.

(** Reading through a raw pointer to a context, as [get_tansiv_timer_fd] does. *)
Definition raw_read {B} (g : A → B) (opaque : nat) : M (process A) B :=
  x ← find_arc opaque; mret (g (pointee x)).

(** A [deadline_handler] up to its work, when the timer of the context [opaque]
    expires: the one of a process upgrades its global, the one of QEMU the
    reference in the timer it is given, which its own count keeps alive, and
    the one of KVM that in the timer of the context it is given. *)
Definition enter (f : feature) (opaque : nat) : M (process A) (option nat) :=
  match f with
  | process_feature | process_test => w ← gets CONTEXT; Weak_upgrade w
  | qemu => w ← gets (λ p, timer_contexts p !! opaque); Weak_upgrade w
  | qemukvm =>
      _ ← raw_read (λ _, tt) opaque;
      w ← gets (λ p, timer_contexts p !! opaque); Weak_upgrade w
  end.

(** And after its work: the reference is dropped; that of KVM then reads the
    deadlines of the context it was given. *)
Definition leave (f : feature) (destroy : M A unit) (opaque id : nat) : M (process A) unit :=
  _ ← Arc_drop destroy id;
  match f with qemukvm => raw_read (λ _, tt) opaque | _ => mret tt end.
End references.

(** The destructors: that of the process timer deletes the timer, those of the
    others drop a reference to the shared timer. *)
Class Destroy (T : Type) := tc_drop : M T unit.
#[export] Instance Process_Destroy {O} `{CH : Chrono, LC : Libc, PX : !Posix O} :
  Destroy (ProcessTimer (S := O)) := Process_drop.
#[export] Instance Qemu_Destroy {O} `{CH : Chrono} : Destroy (QemuTimer (S := O)) :=
  qupdate (λ t, mk_qemu_timer (q_offset t) (q_prev_deadline t) (q_next_deadline t)
                  (q_refs t - 1)%nat).
#[export] Instance Kvm_Destroy {O} : Destroy (KvmTimer (S := O)) :=
  kupdate (λ t, mk_kvm_timer (k_prev_deadline t) (k_next_deadline t) (k_guest_tsc t)
                  (k_vmx_timer_value t) (k_tsc_freq t) (k_fd t) (k_refs t - 1)%nat).

Definition Context_drop {T Q} `{FlatBuffers, !Destroy T} : M (Context T Q) unit :=
  on_timer tc_drop.

(** ** Interleavings

    [held] are the pointers the program owns, one for each call of [vsg_init]
    that succeeded and was not cleaned up; [handling] the references of the
    handlers that run.  Cleaning up and the steps of handlers interleave, and a
    timer may expire at any time. *)
Record life {A} := mk_life { proc : process A; held : list nat; handling : list nat }.
Arguments life _ : clear implicits.
Arguments mk_life {_} _ _ _.

Section interleavings.
Context {A : Type} (destroy : M A unit) (f : feature).
Implicit Types (p : process A) (s : life A).

Inductive life_step : life A → life A → Prop :=
  | life_create new p p' H R r :
      Context_create destroy (register f) new p = Ret (r, p') →
      life_step (mk_life p H R)
        (mk_life p' (match r with Ok id => id :: H | Err _ => H end) R)
  | life_call {B} id (m : M A B) (b : B) p p' H R :
      id ∈ H ++ R → Arc_run id m p = Ret (b, p') →
      life_step (mk_life p H R) (mk_life p' H R)
  | life_cleanup id p p' H1 H2 R :
      vsg_cleanup destroy (Some id) p = Ret (tt, p') →
      life_step (mk_life p (H1 ++ id :: H2) R) (mk_life p' (H1 ++ H2) R)
  | life_signal opaque o p p' H R :
      enter f opaque p = Ret (o, p') →
      life_step (mk_life p H R) (mk_life p' H (option_list o ++ R))
  | life_return id p p' H R1 R2 :
      leave f destroy id id p = Ret (tt, p') →
      life_step (mk_life p H (R1 ++ id :: R2)) (mk_life p' H (R1 ++ R2)).

Definition life_init : life A := mk_life process_init [] [].

(** The references to a context. *)
Definition refs (s : life A) : list nat := held s ++ handling s.

(** What registering leaves alone. *)
Lemma register_frame id p :
  ∃ r p', register f id p = Ret (r, p') ∧
    arcs p' = arcs p ∧ created p' = created p ∧ destroyed p' = destroyed p.
Proof.
  destruct f; [|by eexists _, _..]. unfold register, Process_register, mbind, M_bind, gets.
  destruct (INIT p); by eexists _, _.
Qed.

(** The counts are right, and every context that was created is alive or was
    destroyed. *)
Definition counted (p : process A) (l : list nat) : Prop :=
  (∀ id, strong <$> arcs p !! id =
     match count_occ Nat.eq_dec l id with O => None | n => Some n end) ∧
  size (arcs p) + length (destroyed p) = created p ∧
  (∀ id, is_Some (arcs p !! id) → id < created p).

Lemma counted_perm p l l' : l ≡ₚ l' → counted p l → counted p l'.
Proof.
  intros Hl (Hc&Hs&Hn). split_and!; [|done..]. intros id.
  by rewrite <- (proj1 (Permutation_count_occ Nat.eq_dec l l') Hl id).
Qed.

Lemma counted_alive p l id :
  counted p l → id ∈ l →
  ∃ x, arcs p !! id = Some x ∧ strong x = count_occ Nat.eq_dec l id ∧ 0 < strong x.
Proof.
  intros (Hc&_) Hid. specialize (Hc id).
  apply list_elem_of_In, (count_occ_In Nat.eq_dec) in Hid.
  destruct (arcs p !! id) as [x|], (count_occ Nat.eq_dec l id) as [|n]; simplify_eq/=; [|lia].
  exists x. split_and!; [done..|lia].
Qed.

Lemma counted_dead p l id : counted p l → arcs p !! id = None ↔ id ∉ l.
Proof.
  intros Hc. split.
  - intros Hn Hid. destruct (counted_alive p l id Hc Hid) as (x&?&_). congruence.
  - intros Hid. destruct Hc as (Hc&_). specialize (Hc id).
    rewrite (proj1 (count_occ_not_In Nat.eq_dec l id)) in Hc by (by rewrite <- list_elem_of_In).
    by destruct (arcs p !! id).
Qed.

(** One more or one less reference to a context that stays alive. *)
Lemma counted_set p l l' id x n a :
  counted p l → arcs p !! id = Some x → count_occ Nat.eq_dec l' id = S n →
  (∀ id', id' ≠ id → count_occ Nat.eq_dec l' id' = count_occ Nat.eq_dec l id') →
  counted (set_arcs (<[id := mk_arc (S n) a]> (arcs p)) p) l'.
Proof.
  intros (Hc&Hs&Hn) Hx Hid Hother. split_and!; simpl.
  - intros id'. destruct (decide (id' = id)) as [->|Hne].
    + by rewrite lookup_insert_eq, Hid.
    + rewrite lookup_insert_ne by done. by rewrite Hc, Hother.
  - by rewrite map_size_insert_Some by (by rewrite Hx).
  - intros id' [y Hy]. apply lookup_insert_Some in Hy as [[-> _]|[_ Hy]]; by apply Hn.
Qed.

Lemma find_arc_inv p id x p' :
  find_arc id p = Ret (x, p') → arcs p !! id = Some x ∧ p' = p.
Proof. unfold find_arc. by destruct (arcs p !! id) as [y|]; intros; simplify_eq. Qed.

Lemma Arc_new_counted p l a id p' :
  counted p l → Arc_new a p = Ret (id, p') →
  counted p' (id :: l) ∧ CONTEXT p' = CONTEXT p ∧ INIT p' = INIT p ∧ id = created p.
Proof.
  intros Hc [= <- <-]. split; [|done].
  assert (arcs p !! created p = None) as Hfresh.
  { apply eq_None_not_Some. intros Hs. destruct Hc as (_&_&Hn). specialize (Hn _ Hs). lia. }
  pose proof (proj1 (counted_dead p l _ Hc) Hfresh) as Hnl. destruct Hc as (Hc&Hs&Hn).
  split_and!; simpl.
  - intros id'. destruct (Nat.eq_dec (created p) id') as [<-|Hne].
    + rewrite lookup_insert_eq.
      by rewrite (proj1 (count_occ_not_In Nat.eq_dec l _)) by (by rewrite <- list_elem_of_In).
    + by rewrite lookup_insert_ne.
  - rewrite map_size_insert_None by done. lia.
  - intros id' [y Hy]. apply lookup_insert_Some in Hy as [[<- _]|[_ Hy]]; [lia|].
    apply Nat.lt_lt_succ_r, Hn. by exists y.
Qed.

Lemma Arc_drop_counted p l id p' :
  counted p (id :: l) → Arc_drop destroy id p = Ret (tt, p') →
  counted p' l ∧ CONTEXT p' = CONTEXT p ∧ INIT p' = INIT p.
Proof.
  intros Hc (x&q&[Hx ->]%find_arc_inv&Hrun)%bind_inv.
  destruct (counted_alive p _ id Hc ltac:(by left)) as (y&Hy&Hst&_). simplify_eq.
  rewrite count_occ_cons_eq in Hst by done. destruct (decide (strong x = 1)) as [H1|Hn1].
  - apply bind_inv in Hrun as (r&q&[_ ->]%lift_inv&[= <-]). split; [|done].
    destruct Hc as (Hc&Hs&Hn). split_and!; simpl.
    + intros id'. specialize (Hc id'). destruct (Nat.eq_dec id id') as [<-|Hne].
      * rewrite lookup_delete_eq. assert (count_occ Nat.eq_dec l id = 0) as -> by lia. done.
      * rewrite lookup_delete_ne, Hc by done. by rewrite count_occ_cons_neq.
    + rewrite map_size_delete_Some, length_app by (by rewrite Hx).
      simpl. assert (size (arcs p) ≠ 0); [|lia].
      intros H0%map_size_empty_inv. by rewrite H0, lookup_empty in Hx.
    + intros id' [z [_ Hz]%lookup_delete_Some]. apply Hn. by exists z.
  - injection Hrun as <-. split; [|done]. rewrite Hst. simpl.
    destruct (count_occ Nat.eq_dec l id) as [|n] eqn:Hl; [lia|].
    eapply counted_set; [exact Hc|exact Hx|exact Hl|]. intros id' Hne.
    by rewrite count_occ_cons_neq.
Qed.

Lemma Weak_upgrade_counted p l w o p' :
  counted p l → Weak_upgrade w p = Ret (o, p') →
  counted p' (option_list o ++ l) ∧ CONTEXT p' = CONTEXT p ∧ INIT p' = INIT p ∧
  match o with
  | Some id => w = Some id ∧ id ∈ l
  | None => p' = p ∧ ∀ id, w = Some id → id ∉ l
  end.
Proof.
  intros Hc (alive&q&[-> ->]%gets_inv&Hrun)%bind_inv.
  destruct w as [id|]; simpl in *; [|by injection Hrun as <- <-].
  destruct (arcs p !! id) as [x|] eqn:Hx; simpl in *.
  - apply bind_inv in Hrun as (u&q&Hcl&[= <- <-]).
    apply bind_inv in Hcl as (y&q'&[Hy ->]%find_arc_inv&[= <- <-]). simplify_eq.
    assert (id ∈ l) as Hid.
    { destruct (decide (id ∈ l)) as [|Hn%(counted_dead p l id Hc)]; [done|]. congruence. }
    destruct (counted_alive p l id Hc Hid) as (z&Hz&Hst&_). simplify_eq. split_and!; try done.
    rewrite Hst. apply (counted_set p l (id :: l) id x); [done..| |];
      [by rewrite count_occ_cons_eq|]. intros id' Hne. by rewrite count_occ_cons_neq.
  - injection Hrun as <- <-. split_and!; try done. intros id' [= <-].
    by apply (counted_dead p l id Hc).
Qed.

Lemma Arc_run_counted {B} p l id (m : M A B) b p' :
  counted p l → id ∈ l → Arc_run id m p = Ret (b, p') →
  counted p' l ∧ CONTEXT p' = CONTEXT p ∧ INIT p' = INIT p.
Proof.
  intros Hc Hid (x&q&[Hx ->]%find_arc_inv&Hrun)%bind_inv.
  destruct (counted_alive p l id Hc Hid) as (y&Hy&Hst&Hpos). simplify_eq.
  apply bind_inv in Hrun as (r&q&[_ ->]%lift_inv&Hrun).
  apply bind_inv in Hrun as (u&q&->%modify_inv&[= _ <-]). split; [|done].
  destruct (strong x) as [|n] eqn:Hn; [lia|].
  eapply counted_set; [exact Hc|exact Hx|by rewrite <- Hst|done].
Qed.

Lemma Context_create_counted new p l r p' :
  counted p l → Context_create destroy (register f) new p = Ret (r, p') →
  counted p' (match r with Ok id => id :: l | Err _ => l end).
Proof.
  intros Hc (n&q&[-> ->]%lift_inv&Hrun)%bind_inv.
  destruct n as [a|e]; [|by injection Hrun as <- <-].
  apply bind_inv in Hrun as (id&p1&Hnew&Hrun).
  destruct (Arc_new_counted p l a id p1 Hc Hnew) as (Hc1&_).
  destruct (register_frame id p1) as (r1&p2&Hr1&Ea&Ec&Ed).
  erewrite bind_run in Hrun by exact Hr1.
  assert (counted p2 (id :: l)) as Hc2.
  { destruct Hc1 as (?&?&?). split_and!; by rewrite ?Ea, ?Ec, ?Ed. }
  destruct r1 as [[]|e].
  - by injection Hrun as <- <-.
  - apply bind_inv in Hrun as ([]&p3&Hdrop&[= <- <-]).
    by destruct (Arc_drop_counted p2 l id p3 Hc2 Hdrop).
Qed.

(** Entering and leaving a handler. *)
Lemma raw_read_inv {B} (g : A → B) id p b p' :
  raw_read g id p = Ret (b, p') → p' = p ∧ is_Some (arcs p !! id).
Proof.
  intros (x&q&[Hx ->]%find_arc_inv&[= _ <-])%bind_inv. by rewrite Hx.
Qed.

Lemma enter_inv opaque p o p' :
  enter f opaque p = Ret (o, p') →
  Weak_upgrade (match f with
                | process_feature | process_test => CONTEXT p
                | _ => timer_contexts p !! opaque
                end) p = Ret (o, p') ∧
  (f = qemukvm → is_Some (arcs p !! opaque)).
Proof.
  destruct f; simpl.
  1,2,3: by intros (w&q&[-> ->]%gets_inv&?)%bind_inv.
  intros (u&q&[-> ?]%raw_read_inv&Hrun)%bind_inv.
  apply bind_inv in Hrun as (w&q&[-> ->]%gets_inv&?). by split.
Qed.

Lemma leave_inv opaque id p p' :
  leave f destroy opaque id p = Ret (tt, p') → Arc_drop destroy id p = Ret (tt, p').
Proof.
  intros ([]&q&Hd&Hrun)%bind_inv. rewrite Hd. destruct f; try by injection Hrun as <-.
  by apply raw_read_inv in Hrun as [-> _].
Qed.

Lemma counted_step s s' :
  counted (proc s) (refs s) → life_step s s' → counted (proc s') (refs s').
Proof.
  intros Hc Hstep. unfold refs in *.
  destruct Hstep as [new p p' H R r Hrun|B id m b p p' H R Hid Hrun|id p p' H1 H2 R Hrun|
    q o p p' H R Hrun|id p p' H R1 R2 Hrun]; simpl in *.
  - pose proof (Context_create_counted new p _ r p' Hc Hrun). by destruct r.
  - by destruct (Arc_run_counted p _ id m b p' Hc Hid Hrun).
  - apply (Arc_drop_counted p _ id p'); [|done]. eapply counted_perm; [|exact Hc].
    by rewrite <- Permutation_middle.
  - apply enter_inv in Hrun as [Hrun _].
    destruct (Weak_upgrade_counted p _ _ o p' Hc Hrun) as (Hc'&_).
    eapply counted_perm; [|exact Hc']. apply Permutation_app_swap_app.
  - apply leave_inv in Hrun. apply (Arc_drop_counted p _ id p'); [|done]. eapply counted_perm; [|exact Hc].
    by rewrite !(assoc_L (++)), <- Permutation_middle.
Qed.

Lemma counted_init : counted process_init [].
Proof. split_and!; [done|done|]. intros id [x Hx]. done. Qed.

Lemma counted_reachable s : rtc life_step life_init s → counted (proc s) (refs s).
Proof.
  intros Hs. pose proof counted_init as Hc. change [] with (refs life_init) in Hc.
  change process_init with (proc life_init) in Hc. revert Hc.
  induction Hs as [|x y z Hstep _ IH]; [done|]. intros Hx. by apply IH, (counted_step x).
Qed.
End interleavings.

(** ** Pointers to contexts *)
Section pointers.
Context {A : Type} (destroy : M A unit) (f : feature).
Implicit Types (p : process A) (s : life A) (l : list nat).

Lemma raw_read_counted {B} (g : A → B) p l id :
  counted p l →
  (id ∈ l → ∃ b, raw_read g id p = Ret (b, p)) ∧
  (id ∉ l → raw_read g id p = Panic DanglingPointer).
Proof.
  intros Hc. unfold raw_read, find_arc, mbind, M_bind. split; intros Hid.
  - destruct (counted_alive p l id Hc Hid) as (x&->&_). by eexists.
  - by rewrite (proj2 (counted_dead p l id Hc) Hid).
Qed.

Lemma Weak_upgrade_total w p : ∃ o p', Weak_upgrade w p = Ret (o, p').
Proof.
  unfold Weak_upgrade, mbind, M_bind, gets. destruct w as [id|]; [|by eexists _, _]. simpl.
  destruct (arcs p !! id) as [x|] eqn:Hx; [|by eexists _, _]. simpl.
  unfold Arc_clone, find_arc, mbind, M_bind. rewrite Hx. by eexists _, _.
Qed.

Lemma enter_counted p l opaque :
  counted p l →
  (f = qemukvm ∧ opaque ∉ l → enter f opaque p = Panic DanglingPointer) ∧
  (¬ (f = qemukvm ∧ opaque ∉ l) → ∃ o p', enter f opaque p = Ret (o, p')).
Proof.
  intros Hc. split.
  - intros [-> Hid]. unfold enter, mbind at 1, M_bind at 1.
    by rewrite (proj2 (raw_read_counted _ p l _ Hc) Hid).
  - intros Hf. destruct f; [apply Weak_upgrade_total..|].
    destruct (proj1 (raw_read_counted (λ _, tt) p l opaque Hc)) as ([]&Hr).
    { destruct (decide (opaque ∈ l)); [done|]. naive_solver. }
    unfold enter. erewrite bind_run by exact Hr. apply Weak_upgrade_total.
Qed.

Hypothesis Hdestroy : ∀ a, ∃ a', destroy a = Ret (tt, a').

Lemma Arc_drop_total p l id :
  counted p (id :: l) → ∃ p', Arc_drop destroy id p = Ret (tt, p') ∧ counted p' l.
Proof.
  intros Hc. destruct (counted_alive p _ id Hc ltac:(by left)) as (x&Hx&_).
  assert (∃ p', Arc_drop destroy id p = Ret (tt, p')) as (p'&Hrun).
  { unfold Arc_drop, find_arc, mbind, M_bind, lift. rewrite Hx. simpl.
    destruct (decide (strong x = 1)); [|by eexists].
    destruct (Hdestroy (pointee x)) as (a&->). by eexists. }
  exists p'. split; [done|]. by apply (Arc_drop_counted destroy p l id).
Qed.

Lemma leave_counted p l id :
  counted p (id :: l) →
  (f = qemukvm ∧ id ∉ l → leave f destroy id id p = Panic DanglingPointer) ∧
  (¬ (f = qemukvm ∧ id ∉ l) → ∃ p', leave f destroy id id p = Ret (tt, p')).
Proof.
  intros Hc. destruct (Arc_drop_total p l id Hc) as (p'&Hd&Hc'). unfold leave.
  erewrite bind_run by exact Hd. split.
  - intros [-> Hid]. by apply (raw_read_counted _ p' l).
  - intros Hf. destruct f; [by exists p'..|].
    destruct (proj1 (raw_read_counted (λ _, tt) p' l id Hc')) as ([]&Hr); [|by exists p'].
    destruct (decide (id ∈ l)); [done|]. naive_solver.
Qed.

(** The context that a handler of KVM upgrades is the one it is given. *)
Definition owned p : Prop :=
  ∀ id, is_Some (arcs p !! id) → timer_contexts p !! id = Some id.

Definition narrows p p' : Prop :=
  timer_contexts p' = timer_contexts p ∧ ∀ id, is_Some (arcs p' !! id) → is_Some (arcs p !! id).

Lemma owned_narrows p p' : owned p → narrows p p' → owned p'.
Proof. intros Ho [Ht Ha] id ?%Ha. rewrite Ht. by apply Ho. Qed.

Lemma narrows_set p id x y : arcs p !! id = Some x → narrows p (set_arcs (<[id := y]> (arcs p)) p).
Proof.
  intros Hx. split; [done|]. simpl. intros id' [z Hz].
  apply lookup_insert_Some in Hz as [[-> _]|[_ Hz]]; [by rewrite Hx|by exists z].
Qed.

Lemma Arc_drop_narrows id p p' : Arc_drop destroy id p = Ret (tt, p') → narrows p p'.
Proof.
  intros (x&q&[Hx ->]%find_arc_inv&Hrun)%bind_inv. destruct (decide (strong x = 1)).
  - apply bind_inv in Hrun as (r&q&[_ ->]%lift_inv&[= <-]). split; [done|]. simpl.
    intros id' [z [_ Hz]%lookup_delete_Some]. by exists z.
  - injection Hrun as <-. by eapply narrows_set.
Qed.

Lemma Weak_upgrade_narrows w p o p' : Weak_upgrade w p = Ret (o, p') → narrows p p'.
Proof.
  intros (alive&q&[-> ->]%gets_inv&Hrun)%bind_inv.
  destruct (w ≫= _) as [id|]; [|by injection Hrun as <- <-].
  apply bind_inv in Hrun as (u&q&Hcl&[= <- <-]).
  apply bind_inv in Hcl as (y&q'&[Hy ->]%find_arc_inv&[= <- <-]). by eapply narrows_set.
Qed.

Lemma Arc_run_narrows {B} id (m : M A B) b p p' : Arc_run id m p = Ret (b, p') → narrows p p'.
Proof.
  intros (x&q&[Hx ->]%find_arc_inv&Hrun)%bind_inv.
  apply bind_inv in Hrun as (r&q&[_ ->]%lift_inv&Hrun).
  apply bind_inv in Hrun as (u&q&->%modify_inv&[= _ <-]). by eapply narrows_set.
Qed.

Lemma create_owned new p r p' :
  f = qemukvm → owned p → Context_create destroy (register f) new p = Ret (r, p') → owned p'.
Proof.
  intros -> Ho (n&q&[-> ->]%lift_inv&Hrun)%bind_inv.
  destruct n as [a|e]; injection Hrun as <- <-; [|done].
  intros id [x Hx]. simpl in *. destruct (decide (id = created p)) as [->|Hne].
  - apply lookup_insert_eq.
  - rewrite lookup_insert_ne in Hx by done. rewrite lookup_insert_ne by done. apply Ho. by exists x.
Qed.

Lemma owned_step s s' :
  f = qemukvm → owned (proc s) → life_step destroy f s s' → owned (proc s').
Proof.
  intros Hf Ho Hstep.
  destruct Hstep as [new p p' H R r Hrun|B id m b p p' H R Hid Hrun|id p p' H1 H2 R Hrun|
    q o p p' H R Hrun|id p p' H R1 R2 Hrun]; simpl in *.
  - by eapply create_owned.
  - eapply owned_narrows; [done|by eapply Arc_run_narrows].
  - eapply owned_narrows; [done|by eapply Arc_drop_narrows].
  - apply enter_inv in Hrun as [Hrun _]. eapply owned_narrows; [done|by eapply Weak_upgrade_narrows].
  - apply leave_inv in Hrun. eapply owned_narrows; [done|by eapply Arc_drop_narrows].
Qed.

Lemma enter_own s opaque o p' :
  f = qemukvm → rtc (life_step destroy f) life_init s →
  enter f opaque (proc s) = Ret (o, p') → o = Some opaque.
Proof.
  intros Hf Hs. assert (owned (proc s)) as Ho.
  { assert (owned (proc (life_init (A := A)))) as Hi by (by intros id [x Hx]). revert Hi.
    clear -Hs Hf. induction Hs as [|x y z Hstep _ IH]; [done|]. intros Hx.
    by apply IH, (owned_step x). }
  intros [Hup Ha]%enter_inv. specialize (Ha Hf). rewrite Hf, (Ho _ Ha) in Hup.
  destruct Ha as [x Hx]. apply bind_inv in Hup as (alive&q&[-> ->]%gets_inv&Hup).
  simpl in Hup. rewrite Hx in Hup. simpl in Hup. by apply bind_inv in Hup as (?&?&_&[= <- _]).
Qed.
End pointers.

(** ** One context per process *)
Section single.
Context {A : Type} (destroy : M A unit).
Implicit Types (p : process A) (s : life A) (l : list nat).

(** Every reference is to the context that registered. *)
Definition single p l : Prop :=
  (∀ id, id ∈ l → CONTEXT p = Some id) ∧ (INIT p = false → l = []).

Lemma single_same p p' l l' :
  single p l → CONTEXT p' = CONTEXT p → INIT p' = INIT p → l' ⊆ l → single p' l'.
Proof.
  intros [H1 H2] Ec Ei Hl. unfold single. rewrite Ec, Ei. split; [set_solver|].
  intros Hi. apply list_nil_subseteq. by rewrite <- (H2 Hi).
Qed.

(** Registering a second context fails and frees it. *)
Lemma create_refused c c' p :
  INIT p = true → arcs p !! created p = None → destroy c = Ret (tt, c') →
  Context_create destroy Process_register (Ret (Ok c)) p =
    Ret (Err (IoError single_context),
         mk_process (arcs p) (S (created p)) (CONTEXT p) (INIT p) (timer_contexts p)
           (destroyed p ++ [c'])).
Proof.
  intros Hi Hfresh Hd. destruct p as [m n w i t l]. simpl in *. subst i.
  unfold Context_create, Process_register, Arc_drop, find_arc, mbind, M_bind, lift. simpl.
  rewrite lookup_insert_eq. simpl. rewrite Hd. simpl. by rewrite delete_insert_id.
Qed.

Lemma create_single new p l r p' :
  counted p l → single p l → Context_create destroy Process_register new p = Ret (r, p') →
  single p' (match r with Ok id => id :: l | Err _ => l end).
Proof.
  intros Hc Hs (n&q&[-> ->]%lift_inv&Hrun)%bind_inv.
  destruct n as [a|e]; [|by injection Hrun as <- <-].
  apply bind_inv in Hrun as (id&p1&Hnew&Hrun).
  destruct (Arc_new_counted p l a id p1 Hc Hnew) as (Hc1&Ec&Ei&_).
  unfold Process_register in Hrun. destruct (INIT p1) eqn:Hi.
  - unfold mbind at 1, M_bind at 1 in Hrun. unfold mbind at 1, M_bind at 1, gets in Hrun.
    rewrite Hi in Hrun. simpl in Hrun.
    apply bind_inv in Hrun as ([]&p2&Hdrop&[= <- <-]).
    destruct (Arc_drop_counted destroy p1 l id p2 Hc1 Hdrop) as (_&Ec'&Ei').
    by apply (single_same p _ l); [|congruence..|].
  - unfold mbind at 1, M_bind at 1 in Hrun. unfold mbind at 1, M_bind at 1, gets in Hrun.
    rewrite Hi in Hrun. injection Hrun as <- <-.
    rewrite (proj2 Hs) by congruence. split; [|done]. intros id' [->|[]%elem_of_nil]%elem_of_cons. done.
Qed.

Lemma single_step s s' :
  counted (proc s) (refs s) → single (proc s) (refs s) →
  life_step destroy process_feature s s' → single (proc s') (refs s').
Proof.
  intros Hc Hs Hstep. unfold refs in *.
  destruct Hstep as [new p p' H R r Hrun|B id m b p p' H R Hid Hrun|id p p' H1 H2 R Hrun|
    q o p p' H R Hrun|id p p' H R1 R2 Hrun]; simpl in *.
  - pose proof (create_single new p _ r p' Hc Hs Hrun). by destruct r.
  - destruct (Arc_run_counted p _ id m b p' Hc Hid Hrun) as (_&?&?). by eapply single_same.
  - assert (counted p (id :: (H1 ++ H2) ++ R)) as Hc'.
    { eapply counted_perm; [|exact Hc]. by rewrite <- Permutation_middle. }
    destruct (Arc_drop_counted destroy p _ id p' Hc' Hrun) as (_&?&?).
    eapply single_same; [exact Hs|done..|]. set_solver.
  - destruct (enter_inv process_feature q p o p' Hrun) as [Hup _].
    destruct (Weak_upgrade_counted p _ _ o p' Hc Hup) as (_&?&?&Ho).
    eapply single_same; [exact Hs|done..|]. destruct o as [id|]; [|done].
    destruct Ho as [_ Hid]. set_solver.
  - pose proof (leave_inv destroy process_feature id id p p' Hrun) as Hdrop.
    assert (counted p (id :: H ++ R1 ++ R2)) as Hc'.
    { eapply counted_perm; [|exact Hc]. by rewrite !(assoc_L (++)), <- Permutation_middle. }
    destruct (Arc_drop_counted destroy p _ id p' Hc' Hdrop) as (_&?&?).
    eapply single_same; [exact Hs|done..|]. set_solver.
Qed.

Lemma single_reachable s :
  rtc (life_step destroy process_feature) life_init s → single (proc s) (refs s).
Proof.
  intros Hs. remember life_init as s0 eqn:H0.
  assert (counted (proc s0) (refs s0) ∧ single (proc s0) (refs s0)) as [Hc Hi].
  { subst s0. split; [apply counted_init|]. split; [intros id Hid; set_solver|done]. }
  clear H0. induction Hs as [|x y z Hstep _ IH]; [done|].
  apply IH; [|by apply (single_step x)].
  by eapply counted_step.
Qed.

(** The last reference. *)
Lemma Arc_drop_last p id c c' :
  arcs p !! id = Some (mk_arc 1 c) → destroy c = Ret (tt, c') →
  Arc_drop destroy id p =
    Ret (tt, mk_process (delete id (arcs p)) (created p) (CONTEXT p) (INIT p) (timer_contexts p)
               (destroyed p ++ [c'])).
Proof.
  intros Hx Hd. unfold Arc_drop, find_arc, mbind, M_bind, lift. rewrite Hx. simpl. by rewrite Hd.
Qed.

(** A handler without a context does nothing. *)
Lemma handler_none p w body :
  (∀ id, w = Some id → arcs p !! id = None) → handler destroy w body p = Ret (tt, p).
Proof.
  intros Hw. unfold handler, Weak_upgrade, mbind, M_bind, gets. destruct w as [id|]; [|done].
  simpl. by rewrite Hw.
Qed.
End single.

(** The signal handler of the process timer, with the look-up of its context. *)
Definition Process_deadline_signal {O Q} `{FlatBuffers, Chrono, Libc, !Posix O, !LocalClock O}
    `{!ArrayQueue Q} : M (process (Context (ProcessTimer (S := O)) Q)) unit :=
  w ← gets CONTEXT;
  handler (Context_drop (T := ProcessTimer (S := O))) w (Process_deadline_handler true).
