(* ===== verification/SeqLock.v ===== *)
(** * SeqLock: the sequence lock

    [rust-deps/seq_lock/src/lib.rs].  Any number of threads read and write a
    value of several machine words through a counter that is odd while a write
    is under way.  The model interleaves the atomic accesses to the counter
    with the accesses to the single words of the value, so that a read can see
    a half-written value; the theorems show that it never returns one, that
    writers exclude each other, that no update is lost and that none of the
    assertions fails.  The memory is sequentially consistent. *)
From S2P Require Import Prelude Std.
From stdpp Require Import base option list numbers relations.
From Stdlib Require Import ZArith Lia.

Local Open Scope Z_scope.

Section seq_lock.
Context {W : Type}.

Abbreviation val := (list W).

(** Where a thread is in [read] or [write].  [c] is the [count] it loaded,
    [got] are the words it read so far, [k] the number of words written. *)
Inductive pc :=
  | ReadWait
  | ReadValue (c : Z) (got : val)
  | ReadCheck (c : Z) (value : val)
  | ReadDone (value : val)
  | WriteWait (f : val → val)
  | WriteCas (f : val → val) (c : Z)
  | WriteRead (f : val → val) (c : Z) (got : val)
  | WriteStore (f : val → val) (c : Z) (value : val) (k : nat)
  | WriteExit (f : val → val) (c : Z)
  | WriteDone
  | Panicked.

(** The lock; [log] records the functions of the completed writes, oldest
    first, and has no counterpart in the code. *)
Record lock := mk_lock {
  value : val;
  seq_count : Z;
  log : list (val → val);
}.

(** One access of a thread to the lock. *)
Inductive access : lock → pc → lock → pc → Prop :=
  | read_wait_released l :
      Z.land (seq_count l) 1 = 0 →
      access l ReadWait l (ReadValue (seq_count l) [])
  | read_wait_spin l :
      Z.land (seq_count l) 1 ≠ 0 →
      access l ReadWait l ReadWait
  | read_word l c got w :
      value l !! length got = Some w →
      access l (ReadValue c got) l (ReadValue c (got ++ [w]))
  | read_complete l c got :
      length got = length (value l) →
      access l (ReadValue c got) l (ReadCheck c got)
  | read_check_panic l c v :
      Z.land c 1 ≠ 0 →
      access l (ReadCheck c v) l Panicked
  | read_check_ok l c v :
      Z.land c 1 = 0 → seq_count l = c →
      access l (ReadCheck c v) l (ReadDone v)
  | read_check_retry l c v :
      Z.land c 1 = 0 → seq_count l ≠ c →
      access l (ReadCheck c v) l ReadWait
  | write_wait_released l f :
      Z.land (seq_count l) 1 = 0 →
      access l (WriteWait f) l (WriteCas f (seq_count l))
  | write_wait_spin l f :
      Z.land (seq_count l) 1 ≠ 0 →
      access l (WriteWait f) l (WriteWait f)
  | write_cas_ok l f c :
      seq_count l = c →
      access l (WriteCas f c) (mk_lock (value l) (as_u64 (c + 1)) (log l)) (WriteRead f c [])
  | write_cas_retry l f c :
      seq_count l ≠ c →
      access l (WriteCas f c) l (WriteWait f)
  | write_read_word l f c got w :
      value l !! length got = Some w →
      access l (WriteRead f c got) l (WriteRead f c (got ++ [w]))
  | write_apply l f c got :
      length got = length (value l) →
      access l (WriteRead f c got) l (WriteStore f c (f got) 0)
  | write_store_word l f c v k w :
      v !! k = Some w →
      access l (WriteStore f c v k) (mk_lock (<[k := w]> (value l)) (seq_count l) (log l))
        (WriteStore f c v (S k))
  | write_stored l f c v k :
      k = length v →
      access l (WriteStore f c v k) l (WriteExit f c)
  | write_exit_ok l f c :
      Z.land (seq_count l) 1 = 1 → c + 1 = seq_count l →
      access l (WriteExit f c)
        (mk_lock (value l) (as_u64 (seq_count l + 1)) (log l ++ [f])) WriteDone
  | write_exit_panic l f c :
      Z.land (seq_count l) 1 ≠ 1 ∨ c + 1 ≠ seq_count l →
      access l (WriteExit f c)
        (mk_lock (value l) (as_u64 (seq_count l + 1)) (log l ++ [f])) Panicked.

(** All threads on one lock. *)
Record config := mk_config { the_lock : lock; threads : list pc }.

Inductive sl_step : config → config → Prop :=
  | sl_step_thread l l' ts i p p' :
      ts !! i = Some p → access l p l' p' →
      sl_step (mk_config l ts) (mk_config l' (<[i := p']> ts)).

(** [SeqLock::new], with threads about to call [read] or [write]. *)
Definition SeqLock_new (v : val) : lock := mk_lock v 0 [].
Definition calling (p : pc) : Prop := p = ReadWait ∨ ∃ f, p = WriteWait f.
Definition same_size (v0 : val) (p : pc) : Prop :=
  match p with WriteWait f => ∀ v, length v = length v0 → length (f v) = length v0 | _ => True end.
Definition sl_init (v0 : val) (s : config) : Prop :=
  the_lock s = SeqLock_new v0 ∧ Forall calling (threads s) ∧ Forall (same_size v0) (threads s).

(** The value after the writes [l]. *)
Definition applied (l : list (val → val)) (v0 : val) : val := foldl (λ v f, f v) v0 l.

(** Is the thread between entering and leaving a write? *)
Definition writing (p : pc) : bool :=
  match p with
  | WriteRead _ _ _ | WriteStore _ _ _ _ | WriteExit _ _ => true
  | _ => false
  end.

(** ** The invariant

    [n] is the number of completed writes, [cur] the value they left and [b]
    whether a write is under way. *)
Definition sized (v0 : val) (f : val → val) : Prop :=
  ∀ v, length v = length v0 → length (f v) = length v0.

(** What the writer that owns the lock has done so far. *)
Definition writer_ok (v0 : val) (n : Z) (cur v : val) (p : pc) : Prop :=
  match p with
  | WriteRead f c got => sized v0 f ∧ c = 2 * n ∧ v = cur ∧ got = take (length got) cur
  | WriteStore f c w k =>
      sized v0 f ∧ c = 2 * n ∧ w = f cur ∧ (k ≤ length w)%nat ∧ v = take k w ++ drop k cur
  | WriteExit f c => sized v0 f ∧ c = 2 * n ∧ v = f cur
  | _ => False
  end.

(** What is known of any other thread: words read under a count that is
    still the current one are words of the current value. *)
Definition thread_ok (v0 : val) (n : Z) (cur : val) (lg : list (val → val)) (b : bool)
    (p : pc) : Prop :=
  match p with
  | ReadValue c got =>
      c mod 2 = 0 ∧ c ≤ 2 * n ∧ (c = 2 * n → b = false → got = take (length got) cur)
  | ReadCheck c v => c mod 2 = 0 ∧ c ≤ 2 * n ∧ (c = 2 * n → b = false → v = cur)
  | ReadDone v => ∃ k, v = applied (take k lg) v0
  | WriteWait f => sized v0 f
  | WriteCas f c => sized v0 f ∧ c mod 2 = 0
  | Panicked => False
  | _ => True
  end.

Definition sl_inv (v0 : val) (s : config) : Prop :=
  let l := the_lock s in
  let n := Z.of_nat (length (log l)) in
  let cur := applied (log l) v0 in
  length cur = length v0 ∧ length (value l) = length v0 ∧
  ∃ b : bool, seq_count l = 2 * n + (if b then 1 else 0) ∧
    (∀ i p, threads s !! i = Some p → thread_ok v0 n cur (log l) b p) ∧
    if b then
      ∃ i p, threads s !! i = Some p ∧ writer_ok v0 n cur (value l) p ∧
        ∀ j q, threads s !! j = Some q → writing q = true → j = i
    else value l = cur ∧ ∀ i p, threads s !! i = Some p → writing p = false.

Lemma land_1 z : Z.land z 1 = z mod 2.
Proof. change 1 with (Z.ones 1). rewrite Z.land_ones by lia. done. Qed.

Lemma writer_writing v0 n cur v p : writer_ok v0 n cur v p → writing p = true.
Proof. by destruct p. Qed.

Lemma sl_inv_init v0 s : sl_init v0 s → sl_inv v0 s.
Proof.
  intros (Hl&Hc&Hs). unfold sl_inv. rewrite Hl. simpl. split_and!; [done..|].
  rewrite Forall_lookup in Hc, Hs. exists false. split_and!; [done| |done|].
  - intros i p Hp. specialize (Hs i p Hp). destruct (Hc i p Hp) as [->|[f ->]]; [done|exact Hs].
  - intros i p Hp. by destruct (Hc i p Hp) as [->|[f ->]].
Qed.

(** A thread that is not writing, before and after its step. *)
Lemma sl_inv_reader v0 l ts i p p' :
  sl_inv v0 (mk_config l ts) → ts !! i = Some p → writing p = false → writing p' = false →
  (∀ b : bool, seq_count l = 2 * Z.of_nat (length (log l)) + (if b then 1 else 0) →
    (b = false → value l = applied (log l) v0) →
    thread_ok v0 (Z.of_nat (length (log l))) (applied (log l) v0) (log l) b p →
    thread_ok v0 (Z.of_nat (length (log l))) (applied (log l) v0) (log l) b p') →
  sl_inv v0 (mk_config l (<[i := p']> ts)).
Proof.
  intros (Hcur&Hval&b&Hc&Ht&Hb) Hi Hp Hp' Hok. simpl in *. split_and!; [done..|].
  exists b. simpl. split_and!; [done| |].
  - intros j q [(<-&->&_)|[_ Hq]]%list_lookup_insert_Some; [|by eapply Ht].
    apply Hok; [done| |by eapply Ht]. destruct b; [done|]. by destruct Hb.
  - destruct b.
    + destruct Hb as (k&q&Hk&Hw&Huniq). exists k, q.
      assert (k ≠ i) by (intros ->; apply writer_writing in Hw; congruence).
      rewrite list_lookup_insert_ne by done. split_and!; [done..|].
      intros j r [(<-&->&_)|[_ Hr]]%list_lookup_insert_Some ?; [congruence|by eapply Huniq].
    + destruct Hb as [? Hb]. split; [done|].
      by intros j q [(<-&->&_)|[_ Hq]]%list_lookup_insert_Some; [|eapply Hb].
Qed.

(** A step of the writer that owns the lock, short of leaving it. *)
Lemma sl_inv_writer v0 l ts i p p' v' :
  sl_inv v0 (mk_config l ts) → ts !! i = Some p → writing p = true → writing p' = true →
  (∀ cur, cur = applied (log l) v0 → length cur = length v0 →
    writer_ok v0 (Z.of_nat (length (log l))) cur (value l) p →
    writer_ok v0 (Z.of_nat (length (log l))) cur v' p' ∧ length v' = length v0) →
  sl_inv v0 (mk_config (mk_lock v' (seq_count l) (log l)) (<[i := p']> ts)).
Proof.
  intros (Hcur&Hval&b&Hc&Ht&Hb) Hi Hp Hp' Hok. simpl in *.
  destruct b; [|by destruct Hb as [_ Hb]; specialize (Hb _ _ Hi); congruence].
  destruct Hb as (k&q&Hk&Hw&Huniq). assert (i = k) as -> by (by eapply Huniq).
  simplify_eq. destruct (Hok _ eq_refl Hcur Hw) as [Hw' Hl]. split_and!; [done..|].
  exists true. simpl. split_and!; [done| |].
  - intros j r [(<-&<-&_)|[_ Hr]]%list_lookup_insert_Some; [by destruct p'|by eapply Ht].
  - exists k, p'. rewrite list_lookup_insert_eq by (by eapply lookup_lt_Some).
    split_and!; [done..|].
    intros j r [(<-&->&_)|[_ Hr]]%list_lookup_insert_Some ?; [done|by eapply Huniq].
Qed.

(** Entering a write: only one thread can swap an even count. *)
Lemma sl_inv_enter v0 l ts i f :
  Z.of_nat (length (log l)) < 2 ^ 63 →
  sl_inv v0 (mk_config l ts) → ts !! i = Some (WriteCas f (seq_count l)) →
  sl_inv v0 (mk_config (mk_lock (value l) (as_u64 (seq_count l + 1)) (log l))
               (<[i := WriteRead f (seq_count l) []]> ts)).
Proof.
  intros Hn (Hcur&Hval&b&Hc&Ht&Hb) Hi. simpl in *.
  destruct (Ht _ _ Hi) as [Hf Heven]. destruct b.
  { rewrite Hc, Z.mul_comm, Z.add_comm, Z.mod_add in Heven by lia. done. }
  destruct Hb as [Hv Hnone]. split_and!; [done..|]. exists true. simpl. split_and!.
  - rewrite Hc, as_u64_id by (unfold in_u64, u64_max; lia). lia.
  - intros j q [(<-&<-&_)|[_ Hq]]%list_lookup_insert_Some; [done|].
    specialize (Ht _ _ Hq). destruct q; simpl in *; try done;
      by destruct Ht as (?&?&_).
  - eexists i, _. rewrite list_lookup_insert_eq by (by eapply lookup_lt_Some).
    split_and!; [done| |].
    + simpl. split_and!; [done|lia|done|done].
    + intros j q [(<-&<-&_)|[_ Hq]]%list_lookup_insert_Some ?; [done|].
      specialize (Hnone _ _ Hq). congruence.
Qed.

(** Leaving a write: the count is the one the writer made odd, so the
    assertions hold, and the value is the new current one. *)
Lemma sl_inv_exit v0 l ts i f c :
  Z.of_nat (S (length (log l))) < 2 ^ 63 →
  sl_inv v0 (mk_config l ts) → ts !! i = Some (WriteExit f c) →
  Z.land (seq_count l) 1 = 1 ∧ c + 1 = seq_count l ∧
  sl_inv v0 (mk_config (mk_lock (value l) (as_u64 (seq_count l + 1)) (log l ++ [f]))
               (<[i := WriteDone]> ts)).
Proof.
  intros Hn (Hcur&Hval&b&Hc&Ht&Hb) Hi. simpl in *.
  destruct b; [|by destruct Hb as [_ Hb]; specialize (Hb _ _ Hi)].
  destruct Hb as (k&q&Hk&Hw&Huniq). assert (i = k) as -> by (by eapply Huniq).
  simplify_eq. destruct Hw as (Hf&->&Hv).
  rewrite land_1, Hc, Z.mul_comm, Z.add_comm, Z.mod_add by lia. split_and!; [done|lia|].
  unfold sl_inv. simpl. unfold applied. rewrite foldl_app, length_app. simpl.
  fold (applied (log l) v0). split_and!; [by apply Hf|done|].
  exists false. split_and!.
  - rewrite as_u64_id by (unfold in_u64, u64_max; lia). lia.
  - intros j r [(<-&<-&_)|[_ Hr]]%list_lookup_insert_Some; [done|].
    specialize (Ht _ _ Hr). destruct r; simpl in *; try done.
    + destruct Ht as (?&?&_). split_and!; [done|lia|lia].
    + destruct Ht as (?&?&_). split_and!; [done|lia|lia].
    + destruct Ht as [m ->]. exists (m `min` length (log l))%nat.
      rewrite take_app_le by lia. by rewrite <- take_take, (take_ge (log l) (length _)).
  - done.
  - intros j r [(<-&<-&_)|[Hne Hr]]%list_lookup_insert_Some; [done|].
    destruct (writing r) eqn:Hw; [|done]. by destruct Hne; symmetry; eapply Huniq.
Qed.

Lemma take_snoc_lookup (l : val) k w :
  l !! k = Some w → take k l ++ [w] = take (S k) l.
Proof. intros. by rewrite (take_S_r l k w). Qed.

(** Storing one more word of [v] over a value whose first [k] words are
    those of [v]. *)
Lemma overwrite_next (v cur : val) k w :
  length v = length cur → v !! k = Some w →
  <[k := w]> (take k v ++ drop k cur) = take (S k) v ++ drop (S k) cur.
Proof.
  intros Hlen Hw. pose proof (lookup_lt_Some _ _ _ Hw).
  rewrite insert_app_r_alt by (rewrite length_take; lia).
  rewrite length_take, Nat.min_l, Nat.sub_diag by lia.
  rewrite <- (take_snoc_lookup _ _ w), <- app_assoc by done. f_equal.
  destruct (lookup_lt_is_Some_2 cur k) as [w' Hw']; [lia|]. by rewrite (drop_S _ _ _ Hw').
Qed.

(** The next word of a read that has so far read words of [cur]. *)
Lemma read_next (cur got : val) w :
  got = take (length got) cur → cur !! length got = Some w →
  got ++ [w] = take (length (got ++ [w])) cur.
Proof.
  intros Hgot Hw. rewrite length_app, Nat.add_1_r, <- (take_snoc_lookup _ _ w) by done.
  by f_equal.
Qed.

(** Number of completed writes. *)
Definition writes (s : config) : Z := Z.of_nat (length (log (the_lock s))).

Lemma sl_step_writes s s' : sl_step s s' → writes s ≤ writes s'.
Proof.
  intros [l l' ts i p p' _ Ha]. unfold writes. simpl.
  destruct Ha; simpl; rewrite ?length_app; simpl; lia.
Qed.

Lemma sl_inv_step v0 s s' :
  writes s' < 2 ^ 63 → sl_inv v0 s → sl_step s s' → sl_inv v0 s'.
Proof.
  intros Hn Hinv Hstep. pose proof (sl_step_writes _ _ Hstep) as Hle.
  destruct Hstep as [l l' ts i p p' Hi Ha]. unfold writes in *. simpl in *.
  destruct Ha as [l He|l He|l c got w Hw|l c got Hl|l c v He|l c v He Hc|l c v He Hc|l f He|l f He
    |l f c Hc|l f c Hc|l f c got w Hw|l f c got Hl|l f c v k w Hw|l f c v k Hk|l f c He Hc
    |l f c He].
  (* reading *)
  - eapply sl_inv_reader; [done..|]. intros b Hc Hb _. rewrite land_1 in He.
    simpl. split_and!; [done| |done]. destruct b; [|lia].
    rewrite Hc, Z.mul_comm, Z.add_comm, Z.mod_add in He by lia. done.
  - eapply sl_inv_reader; try done.
  - eapply sl_inv_reader; [done..|]. intros b Hc Hb (?&?&Hgot). simpl. split_and!; [done..|].
    intros Heq ->. rewrite Hb in Hw by done. apply read_next; auto.
  - eapply sl_inv_reader; [done..|]. intros b Hc Hb (?&?&Hgot). simpl. split_and!; [done..|].
    intros Heq ->. rewrite Hgot by done. rewrite take_ge; [done|]. rewrite Hl, Hb; done.
  - destruct Hinv as (_&_&b&_&Ht&_). destruct (Ht _ _ Hi) as (Heven&_).
    by rewrite land_1 in He.
  - eapply sl_inv_reader; [done..|]. intros b Hs Hb (?&?&Hv). simpl.
    exists (length (log l)). rewrite firstn_all. apply Hv; [|destruct b; [|done]].
    + destruct b; [lia|]. lia.
    + lia.
  - eapply sl_inv_reader; try done.
  (* writing *)
  - eapply sl_inv_reader; [done..|]. intros b Hc Hb Hf. rewrite land_1 in He. done.
  - eapply sl_inv_reader; try done.
  - subst c. by apply sl_inv_enter.
  - eapply sl_inv_reader; [done..|]. by intros b _ _ [Hf _].
  - destruct l as [v c' lg]. eapply (sl_inv_writer v0 (mk_lock v c' lg)); [done..|].
    simpl in *. intros cur -> Hlen (?&->&->&Hgot). split; [|done]. split_and!; [done..|].
    by apply read_next.
  - destruct l as [v c' lg]. eapply (sl_inv_writer v0 (mk_lock v c' lg)); [done..|].
    simpl in *. intros cur -> Hlen (?&->&->&Hgot). split; [|done].
    split_and!; [done|done| |lia|done].
    rewrite Hgot. by rewrite take_ge by lia.
  - eapply sl_inv_writer; [done..|]. simpl. intros cur _ Hlen (Hf&->&->&Hk&->).
    pose proof (lookup_lt_Some _ _ _ Hw). pose proof (Hf cur Hlen).
    rewrite (overwrite_next _ _ _ w) by (done || lia).
    split; [split_and!; [done..|lia|done]|]. rewrite length_app, length_take, length_drop. lia.
  - destruct l as [v' c' lg]. eapply (sl_inv_writer v0 (mk_lock v' c' lg)); [done..|].
    simpl in *. intros cur _ Hlen (Hf&->&->&_&->). subst k.
    rewrite take_ge, drop_ge, app_nil_r by (rewrite ?Hf by done; lia).
    split; [done|]. by apply Hf.
  - simpl in Hn. rewrite length_app in Hn. simpl in Hn. eapply sl_inv_exit; [lia|done..].
  - simpl in Hn. rewrite length_app in Hn. simpl in Hn.
    destruct (sl_inv_exit v0 l ts i f c ltac:(lia) Hinv Hi) as (?&?&_). tauto.
Qed.

Lemma sl_inv_reachable v0 s0 s :
  sl_init v0 s0 → rtc sl_step s0 s → writes s < 2 ^ 63 → sl_inv v0 s.
Proof.
  intros Hi%sl_inv_init Hs. induction Hs as [|s0 s1 s Hstep Hs IH]; intros Hn; [done|].
  apply IH; [|done]. eapply sl_inv_step; [|done|done].
  clear -Hs Hn. induction Hs as [|??? Hst _ IH]; [done|].
  apply sl_step_writes in Hst. lia.
Qed.
End seq_lock.
Arguments pc : clear implicits.
Arguments lock : clear implicits.
Arguments config : clear implicits.
