(* ===== verification/SlotScan.v ===== *)
(** * SlotScan: why a scan for a free slot succeeds

    [BufferPool::allocate_buffer] and [OutputMsgSet::insert] both claim a slot
    by testing and setting the busy flags in order.  Other threads take and
    release slots during the scan, so that finding each slot busy at its turn
    does not mean that all were busy at once.  The counting invariant here
    shows that the scan still succeeds whenever the slots are at least as many
    as the parties that can hold or look for one: no more than [N - i] parties
    are at position [i] or beyond. *)
From stdpp Require Import base option list numbers.
From Stdlib Require Import Lia.

(** The positions of the parties: the slot a party holds or looks at. *)
Definition beyond (i : nat) (o : option nat) : bool :=
  match o with Some j => i <=? j | None => false end.

Definition at_least (i : nat) (ps : list (option nat)) : nat :=
  length (List.filter (beyond i) ps).

Definition scan_inv (N : nat) (ps : list (option nat)) : Prop :=
  ∀ i, i ≤ N → at_least i ps ≤ N - i.

#[local] Arguments beyond : simpl never.

Lemma beyond_Some i j : beyond i (Some j) = (i <=? j).
Proof. done. Qed.

Lemma at_least_insert i ps t o o' :
  ps !! t = Some o →
  at_least i (<[t := o']> ps) + Nat.b2n (beyond i o) = at_least i ps + Nat.b2n (beyond i o').
Proof.
  intros Ht. unfold at_least. rewrite <- (take_drop_middle ps t o Ht) at 2.
  rewrite insert_take_drop by (by eapply lookup_lt_Some).
  rewrite !List.filter_app, !length_app. simpl.
  destruct (beyond i o), (beyond i o'); simpl; lia.
Qed.

Lemma at_least_length i ps : at_least i ps ≤ length ps.
Proof.
  unfold at_least. induction ps as [|o ps IH]; simpl; [lia|]. destruct (beyond i o); simpl; lia.
Qed.

Lemma beyond_S i o : beyond (S i) o = true → beyond i o = true.
Proof.
  destruct o as [j|]; [|done]. rewrite !beyond_Some, !Nat.leb_le. lia.
Qed.

Lemma at_least_mono i ps : at_least (S i) ps ≤ at_least i ps.
Proof.
  unfold at_least. induction ps as [|o ps IH]; simpl; [lia|].
  destruct (beyond (S i) o) eqn:Ho; [rewrite beyond_S by done; simpl; lia|].
  destruct (beyond i o); simpl; lia.
Qed.

(** A party exactly at [i] separates the two counts. *)
Lemma at_least_S i ps u :
  ps !! u = Some (Some i) → at_least (S i) ps < at_least i ps.
Proof.
  intros Hu. pose proof (at_least_insert i ps u _ None Hu) as H1.
  pose proof (at_least_insert (S i) ps u _ None Hu) as H2.
  rewrite !beyond_Some in *. rewrite (proj2 (Nat.leb_le i i)) in H1 by lia.
  rewrite (proj2 (Nat.leb_gt (S i) i)) in H2 by lia. simpl in *.
  pose proof (at_least_mono i (<[u := None]> ps)). unfold beyond in *. simpl in *. lia.
Qed.

Section scan.
Context (N : nat).
Implicit Types ps : list (option nat).

Lemma scan_inv_start ps t o :
  length ps ≤ N → ps !! t = Some o → scan_inv N ps → scan_inv N (<[t := Some 0]> ps).
Proof.
  intros Hlen Ht Hi [|i] HiN.
  - pose proof (at_least_length 0 (<[t := Some 0]> ps)) as Hl. rewrite length_insert in Hl. lia.
  - pose proof (at_least_insert (S i) ps t o (Some 0) Ht) as He. specialize (Hi _ HiN).
    rewrite beyond_Some in He. simpl in He. lia.
Qed.

(** The slot looked at was busy: someone else is at that position. *)
Lemma scan_inv_advance ps t u k :
  ps !! t = Some (Some k) → ps !! u = Some (Some k) → u ≠ t → k < N →
  scan_inv N ps → scan_inv N (<[t := Some (S k)]> ps).
Proof.
  intros Ht Hu Hne Hk Hi i HiN.
  pose proof (at_least_insert i ps t _ (Some (S k)) Ht) as He. rewrite !beyond_Some in He.
  destruct (decide (i = S k)) as [->|].
  - assert (<[t := Some (S k)]> ps !! u = Some (Some k)) as Hu'
      by (by rewrite list_lookup_insert_ne).
    pose proof (at_least_S k _ u Hu').
    pose proof (at_least_insert k ps t _ (Some (S k)) Ht) as He'. rewrite !beyond_Some in He'.
    rewrite (proj2 (Nat.leb_le k k)), (proj2 (Nat.leb_le k (S k))) in He' by lia.
    specialize (Hi k). lia.
  - specialize (Hi i HiN).
    destruct (Nat.leb_spec i k), (Nat.leb_spec i (S k)); simpl in He; lia.
Qed.

Lemma scan_inv_leave ps t o : ps !! t = Some o → scan_inv N ps → scan_inv N (<[t := None]> ps).
Proof.
  intros Ht Hi i HiN. pose proof (at_least_insert i ps t o None Ht). specialize (Hi i HiN).
  unfold beyond in *. simpl in *. lia.
Qed.

(** No party gets past the last slot. *)
Lemma scan_inv_bound ps t k : scan_inv N ps → ps !! t = Some (Some k) → k < N.
Proof.
  intros Hi Ht. destruct (decide (k < N)) as [|Hk]; [done|].
  pose proof (at_least_insert N ps t _ None Ht) as He. rewrite beyond_Some in He.
  rewrite (proj2 (Nat.leb_le N k)) in He by lia. unfold beyond in He. simpl in He.
  specialize (Hi N). lia.
Qed.
End scan.
