(* ===== verification/BufferPoolConc.v ===== *)
(** * BufferPoolConc: concurrent use of a buffer pool

    Threads allocate, use and free buffers of one pool.  A step is one access
    to the shared pool, a call of the definitions of [BufferPool]: a swap of a
    busy flag, the reset of a claimed slot, a write through a buffer, a
    release.  In every interleaving a slot has one owner, an owner reads what
    it wrote, and an allocation cannot fail while the slots are as many as the
    threads. *)
From S2P Require Import Prelude Std BufferPool SlotScan.
From stdpp Require Import base option list numbers relations.
From Stdlib Require Import ZArith Lia.

Section pool_conc.
Context {T Array Content : Type} `{InnerBufferLaws T Array Content}.
Implicit Types (p : InnerBufferPool Array) (b : Buffer T).

(** A thread: idle, in the scan of [allocate_buffer] at slot [i], about to
    reset the slot it claimed, holding a buffer with content [c], or
    returned from an allocation with [NoBufferAvailable]. *)
Inductive pool_thread :=
  | PIdle
  | PScan (size i : nat)
  | PReset (b : Buffer T)
  | PHold (b : Buffer T) (c : Content)
  | PFailed.

Inductive pool_access :
    InnerBufferPool Array → pool_thread → InnerBufferPool Array → pool_thread → Prop :=
  | pool_call p size :
      size ≤ buffer_size p →
      pool_access p PIdle p (PScan size 0)
  | pool_claim p p' size i :
      swap_busy i p = Ret (false, p') →
      pool_access p (PScan size i) p' (PReset (mk_buffer i (ib_new i size)))
  | pool_next p p' size i :
      swap_busy i p = Ret (true, p') →
      pool_access p (PScan size i) p' (PScan size (S i))
  | pool_exhausted p size i :
      length (buffer_busy p) ≤ i →
      pool_access p (PScan size i) p PFailed
  | pool_reset p p' b c :
      reset_inner (inner b) (index b) p = Ret (tt, p') →
      ib_get (inner b) p' (index b) = Ret c →
      pool_access p (PReset b) p' (PHold b c)
  | pool_write p p' b c c' :
      ib_ok (inner b) c' →
      Buffer_deref_mut b (modify (λ _, c')) p = Ret (tt, p') →
      pool_access p (PHold b c) p' (PHold b c')
  | pool_free p p' b c :
      Buffer_drop b p = Ret (tt, p') →
      pool_access p (PHold b c) p' PIdle
  | pool_again p :
      pool_access p PFailed p PIdle.

Record pool_config := mk_pool_config {
  pc_pool : InnerBufferPool Array;
  pc_threads : list pool_thread;
}.

Inductive pool_step : pool_config → pool_config → Prop :=
  | pool_step_thread p p' ts t q q' :
      ts !! t = Some q → pool_access p q p' q' →
      pool_step (mk_pool_config p ts) (mk_pool_config p' (<[t := q']> ts)).

(** The buffer a thread owns, and the slot it owns or looks at. *)
Definition owned (q : pool_thread) : option (Buffer T) :=
  match q with PReset b | PHold b _ => Some b | _ => None end.
Definition position (q : pool_thread) : option nat :=
  match q with
  | PScan _ i => Some i
  | PReset b | PHold b _ => Some (index b)
  | _ => None
  end.
Definition live (ts : list pool_thread) : list (Buffer T) := omap owned ts.

Definition pool_conc_inv (s : pool_config) : Prop :=
  let p := pc_pool s in let ts := pc_threads s in
  pool_inv p (live ts) ∧
  (∀ t b c, ts !! t = Some (PHold b c) → ib_get (inner b) p (index b) = Ret c) ∧
  (∀ t size i, ts !! t = Some (PScan size i) → size ≤ buffer_size p).

(** Claiming a free slot, before its reset. *)
Lemma claim_inv p (L : list (Buffer T)) i size :
  pool_inv p L → size ≤ buffer_size p → buffer_busy p !! i = Some false →
  pool_inv (set_busy (<[i := true]> (buffer_busy p)) p) (mk_buffer i (ib_new i size) :: L).
Proof.
  intros (Hwf&Hnd&Hb&Hf) Hs Hi. pose proof (lookup_lt_Some _ _ _ Hi) as Hlt.
  split_and!.
  - apply ib_wf_busy; [done|apply length_insert].
  - simpl. constructor; [|done]. intros ?%Hb. congruence.
  - intros j. simpl. rewrite elem_of_cons, <- Hb. destruct (decide (j = i)) as [->|].
    + rewrite list_lookup_insert_eq by done. tauto.
    + rewrite list_lookup_insert_ne by done. tauto.
  - constructor; [|done]. by apply ib_new_fits.
Qed.

(** Resetting the slot of a live buffer. *)
Lemma reset_inv p p' b (L : list (Buffer T)) :
  pool_inv p (b :: L) → reset_inner (inner b) (index b) p = Ret (tt, p') →
  pool_inv p' (b :: L) ∧ same_contents L p p' ∧ buffer_size p' = buffer_size p.
Proof.
  intros Hp Hr. destruct (Hp) as (Hwf&Hnd&Hb&Hf).
  apply Forall_cons in Hf as [Hfb HfL]. apply NoDup_cons in Hnd as [Hni _].
  assert (index b < length (buffer_busy p)) as Hlt by (eapply pool_inv_lt; [done|left]).
  destruct (ib_reset_spec (inner b) p (index b) Hwf Hfb Hlt) as (a&c&Hra&Hwf'&_&_&_&Hfr).
  unfold reset_inner in Hr. rewrite Hra in Hr. simplify_eq/=.
  split_and!; [destruct Hp as (_&?&?&?); by split_and!| |done].
  intros b' Hin. apply Hfr; [by eapply Forall_forall in HfL| |].
  - eapply pool_inv_lt; [done|by right].
  - intros Hi. apply Hni. rewrite <- Hi. by apply list_elem_of_fmap_2.
Qed.

(** One thread acts and the others keep their buffers. *)
Lemma pool_conc_update p p' ts t q q' :
  pool_conc_inv (mk_pool_config p ts) → ts !! t = Some q →
  (∀ L, pool_inv p (option_list (owned q) ++ L) →
    pool_inv p' (option_list (owned q') ++ L) ∧ same_contents L p p' ∧
    buffer_size p' = buffer_size p) →
  (∀ b c, q' = PHold b c → ib_get (inner b) p' (index b) = Ret c) →
  (∀ size i, q' = PScan size i → size ≤ buffer_size p) →
  pool_conc_inv (mk_pool_config p' (<[t := q']> ts)).
Proof.
  intros (Hp&Hh&Hs) Ht Hstep Hhold Hscan. simpl in *.
  destruct (omap_insert_perm owned ts t q q' Ht) as (L&HL&HL'&Hin).
  destruct (Hstep L) as (Hp'&Hc&Hbs); [by eapply pool_inv_perm|].
  split_and!; simpl.
  - by eapply pool_inv_perm; [symmetry|].
  - intros t' b c [(<-&Hq&_)|[Hne Hq]]%list_lookup_insert_Some; [by apply Hhold|].
    rewrite Hc; [by eapply Hh|]. apply (Hin t'); [done|]. by rewrite Hq.
  - intros t' size i [(<-&Hq&_)|[Hne Hq]]%list_lookup_insert_Some; rewrite Hbs;
      [by eapply Hscan|by eapply Hs].
Qed.

Lemma swap_busy_inv i p old p' :
  swap_busy i p = Ret (old, p') →
  buffer_busy p !! i = Some old ∧ p' = set_busy (<[i := true]> (buffer_busy p)) p.
Proof. unfold swap_busy. destruct (buffer_busy p !! i); naive_solver. Qed.

Lemma pool_conc_step s s' : pool_conc_inv s → pool_step s s' → pool_conc_inv s'.
Proof.
  intros Hinv Hstep. destruct Hstep as [p p' ts t q q' Ht Ha].
  eapply pool_conc_update; [done|done|..].
  - intros L HL. destruct Ha as [p size Hs|p p' size i Hsw|p p' size i Hsw|p size i Hi
      |p p' b c Hr Hg|p p' b c c' Hok Hw|p p' b c Hd|p]; simpl in *; try done.
    + apply swap_busy_inv in Hsw as [Hb ->]. split_and!; [|by intros ??; apply ib_get_busy|done].
      apply claim_inv; [done| |done]. destruct Hinv as (_&_&Hscan). by eapply Hscan.
    + apply swap_busy_inv in Hsw as [Hb ->]. by rewrite list_insert_id, set_busy_id.
    + by apply reset_inv.
    + destruct (pool_inv_get p (b :: L) b HL ltac:(left)) as (c0&Hc0&_).
      destruct (Buffer_deref_mut_spec p b L (modify (λ _, c')) c0 tt c' HL Hc0 eq_refl Hok)
        as (p1&Hrun&?&?&_&?&_). rewrite Hrun in Hw. by simplify_eq.
    + destruct (Buffer_drop_spec p b L HL) as (p1&Hrun&?&?&?&_). rewrite Hrun in Hd.
      by simplify_eq.
  - destruct Ha as [p size Hs|p p' size i Hsw|p p' size i Hsw|p size i Hi
      |p p' b c Hr Hg|p p' b c c' Hok Hw|p p' b c Hd|p]; intros b0 c0; try done.
    + by intros [= <- <-].
    + intros [= <- <-]. destruct Hinv as (Hp&_&_). simpl in Hp.
      destruct (omap_insert_perm owned ts t _ PIdle Ht) as (L&HL&_&_). simpl in HL.
      apply (pool_inv_perm _ _ _ HL) in Hp.
      destruct (pool_inv_get p (b :: L) b Hp ltac:(left)) as (c1&Hc1&_).
      destruct (Buffer_deref_mut_spec p b L (modify (λ _, c')) c1 tt c' Hp Hc1 eq_refl Hok)
        as (p1&Hrun&_&_&?&_). rewrite Hrun in Hw. by simplify_eq.
  - destruct Ha; intros size' i' [= <- <-]; [done|]. destruct Hinv as (_&_&Hscan).
    by eapply Hscan.
Qed.

(** Threads that have not called the pool yet. *)
Definition pool_conc_init (s : pool_config) : Prop :=
  (∃ bs n, BufferPool_new (T := T) bs n = Ret (pc_pool s)) ∧
  Forall (λ q, q = PIdle) (pc_threads s).

Lemma pool_conc_inv_init s : pool_conc_init s → pool_conc_inv s.
Proof.
  intros [(bs&n&Hnew) Hall]. destruct (pool_inv_new _ _ _ Hnew) as [Hp _].
  rewrite Forall_lookup in Hall. split_and!.
  - assert (live (pc_threads s) = []) as ->; [|done].
    unfold live. destruct (omap owned (pc_threads s)) as [|b l] eqn:Ho; [done|].
    assert (b ∈ omap owned (pc_threads s)) as Hb by (rewrite Ho; left).
    apply list_elem_of_omap in Hb as (q&Hq&Hb). apply list_elem_of_lookup in Hq as [i Hi].
    by rewrite (Hall _ _ Hi) in Hb.
  - intros t b c Ht. by specialize (Hall _ _ Ht).
  - intros t size i Ht. by specialize (Hall _ _ Ht).
Qed.

Lemma pool_conc_inv_reachable s0 s :
  pool_conc_init s0 → rtc pool_step s0 s → pool_conc_inv s.
Proof.
  intros Hi%pool_conc_inv_init Hs. induction Hs as [|??? Hst _ IH]; [done|].
  by apply IH, (pool_conc_step _ _ Hi).
Qed.

(** ** Allocation does not fail *)
Definition pool_scan_inv (s : pool_config) : Prop :=
  scan_inv (length (buffer_busy (pc_pool s))) (position <$> pc_threads s) ∧
  Forall (λ q, q ≠ PFailed) (pc_threads s).

(** A busy slot has a thread at its position. *)
Lemma busy_position p ts i :
  pool_inv p (live ts) → buffer_busy p !! i = Some true →
  ∃ u q, ts !! u = Some q ∧ owned q ≠ None ∧ position q = Some i.
Proof.
  intros (_&_&Hb&_) Hi. apply Hb, list_elem_of_fmap in Hi as (b&->&Hin).
  apply list_elem_of_omap in Hin as (q&Hq&Ho). apply list_elem_of_lookup in Hq as [u Hu].
  exists u, q. split_and!; [done|by rewrite Ho|]. destruct q; simpl in *; by simplify_eq.
Qed.

Lemma access_busy_length p q p' q' :
  pool_access p q p' q' → length (buffer_busy p') = length (buffer_busy p).
Proof.
  intros Ha. destruct Ha as [p size Hs|p p' size i Hsw|p p' size i Hsw|p size i Hi
    |p p' b c Hr Hg|p p' b c c' Hok Hw|p p' b c Hd|p]; try done.
  1,2: apply swap_busy_inv in Hsw as [_ ->]; apply length_insert.
  - unfold reset_inner in Hr. destruct (ib_reset (inner b) p (index b)); by simplify_eq/=.
  - unfold Buffer_deref_mut, mbind, outcome_bind, modify in Hw.
    repeat (case_match; simplify_eq/=); done.
  - unfold Buffer_drop, free_buffer in Hd. case_match; simplify_eq/=. apply length_insert.
Qed.

Lemma pool_scan_step s s' :
  length (pc_threads s) ≤ length (buffer_busy (pc_pool s)) →
  pool_conc_inv s → pool_scan_inv s → pool_step s s' → pool_scan_inv s'.
Proof.
  intros Hlen (Hp&_&_) [Hscan Hnf] Hstep. destruct Hstep as [p p' ts t q q' Ht Ha].
  simpl in *. unfold pool_scan_inv. simpl.
  assert ((position <$> ts) !! t = Some (position q)) as Hpos by (by rewrite list_lookup_fmap, Ht).
  rewrite (access_busy_length _ _ _ _ Ha), list_fmap_insert.
  assert (∀ r, r ≠ PFailed → Forall (λ q, q ≠ PFailed) (<[t := r]> ts)) as Hins.
  { intros r Hr. by apply Forall_insert. }
  destruct Ha as [p size Hs|p p' size i Hsw|p p' size i Hsw|p size i Hi
    |p p' b c Hr Hg|p p' b c c' Hok Hw|p p' b c Hd|p]; simpl position in *;
    try (split; [|by apply Hins]).
  - eapply scan_inv_start; [by rewrite length_fmap|done..].
  - by rewrite list_insert_id.
  - apply swap_busy_inv in Hsw as [Hb _].
    destruct (busy_position _ _ _ Hp Hb) as (u&r&Hu&Ho&Hr).
    eapply (scan_inv_advance _ _ t u i); [done| | | |done].
    + by rewrite list_lookup_fmap, Hu, <- Hr.
    + intros ->. by simplify_eq.
    + by eapply lookup_lt_Some.
  - pose proof (scan_inv_bound _ _ _ _ Hscan Hpos). lia.
  - by rewrite list_insert_id.
  - by rewrite list_insert_id.
  - by eapply scan_inv_leave.
  - by eapply scan_inv_leave.
Qed.

Lemma pool_scan_reachable s0 s :
  pool_conc_init s0 → length (pc_threads s0) ≤ length (buffer_busy (pc_pool s0)) →
  rtc pool_step s0 s → pool_scan_inv s.
Proof.
  intros Hi Hlen Hs. pose proof (pool_conc_inv_init _ Hi) as Hinv.
  assert (pool_scan_inv s0) as Hsc.
  { destruct Hi as [_ Hall]. split.
    - intros i _. unfold at_least.
      assert (List.filter (beyond i) (position <$> pc_threads s0) = []) as ->; [|simpl; lia].
      clear Hlen. induction Hall as [|q ts -> _ IH]; [done|]. csimpl. apply IH.
    - eapply Forall_impl; [exact Hall|]. by intros q ->. }
  clear Hi. induction Hs as [|s0 s1 s Hst _ IH]; [done|]. apply IH.
  - destruct Hst as [p p' ts t q q' _ Ha]. simpl in *.
    by rewrite length_insert, (access_busy_length _ _ _ _ Ha).
  - by eapply pool_conc_step.
  - by eapply pool_scan_step.
Qed.
End pool_conc.
