(* ===== verification/OutputMsgSetConc.v ===== *)
(** * OutputMsgSetConc: concurrent use of the message set

    Application threads insert messages while the deadline handler drains the
    set.  A step is one access to a flag or to a slot, a call of the
    definitions of [OutputMsgSet].  Every message travels with its output
    buffer, so the inserts under way and the messages in the set together are
    at most as many as the buffers: a token stands for a buffer.  In every
    interleaving no message is lost, duplicated or overwritten, no slot is
    accessed by two parties at once, and an insert does not fail while the
    slots are as many as the buffers. *)
From S2P Require Import Prelude Std OutputMsgSet SlotScan.
From stdpp Require Import base option list numbers relations.
From Stdlib Require Import Lia.

Section set_conc.
Context {Msg : Type}.
Implicit Types (s : OutputMsgSet Msg) (m : Msg).

(** What an output buffer is used for: nothing, an [insert] at some point of
    its code, a message in slot [i], a message the handler is sending, an
    insert that failed. *)
Inductive set_token :=
  | TFree
  | TScan (m : Msg) (i : nat)
  | TStore (m : Msg) (i : nat)
  | TPublish (m : Msg) (i : nat)
  | TIn (m : Msg) (i : nat)
  | TSent (m : Msg)
  | TFailed (m : Msg).

(** The handler, in [OutputMsgDrain::next] and [take_slot]. *)
Inductive drainer :=
  | DIdle
  | DLoad (i : nat)
  | DTake (i : nat)
  | DInvalidate (i : nat) (o : option Msg)
  | DRelease (i : nat) (o : option Msg).

(** [inserted] and [sent] record the messages of the inserts that returned
    [Ok] and of the iterations of the drain. *)
Record set_config := mk_set_config {
  sc_set : OutputMsgSet Msg;
  sc_tokens : list set_token;
  sc_drainer : drainer;
  sc_inserted : list Msg;
  sc_sent : list Msg;
}.

Inductive set_step : set_config → set_config → Prop :=
  | set_insert s ts d ins snt t m :
      ts !! t = Some TFree →
      set_step (mk_set_config s ts d ins snt)
               (mk_set_config s (<[t := TScan m 0]> ts) d ins snt)
  | set_claim s s' ts d ins snt t m i :
      ts !! t = Some (TScan m i) → swap_slot_busy i s = Ret (false, s') →
      set_step (mk_set_config s ts d ins snt)
               (mk_set_config s' (<[t := TStore m i]> ts) d ins snt)
  | set_next s s' ts d ins snt t m i :
      ts !! t = Some (TScan m i) → swap_slot_busy i s = Ret (true, s') →
      set_step (mk_set_config s ts d ins snt)
               (mk_set_config s' (<[t := TScan m (S i)]> ts) d ins snt)
  | set_full s ts d ins snt t m i :
      ts !! t = Some (TScan m i) → length (slot_busy s) ≤ i →
      set_step (mk_set_config s ts d ins snt)
               (mk_set_config s (<[t := TFailed m]> ts) d ins snt)
  | set_store s s' ts d ins snt t m i old :
      ts !! t = Some (TStore m i) → replace_slot i (Some m) s = Ret (old, s') →
      set_step (mk_set_config s ts d ins snt)
               (mk_set_config s' (<[t := TPublish m i]> ts) d ins snt)
  | set_publish s s' ts d ins snt t m i :
      ts !! t = Some (TPublish m i) → store_valid i true s = Ret (tt, s') →
      set_step (mk_set_config s ts d ins snt)
               (mk_set_config s' (<[t := TIn m i]> ts) d (m :: ins) snt)
  | set_freed s ts d ins snt t m :
      ts !! t = Some (TSent m) ∨ ts !! t = Some (TFailed m) →
      set_step (mk_set_config s ts d ins snt)
               (mk_set_config s (<[t := TFree]> ts) d ins snt)
  | drain_start s ts ins snt :
      set_step (mk_set_config s ts DIdle ins snt) (mk_set_config s ts (DLoad 0) ins snt)
  | drain_valid s ts ins snt i :
      slot_valid s !! i = Some true →
      set_step (mk_set_config s ts (DLoad i) ins snt) (mk_set_config s ts (DTake i) ins snt)
  | drain_skip s ts ins snt i :
      slot_valid s !! i = Some false →
      set_step (mk_set_config s ts (DLoad i) ins snt) (mk_set_config s ts (DLoad (S i)) ins snt)
  | drain_end s ts ins snt i :
      length (slots s) ≤ i →
      set_step (mk_set_config s ts (DLoad i) ins snt) (mk_set_config s ts DIdle ins snt)
  | drain_take s s' ts ins snt i o :
      replace_slot i None s = Ret (o, s') →
      set_step (mk_set_config s ts (DTake i) ins snt)
               (mk_set_config s' ts (DInvalidate i o) ins snt)
  | drain_invalidate s s' ts ins snt i o :
      store_valid i false s = Ret (tt, s') →
      set_step (mk_set_config s ts (DInvalidate i o) ins snt)
               (mk_set_config s' ts (DRelease i o) ins snt)
  | drain_yield s s' ts ins snt i t m :
      store_busy i false s = Ret (tt, s') → ts !! t = Some (TIn m i) →
      set_step (mk_set_config s ts (DRelease i (Some m)) ins snt)
               (mk_set_config s' (<[t := TSent m]> ts) (DLoad (S i)) ins (m :: snt)).

(** The slot a token owns, and the slot it owns or looks at. *)
Definition holds_slot (q : set_token) : option nat :=
  match q with TStore _ i | TPublish _ i | TIn _ i => Some i | _ => None end.
Definition token_position (q : set_token) : option nat :=
  match q with
  | TScan _ i | TStore _ i | TPublish _ i | TIn _ i => Some i
  | _ => None
  end.

(** Flags and content of slot [i]. *)
Definition slot_is s (i : nat) (v : bool * bool * option Msg) : Prop :=
  slot_busy s !! i = Some v.1.1 ∧ slot_valid s !! i = Some v.1.2 ∧ slots s !! i = Some v.2.

(** What the owner of a slot knows of it, given where the handler is. *)
Definition owner_view (d : drainer) (q : set_token) : bool * bool * option Msg :=
  match q with
  | TStore _ _ => (true, false, None)
  | TPublish m _ => (true, false, Some m)
  | TIn m i =>
      match d with
      | DInvalidate j _ => if j =? i then (true, true, None) else (true, true, Some m)
      | DRelease j _ => if j =? i then (true, false, None) else (true, true, Some m)
      | _ => (true, true, Some m)
      end
  | _ => (false, false, None)
  end.

(** The handler works on a slot only while a published message owns it. *)
Definition drainer_ok (ts : list set_token) (d : drainer) : Prop :=
  match d with
  | DIdle | DLoad _ => True
  | DTake i => ∃ t m, ts !! t = Some (TIn m i)
  | DInvalidate i o | DRelease i o => ∃ t m, ts !! t = Some (TIn m i) ∧ o = Some m
  end.

Definition messages_in (ts : list set_token) : list Msg :=
  omap (λ q, match q with TIn m _ => Some m | _ => None end) ts.

Definition set_conc_inv (c : set_config) : Prop :=
  let s := sc_set c in let ts := sc_tokens c in let d := sc_drainer c in
  length (slot_busy s) = length (slots s) ∧ length (slot_valid s) = length (slots s) ∧
  (∀ t q i, ts !! t = Some q → holds_slot q = Some i → slot_is s i (owner_view d q)) ∧
  (∀ t t' q q' i, ts !! t = Some q → ts !! t' = Some q' →
    holds_slot q = Some i → holds_slot q' = Some i → t = t') ∧
  (∀ i, i < length (slots s) → (∀ t q, ts !! t = Some q → holds_slot q ≠ Some i) →
    slot_is s i (false, false, None)) ∧
  drainer_ok ts d ∧
  sc_inserted c ≡ₚ sc_sent c ++ messages_in ts.

(** [s'] is [s] but for slot [i]. *)
Definition same_off (i : nat) s s' : Prop :=
  length (slot_busy s') = length (slot_busy s) ∧
  length (slot_valid s') = length (slot_valid s) ∧ length (slots s') = length (slots s) ∧
  ∀ j v, j ≠ i → slot_is s j v → slot_is s' j v.

Lemma swap_slot_busy_inv i s old s' :
  swap_slot_busy i s = Ret (old, s') →
  slot_busy s !! i = Some old ∧
  s' = mk_msg_set (slots s) (<[i := true]> (slot_busy s)) (slot_valid s).
Proof. unfold swap_slot_busy. destruct (slot_busy s !! i); naive_solver. Qed.

(** The accesses: what they find and leave in the slot. *)
Lemma swap_slot_busy_spec i s s' v :
  slot_is s i v → swap_slot_busy i s = Ret (v.1.1, s') →
  same_off i s s' ∧ slot_is s' i (true, v.1.2, v.2).
Proof.
  intros (Hb&Hv&Ho) [_ ->]%swap_slot_busy_inv. unfold same_off, slot_is. simpl.
  rewrite length_insert, list_lookup_insert_eq by (by eapply lookup_lt_Some).
  split_and!; try done. intros j w ? (?&?&?). by rewrite list_lookup_insert_ne.
Qed.

Lemma replace_slot_spec i s s' v o old :
  slot_is s i v → replace_slot i o s = Ret (old, s') →
  old = v.2 ∧ same_off i s s' ∧ slot_is s' i (v.1.1, v.1.2, o).
Proof.
  intros (Hb&Hv&Ho). unfold replace_slot. rewrite Ho. intros. simplify_eq.
  unfold same_off, slot_is. simpl.
  rewrite length_insert, list_lookup_insert_eq by (by eapply lookup_lt_Some).
  split_and!; try done. intros j w ? (?&?&?). by rewrite list_lookup_insert_ne.
Qed.

Lemma store_valid_spec i s s' v b u :
  slot_is s i v → store_valid i b s = Ret (u, s') →
  same_off i s s' ∧ slot_is s' i (v.1.1, b, v.2).
Proof.
  intros (Hb&Hv&Ho). unfold store_valid. rewrite Hv. intros. simplify_eq.
  unfold same_off, slot_is. simpl.
  rewrite length_insert, list_lookup_insert_eq by (by eapply lookup_lt_Some).
  split_and!; try done. intros j w ? (?&?&?). by rewrite list_lookup_insert_ne.
Qed.

Lemma store_busy_spec i s s' v b u :
  slot_is s i v → store_busy i b s = Ret (u, s') →
  same_off i s s' ∧ slot_is s' i (b, v.1.2, v.2).
Proof.
  intros (Hb&Hv&Ho). unfold store_busy. rewrite Hb. intros. simplify_eq.
  unfold same_off, slot_is. simpl.
  rewrite length_insert, list_lookup_insert_eq by (by eapply lookup_lt_Some).
  split_and!; try done. intros j w ? (?&?&?). by rewrite list_lookup_insert_ne.
Qed.

Lemma owner_busy d q i : holds_slot q = Some i → (owner_view d q).1.1 = true.
Proof. destruct q, d; simpl; try done; by case_match. Qed.

(** A slot that is not busy has no owner. *)
Lemma free_no_owner s ts d ins snt i :
  set_conc_inv (mk_set_config s ts d ins snt) → slot_busy s !! i = Some false →
  ∀ t q, ts !! t = Some q → holds_slot q ≠ Some i.
Proof.
  intros (_&_&Hown&_) Hb t q Ht Hh. destruct (Hown _ _ _ Ht Hh) as (Hb'&_).
  simpl in Hb'. rewrite (owner_busy d q i Hh) in Hb'. congruence.
Qed.

Lemma drainer_ok_mono ts ts' d :
  (∀ t m i, ts !! t = Some (TIn m i) → ∃ t', ts' !! t' = Some (TIn m i)) →
  drainer_ok ts d → drainer_ok ts' d.
Proof.
  intros Hk. destruct d as [|i|i|i o|i o]; simpl; try done.
  - intros (t&m&[t' Ht]%Hk). eauto.
  - intros (t&m&[t' Ht]%Hk&->). eauto.
  - intros (t&m&[t' Ht]%Hk&->). eauto.
Qed.

(** A step of token [t] at slot [i], the handler staying where it is. *)
Lemma token_update s s' ts d ins ins' snt t q q' i :
  set_conc_inv (mk_set_config s ts d ins snt) → ts !! t = Some q →
  same_off i s s' →
  (∀ j, holds_slot q = Some j → j = i) → holds_slot q' = Some i →
  (∀ t2 q2, t2 ≠ t → ts !! t2 = Some q2 → holds_slot q2 ≠ Some i) →
  slot_is s' i (owner_view d q') →
  (∀ m j, q ≠ TIn m j) →
  ins' ≡ₚ snt ++ messages_in (<[t := q']> ts) →
  set_conc_inv (mk_set_config s' (<[t := q']> ts) d ins' snt).
Proof.
  intros (Hlb&Hlv&Hown&Huniq&Hfree&Hd&_) Ht (E1&E2&E3&Hoff) Hq Hq' Hothers Hslot Hnin Hmsgs.
  simpl in *. pose proof (lookup_lt_Some _ _ _ Ht) as Hlt.
  split_and!; simpl; try congruence; try done.
  - intros t2 q2 j [(<-&<-&_)|[Hne H2]]%list_lookup_insert_Some Hh; [by simplify_eq|].
    apply Hoff; [|by eapply Hown]. intros ->. by eapply Hothers.
  - intros t2 t3 q2 q3 j [(<-&<-&_)|[Hne2 H2]]%list_lookup_insert_Some
      [(<-&<-&_)|[Hne3 H3]]%list_lookup_insert_Some Hh2 Hh3; simplify_eq; [done|..].
    + by edestruct (Hothers t3).
    + by edestruct (Hothers t2).
    + by eapply Huniq.
  - intros j Hj Hno. assert (j ≠ i).
    { intros ->. apply (Hno t q'); [|done]. by apply list_lookup_insert_eq. }
    apply Hoff; [done|]. apply Hfree; [congruence|]. intros t2 q2 H2 Hh.
    destruct (decide (t2 = t)) as [->|Hne]; [simplify_eq; by apply Hq in Hh|].
    by apply (Hno t2 q2); [rewrite list_lookup_insert_ne|].
  - eapply drainer_ok_mono; [|done]. intros t2 m j H2. exists t2.
    rewrite list_lookup_insert_ne; [done|]. intros <-. simplify_eq. by eapply Hnin.
Qed.

(** A step of a token that owns no slot. *)
Lemma token_passive s ts d ins snt t q q' :
  set_conc_inv (mk_set_config s ts d ins snt) → ts !! t = Some q →
  holds_slot q = None → holds_slot q' = None →
  set_conc_inv (mk_set_config s (<[t := q']> ts) d ins snt).
Proof.
  intros (Hlb&Hlv&Hown&Huniq&Hfree&Hd&Hmsgs) Ht Hq Hq'. simpl in *.
  split_and!; simpl; try done.
  - intros t2 q2 j [(<-&<-&_)|[Hne H2]]%list_lookup_insert_Some Hh; [congruence|].
    by eapply Hown.
  - intros t2 t3 q2 q3 j [(<-&<-&_)|[Hne2 H2]]%list_lookup_insert_Some
      [(<-&<-&_)|[Hne3 H3]]%list_lookup_insert_Some Hh2 Hh3; try congruence.
    by eapply Huniq.
  - intros j Hj Hno. apply Hfree; [done|]. intros t2 q2 H2 Hh.
    destruct (decide (t2 = t)) as [->|Hne]; [simplify_eq; congruence|].
    by apply (Hno t2 q2); [rewrite list_lookup_insert_ne|].
  - eapply drainer_ok_mono; [|done]. intros t2 m j H2. exists t2.
    rewrite list_lookup_insert_ne; [done|]. intros <-. by simplify_eq.
  - rewrite Hmsgs. destruct (omap_insert_perm
      (λ q, match q with TIn m _ => Some m | _ => None end) ts t q q' Ht) as (L&HL&HL'&_).
    unfold messages_in. rewrite HL, HL'. by destruct q, q'.
Qed.

(** The slot the handler is emptying. *)
Definition emptying (d : drainer) : option nat :=
  match d with DInvalidate i _ | DRelease i _ => Some i | _ => None end.

Lemma owner_view_off d q i :
  holds_slot q = Some i → emptying d ≠ Some i → owner_view d q = owner_view DIdle q.
Proof.
  destruct q as [| | | |m j| |]; simpl; intros Hh He; try done. injection Hh as ->.
  destruct d as [| | |j o|j o]; simpl in *; try done;
    (destruct (Nat.eqb_spec j i) as [->|]; [by destruct He|done]).
Qed.

(** A step of the handler on slot [i], owned by the published message of
    token [t], that leaves it there. *)
Lemma drainer_update s s' ts d d' ins snt t m i :
  set_conc_inv (mk_set_config s ts d ins snt) → ts !! t = Some (TIn m i) →
  same_off i s s' →
  (∀ j, emptying d = Some j → j = i) → (∀ j, emptying d' = Some j → j = i) →
  slot_is s' i (owner_view d' (TIn m i)) → drainer_ok ts d' →
  set_conc_inv (mk_set_config s' ts d' ins snt).
Proof.
  intros (Hlb&Hlv&Hown&Huniq&Hfree&_&Hmsgs) Ht (E1&E2&E3&Hoff) He He' Hslot Hd'. simpl in *.
  split_and!; simpl; try congruence; try done.
  - intros t2 q2 j H2 Hh. destruct (decide (j = i)) as [->|Hne].
    + assert (t2 = t) as -> by (by eapply Huniq). by simplify_eq.
    + apply Hoff; [done|]. rewrite (owner_view_off d' q2 j), <- (owner_view_off d q2 j);
        [by eapply Hown|done|naive_solver|done|naive_solver].
  - intros j Hj Hno. assert (j ≠ i) by (intros ->; by apply (Hno _ _ Ht)).
    apply Hoff; [done|]. apply Hfree; [congruence|done].
Qed.

Lemma drainer_move s ts d d' ins snt :
  set_conc_inv (mk_set_config s ts d ins snt) → emptying d = None → emptying d' = None →
  drainer_ok ts d' → set_conc_inv (mk_set_config s ts d' ins snt).
Proof.
  intros (Hlb&Hlv&Hown&Huniq&Hfree&_&Hmsgs) He He' Hd'. simpl in *.
  split_and!; simpl; try done. intros t q j H2 Hh.
  rewrite (owner_view_off d' q j), <- (owner_view_off d q j); [by eapply Hown|..];
    congruence.
Qed.

(** The handler gives slot [i] back and takes its message out. *)
Lemma drainer_yield s s' ts ins snt t m i :
  set_conc_inv (mk_set_config s ts (DRelease i (Some m)) ins snt) →
  ts !! t = Some (TIn m i) → same_off i s s' → slot_is s' i (false, false, None) →
  set_conc_inv (mk_set_config s' (<[t := TSent m]> ts) (DLoad (S i)) ins (m :: snt)).
Proof.
  intros (Hlb&Hlv&Hown&Huniq&Hfree&_&Hmsgs) Ht (E1&E2&E3&Hoff) Hslot. simpl in *.
  assert (∀ t2 q2, t2 ≠ t → ts !! t2 = Some q2 → holds_slot q2 ≠ Some i) as Hothers.
  { intros t2 q2 Hne H2 Hh. by apply Hne; eapply Huniq. }
  split_and!; simpl; try congruence; try done.
  - intros t2 q2 j [(<-&<-&_)|[Hne H2]]%list_lookup_insert_Some Hh; [done|].
    assert (j ≠ i) by (intros ->; by eapply Hothers).
    apply Hoff; [done|]. rewrite (owner_view_off (DLoad (S i)) q2 j) by done.
    rewrite <- (owner_view_off (DRelease i (Some m)) q2 j) by (done || naive_solver).
    by eapply Hown.
  - intros t2 t3 q2 q3 j [(<-&<-&_)|[Hne2 H2]]%list_lookup_insert_Some
      [(<-&<-&_)|[Hne3 H3]]%list_lookup_insert_Some Hh2 Hh3; try done. by eapply Huniq.
  - intros j Hj Hno. destruct (decide (j = i)) as [->|Hne]; [done|].
    apply Hoff; [done|]. apply Hfree; [congruence|]. intros t2 q2 H2 Hh.
    destruct (decide (t2 = t)) as [->|]; [by simplify_eq/=|].
    by apply (Hno t2 q2); [rewrite list_lookup_insert_ne|].
  - rewrite Hmsgs. destruct (omap_insert_perm
      (λ q, match q with TIn m _ => Some m | _ => None end) ts t _ (TSent m) Ht)
      as (L&HL&HL'&_).
    unfold messages_in. rewrite HL, HL'. simpl. by rewrite Permutation_middle.
Qed.

(** A valid slot is owned by a published message. *)
Lemma valid_owner s ts d ins snt i :
  set_conc_inv (mk_set_config s ts d ins snt) → emptying d = None →
  slot_valid s !! i = Some true → ∃ t m, ts !! t = Some (TIn m i).
Proof.
  intros (Hlb&Hlv&Hown&_&Hfree&_) He Hv. simpl in *.
  assert (i < length (slots s)) as Hi by (rewrite <- Hlv; by eapply lookup_lt_Some).
  destruct (decide (Exists (λ q, holds_slot q = Some i) ts)) as [Hex|Hno].
  - apply Exists_exists in Hex as (q&[t Ht]%list_elem_of_lookup&Hh).
    destruct (Hown _ _ _ Ht Hh) as (_&Hv'&_). rewrite Hv in Hv'.
    destruct q; simplify_eq/=; eauto.
  - destruct (Hfree i Hi) as (_&Hv'&_); [|simpl in Hv'; congruence].
    intros t q Ht Hh. apply Hno, Exists_exists. exists q. split; [|done].
    by eapply list_elem_of_lookup_2.
Qed.

(** The messages are those of the other tokens and of this one. *)
Lemma messages_insert ts t q q' ins snt :
  ts !! t = Some q → (∀ m i, q ≠ TIn m i) → ins ≡ₚ snt ++ messages_in ts →
  match q' with TIn m _ => m :: ins | _ => ins end ≡ₚ snt ++ messages_in (<[t := q']> ts).
Proof.
  intros Ht Hq Hins. destruct (omap_insert_perm
    (λ q, match q with TIn m _ => Some m | _ => None end) ts t q q' Ht) as (L&HL&HL'&_).
  assert (messages_in ts ≡ₚ L) as HL2.
  { unfold messages_in. rewrite HL. destruct q; try done. by edestruct Hq. }
  assert (ins ≡ₚ snt ++ L) as Hins2 by (by rewrite Hins, HL2).
  unfold messages_in. rewrite HL'.
  destruct q'; simpl; rewrite Hins2; try done. by rewrite Permutation_middle.
Qed.

Lemma set_conc_token_step s ts d ins snt s' ts' ins' :
  set_conc_inv (mk_set_config s ts d ins snt) →
  set_step (mk_set_config s ts d ins snt) (mk_set_config s' ts' d ins' snt) →
  set_conc_inv (mk_set_config s' ts' d ins' snt).
Proof.
  intros Hinv Hstep. destruct (Hinv) as (Hlb&Hlv&Hown&Huniq&Hfree&Hd&Hmsgs). simpl in *.
  assert (∀ t q i, ts !! t = Some q → holds_slot q = Some i →
    ∀ t2 q2, t2 ≠ t → ts !! t2 = Some q2 → holds_slot q2 ≠ Some i) as Hothers.
  { intros t q i Ht Hh t2 q2 Hne H2 Hh2. by apply Hne; eapply Huniq. }
  inversion Hstep as [? ? ? ? ? t m Ht|? ? ? ? ? ? t m i Ht Hsw|? ? ? ? ? ? t m i Ht Hsw
    |? ? ? ? ? t m i Ht Hl|? ? ? ? ? ? t m i old Ht Hr|? ? ? ? ? ? t m i Ht Hst
    |? ? ? ? ? t m Ht| | | | | | |]; subst.
  - by eapply token_passive.
  - destruct (swap_slot_busy_inv _ _ _ _ Hsw) as [Hb _].
    pose proof (free_no_owner _ _ _ _ _ i Hinv Hb) as Hno.
    assert (slot_is s i (false, false, None)) as Hsl.
    { apply Hfree; [|done]. rewrite <- Hlb. by eapply lookup_lt_Some. }
    destruct (swap_slot_busy_spec i s s' _ Hsl Hsw) as [Hoff Hsl'].
    eapply token_update; [done|done|exact Hoff|done|done|by intros; eapply Hno|done|done|].
    by apply (messages_insert ts t (TScan m i) (TStore m i)).
  - destruct (swap_slot_busy_inv _ _ _ _ Hsw) as [Hb ->].
    rewrite list_insert_id by done. destruct s. by eapply token_passive.
  - by eapply token_passive.
  - pose proof (Hown _ _ _ Ht eq_refl) as Hsl.
    destruct (replace_slot_spec i s s' _ _ _ Hsl Hr) as (_&Hoff&Hsl').
    eapply token_update; [done|done|exact Hoff|by intros j [= ->]|done|by eapply Hothers|done|done|].
    by apply (messages_insert ts t (TStore m i) (TPublish m i)).
  - pose proof (Hown _ _ _ Ht eq_refl) as Hsl.
    destruct (store_valid_spec i s s' _ _ _ Hsl Hst) as (Hoff&Hsl').
    assert (emptying d ≠ Some i) as He.
    { intros He. destruct d as [| | |j o|j o]; simplify_eq/=;
        destruct Hd as (t2&m2&H2&_); assert (t2 = t) as -> by (by eapply Huniq);
        congruence. }
    eapply token_update; [done|done|exact Hoff|by intros j [= ->]|done|by eapply Hothers| |done|].
    + by rewrite (owner_view_off d (TIn m i) i).
    + by apply (messages_insert ts t (TPublish m i) (TIn m i)).
  - destruct Ht as [Ht|Ht]; by eapply token_passive.
  - done.
Qed.

Lemma set_conc_step c c' : set_conc_inv c → set_step c c' → set_conc_inv c'.
Proof.
  intros Hinv Hstep. destruct Hstep as [| | | | | | |s ts ins snt|s ts ins snt i Hv
    |s ts ins snt i Hv|s ts ins snt i Hl|s s' ts ins snt i o Hr|s s' ts ins snt i o Hst
    |s s' ts ins snt i t m Hst Ht].
  1-7: eapply set_conc_token_step; [done|by econstructor].
  - by eapply drainer_move.
  - eapply drainer_move; [done|done|done|]. by eapply valid_owner.
  - by eapply drainer_move.
  - by eapply drainer_move.
  - destruct (Hinv) as (_&_&Hown&_&_&(t&m&Ht)&_). simpl in *.
    pose proof (Hown _ _ _ Ht eq_refl) as Hsl.
    destruct (replace_slot_spec i s s' _ _ _ Hsl Hr) as (->&Hoff&Hsl'). simpl in *.
    eapply drainer_update; [done|done|done|done|by intros j [= ->]| |].
    + simpl. by rewrite Nat.eqb_refl.
    + by exists t, m.
  - destruct (Hinv) as (_&_&Hown&_&_&(t&m&Ht&->)&_). simpl in *.
    pose proof (Hown _ _ _ Ht eq_refl) as Hsl. simpl in Hsl. rewrite Nat.eqb_refl in Hsl.
    destruct (store_valid_spec i s s' _ _ _ Hsl Hst) as (Hoff&Hsl'). simpl in *.
    eapply drainer_update; [done|done|done|by intros j [= ->]|by intros j [= ->]| |].
    + simpl. by rewrite Nat.eqb_refl.
    + by exists t, m.
  - destruct (Hinv) as (_&_&Hown&_). simpl in *.
    pose proof (Hown _ _ _ Ht eq_refl) as Hsl. simpl in Hsl. rewrite Nat.eqb_refl in Hsl.
    destruct (store_busy_spec i s s' _ _ _ Hsl Hst) as (Hoff&Hsl').
    by eapply drainer_yield.
Qed.

(** A new set, with buffers that are all free. *)
Definition set_conc_init (c : set_config) : Prop :=
  (∃ n, sc_set c = OutputMsgSet_new n) ∧ Forall (λ q, q = TFree) (sc_tokens c) ∧
  sc_drainer c = DIdle ∧ sc_inserted c = [] ∧ sc_sent c = [].

Lemma set_conc_inv_init c : set_conc_init c → set_conc_inv c.
Proof.
  intros ([n Hn]&Hall&Hd&Hi&Hs). rewrite Forall_lookup in Hall. unfold set_conc_inv.
  rewrite Hn, Hd, Hi, Hs. simpl. rewrite !length_replicate. split_and!; try done.
  - intros t q i Ht. by rewrite (Hall _ _ Ht).
  - intros t t' q q' i Ht. by rewrite (Hall _ _ Ht).
  - intros i Hlt _. unfold slot_is. simpl. by rewrite !lookup_replicate_2.
  - unfold messages_in. destruct (omap _ (sc_tokens c)) as [|m l] eqn:Ho; [done|].
    assert (m ∈ omap (λ q, match q with TIn m _ => Some m | _ => None end) (sc_tokens c)) as Hm
      by (rewrite Ho; left).
    apply list_elem_of_omap in Hm as (q&[t Hq]%list_elem_of_lookup&Hm).
    by rewrite (Hall _ _ Hq) in Hm.
Qed.

Lemma set_conc_inv_reachable c0 c :
  set_conc_init c0 → rtc set_step c0 c → set_conc_inv c.
Proof.
  intros Hi%set_conc_inv_init Hs. induction Hs as [|??? Hst _ IH]; [done|].
  by apply IH, (set_conc_step _ _ Hi).
Qed.

(** ** Inserting does not fail *)
Definition set_scan_inv (c : set_config) : Prop :=
  scan_inv (length (slots (sc_set c))) (token_position <$> sc_tokens c) ∧
  Forall (λ q, ∀ m, q ≠ TFailed m) (sc_tokens c).

Lemma set_step_slots c c' :
  set_step c c' → length (slots (sc_set c')) = length (slots (sc_set c)) ∧
    length (sc_tokens c') = length (sc_tokens c).
Proof.
  intros Hst. destruct Hst; simpl; rewrite ?length_insert; try done;
    unfold swap_slot_busy, replace_slot, store_valid, store_busy in *;
    repeat (case_match; simplify_eq/=); rewrite ?length_insert; done.
Qed.

Lemma set_scan_step c c' :
  length (sc_tokens c) ≤ length (slots (sc_set c)) →
  set_conc_inv c → set_scan_inv c → set_step c c' → set_scan_inv c'.
Proof.
  intros Hlen Hinv [Hscan Hnf] Hst. unfold set_scan_inv.
  destruct (set_step_slots _ _ Hst) as [-> _].
  assert (∀ t q, (∀ m, q ≠ TFailed m) →
    Forall (λ q, ∀ m, q ≠ TFailed m) (<[t := q]> (sc_tokens c))) as Hins
    by (intros; by apply Forall_insert).
  assert (∀ t q, sc_tokens c !! t = Some q →
    (token_position <$> sc_tokens c) !! t = Some (token_position q)) as Hpos
    by (intros t q Ht; by rewrite list_lookup_fmap, Ht).
  destruct Hst as [s ts d ins snt t m Ht|s s' ts d ins snt t m i Ht Hsw
    |s s' ts d ins snt t m i Ht Hsw|s ts d ins snt t m i Ht Hl|s s' ts d ins snt t m i old Ht Hr
    |s s' ts d ins snt t m i Ht Hst|s ts d ins snt t m Ht| | | | | | |s s' ts ins snt i t m Hst Ht];
    simpl in *; try done; rewrite ?list_fmap_insert.
  - split; [|by apply Hins]. eapply scan_inv_start; [by rewrite length_fmap|by apply Hpos|done].
  - split; [|by apply Hins]. by rewrite list_insert_id by (by rewrite (Hpos _ _ Ht)).
  - split; [|by apply Hins]. apply swap_slot_busy_inv in Hsw as [Hb _].
    destruct Hinv as (Hlb&_&_&_&Hfree&_). simpl in *. pose proof (lookup_lt_Some _ _ _ Hb) as Hi.
    destruct (decide (Exists (λ q, holds_slot q = Some i) ts)) as [Hex|Hno].
    + apply Exists_exists in Hex as (q&[u Hu]%list_elem_of_lookup&Hh).
      eapply (scan_inv_advance _ _ t u i); [by rewrite (Hpos _ _ Ht)| | |lia|done].
      * rewrite (Hpos _ _ Hu). by destruct q; simplify_eq/=.
      * intros ->. by simplify_eq.
    + destruct (Hfree i ltac:(lia)) as (Hb'&_); [|simpl in Hb'; congruence].
      intros u q Hu Hh. apply Hno, Exists_exists. exists q. split; [|done].
      by eapply list_elem_of_lookup_2.
  - pose proof (scan_inv_bound _ _ _ _ Hscan (Hpos _ _ Ht)). destruct Hinv as (Hlb&_).
    simpl in *. lia.
  - split; [|by apply Hins]. by rewrite list_insert_id by (by rewrite (Hpos _ _ Ht)).
  - split; [|by apply Hins]. by rewrite list_insert_id by (by rewrite (Hpos _ _ Ht)).
  - split; [|by apply Hins]. destruct Ht as [Ht|Ht]; by eapply scan_inv_leave, Hscan; apply Hpos.
  - split; [|by apply Hins]. by eapply scan_inv_leave, Hscan; apply Hpos.
Qed.

Lemma set_scan_reachable c0 c :
  set_conc_init c0 → length (sc_tokens c0) ≤ length (slots (sc_set c0)) →
  rtc set_step c0 c → set_scan_inv c.
Proof.
  intros Hi Hlen Hs. pose proof (set_conc_inv_init _ Hi) as Hinv.
  assert (set_scan_inv c0) as Hsc.
  { destruct Hi as (_&Hall&_). split.
    - intros i _. unfold at_least. clear Hlen.
      assert (List.filter (beyond i) (token_position <$> sc_tokens c0) = []) as ->;
        [|simpl; lia].
      induction Hall as [|q ts -> _ IH]; [done|]. csimpl. apply IH.
    - eapply Forall_impl; [exact Hall|]. by intros q ->. }
  clear Hi. induction Hs as [|c0 c1 c Hst _ IH]; [done|].
  destruct (set_step_slots _ _ Hst) as [E1 E2]. apply IH.
  - by rewrite E1, E2.
  - by eapply set_conc_step.
  - by eapply set_scan_step.
Qed.
End set_conc.
Arguments set_token : clear implicits.
Arguments drainer : clear implicits.
Arguments set_config : clear implicits.
