(* ===== verification/Capi.v ===== *)
(** * Capi: the C interface

    [client/capi/src/lib.rs] and the [init] function of
    [tansiv-client/src/lib.rs].  A pointer argument is an [option]: [None] is
    [NULL], [Some] what it points to; a function returns its code and what it
    leaves behind the pointers.  The command-line parser is an argument. *)
From S2P Require Import Prelude Std BufferPool BytesBuffer Wire FbBuffer Connector.
From S2P Require Import ConnectorSpec OutputMsgSet WaitfreeArrayQueue Chrono Error LibcTimer.
From S2P Require Import Timer Config Context ContextSpec DeadlineSpec ContextInit.
From stdpp Require Import base option list numbers strings.
From Stdlib Require Import ZArith Lia Strings.Byte.

(** ** [init] *)
Section init.
Context {T : Type} {Q : Type → Type} `{FB : FlatBuffers, CH : Chrono}
  `{TM : !Timer T, AQ : !ArrayQueue Q}.

(** [parsed] is the outcome of [Config::from_iter_safe]. *)
Definition tansiv_init (parsed : result Config string)
    (connect : bytes → result UnixStream io_error) (timer : Config → result T io_error)
    (register : result unit io_error) : outcome (result (Context T Q) Error) :=
  match map_err (Custom Other) parsed with
  | Err e => Ret (Err (from e))
  | Ok config =>
      Context_new (cfg_address config) (num_buffers config) (connect (actor_socket config))
        (timer config) register
  end.
End init.

(** ** Arguments *)

(** ["--"] *)
Definition dashes : bytes := [x2d; x2d].

(** [n] calls of [next] on the iterator over the arguments from index [i] on:
    what they yield, and the value of [next_arg] afterwards. *)
Fixpoint pull_args (n : nat) (i : Z) (args : list bytes) (next_arg : option Z) :
    list bytes * option Z :=
  match n, args with
  | O, _ | _, [] => ([], next_arg)
  | S n', str_arg :: rest =>
      let next_arg :=
        if bool_decide (next_arg = None) && bool_decide (str_arg = dashes) then Some (i + 1)%Z
        else next_arg in
      match next_arg with
      | None => let '(l, nx) := pull_args n' (i + 1) rest next_arg in (str_arg :: l, nx)
      | Some _ => pull_args n (i + 1) rest next_arg
      end
  end.

(** What the iterator can yield in all. *)
Definition all_args (args : list bytes) : list bytes := (pull_args (S (length args)) 0 args None).1.

(** [parse] returns its result and how often it called [next]. *)
Definition parse_os_args {A E} (args : list bytes) (parse : list bytes → result A E * nat) :
    result (A * Z) E :=
  let '(r, pulls) := parse (all_args args) in
  let next_arg := (pull_args pulls 0 args None).2 in
  match r with
  | Ok r => Ok (r, default (Z.of_nat (length args)) next_arg)
  | Err e => Err e
  end.

(** [duration_to_timespec] of this crate *)
Definition capi_duration_to_timespec (duration : Duration) : timespec :=
  mk_timespec (as_i64 (as_secs duration)) (as_i64 (subsec_nanos duration)).

Section vsg.
Context {T : Type} {Q : Type → Type} `{FB : FlatBuffers, CH : Chrono, LC : Libc}
  `{TM : !Timer T, AQ : !ArrayQueue Q}.
Abbreviation VCtx := (Context T Q).

(** [init] stands for [tansiv_client::init] with the callbacks of the caller;
    the result is the new context, [NULL] on failure, and [*next_arg_p]. *)
Definition vsg_init (args : list bytes) (next_arg_p : option Z)
    (init : list bytes → result VCtx Error * nat) : option VCtx * option Z :=
  match parse_os_args args init with
  | Ok (context, next_arg) =>
      (Some context, match next_arg_p with Some _ => Some next_arg | None => None end)
  | Err _ => (None, next_arg_p)
  end.

(** The code of an error of [start]. *)
Definition start_code (e : Error) : Z :=
  match e with
  | AlreadyStarted => EALREADY
  | NoMemoryAvailable => ENOMEM
  | ProtocolViolation => EPROTO
  | SizeTooBig => EMSGSIZE
  | _ => EIO
  end.

(** In the functions below [context] says that the pointer is not [NULL]. *)
Definition vsg_start (context : bool) (offset : option timespec) :
    M VCtx (Z * option timespec) :=
  if context then
    r ← Context_start;
    match r with
    | Ok o =>
        let num_seconds := cd_num_seconds o in
        secs ← lift (cd_seconds num_seconds);
        d ← lift (cd_sub o secs);
        num_subsec_nanos ← lift (unwrap (cd_num_nanoseconds d));
        mret (0%Z, match offset with
                   | Some _ => Some (mk_timespec (as_i64 num_seconds) (as_i64 num_subsec_nanos))
                   | None => None
                   end)
    | Err e => mret (start_code e, offset)
    end
  else mret (EINVAL, offset).

Definition vsg_stop (fuel : nat) (context : bool) : M VCtx Z :=
  if context then _ ← Context_stop fuel; mret 0%Z else mret EINVAL.

Definition vsg_gettimeofday (context : bool) (tv : option timeval) :
    M VCtx (Z * option timeval) :=
  if context then
    match tv with
    | Some _ => t ← gettimeofday; mret (0%Z, Some t)
    | None => mret (0%Z, None)
    end
  else mret (EINVAL, tv).

Definition send_code (r : result unit Error) : Z :=
  match r with
  | Ok _ => 0
  | Err NoMemoryAvailable => ENOMEM
  | Err SizeTooBig => EMSGSIZE
  | Err _ => EIO
  end.

(** [msg] is the memory the pointer refers to. *)
Definition vsg_send (context : bool) (dst msglen : Z) (msg : option bytes) : M VCtx Z :=
  if context then
    if (msglen =? 0)%Z then r ← Context_send dst []; mret (send_code r)
    else
      match msg with
      | None => mret EINVAL
      | Some m => r ← Context_send dst (take (Z.to_nat msglen) m); mret (send_code r)
      end
  else mret EINVAL.

(** What [vsg_recv] leaves behind its pointers. *)
Record recv_out := mk_recv_out {
  ro_src : option Z;
  ro_dst : option Z;
  ro_msglen : option Z;
  ro_msg : option bytes;
}.

Definition overwrite {A} (p : option A) (v : A) : option A :=
  match p with Some _ => Some v | None => None end.

Definition vsg_recv (context : bool) (psrc pdst msglen : option Z) (msg : option bytes) :
    M VCtx (Z * recv_out) :=
  if context then
    let len := default 0%Z msglen in
    if negb (len =? 0)%Z && bool_decide (msg = None) then
      mret (EINVAL, mk_recv_out psrc pdst msglen msg)
    else
      let mem := default [] msg in
      let n := Z.to_nat len in
      '(r, payload) ← Context_recv (take n mem);
      let msg := match msg with Some _ => Some (payload ++ drop n mem) | None => None end in
      match r with
      | Ok (src, dst, p) =>
          mret (0%Z, mk_recv_out (overwrite psrc src) (overwrite pdst dst)
                       (overwrite msglen (as_u32 (Z.of_nat (length p)))) msg)
      | Err NoMessageAvailable => mret (EAGAIN, mk_recv_out psrc pdst msglen msg)
      | Err SizeTooBig => mret (EMSGSIZE, mk_recv_out psrc pdst msglen msg)
      | Err _ => mret (EIO, mk_recv_out psrc pdst msglen msg)
      end
  else mret (EINVAL, mk_recv_out psrc pdst msglen msg).

Definition vsg_poll (context : bool) : M VCtx Z :=
  if context then
    o ← Context_poll;
    mret match o with Some _ => 0%Z | None => EAGAIN end
  else mret EINVAL.
End vsg.

(** The error codes are distinct and none is 0. *)
Class LibcLaws `{Libc} :=
  errno_distinct : NoDup [0%Z; EINVAL; EALREADY; ENOMEM; EPROTO; EMSGSIZE; EIO; EAGAIN].

Lemma errno_ne `{LibcLaws} i j a b :
  [0%Z; EINVAL; EALREADY; ENOMEM; EPROTO; EMSGSIZE; EIO; EAGAIN] !! i = Some a →
  [0%Z; EINVAL; EALREADY; ENOMEM; EPROTO; EMSGSIZE; EIO; EAGAIN] !! j = Some b →
  i ≠ j → a ≠ b.
Proof. intros Ha Hb Hne ->. apply Hne. by eapply (NoDup_lookup _ i j b errno_distinct). Qed.
