(* ===== verification/TestRun.v ===== *)
(** * TestRun: an application, its deadline signals and its actor

    The tests of [lib.rs] and of the C interface run a client with the timer of
    a process against a scripted actor.  A test is a sequence of calls; between
    two of them, and while the application sleeps, the signals of the timer run
    the deadline handler.  [sim] is the state of a test: the world, what the
    callbacks of the application recorded, and a schedule that says how many
    signals come before each call.  The theorems about the tests hold for every
    schedule. *)
From S2P Require Import Prelude Std BufferPool BytesBuffer Wire FbBuffer Connector.
From S2P Require Import ConnectorSpec ConnectorPeer OutputMsgSet WaitfreeArrayQueue Chrono.
From S2P Require Import Error LibcTimer Timer TimerProcess TimerProcessSpec TimerProcessLive.
From S2P Require Import Context ContextSpec DeadlineSpec ContextInit HandleDeadline TestActor.
From S2P Require Import ActorSpec TestHelpers ScriptSpec Cosim CosimSpec CosimRun Handlers.
From S2P Require Import Lifetime Config Capi.
From stdpp Require Import base option list numbers strings.
From Stdlib Require Import ZArith Lia.

(** What the callbacks of an application do to the data they record. *)
Class Callbacks (N : Type) := app_callbacks : list callback → M N unit.

(** They always return, and are called one after the other. *)
Class CallbacksLaws (N : Type) `{!Callbacks N} := {
  app_callbacks_nil n : app_callbacks [] n = Ret (tt, n);
  app_callbacks_app l l' n :
    app_callbacks (l ++ l') n = (_ ← app_callbacks l; app_callbacks l') n;
  app_callbacks_total l n : ∃ n', app_callbacks l n = Ret (tt, n');
}.

Record sim (OS : Type) (Q : Type → Type) (N : Type) `{FlatBuffers, Chrono} := mk_sim {
  s_world : world (ProcessTimer (S := OS)) Q;
  s_app : N;
  s_signals : list nat;
}.
Arguments mk_sim {_ _ _ _ _} _ _ _.
Arguments s_world {_ _ _ _ _} _.
Arguments s_app {_ _ _ _ _} _.
Arguments s_signals {_ _ _ _ _} _.

Section sim.
Context {OS : Type} {Q : Type → Type} {N : Type} `{FB : FlatBuffers, CH : Chrono, LC : Libc}
  `{PX : !Posix OS, LK : !LocalClock OS, AQ : !ArrayQueue Q, CB : !Callbacks N}.

Abbreviation PTimer := (ProcessTimer (S := OS)).
Abbreviation PCtx := (Context PTimer Q).
Abbreviation World := (world PTimer Q).
Abbreviation Sim := (sim OS Q N).

(** [deadline_handler] of [timer/process.rs], with an actor that answers. *)
Definition live_deadline_handler (fuel : nat) : M World unit :=
  f ← on_ctx (on_timer freeze_time);
  after_deadline ← live_at_deadline fuel;
  match after_deadline with
  | NextDeadline deadline =>
      r ← on_ctx (on_timer (thaw_time_to_deadline (Some f) deadline)); lift (unwrap_ok r)
  | EndSimulation => on_ctx (on_timer (set_stopped true))
  end.

(** Code that runs on the client, with the callbacks it makes. *)
Definition in_world {A} (m : M World A) : M Sim A := λ s,
  '(x, w) ← m (s_world s);
  '(_, n) ← app_callbacks
    (drop (length (callbacks (w_ctx (s_world s)))) (callbacks (w_ctx w))) (s_app s);
  Ret (x, mk_sim w n (s_signals s)).

Definition is_stopped : M World bool := on_ctx (on_timer (field stopped)).

(** A signal.  The timer is armed exactly while the flag [stopped] is down. *)
Definition signal (fuel : nat) : M Sim unit :=
  in_world (b ← is_stopped; if b : bool then mret tt else live_deadline_handler fuel).

Fixpoint signals (k fuel : nat) : M Sim unit :=
  match k with
  | O => mret tt
  | S k => _ ← signal fuel; signals k fuel
  end.

(** The signals before the next call. *)
Definition next_signals (fuel : nat) : M Sim unit := λ s,
  match s_signals s with
  | [] => Ret (tt, s)
  | k :: l => signals k fuel (mk_sim (s_world s) (s_app s) l)
  end.

(** A call of the application. *)
Definition app_call {A} (fuel : nat) (m : M PCtx A) : M Sim A :=
  _ ← next_signals fuel; in_world (on_ctx m).

(** A loop that sleeps until [cond] holds.  A turn without a signal changes
    nothing, so that a turn of the model ends with one. *)
Fixpoint sleep_until (n fuel : nat) (cond : M Sim bool) : M Sim unit :=
  match n with
  | O => out_of_fuel
  | S n => b ← cond; if b : bool then mret tt else _ ← signal fuel; sleep_until n fuel cond
  end.

Definition app_wait (fuel : nat) (cond : M Sim bool) : M Sim unit :=
  _ ← next_signals fuel; sleep_until fuel fuel cond.

(** [Context::stop] *)
Definition app_stop (fuel : nat) : M Sim unit :=
  _ ← next_signals fuel;
  _ ← sleep_until fuel fuel (in_world is_stopped);
  in_world (on_ctx (Context_stop 1)).

(** ** A test

    [from_iter_safe] is the parser of the command line; [os] the operating
    system on which the timer is created. *)
Context (from_iter_safe : list bytes → result Config string) (not_found : io_error).

Definition new_timer (config : Config) (os : OS) : outcome (result PTimer io_error) :=
  '(r, os) ← Process_new (cfg_time_offset config) (Ok tt) os;
  Ret match r with Ok t => Ok (t, os) | Err e => Err e end.

(** [tansiv_client::init] with an actor that listens at ["titi"]. *)
Definition test_init (args : list bytes) (os : OS) (s : UnixStream) : outcome (result PCtx Error) :=
  let parsed := from_iter_safe args in
  timer ← match parsed with Ok config => new_timer config os | Err _ => Ret (Err not_found) end;
  tansiv_init parsed
    (λ path, if bool_decide (path = String.list_byte_of_string "titi") then Ok s
             else Err not_found)
    (λ _, timer) (Ok tt).

(** The actor, the context, the body of the test; then the actor is killed and
    the context dropped. *)
Definition run_test (fuel : nat) (child : Z) (args : list bytes) (os : OS) (sched : list nat)
    (app : N) (actor_fn : script) (body : M Sim unit) : outcome unit :=
  desc ← TestActorDesc_new "titi" (Ok tt) (Ok tt) (Ok child);
  '(s, p) ← connect fuel actor_fn;
  r ← test_init args os s;
  context ← unwrap_ok r;
  '(_, st) ← body (mk_sim (mk_world context p) app sched);
  _ ← TestActorDesc_drop (Ok tt) desc;
  '(_, _) ← Context_drop (w_ctx (s_world st));
  Ret tt.
End sim.

(** ** Tests that wait for a packet *)
#[export] Instance Notifiers_callbacks {D} `{!DeadlineCallbacks D} : Callbacks (RecvNotifier * D) :=
  run_callbacks.

(** [RecvNotifier::wait] *)
Definition recv_notifier_wait {OS Q D} `{FlatBuffers, Chrono, Libc, !Posix OS, !LocalClock OS,
    !ArrayQueue Q, !DeadlineCallbacks D} (fuel : nat) : M (sim OS Q (RecvNotifier * D)) unit :=
  _ ← next_signals fuel;
  _ ← sleep_until fuel fuel (gets (λ s, notified (s_app s).1));
  zoom (λ s, (s_app s).1) (λ r s, mk_sim (s_world s) (r, (s_app s).2) (s_signals s))
    (RecvNotifier_wait 1).
