(* ===== verification/TestRunSpec.v ===== *)
(** * TestRunSpec: reasoning about tests

    [settles] gives the outcome of a computation from some fuel on.  The first
    lemmas are about the signals of a test; the section [phases] is the pattern
    most tests follow: the simulation runs, in a phase that a bounded number of
    signals ends, and has then stopped for good. *)
From S2P Require Import Prelude Std BufferPool BytesBuffer Wire FbBuffer Connector.
From S2P Require Import ConnectorSpec ConnectorPeer OutputMsgSet WaitfreeArrayQueue Chrono.
From S2P Require Import Error LibcTimer Timer TimerProcess TimerProcessSpec TimerProcessLive.
From S2P Require Import Context ContextSpec DeadlineSpec ContextInit HandleDeadline TestActor.
From S2P Require Import ActorSpec TestHelpers ScriptSpec Cosim CosimSpec CosimRun Handlers.
From S2P Require Import Lifetime Config Capi TestRun.
From stdpp Require Import base option list numbers strings.
From Stdlib Require Import ZArith Lia.

(** ** Results from some fuel on *)
Definition settles {A} (m : nat → outcome A) (o : outcome A) : Prop :=
  ∃ n, ∀ fuel, n ≤ fuel → m fuel = o.
Abbreviation returns m x := (settles m (Ret x)).

Lemma settles_always {A} (m : nat → outcome A) o : (∀ fuel, m fuel = o) → settles m o.
Proof. intros Hm. by exists 0. Qed.

Lemma settles_const {A} (m o : outcome A) : m = o → settles (λ _, m) o.
Proof. intros Hm. by exists 0. Qed.

Lemma settles_outcome {A B} (m : nat → outcome A) (k : nat → A → outcome B) x o :
  returns m x → settles (λ fuel, k fuel x) o → settles (λ fuel, m fuel ≫= k fuel) o.
Proof.
  intros [n Hn] [n' Hn']. exists (max n n'). intros fuel Hf. rewrite Hn by lia. apply Hn'. lia.
Qed.

Lemma settles_then {St A B} (m : nat → M St A) (k : nat → A → M St B) s x s1 o :
  returns (λ fuel, m fuel s) (x, s1) → settles (λ fuel, k fuel x s1) o →
  settles (λ fuel, (m fuel ≫= k fuel) s) o.
Proof.
  intros [n Hn] [n' Hn']. exists (max n n'). intros fuel Hf.
  unfold mbind, M_bind. rewrite Hn by lia. apply Hn'. lia.
Qed.

Lemma settles_step {St A B} (m : M St A) (k : nat → A → M St B) s x s1 o :
  m s = Ret (x, s1) → settles (λ fuel, k fuel x s1) o →
  settles (λ fuel, (m ≫= k fuel) s) o.
Proof. intros Hm. apply (settles_then (λ _, m)). by apply settles_const. Qed.

(** The outcome of a computation in [s], from some fuel on, is one of [P]. *)
Definition ends {St A} (P : outcome (A * St) → Prop) (m : nat → M St A) (s : St) : Prop :=
  ∃ o, P o ∧ settles (λ fuel, m fuel s) o.
Abbreviation passes := (ends (λ o, ∃ st, o = Ret (tt, st))).

Lemma ends_then {St A B} P (m : nat → M St A) (k : nat → A → M St B) s x s1 :
  returns (λ fuel, m fuel s) (x, s1) → ends P (λ fuel, k fuel x) s1 →
  ends P (λ fuel, m fuel ≫= k fuel) s.
Proof. intros Hm (o&HP&Hk). exists o. split; [done|]. by eapply settles_then. Qed.

Lemma ends_step {St A B} P (m : M St A) (k : nat → A → M St B) s x s1 :
  m s = Ret (x, s1) → ends P (λ fuel, k fuel x) s1 → ends P (λ fuel, m ≫= k fuel) s.
Proof. intros Hm. apply (ends_then P (λ _, m)). by apply settles_const. Qed.

Lemma passes_returns {St} (m : nat → M St unit) s st :
  returns (λ fuel, m fuel s) (tt, st) → passes m s.
Proof. intros Hm. eexists. split; [by eexists|done]. Qed.

Section spec.
Context {OS : Type} {Q : Type → Type} {N : Type} `{FL : FlatBuffersLaws, PV : PosixLive OS}
  `{AQ : ArrayQueueLaws Q, CBL : CallbacksLaws N}.

Abbreviation PTimer := (ProcessTimer (S := OS)).
Abbreviation World := (world PTimer Q).
Implicit Types (w : World) (n : N) (l : list nat).

(** The flag of the timer. *)
Definition halted w : bool := stopped (timer_context (w_ctx w)).1.
Definition halt w : World :=
  let '(t, s) := timer_context (w_ctx w) in
  mk_world (set_timer_context (mk_process_timer (pt_time_offset t) (application_time t)
    (simulation_time t) (timer_id t) (pt_at_deadline t) (current_deadline t)
    (pt_prev_deadline t) (pt_next_deadline t) (prev_deadline_raw t) (next_deadline_raw t) true, s)
    (w_ctx w)) (w_proc w).

Lemma halted_halt w : halted (halt w) = true.
Proof. unfold halted, halt. by destruct (timer_context (w_ctx w)). Qed.

Lemma halt_callbacks w : callbacks (w_ctx (halt w)) = callbacks (w_ctx w).
Proof. unfold halt. by destruct (timer_context (w_ctx w)). Qed.

Lemma halt_repr w out up inn : repr (w_ctx w) out up inn → repr (w_ctx (halt w)) out up inn.
Proof. unfold halt. by destruct (timer_context (w_ctx w)). Qed.

Lemma on_ctx_run {A} (m : M (Context PTimer Q) A) c p x c' :
  m c = Ret (x, c') → on_ctx m (mk_world c p) = Ret (x, mk_world c' p).
Proof. intros Hm. unfold on_ctx. by erewrite zoom_run by exact Hm. Qed.

Lemma is_stopped_run w : is_stopped w = Ret (halted w, w).
Proof.
  unfold is_stopped, on_ctx, on_timer, zoom, field, gets, halted. simpl.
  destruct w as [c p]. simpl. by destruct c.
Qed.

Lemma set_stopped_run w :
  on_ctx (on_timer (set_stopped true)) w = Ret (tt, halt w).
Proof.
  unfold halt, on_ctx, on_timer, zoom, set_stopped, update, modify. simpl.
  by destruct (timer_context (w_ctx w)).
Qed.

(** The handler of the test is the one of whole simulations, which also raises
    the flag. *)
Lemma live_handler_run fuel w o w1 :
  live_handle_deadline fuel w = Ret (o, w1) →
  live_deadline_handler fuel w = Ret (tt, match o with Some _ => w1 | None => halt w1 end).
Proof.
  unfold live_handle_deadline, live_deadline_handler.
  intros (f&w2&Hf&Hrun)%bind_inv. erewrite bind_run by exact Hf.
  apply bind_inv in Hrun as (a&w3&Ha&Hrun). erewrite bind_run by exact Ha.
  destruct a as [d|]; [|injection Hrun as <- <-; apply set_stopped_run].
  apply bind_inv in Hrun as ([]&w4&Hres&Hrun). injection Hrun as <- <-.
  apply zoom_inv in Hres as (c4&Hres&->). apply zoom_inv in Hres as (tm&Hres&->).
  apply bind_inv in Hres as (r&tm1&Hth&[Hr ->]%lift_inv).
  erewrite bind_run by (apply zoom_run; apply zoom_run; exact Hth).
  unfold lift. by rewrite Hr.
Qed.

(** The flag during a deadline. *)
Lemma freeze_stopped (t t' : PTimer) f :
  freeze_time t = Ret (f, t') → stopped t'.1 = stopped t.1.
Proof.
  unfold freeze_time, set_current_deadline, set_at_deadline, update. intros Hrun.
  destruct t as [t s].
  apply bind_inv in Hrun as (now&[t1 s1]&Hnow&Hrun).
  destruct (clock_now_inv _ _ _ _ _ Hnow) as (->&_).
  apply bind_inv in Hrun as (d&[t2 s2]&Happ&Hrun).
  destruct (application_now_inv _ _ _ _ _ Happ) as (->&_). by run_inv; simplify_eq/=.
Qed.

Lemma resume_stopped (t t' : PTimer) f d :
  tc_resume f d t = Ret (tt, t') → stopped t'.1 = stopped t.1.
Proof.
  destruct t as [t s], t' as [t' s']. intros ([r|]&p&Hth&[Hr Heq]%lift_inv)%bind_inv;
    [|done]. subst p. injection Hr as ->.
  by destruct (thaw_inv _ _ _ _ _ _ Hth) as (_&_&_&_&_&_&_&_&_&?&_).
Qed.

(** ** A signal *)
Lemma in_world_run {A} (m : M World A) w w' n n' l x cbs :
  m w = Ret (x, w') → callbacks (w_ctx w') = callbacks (w_ctx w) ++ cbs →
  app_callbacks cbs n = Ret (tt, n') →
  in_world m (mk_sim w n l) = Ret (x, mk_sim w' n' l).
Proof.
  intros Hm Hcb Hn. unfold in_world. cbn [s_world s_app s_signals]. rewrite Hm.
  cbn [mbind outcome_bind]. by rewrite Hcb, drop_app_length, Hn.
Qed.

(** A call without callbacks. *)
Lemma in_world_quiet {A} (m : M World A) w w' n l x :
  m w = Ret (x, w') → callbacks (w_ctx w') = callbacks (w_ctx w) →
  in_world m (mk_sim w n l) = Ret (x, mk_sim w' n l).
Proof.
  intros Hm Hcb. apply (in_world_run m w w' n n l x []); [done| |apply app_callbacks_nil].
  by rewrite app_nil_r.
Qed.

Lemma in_world_is_stopped w n l :
  in_world is_stopped (mk_sim w n l) = Ret (halted w, mk_sim w n l).
Proof. apply in_world_quiet; [apply is_stopped_run|done]. Qed.

Lemma signal_halted fuel w n l :
  halted w = true → signal fuel (mk_sim w n l) = Ret (tt, mk_sim w n l).
Proof.
  intros Hh. unfold signal. apply in_world_quiet; [|done].
  erewrite bind_run by apply is_stopped_run. by rewrite Hh.
Qed.

Lemma signals_halted k fuel w n l :
  halted w = true → signals k fuel (mk_sim w n l) = Ret (tt, mk_sim w n l).
Proof.
  intros Hh. induction k as [|k IH]; [done|]. simpl.
  by erewrite bind_run by (by apply signal_halted).
Qed.

(** A signal that the client can answer. *)
Lemma signal_runs limit w n l out up inn s :
  client_at (w_ctx w) out up inn s → answers limit w → ready w → (limit ≤ tc_limit)%Z →
  halted w = false →
  ∃ o w1, returns (λ fuel, live_handle_deadline fuel w) (o, w1) ∧
    (∀ cbs n', callbacks (w_ctx w1) = callbacks (w_ctx w) ++ cbs →
      app_callbacks cbs n = Ret (tt, n') →
      returns (λ fuel, signal fuel (mk_sim w n l))
        (tt, mk_sim (match o with Some _ => w1 | None => halt w1 end) n' l)) ∧
    out_cap (w_ctx w1) = out_cap (w_ctx w) ∧
    match o with
    | Some _ => ready w1 ∧ halted w1 = false
    | None => pt_at_deadline (timer_context (w_ctx w1)).1 = true
    end.
Proof.
  intros Hc Hans Hr Hlim Hh.
  destruct (handle_returns limit w Hans Hr Hlim) as (m&o&w1&Hrun&Hr1).
  exists o, w1. split; [by exists m|]. split.
  - intros cbs n' Hcb Hn. exists m. intros fuel Hf. unfold signal.
    eapply in_world_run; [| |exact Hn].
    + erewrite bind_run by apply is_stopped_run. rewrite Hh. by apply live_handler_run, Hrun.
    + by destruct o; [|rewrite halt_callbacks].
  - destruct w as [c p].
    destruct (live_handle_timer m c p o w1 out up inn s Hc (Hrun m ltac:(lia)))
      as (f&tm&Hf&Ho&Hres). split; [done|]. destruct o as [d|].
    + split; [by apply Hr1|]. unfold halted in *.
      rewrite (resume_stopped _ _ _ _ Hres), (freeze_stopped _ _ _ Hf). done.
    + cbn [w_ctx] in Hf. rewrite Hres. destruct (timer_context c) as [t os], tm as [t' os'].
      by destruct (freeze_time_inv _ _ _ _ _ Hf) as (?&_).
Qed.

(** ** Starting *)
Lemma process_started d (t t' : PTimer) off :
  tc_start d t = Ret (Ok off, t') → stopped t'.1 = false ∧ off = pt_time_offset t.1.
Proof.
  destruct t as [t s], t' as [t' s']. simpl. unfold Process_start, set_stopped, update.
  intros ([]&[t1 s1]&Hset&Hrun)%bind_inv. apply modify_inv in Hset. simplify_eq/=.
  apply bind_inv in Hrun as (r&[t2 s2]&Hth&Hrun). destruct r as [[]|e].
  - destruct (thaw_inv _ _ _ _ _ _ Hth) as (_&_&_&_&_&_&_&_&Eo&Es&_).
    unfold field in Hrun. apply bind_inv in Hrun as (o&p&[-> ->]%gets_inv&Hrun).
    injection Hrun as <- <- <-. simpl in *. by split.
  - apply bind_inv in Hrun as (?&?&?&Hrun). by run_inv.
Qed.

(** The signals before a call, while there are none. *)
Lemma next_signals_halted fuel w n l :
  halted w = true → next_signals fuel (mk_sim w n l) = Ret (tt, mk_sim w n (tail l)).
Proof. intros Hh. unfold next_signals. destruct l; [done|]. by apply signals_halted. Qed.

Lemma app_start_run fuel c p d off c1 n n' l :
  begun c d off c1 → halted (mk_world c p) = true → callbacks c = [] →
  app_callbacks [DeadlineCallback d] n = Ret (tt, n') →
  app_call fuel Context_start (mk_sim (mk_world c p) n l) =
    Ret (Ok off, mk_sim (mk_world c1 p) n' (tail l)).
Proof.
  intros (Hrun&_&Hcb1&_) Hh Hcb Hn. unfold app_call.
  erewrite bind_run by (by apply next_signals_halted).
  eapply in_world_run; [by apply on_ctx_run| |exact Hn]. cbn [w_ctx]. by rewrite Hcb, Hcb1.
Qed.

Lemma begun_halted c d off c1 p : begun c d off c1 → halted (mk_world c1 p) = false.
Proof. intros (_&Hs&_). by destruct (process_started _ _ _ _ Hs). Qed.

(** The operating system can create the timer. *)
Definition creates (os : OS) : Prop :=
  ∃ id os', timer_create Monotonic None os = Ret (Ok id, os') ∧ os_timer id os'.

Definition titi : bytes := String.list_byte_of_string "titi".

Section context.
Context (from_iter_safe : list bytes → result Config string) (not_found : io_error).

(** The context of a test. *)
Definition test_context (t : NaiveDateTime) (nb : nat) (s : UnixStream)
    (c : Context PTimer Q) : Prop :=
  fresh_client c s ∧ in_cap c = nb ∧ out_cap c = nb ∧ stopped (timer_context c).1 = true ∧
  cd_ns (pt_time_offset (timer_context c).1) = ndt_ns t.

Lemma test_init_run args os s addr t nb :
  from_iter_safe args = Ok (mk_cfg titi addr t nb) → in_u32 addr → 0 < nb →
  (Z.of_nat (MAX_PACKET_SIZE * nb) ≤ isize_max)%Z → ndt_plain t →
  (Z.abs (ndt_ns t) ≤ CLOCK_RANGE)%Z → creates os →
  ∃ c, test_init from_iter_safe not_found args os s = Ret (Ok c) ∧ test_context t nb s c.
Proof.
  intros Hargs Ha Hnb Hmax Hp Ht (id&os'&Hid&Hos). unfold test_init, new_timer, Process_new.
  rewrite Hargs. destruct ndt_epoch as (e&He&Hens&Hep).
  erewrite bind_run by (unfold lift; by rewrite He). erewrite try_run_Ok by done.
  erewrite try_run_Ok by exact Hid.
  set (tm := mk_process_timer _ _ _ _ _ _ _ _ _ _ _).
  destruct (Context_new_spec (T := PTimer) (Q := Q) addr nb s (tm, os') Ha Hnb Hmax)
    as (c&Hc&Hr&Hic&Hoc&_&Hs&Hti&Hst&Hcb).
  exists c. split; [exact Hc|]. unfold test_context, fresh_client.
  rewrite Hti, Hic, Hoc. split_and!; try done.
  simpl. by rewrite ndt_since_ns, Hens, Z.sub_0_r.
Qed.

(** The context is freed. *)
Lemma Context_drop_returns (c : Context PTimer Q) : ∃ c', Context_drop c = Ret (tt, c').
Proof.
  unfold Context_drop, on_timer, zoom, tc_drop, Process_Destroy, Process_drop, on_os, field.
  simpl. unfold zoom, timer_delete, mbind, M_bind. simpl.
  destruct (timer_context _) as [t os1]. simpl. destruct (os_timer_delete _ _). by eexists.
Qed.

(** A test from the body on. *)
Lemma run_test_settles child args os sched app actor_fn (body : nat → M (sim OS Q N) unit)
    s p c o :
  returns (λ fuel, connect fuel actor_fn) (s, p) →
  test_init from_iter_safe not_found args os s = Ret (Ok c) →
  settles (λ fuel, body fuel (mk_sim (mk_world c p) app sched)) o →
  settles (λ fuel, run_test from_iter_safe not_found fuel child args os sched app actor_fn
    (body fuel)) (_ ← o; Ret tt).
Proof.
  intros Hconn Hinit Hbody. unfold run_test.
  change (TestActorDesc_new "titi" _ _ _) with (Ret (mk_desc "titi" (Some child))).
  cbn [mbind outcome_bind]. eapply settles_outcome; [exact Hconn|]. cbv beta iota.
  rewrite Hinit. cbn [mbind outcome_bind unwrap_ok].
  destruct Hbody as [k Hk]. exists k. intros fuel Hf. rewrite (Hk fuel Hf).
  destruct o as [[[] st]| |]; [|done..]. cbn [mbind outcome_bind TestActorDesc_drop].
  by destruct (Context_drop_returns (w_ctx (s_world st))) as (c'&->).
Qed.
End context.

(** A call is the signals before it, then the call. *)
Lemma app_call_returns {A} (m : M (Context PTimer Q) A) s s1 x s2 :
  returns (λ fuel, next_signals fuel s) (tt, s1) → in_world (on_ctx m) s1 = Ret (x, s2) →
  returns (λ fuel, app_call (N := N) fuel m s) (x, s2).
Proof.
  intros Hs Hm. unfold app_call. eapply settles_then; [exact Hs|]. by apply settles_const.
Qed.

(** ** Phases

    [before m]: the simulation runs, and at most [S m] more signals end it.
    [after]: it has ended. *)
Section phases.
Context (before : nat → World → N → Prop) (after : World → N → Prop).
Hypotheses (Hbefore : ∀ m w n, before m w n → halted w = false)
  (Hafter : ∀ w n, after w n → halted w = true)
  (Hsignal : ∀ m w n l, before m w n →
    ∃ w' n', returns (λ fuel, signal fuel (mk_sim w n l)) (tt, mk_sim w' n' l) ∧
      ((∃ m', m' < m ∧ before m' w' n') ∨ after w' n')).

Definition phase w n : Prop := (∃ m, before m w n) ∨ after w n.

Lemma phase_signals k w n l :
  phase w n → ∃ w' n',
    returns (λ fuel, signals k fuel (mk_sim w n l)) (tt, mk_sim w' n' l) ∧ phase w' n'.
Proof.
  revert w n. induction k as [|k IH]; intros w n Hp.
  { exists w, n. by split; [apply settles_always|]. }
  destruct Hp as [[m Hm]|Ha].
  - destruct (Hsignal m w n l Hm) as (w1&n1&Hs&Hnext).
    destruct (IH w1 n1) as (w'&n'&Hs'&Hp').
    { destruct Hnext as [(m'&_&?)|?]; [left; by exists m'|by right]. }
    exists w', n'. split; [|done]. by eapply settles_then.
  - exists w, n. split; [|by right]. apply settles_always. intros fuel.
    by apply signals_halted, Hafter with n.
Qed.

Lemma next_signals_after fuel w n l :
  after w n → ∃ l', next_signals fuel (mk_sim w n l) = Ret (tt, mk_sim w n l') ∧ l' = tail l.
Proof.
  intros Ha. exists (tail l). split; [|done]. unfold next_signals. destruct l; [done|].
  by apply signals_halted, Hafter with n.
Qed.

Lemma phase_next w n l :
  phase w n → ∃ w' n',
    returns (λ fuel, next_signals fuel (mk_sim w n l)) (tt, mk_sim w' n' (tail l)) ∧
    phase w' n'.
Proof.
  intros Hp. destruct l as [|k l].
  - exists w, n. by split; [apply settles_always|].
  - apply (phase_signals k w n l Hp).
Qed.

(** Sleeping until something that holds once the simulation has ended. *)
Lemma sleep_reaches cond w n l :
  (∀ m w n l, before m w n → cond (mk_sim w n l) = Ret (false, mk_sim w n l)) →
  (∀ w n l, after w n → cond (mk_sim w n l) = Ret (true, mk_sim w n l)) →
  phase w n → ∃ w' n',
    returns (λ fuel, sleep_until fuel fuel cond (mk_sim w n l)) (tt, mk_sim w' n' l) ∧
    after w' n'.
Proof.
  intros Hb Ha Hp.
  enough (∃ k w' n', (∀ i fuel, k ≤ i → k ≤ fuel →
    sleep_until i fuel cond (mk_sim w n l) = Ret (tt, mk_sim w' n' l)) ∧ after w' n')
    as (k&w'&n'&Hk&?).
  { exists w', n'. split; [|done]. exists k. intros fuel Hf. by apply Hk. }
  assert (∀ w n, after w n → ∃ k w' n', (∀ i fuel, k ≤ i → k ≤ fuel →
    sleep_until i fuel cond (mk_sim w n l) = Ret (tt, mk_sim w' n' l)) ∧ after w' n') as Hdone.
  { intros w1 n1 H1. exists 1, w1, n1. split; [|done]. intros [|i] fuel ??; [lia|]. simpl.
    by erewrite bind_run by (by apply Ha). }
  destruct Hp as [[m Hm]|]; [|by apply Hdone].
  revert w n Hm. induction m as [m IH] using lt_wf_ind. intros w n Hm.
  destruct (Hsignal m w n l Hm) as (w1&n1&[k1 Hs]&Hnext).
  assert (∃ k w' n', (∀ i fuel, k ≤ i → k ≤ fuel →
    sleep_until i fuel cond (mk_sim w1 n1 l) = Ret (tt, mk_sim w' n' l)) ∧ after w' n')
    as (k&w'&n'&Hk&Hw').
  { destruct Hnext as [(m'&Hlt&Hm')|]; [by apply (IH m')|by apply Hdone]. }
  exists (S (max k k1)), w', n'. split; [|done]. intros [|i] fuel ??; [lia|]. simpl.
  erewrite bind_run by (by eapply Hb). cbv beta iota.
  erewrite bind_run by (apply Hs; lia). apply Hk; lia.
Qed.

Lemma Context_stop_halted w :
  halted w = true → on_ctx (Context_stop 1) w = Ret (tt, w).
Proof.
  intros Hh. unfold on_ctx, Context_stop, on_timer, zoom. simpl. unfold zoom. simpl.
  unfold halted in Hh. destruct w as [c p], (timer_context c) as [t s] eqn:Ht. simpl in *.
  rewrite Ht. unfold Process_stop, field, gets, mbind, M_bind. simpl. rewrite Ht in Hh. simpl in Hh.
  rewrite Hh. simpl. rewrite <- Ht. by destruct c.
Qed.

Lemma stop_reaches w n l :
  phase w n → ∃ w' n',
    returns (λ fuel, app_stop fuel (mk_sim w n l)) (tt, mk_sim w' n' (tail l)) ∧ after w' n'.
Proof.
  intros Hp. destruct (phase_next w n l Hp) as (w1&n1&Hnext&Hp1).
  destruct (sleep_reaches (in_world is_stopped) w1 n1 (tail l)) as (w2&n2&Hs&H2); [| |done|].
  { intros m w0 n0 l0 Hw0. rewrite in_world_is_stopped. by rewrite (Hbefore m w0 n0). }
  { intros w0 n0 l0 Hw0. rewrite in_world_is_stopped. by rewrite (Hafter w0 n0). }
  exists w2, n2. split; [|done]. unfold app_stop.
  eapply settles_then; [exact Hnext|]. eapply settles_then; [exact Hs|].
  apply settles_const, in_world_quiet; [|done]. by apply Context_stop_halted, Hafter with n2.
Qed.
End phases.

Lemma halted_stop w n l :
  halted w = true →
  returns (λ fuel, app_stop fuel (mk_sim w n l)) (tt, mk_sim w n (tail l)).
Proof.
  intros Hh. unfold app_stop.
  eapply settles_then; [apply settles_always; intros; by apply next_signals_halted|].
  eapply settles_then.
  - exists 1. intros [|fuel] Hf; [lia|]. simpl.
    erewrite bind_run by apply in_world_is_stopped. by rewrite Hh.
  - apply settles_const, in_world_quiet; [|done]. by apply Context_stop_halted.
Qed.
End spec.
