(* ===== verification/TestScripts.v ===== *)
(** * TestScripts: the phases of the tests

    For each script of the test helpers, the states a client goes through from
    its start on: what a signal does in them, and what the calls of the
    application return. *)
From S2P Require Import Prelude Std BufferPool BytesBuffer Wire FbBuffer Connector.
From S2P Require Import ConnectorSpec ConnectorPeer OutputMsgSet WaitfreeArrayQueue Chrono.
From S2P Require Import Error LibcTimer Timer TimerProcess TimerProcessSpec TimerProcessLive.
From S2P Require Import Context ContextSpec DeadlineSpec ContextInit HandleDeadline TestActor.
From S2P Require Import ActorSpec TestHelpers ScriptSpec Cosim CosimSpec CosimRun CosimDelayed.
From S2P Require Import Handlers Lifetime Config Capi TestRun TestRunSpec.
From stdpp Require Import base option list numbers strings.
From Stdlib Require Import ZArith Lia.

Section scripts.
Context {OS : Type} {Q : Type → Type} {N : Type} `{FL : FlatBuffersLaws, PV : PosixLive OS}
  `{AQ : ArrayQueueLaws Q, CBL : CallbacksLaws N, PR : Profile}.

Abbreviation PTimer := (ProcessTimer (S := OS)).
Abbreviation World := (world PTimer Q).
Abbreviation SLICE := RECV_ONE_MSG_ACTOR_SLICE.
Implicit Types (w : World) (n : N) (l : list nat).

(** The data of the application, which was [n0] at the start. *)
Context (n0 : N).
Definition synced w n : Prop := app_callbacks (callbacks (w_ctx w)) n0 = Ret (tt, n).

Lemma synced_after w w' n cbs :
  synced w n → callbacks (w_ctx w') = callbacks (w_ctx w) ++ cbs →
  ∃ n', app_callbacks cbs n = Ret (tt, n') ∧ synced w' n'.
Proof.
  intros Hn Hcb. destruct (app_callbacks_total cbs n) as (n'&Hn'). exists n'. split; [done|].
  unfold synced. rewrite Hcb, app_callbacks_app. by erewrite bind_run by exact Hn.
Qed.

(** ** [recv_one_msg_actor] *)
(** The client has sent nothing and has met [S j] deadlines. *)
Definition idle (j : nat) w n : Prop :=
  recv_one_after j [] [] w ∧ ready w ∧ halted w = false ∧ 0 < out_cap (w_ctx w) ∧ synced w n.

(** It has sent something. *)
Definition loaded (j : nat) w n : Prop :=
  ∃ out up, recv_one_after j out up w ∧ out ≠ [] ∧ ready w ∧ halted w = false ∧ synced w n.

(** The number of signals the tests can take. *)
Definition MAX_SIGNALS : Z := 2 ^ 32 - 4.

Lemma slice_in_limit j : (Z.of_nat j ≤ MAX_SIGNALS)%Z →
  ((Z.of_nat (S (S (S j))) * SLICE ≤ tc_limit)%Z).
Proof.
  simpl. unfold MAX_SIGNALS, RECV_ONE_MSG_ACTOR_SLICE, from_micros, CDuration_MAX, i64_max. lia.
Qed.

Lemma recv_one_signal j out up w n l :
  recv_one_after j out up w → ready w → halted w = false → synced w n →
  (Z.of_nat j ≤ MAX_SIGNALS)%Z →
  ∃ w' n', returns (λ fuel, signal fuel (mk_sim w n l)) (tt, mk_sim w' n' l) ∧
    out_cap (w_ctx w') = out_cap (w_ctx w) ∧ synced w' n' ∧
    ((out = [] ∧ recv_one_after (S j) [] up w' ∧ ready w' ∧ halted w' = false) ∨
     ((out ≠ [] ∨ up ≠ []) ∧ halted w' = true ∧ n' = n)).
Proof.
  intros Hi Hr Hh Hn Hj. destruct (Hi) as (Hc&_).
  assert (recv_one_inv w) as Hinv by (by exists j, out, up).
  destruct (signal_runs tc_limit w n l out up [] blank Hc (recv_one_inv_answers w Hinv) Hr
    ltac:(done) Hh) as (o&w1&[k Hk]&Hsig&Hoc&Ho).
  destruct (recv_one_after_deadline k j out up w o w1 Hi (Hk k ltac:(lia))) as (Hcase&_).
  destruct o as [d|].
  - destruct Hcase as (->&->&Hcb&Hnext). destruct (synced_after w w1 n _ Hn Hcb) as (n'&Hcbs&Hn').
    exists w1, n'. split; [by eapply Hsig|]. split_and!; [done|done|]. left. destruct Ho as [??].
    split_and!; try done; try apply Hnext; pose proof (slice_in_limit j Hj) as Hlim; simpl in *;
      lia.
  - destruct Hcase as (Hne&Hcb). exists (halt w1), n.
    split; [apply (Hsig [] n); [by rewrite app_nil_r|apply app_callbacks_nil]|].
    split_and!.
    + rewrite <- Hoc. unfold halt. by destruct (timer_context (w_ctx w1)).
    + unfold synced. by rewrite halt_callbacks, Hcb.
    + right. split_and!; [done|apply halted_halt|done].
Qed.

Lemma idle_signal j w n l :
  idle j w n → (Z.of_nat j ≤ MAX_SIGNALS)%Z →
  ∃ w' n', returns (λ fuel, signal fuel (mk_sim w n l)) (tt, mk_sim w' n' l) ∧
    idle (S j) w' n'.
Proof.
  intros (Hi&Hr&Hh&Ho&Hn) Hj.
  destruct (recv_one_signal j [] [] w n l Hi Hr Hh Hn Hj)
    as (w'&n'&Hs&Ho'&Hn'&[(_&Hi'&Hr'&Hh')|([|]&_)]); [|done..].
  exists w', n'. split; [done|]. split_and!; try done. by rewrite Ho'.
Qed.

Lemma idle_signals k j w n l :
  idle j w n → (Z.of_nat (j + k) ≤ MAX_SIGNALS)%Z →
  ∃ w' n', returns (λ fuel, signals k fuel (mk_sim w n l)) (tt, mk_sim w' n' l) ∧
    idle (j + k) w' n'.
Proof.
  revert j w n. induction k as [|k IH]; intros j w n Hi Hj.
  { exists w, n. rewrite Nat.add_0_r. by split; [apply settles_always|]. }
  destruct (idle_signal j w n l Hi) as (w1&n1&Hs&Hi1); [lia|].
  destruct (IH (S j) w1 n1 Hi1) as (w'&n'&Hs'&Hi'); [lia|]. exists w', n'.
  split; [by eapply settles_then|]. by replace (j + S k) with (S j + k) by lia.
Qed.

(** [i] signals have come and [l] are to come. *)
Definition budget (i : nat) l : Prop := (Z.of_nat (i + sum_list l) ≤ MAX_SIGNALS)%Z.

Lemma idle_next j w n l :
  idle j w n → budget j l →
  ∃ j' w' n', returns (λ fuel, next_signals fuel (mk_sim w n l)) (tt, mk_sim w' n' (tail l)) ∧
    idle j' w' n' ∧ budget j' (tail l).
Proof.
  unfold budget. intros Hi Hb. destruct l as [|k l]; simpl in *.
  { exists j, w, n. by split; [apply settles_always|]. }
  destruct (idle_signals k j w n l Hi) as (w'&n'&Hs&Hi'); [lia|].
  exists (j + k), w', n'. split_and!; [exact Hs|done|lia].
Qed.

(** Once it has sent something, a signal ends the simulation. *)
Definition loaded_before (j : nat) (n1 : N) (m : nat) w n : Prop := loaded j w n ∧ n = n1.
Definition stopped_with (n1 : N) w n : Prop := halted w = true ∧ n = n1.

Lemma loaded_signal j n1 m w n l :
  (Z.of_nat j ≤ MAX_SIGNALS)%Z → loaded_before j n1 m w n →
  ∃ w' n', returns (λ fuel, signal fuel (mk_sim w n l)) (tt, mk_sim w' n' l) ∧
    ((∃ m', m' < m ∧ loaded_before j n1 m' w' n') ∨ stopped_with n1 w' n').
Proof.
  intros Hj [(out&up&Hi&Hne&Hr&Hh&Hn) ->].
  destruct (recv_one_signal j out up w n1 l Hi Hr Hh Hn Hj)
    as (w'&n'&Hs&_&Hn'&[[-> _]|(_&Hh'&->)]); [done|].
  exists w', n1. split; [done|]. by right.
Qed.

(** Stopping the client then. *)
Lemma loaded_stop j w n l :
  (Z.of_nat j ≤ MAX_SIGNALS)%Z → loaded j w n →
  ∃ w', returns (λ fuel, app_stop fuel (mk_sim w n l)) (tt, mk_sim w' n (tail l)) ∧
    halted w' = true.
Proof.
  intros Hj Hl.
  destruct (stop_reaches (loaded_before j n) (stopped_with n)
    ltac:(by intros m w0 n1 [(?&?&_&_&_&?&_) _]) ltac:(by intros w0 n1 [? _])
    (λ m w n1 l, loaded_signal j n m w n1 l Hj) w n l) as (w'&n'&Hs&Hh&->).
  { left. by exists 0. }
  by exists w'.
Qed.

(** ** Calls that leave the timer running *)
Lemma now_halted (t t' : PTimer) d : tc_simulation_now t = Ret (d, t') → t'.1 = t.1.
Proof.
  destruct t as [t s], t' as [t' s']. intros Hnow.
  by destruct (simulation_now_inv _ _ _ _ _ Hnow) as (->&_).
Qed.

Lemma recv_one_after_same j out up out' up' c c' p :
  recv_one_after j out up (mk_world c p) → client_at c' out' up' [] blank → same_run c c' →
  recv_one_after j out' up' (mk_world c' p).
Proof.
  intros (_&Hat&Hcap&Hn&Hdl&Hmax) Hc (Ecb&En&Ei). unfold recv_one_after, deadlines in *.
  cbn [w_ctx w_proc] in *. rewrite Ecb, En, Ei. by split_and!.
Qed.

(** Sending in an idle state: too big, or accepted. *)
Lemma idle_send j w n l msg :
  idle j w n →
  ∃ w', in_world (on_ctx (Context_send remote_vsg_address msg)) (mk_sim w n l) =
      Ret (if MAX_PACKET_SIZE <? length msg then Err SizeTooBig else Ok tt, mk_sim w' n l) ∧
    (MAX_PACKET_SIZE < length msg → idle j w' n) ∧ (small msg → loaded j w' n).
Proof.
  intros (Hi&Hr&Hh&Ho&Hn). destruct w as [c p]. destruct (Hi) as (Hc&_). cbn [w_ctx] in *.
  destruct (Hc) as (Hrep&Hinv&Hs&_). destruct (tc_now_returns _ Hr) as (t&tm&Hnow&Hr').
  destruct (tc_now_frame _ _ _ Hnow) as (Hwf&Hp&Hnx).
  set (c1 := set_timer_context tm c).
  assert (client_at c1 [] [] [] blank ∧ same_run c c1) as [Hc1 Hsame].
  { split; [split_and!; try done; by eapply tc_inv_now|by split_and!]. }
  assert (halted (mk_world c1 p) = false) as Hh1.
  { unfold halted in *. cbn [w_ctx] in *. by rewrite <- (now_halted _ _ _ Hnow) in Hh. }
  assert (Context_send remote_vsg_address msg c = send_at t remote_vsg_address msg c1) as Hsend
    by (unfold Context_send, on_timer; by erewrite bind_run by (apply zoom_run; exact Hnow)).
  pose proof (send_at_spec c1 [] [] [] t remote_vsg_address msg None Hrep ltac:(done) Hwf
    ltac:(done) Hwf) as Hspec.
  destruct (Nat.ltb_spec MAX_PACKET_SIZE (length msg)) as [Hbig|Hsmall].
  - exists (mk_world c1 p). rewrite <- Hsend in Hspec.
    split; [apply in_world_quiet; [by apply on_ctx_run|done]|]. split.
    + intros _. split_and!; try done. by eapply recv_one_after_same.
    + unfold small. lia.
  - rewrite (proj2 (Nat.eqb_neq _ _)) in Hspec by (simpl; unfold c1, out_cap in *; simpl; lia).
    destruct Hspec as (c'&Hrun&(_&Ek&_&Et&_&Ecb)&_&l1&l2&Hl&Hrep').
    rewrite <- Hsend in Hrun. exists (mk_world c' p).
    split; [apply in_world_quiet; [by apply on_ctx_run|done]|]. split; [lia|]. intros Hmsg.
    symmetry in Hl. apply app_nil in Hl as [-> ->]. simpl in Hrep'.
    exists [mk_pending t remote_vsg_address msg], []. split; [|split_and!; try done].
    + eapply recv_one_after_same; [exact Hi| |].
      * unfold client_at. rewrite Ek, Et. split_and!; try done; [apply Hc1|].
        by apply Forall_singleton.
      * unfold same_run, in_cap. by rewrite Ecb, Et, Ek.
    + unfold ready. cbn [w_ctx]. by rewrite Et.
    + unfold halted. cbn [w_ctx]. by rewrite Et.
    + unfold synced. cbn [w_ctx]. by rewrite Ecb.
Qed.

(** Reading the time of day, which is far from the ends of its range. *)
Definition sane_time (tv : timeval) : Prop :=
  (Z.abs (tv_sec tv) ≤ 2 ^ 62 ∧ 0 ≤ tv_usec tv < 1000000)%Z.

Lemma date_sane d :
  ndt_plain d → (Z.abs (ndt_ns d) ≤ NDT_RANGE)%Z →
  sane_time (mk_timeval (as_i64 (ndt_timestamp d)) (as_i64 (ndt_timestamp_subsec_micros d))).
Proof.
  intros Hp Hr. unfold sane_time. simpl. rewrite ndt_timestamp_div, ndt_subsec_micros_mod by done.
  destruct (timeval_split (ndt_ns d)) as (?&?&_); [|done]. unfold NDT_RANGE in Hr. lia.
Qed.

Lemma gettimeofday_run w n l :
  ready w → ∃ tv os', sane_time tv ∧ let '(t, _) := timer_context (w_ctx w) in
    let w' := mk_world (set_timer_context (t, os') (w_ctx w)) (w_proc w) in
    in_world (on_ctx gettimeofday) (mk_sim w n l) = Ret (tv, mk_sim w' n l) ∧ ready w'.
Proof.
  intros Hr. destruct w as [c p]. unfold ready in *. cbn [w_ctx w_proc] in *.
  destruct (timer_context c) as [t os] eqn:Ht. destruct Hr as (Hd&Hok&Hid). simpl in Hd, Hok, Hid.
  destruct (application_now_live t os Hok Hid) as (d&os'&Hrun&Hle&Hid'&Hsane).
  destruct (Hsane Hd) as [Hp Hns]. eexists _, os'. split; [by apply date_sane|]. split.
  - apply in_world_quiet; [|done]. apply on_ctx_run. unfold gettimeofday.
    erewrite bind_run; [done|]. unfold on_timer. apply zoom_run. rewrite Ht. exact Hrun.
  - simpl. split_and!; [done|by eapply offsets_ok_mono|done].
Qed.

Lemma idle_gettimeofday j w n l :
  idle j w n → ∃ tv w', sane_time tv ∧
    in_world (on_ctx gettimeofday) (mk_sim w n l) = Ret (tv, mk_sim w' n l) ∧ idle j w' n.
Proof.
  intros (Hi&Hr&Hh&Ho&Hn). destruct (gettimeofday_run w n l Hr) as (tv&os'&Hsane&Hrun).
  destruct w as [c p]. unfold halted in Hh. cbn [w_ctx w_proc] in *.
  destruct (timer_context c) as [t os] eqn:Ht. destruct Hrun as [Hrun Hr'].
  eexists tv, _. split; [done|]. split; [exact Hrun|]. split_and!; try done.
  destruct (Hi) as ((Hrep&Hinv&Hs&Hsm)&_). cbn [w_ctx] in *. rewrite Ht in Hinv.
  eapply recv_one_after_same; [exact Hi|by split_and!|]. split_and!; simpl; by rewrite ?Ht.
Qed.

(** After the end the time is that of the last deadline. *)
Lemma gettimeofday_ended w n l :
  pt_at_deadline (timer_context (w_ctx w)).1 = true →
  ∃ tv, in_world (on_ctx gettimeofday) (mk_sim w n l) = Ret (tv, mk_sim w n l).
Proof.
  intros Hd. destruct w as [c p]. cbn [w_ctx] in Hd.
  destruct (timer_context c) as [t os] eqn:Ht. simpl in Hd. eexists.
  apply in_world_quiet; [|done]. apply on_ctx_run. unfold gettimeofday.
  erewrite (bind_run _ _ (current_deadline t) c c); [done|].
  replace (Ret (current_deadline t, c)) with (Ret (current_deadline t, set_timer_context (t, os) c))
    by (rewrite <- Ht; by destruct c).
  unfold on_timer. apply zoom_run. rewrite Ht. simpl. unfold Process_application_now, field.
  erewrite bind_run by done. simpl. by rewrite Hd.
Qed.

(** ** [send_one_delayed_msg_actor] *)
Section delayed.
Context (msg : bytes) (slice delay : Z).
Hypotheses (Hmsg : small msg) (Hslice : (0 < slice)%Z) (Hdelay : (0 ≤ delay)%Z)
  (Hmax : (delay + slice ≤ u64_max)%Z) (Hlim : (from_micros delay ≤ CDuration_MAX)%Z).

Abbreviation schedule := (schedule slice delay).

Definition delayed_before (m : nat) w n : Prop :=
  delayed_inv msg slice delay w ∧ ready w ∧ halted w = false ∧ in_time w ∧
  callbacks (w_ctx w) = DeadlineCallback <$> deadlines (w_ctx w) ∧ synced w n ∧
  m = length (drop (length (deadlines (w_ctx w))) schedule).

Definition delayed_after w n : Prop :=
  halted w = true ∧ pt_at_deadline (timer_context (w_ctx w)).1 = true ∧
  (∃ up, repr (w_ctx w) [] up [delayed_packet msg]) ∧
  app_callbacks ((DeadlineCallback <$> schedule) ++ [RecvCallback]) n0 = Ret (tt, n).

Lemma delayed_signal m w n l :
  delayed_before m w n →
  ∃ w' n', returns (λ fuel, signal fuel (mk_sim w n l)) (tt, mk_sim w' n' l) ∧
    ((∃ m', m' < m ∧ delayed_before m' w' n') ∨ delayed_after w' n').
Proof.
  intros (Hi&Hr&Hh&Hin&Hcb&Hn&->). destruct (Hi) as (_&out&up&s&Hc&_).
  destruct (signal_runs (from_micros delay) w n l out up [] s Hc
    (delayed_inv_answers msg slice delay Hmsg Hslice Hdelay Hmax w Hi) Hr Hlim Hh)
    as (o&w1&[k Hk]&Hsig&_&Ho).
  pose proof (delayed_inv_deadline msg slice delay Hmsg Hslice Hdelay Hmax k w o w1 Hi
    (Hk k ltac:(lia))) as Hcase.
  destruct o as [d|].
  - destruct Hcase as (Hi1&Hin1&Hcb1). destruct Ho as [Hr1 Hh1].
    destruct (deadlines_told msg slice delay w w1 d Hi1 Hcb1) as [Hd Hdrop].
    destruct (synced_after w w1 n _ Hn Hcb1) as (n'&Hcbs&Hn').
    exists w1, n'. split; [by eapply Hsig|]. left. exists (length (drop (length (deadlines (w_ctx w1))) schedule)). rewrite Hdrop.
    split; [simpl; lia|]. split_and!; try done. by rewrite Hcb1, Hcb, Hd, fmap_app.
  - destruct (Hcase Hin) as (Hd&_&Hcb1&up'&Hrep).
    destruct (synced_after w w1 n _ Hn Hcb1) as (n'&Hcbs&Hn').
    exists (halt w1), n'. split; [by eapply Hsig|]. right. split_and!.
    + apply halted_halt.
    + rewrite <- Ho. unfold halt. by destruct (timer_context (w_ctx w1)).
    + exists up'. by apply halt_repr.
    + unfold synced in Hn'. rewrite Hcb1, Hcb in Hn'. rewrite <- Hd.
      enough (deadlines (w_ctx w1) = deadlines (w_ctx w)) as -> by done.
      unfold deadlines, callback_deadlines. by rewrite Hcb1, omap_app, app_nil_r.
Qed.

Lemma delayed_before_running m w n : delayed_before m w n → halted w = false.
Proof. by intros (_&_&?&_). Qed.
Lemma delayed_after_halted w n : delayed_after w n → halted w = true.
Proof. by intros (?&_). Qed.
End delayed.

(** ** [start_actor] *)
(** The script has ended; the end of the simulation is on its way. *)
Definition start_inv w : Prop :=
  0 < in_cap (w_ctx w) ∧ ∃ b : bytes, client_at (w_ctx w) [] [] [] (mk_stream b eof [] []) ∧
    frame_in VEnd b ∧ (∃ a, w_proc w = Draining a) ∧ start_once (w_ctx w) = true.

Lemma start_deadline w tm :
  start_inv w → tc_handling tm → tc_inv tm →
  ∃ k c', (∀ fuel, k ≤ fuel →
      live_at_deadline fuel (mk_world (set_timer_context tm (w_ctx w)) (w_proc w)) =
        Ret (EndSimulation, mk_world c' (w_proc w))) ∧
    repr c' [] [] [] ∧ callbacks c' = callbacks (w_ctx w) ∧ start_once c' = true.
Proof.
  intros (Hcap&l&(Hrep&_&Hs&_)&Hf&_&Hst) Hh Ht.
  destruct (live_deadline_ended (set_timer_context tm (w_ctx w)) (w_proc w) [] [] [] Hrep Hh
    (proj1 (tc_inv_wf _ Ht)) ltac:(simpl; by rewrite Hs) ltac:(simpl; by rewrite Hs))
    as [(?&_&Hl)|(sent&up'&x&inn'&rest&k&c'&Hup&Hrec&Hrun&Hr'&Hk&Hcb)]; [by destruct Hl|].
  symmetry in Hup. apply app_nil in Hup as [-> ->]. simpl in Hrec. rewrite Hs in Hrec. simpl in Hrec.
  assert (receives (in_cap (w_ctx w)) eof [] l EndSimulation [] []) as Hrec'.
  { rewrite <- (app_nil_r l). apply receives_end.
    apply (receives_frame _ _ []); [done|apply end_fits|done]. }
  destruct (receives_det _ _ _ _ _ _ _ _ _ _ Hrec Hrec') as (->&->&_).
  exists k, c'. destruct Hk as (_&_&Es&_). split_and!; [done..| |by rewrite Es].
  by rewrite Hcb, app_nil_r.
Qed.

Lemma start_inv_answers w : start_inv w → answers 0%Z w.
Proof.
  intros Hi f tm Hf. destruct (Hi) as (_&l&(_&Ht&_)&_).
  destruct (tc_freeze_spec _ _ _ Ht Hf) as (Hh&Ht'&_).
  destruct (start_deadline w tm Hi Hh Ht') as (k&c'&Hrun&_).
  by exists k, EndSimulation, (mk_world c' (w_proc w)).
Qed.

Definition start_before (n1 : N) (m : nat) w n : Prop :=
  start_inv w ∧ ready w ∧ halted w = false ∧ synced w n ∧ n = n1.
Definition start_after (n1 : N) w n : Prop :=
  halted w = true ∧ repr (w_ctx w) [] [] [] ∧ start_once (w_ctx w) = true ∧ n = n1.

Lemma start_signal n1 m w n l :
  start_before n1 m w n →
  ∃ w' n', returns (λ fuel, signal fuel (mk_sim w n l)) (tt, mk_sim w' n' l) ∧
    ((∃ m', m' < m ∧ start_before n1 m' w' n') ∨ start_after n1 w' n').
Proof.
  intros (Hi&Hr&Hh&Hn&->). destruct (Hi) as (_&s&Hc&_).
  destruct (signal_runs 0%Z w n1 l [] [] [] _ Hc (start_inv_answers w Hi) Hr ltac:(done) Hh)
    as (o&w1&[k Hk]&Hsig&_).
  specialize (Hk k ltac:(lia)). destruct w as [c p].
  destruct (live_handle_inv k c p o w1 (proj1 (proj2 Hc)) Hk)
    as (f&tm&a&w2&Hh2&Ht2&_&_&Hlive&Hend&_).
  destruct (start_deadline (mk_world c p) tm Hi Hh2 Ht2) as (k'&c'&Hall&Hrep&Hcb&Hst).
  cbn [w_ctx w_proc] in *.
  pose proof (live_at_deadline_det _ _ _ _ _ Hlive Hall) as [= -> ->].
  destruct Hend as [-> ->]. exists (halt (mk_world c' p)), n1. split.
  - apply (Hsig [] n1); [by rewrite app_nil_r|apply app_callbacks_nil].
  - right. split_and!; [apply halted_halt|by apply halt_repr| |done].
    unfold halt. cbn [w_ctx]. by destruct (timer_context c').
Qed.

(** The calls of the tests in these phases. *)
Abbreviation start_phase n1 := (phase (start_before n1) (start_after n1)).

Lemma start_again n1 w n l :
  start_phase n1 w n →
  in_world (on_ctx Context_start) (mk_sim w n l) = Ret (Err AlreadyStarted, mk_sim w n l).
Proof.
  intros Hp. assert (start_once (w_ctx w) = true) as Hst.
  { destruct Hp as [(m&(_&?&_&_&_&?)&_)|(_&_&?&_)]; done. }
  destruct w as [c p]. apply in_world_quiet; [|done]. apply on_ctx_run. unfold Context_start.
  cbn [w_ctx] in Hst. erewrite bind_run by done. simpl. by rewrite Hst.
Qed.

Lemma start_recv n1 w n l buf :
  start_phase n1 w n → ∃ w',
    in_world (on_ctx (Context_recv buf)) (mk_sim w n l) =
      Ret ((Err NoMessageAvailable, buf), mk_sim w' n l) ∧ start_phase n1 w' n.
Proof.
  intros Hp. destruct w as [c p].
  assert (repr c [] [] []) as Hrep.
  { destruct Hp as [(m&(_&?&[? _]&_)&_)|(_&?&_)]; done. }
  destruct (Context_recv_spec c [] [] [] buf Hrep) as (c'&Hrun&Hrep'&Hf&Hcap).
  destruct (Hf) as (_&Ek&Et&_&_&_&Es&Ec). exists (mk_world c' p).
  split; [apply in_world_quiet; [by apply on_ctx_run|done]|].
  destruct Hp as [(m&(Hic&l0&Hc&Hl&Ha&Hst)&Hr&Hh&Hn&->)|(Hh&_&Hst&->)].
  - left. exists m. cbn [w_ctx w_proc] in *.
    destruct (client_at_recv _ _ _ _ _ _ _ _ Hc Hrun) as (Hc'&_).
    unfold ready, halted, synced in *. cbn [w_ctx] in *.
    unfold start_before, start_inv, ready, halted, synced. cbn [w_ctx w_proc].
    rewrite Et, Ec, Hcap, Es. split_and!; try done. by exists l0.
  - right. unfold start_after, halted in *. cbn [w_ctx] in *. rewrite Et, Es. by split_and!.
Qed.

(** ** Starting

    [starts c p t ph]: the client [c], connected to [p], starts with the
    offset [t], and is then in the phase [ph]. *)
Definition starts (c : Context PTimer Q) (p : actor_process) (d : Duration) (t : NaiveDateTime)
    (ph : World → N → Prop) : Prop :=
  ∃ off w n, (∀ fuel l, app_call fuel Context_start (mk_sim (mk_world c p) n0 l) =
      Ret (Ok off, mk_sim w n (tail l))) ∧
    cd_ns off = ndt_ns t ∧ app_callbacks [DeadlineCallback d] n0 = Ret (tt, n) ∧ ph w n.

Lemma begun_starts t nb s c p d off c1 (ph : World → N → Prop) :
  test_context t nb s c → begun c d off c1 →
  (∀ n, synced (mk_world c1 p) n → app_callbacks [DeadlineCallback d] n0 = Ret (tt, n) →
    halted (mk_world c1 p) = false → ph (mk_world c1 p) n) →
  starts c p d t ph.
Proof.
  intros (Hc&_&_&Hst&Hoff) Hb Hph. destruct (Hc) as (_&_&Hcb&_).
  destruct (app_callbacks_total [DeadlineCallback d] n0) as (n&Hn).
  exists off, (mk_world c1 p), n. split_and!; [|..|done|].
  - intros fuel l. by eapply app_start_run.
  - destruct (Hb) as (_&Hs&_). by destruct (process_started _ _ _ _ Hs) as [_ ->].
  - apply Hph; [|done|by eapply begun_halted]. unfold synced. cbn [w_ctx].
    by destruct Hb as (_&_&->&_).
Qed.

Lemma idle_starts :
  ∃ s p, returns (λ fuel, connect fuel recv_one_msg_actor) (s, p) ∧
    ∀ t nb c, test_context t nb s c → 0 < nb → starts c p SLICE t (idle 0).
Proof.
  destruct recv_one_connects as (k&l&p&[Hf Hp]&Hk). eexists _, p. split; [by exists k|].
  intros t nb c Hc Hnb. destruct (Hc) as (Hfr&_&Hoc&_).
  destruct (recv_one_starts c l p Hfr Hf Hp) as (off&c1&Hb&Hi&Hr); [by vm_compute|].
  eapply begun_starts; [done..|]. intros n Hn _ Hh. split_and!; try done.
  destruct Hb as (_&_&_&Ho&_). cbn [w_ctx]. lia.
Qed.

Lemma delayed_starts_before msg slice delay :
  small msg → (0 < slice)%Z → (0 ≤ delay)%Z → (delay + slice ≤ u64_max)%Z →
  (from_micros delay ≤ CDuration_MAX)%Z →
  ∃ s p, returns (λ fuel, connect fuel (send_one_delayed_msg_actor msg slice delay)) (s, p) ∧
    ∀ t nb c, test_context t nb s c →
      starts c p (first_deadline slice delay) t (λ w n, ∃ m, delayed_before msg slice delay m w n).
Proof.
  intros Hm Hs Hd Hmax Hlim.
  destruct (delayed_connects msg slice delay Hm Hs Hd Hmax) as (k&l&rest&e&p&Hp&Hk).
  eexists _, p. split; [by exists k|]. intros t nb c Hc. destruct (Hc) as (Hfr&_).
  destruct (delayed_starts msg slice delay Hs Hd c l rest e p Hfr Hp Hlim)
    as (off&c1&Hb&Hi&Hr&Hin).
  eapply begun_starts; [done..|]. intros n Hn _ Hh. eexists. split_and!; try done.
  destruct Hb as (_&_&Hcb&_). unfold deadlines. cbn [w_ctx]. by rewrite Hcb.
Qed.

Lemma start_connects :
  ∃ k (b1 b2 : bytes) a, (frame_in (VGoto START_ACTOR_DEADLINE) b1 ∧ frame_in VEnd b2) ∧
    ∀ fuel, k ≤ fuel → connect fuel start_actor = Ret (mk_stream (b1 ++ b2) eof [] [], Draining a).
Proof.
  destruct (connect_runs start_actor (λ s p, ∃ (b1 b2 : bytes) a, s = mk_stream (b1 ++ b2) eof [] [] ∧
    p = Draining a ∧ frame_in (VGoto START_ACTOR_DEADLINE) b1 ∧ frame_in VEnd b2))
    as (k&s&p&(b1&b2&a&->&->&Hf)&Hk); [|by exists k, b1, b2, a].
  intros a Ha Hc.
  destruct (leads_plain a (MsgIn_GoToDeadline START_ACTOR_DEADLINE) (VGoto START_ACTOR_DEADLINE)
    _ _ _ Ha Hc) as (b1&a1&Hl1&Ha1&Hf1&Hc1); [done|done|].
  destruct (leads_plain a1 MsgIn_EndSimulation VEnd _ _ _ Ha1 Hc1) as (b2&a2&Hl2&Ha2&Hf2&Hc2);
    [done|done|].
  exists (Finished (Ok tt)), a2. split.
  - apply leads_finished. eapply leads_next; [exact Hl1|]. exact Hl2.
  - exists b1, b2. eexists. rewrite Hc2. simpl. by split_and!.
Qed.

Lemma start_starts :
  ∃ s p, returns (λ fuel, connect fuel start_actor) (s, p) ∧
    ∀ t nb c, test_context t nb s c → 0 < nb →
      starts c p START_ACTOR_DEADLINE t (λ w n, start_before n 0 w n).
Proof.
  destruct start_connects as (k&b1&b2&a&[Hf1 Hf2]&Hk). eexists _, (Draining a).
  split; [by exists k|]. intros t nb c Hc Hnb. destruct (Hc) as (Hfr&Hic&_).
  destruct (start_client c b1 b2 eof START_ACTOR_DEADLINE Hfr Hf1)
    as (off&c1&Hb&Hr&Hc1&Hn&Hi); [by vm_compute|].
  eapply begun_starts; [done..|]. intros n Hsy _ Hh. split_and!; try done.
  unfold start_inv. cbn [w_ctx w_proc]. split; [lia|]. exists b2.
  destruct Hb as (_&_&_&_&Hso). split_and!; try done. by eexists.
Qed.
End scripts.
