(* ===== verification/TestBodies.v ===== *)
(** * TestBodies: what the tests of both interfaces share

    The steps of a test against each script of the helpers, for an application
    that records in [D] the deadlines it is told: the phases a start leads to,
    sending the message that ends the simulation, waiting for a packet and
    receiving it. *)
From S2P Require Import Prelude Std BufferPool BytesBuffer Wire FbBuffer Connector.
From S2P Require Import ConnectorSpec ConnectorPeer OutputMsgSet WaitfreeArrayQueue Chrono.
From S2P Require Import Error LibcTimer Timer TimerProcess TimerProcessSpec TimerProcessLive.
From S2P Require Import Context ContextSpec DeadlineSpec ContextInit HandleDeadline TestActor.
From S2P Require Import ActorSpec TestHelpers ScriptSpec Cosim CosimSpec CosimRun CosimDelayed.
From S2P Require Import Handlers Lifetime Config Capi TestRun TestRunSpec TestScripts.
From stdpp Require Import base option list numbers strings.
From Stdlib Require Import ZArith Lia Strings.Byte.

(** A deadline callback always returns. *)
Class DeadlineCallbacksLaws (D : Type) `{!DeadlineCallbacks D} :=
  record_deadline_total deadline d : ∃ d', record_deadline deadline d = Ret (tt, d').

Section callbacks.
Context {D : Type} `{DL : DeadlineCallbacksLaws D}.
Implicit Types (n : RecvNotifier * D).

Lemma run_callbacks_app l l' n :
  run_callbacks (l ++ l') n = (_ ← run_callbacks l; run_callbacks l') n.
Proof.
  revert n. induction l as [|cb l IH]; intros n; [done|].
  destruct cb; simpl; unfold mbind, M_bind; simpl; [apply IH|].
  unfold zoom. destruct (record_deadline _ _) as [[[] d]| |]; simpl; [apply IH|done..].
Qed.

Lemma run_callbacks_total l n : ∃ n', run_callbacks l n = Ret (tt, n').
Proof.
  revert n. induction l as [|cb l IH]; intros n; [by eexists|]. destruct cb as [|d]; simpl.
  - unfold mbind, M_bind. simpl. apply IH.
  - destruct (record_deadline_total d n.2) as (d'&Hd). destruct n as [r d0].
    erewrite bind_run by (apply zoom_run; exact Hd). apply IH.
Qed.

#[export] Program Instance Notifiers_laws : CallbacksLaws (RecvNotifier * D).
Next Obligation. done. Qed.
Next Obligation. exact run_callbacks_app. Qed.
Next Obligation. exact run_callbacks_total. Qed.

(** The deadlines leave the flag of the packets alone. *)
Lemma run_deadlines_notified l n n' :
  run_callbacks (DeadlineCallback <$> l) n = Ret (tt, n') → n'.1 = n.1.
Proof.
  revert n. induction l as [|d l IH]; intros n; [by intros [= <-]|]. cbn [fmap list_fmap run_callbacks].
  intros ([]&n1&Hd&Hrun)%bind_inv. apply zoom_inv in Hd as (d'&_&->).
  apply IH in Hrun as ->. by destruct n.
Qed.

Lemma run_deadlines_packet l n n' :
  run_callbacks ((DeadlineCallback <$> l) ++ [RecvCallback]) n = Ret (tt, n') →
  notified n'.1 = true ∧ ∃ n1, run_callbacks (DeadlineCallback <$> l) n = Ret (tt, n1) ∧ n'.2 = n1.2.
Proof.
  rewrite run_callbacks_app. intros ([]&n1&Hrun&Hr)%bind_inv. injection Hr as <-.
  split; [by destruct n1|]. exists n1. split; [done|]. by destruct n1.
Qed.
End callbacks.

(** ** Calls *)
Section calls.
Context {OS : Type} {Q : Type → Type} {D : Type} `{FL : FlatBuffersLaws, PV : PosixLive OS}
  `{AQ : ArrayQueueLaws Q, DL : DeadlineCallbacksLaws D, PR : Profile}.
Abbreviation PTimer := (ProcessTimer (S := OS)).
Abbreviation World := (world PTimer Q).
Abbreviation Notes := (RecvNotifier * D)%type.
Abbreviation Sim := (sim OS Q Notes).
Implicit Types (w : World) (n : Notes) (l : list nat).
Context (d0 : D).
Abbreviation n0 := (RecvNotifier_new, d0).

(** What a call does with the result of another one. *)
Lemma app_call_then {A B} fuel (m : M (Context PTimer Q) A) (k : A → M (Context PTimer Q) B)
    (s : Sim) x y s' :
  app_call fuel m s = Ret (x, s') → (∀ c, k x c = Ret (y, c)) →
  app_call fuel (m ≫= k) s = Ret (y, s').
Proof.
  unfold app_call. intros ([]&s1&Hs&Hm)%bind_inv Hk. erewrite bind_run by exact Hs. revert Hm.
  unfold in_world. destruct (on_ctx m (s_world s1)) as [[x' w]| |] eqn:E; [|done..].
  simpl. intros Hm. apply zoom_inv in E as (c'&E&->).
  destruct (app_callbacks _ _) as [[[] n]| |] eqn:Ecb; try done. injection Hm as -> <-.
  unfold on_ctx. erewrite zoom_run by (erewrite bind_run by exact E; apply Hk). simpl.
  simpl in Ecb. by rewrite Ecb.
Qed.

Lemma app_calls_then {A B} (m : M (Context PTimer Q) A) (k : A → M (Context PTimer Q) B)
    (s : Sim) x y s' :
  returns (λ fuel, app_call fuel m s) (x, s') → (∀ c, k x c = Ret (y, c)) →
  returns (λ fuel, app_call fuel (m ≫= k) s) (y, s').
Proof.
  intros [k0 Hm] Hk. exists k0. intros fuel Hf. by eapply app_call_then; [apply Hm|].
Qed.

Lemma halted_passes w n l : halted w = true → passes (λ fuel, app_stop fuel) (mk_sim w n l).
Proof. intros Hh. eapply passes_returns. by apply halted_stop. Qed.

(** Looking at the recorded data. *)
Lemma read_returns {A} (f : Sim → A) w n l w' n' :
  returns (λ fuel, next_signals fuel (mk_sim w n l)) (tt, mk_sim w' n' (tail l)) →
  returns (λ fuel, (_ ← next_signals fuel; gets f) (mk_sim w n l))
    (f (mk_sim w' n' (tail l)), mk_sim w' n' (tail l)).
Proof. intros Hs. eapply settles_then; [exact Hs|]. by apply settles_const. Qed.

Lemma read_halted {A} (f : Sim → A) w n l :
  halted w = true →
  returns (λ fuel, (_ ← next_signals fuel; gets f) (mk_sim w n l))
    (f (mk_sim w n (tail l)), mk_sim w n (tail l)).
Proof.
  intros Hh. apply read_returns. apply settles_always. intros. by apply next_signals_halted.
Qed.

(** *** [dummy_actor] *)
Lemma dummy_connects :
  ∃ s p, returns (λ fuel, connect fuel dummy_actor) (s, p) ∧ rx s = [] ∧ rx_end s = eof.
Proof.
  destruct (connect_runs dummy_actor (λ s p, rx s = [] ∧ rx_end s = eof)) as (k&s&p&[??]&Hk).
  - intros a _ Hc. exists (Finished (Ok tt)), a. split; [by apply runs_ret|]. by rewrite Hc.
  - exists s, p. by split; [exists k|].
Qed.

(** *** [start_actor] *)
Definition start_phase n1 w n : Prop := phase (start_before n0 n1) (start_after n1) w n.

Lemma start_next n1 w n l :
  start_phase n1 w n → ∃ w',
    returns (λ fuel, next_signals fuel (mk_sim w n l)) (tt, mk_sim w' n1 (tail l)) ∧
    start_phase n1 w' n1.
Proof.
  intros Hw. destruct (phase_next (start_before n0 n1) (start_after n1)
    ltac:(by intros w0 n2 (?&_)) (start_signal n0 n1) w n l Hw)
    as (w'&n'&Hs&Hp).
  assert (n' = n1) as -> by (destruct Hp as [(m&_&_&_&_&?)|(_&_&_&?)]; done). by exists w'.
Qed.

Lemma start_phase_stop n1 w n l :
  start_phase n1 w n → ∃ w' n', returns (λ fuel, app_stop fuel (mk_sim w n l)) (tt, mk_sim w' n' (tail l)).
Proof.
  intros Hw.
  destruct (stop_reaches (start_before n0 n1) (start_after n1)
    ltac:(by intros m w0 n2 (_&_&?&_)) ltac:(by intros w0 n2 (?&_))
    (start_signal n0 n1) w n l Hw) as (w'&n'&Hs&_). by exists w', n'.
Qed.

(** *** [recv_one_msg_actor] *)
Lemma budget_tail j l : budget j l → budget j (tail l) ∧ (Z.of_nat j ≤ MAX_SIGNALS)%Z.
Proof. unfold budget. destruct l; simpl; lia. Qed.

(** A message that ends the simulation. *)
Lemma idle_app_send j w n l msg :
  idle n0 j w n → budget j l → small msg →
  ∃ j' w1 w' n', returns (λ fuel, app_call fuel (Context_send remote_vsg_address msg) (mk_sim w n l))
      (Ok tt, mk_sim w' n' (tail l)) ∧
    idle n0 j' w1 n' ∧ loaded n0 j' w' n' ∧ (Z.of_nat j' ≤ MAX_SIGNALS)%Z.
Proof.
  intros Hi Hb Hm. destruct (idle_next n0 j w n l Hi Hb) as (j'&w1&n1&Hnext&Hi1&Hb1).
  destruct (idle_send n0 j' w1 n1 (tail l) msg Hi1) as (w2&Hsend&_&Hload).
  apply budget_tail in Hb1 as [_ Hj]. exists j', w1, w2, n1. split_and!; [|done|by apply Hload|done].
  rewrite (proj2 (Nat.ltb_ge _ _)) in Hsend by (unfold small in Hm; lia). by eapply app_call_returns.
Qed.

(** A message over the maximum size. *)
Lemma idle_app_send_big j w n l msg :
  idle n0 j w n → budget j l → MAX_PACKET_SIZE < length msg →
  ∃ j' w' n', returns (λ fuel, app_call fuel (Context_send remote_vsg_address msg) (mk_sim w n l))
      (Err Error.SizeTooBig, mk_sim w' n' (tail l)) ∧ idle n0 j' w' n' ∧ budget j' (tail l).
Proof.
  intros Hi Hb Hm. destruct (idle_next n0 j w n l Hi Hb) as (j'&w1&n1&Hnext&Hi1&Hb1).
  destruct (idle_send n0 j' w1 n1 (tail l) msg Hi1) as (w2&Hsend&Hi2&_).
  rewrite (proj2 (Nat.ltb_lt _ _)) in Hsend by done.
  exists j', w2, n1. split; [by eapply app_call_returns|]. split; [by apply Hi2|done].
Qed.

Lemma idle_app_time j w n l :
  idle n0 j w n → budget j l →
  ∃ j' tv w' n', returns (λ fuel, app_call fuel gettimeofday (mk_sim w n l))
      (tv, mk_sim w' n' (tail l)) ∧ sane_time tv ∧ idle n0 j' w' n' ∧ budget j' (tail l).
Proof.
  intros Hi Hb. destruct (idle_next n0 j w n l Hi Hb) as (j'&w1&n1&Hnext&Hi1&Hb1).
  destruct (idle_gettimeofday n0 j' w1 n1 (tail l) Hi1) as (tv&w2&Hs&Hrun&Hi2).
  exists j', tv, w2, n1. split; [by eapply app_call_returns|]. done.
Qed.

(** *** [send_one_delayed_msg_actor] *)
Section delayed.
Context (msg : bytes) (slice delay : Z).
Hypotheses (Hmsg : small msg) (Hslice : (0 < slice)%Z) (Hdelay : (0 ≤ delay)%Z)
  (Hmax : (delay + slice ≤ u64_max)%Z).

Lemma delay_limit : (from_micros delay ≤ CDuration_MAX)%Z.
Proof. unfold from_micros, CDuration_MAX, i64_max, u64_max in *. lia. Qed.

Abbreviation running := (delayed_before n0 msg slice delay).
Abbreviation finished := (delayed_after n0 msg slice delay).
Definition delayed_phase w n : Prop := phase running finished w n.

Lemma running_signal m w n l : running m w n →
  ∃ w' n', returns (λ fuel, signal fuel (mk_sim w n l)) (tt, mk_sim w' n' l) ∧
    ((∃ m', m' < m ∧ running m' w' n') ∨ finished w' n').
Proof. apply delayed_signal; try done. apply delay_limit. Qed.

(** The flag of the packets in these phases. *)
Lemma running_notified m w n : running m w n → notified n.1 = false.
Proof.
  intros (_&_&_&_&Hcb&Hn&_). unfold synced in Hn. rewrite Hcb in Hn.
  by apply run_deadlines_notified in Hn as ->.
Qed.

(** What the callbacks of the whole schedule recorded. *)
Definition recorded (d : D) : Prop :=
  ∃ n, run_callbacks (DeadlineCallback <$> schedule slice delay) n0 = Ret (tt, n) ∧ d = n.2.

Lemma finished_notified w n : finished w n → notified n.1 = true ∧ recorded n.2.
Proof. intros (_&_&_&Hn). by apply run_deadlines_packet in Hn as (?&n1&?&?); split; [|exists n1]. Qed.

(** The packet waits for the application. *)
Definition received w n : Prop :=
  halted w = true ∧ pt_at_deadline (timer_context (w_ctx w)).1 = true ∧
  (∃ up, repr (w_ctx w) [] up [delayed_packet msg]) ∧ recorded n.2.

Lemma finished_received w n : finished w n → received w n.
Proof.
  intros Hw. destruct (finished_notified w n Hw) as [_ Hn]. destruct Hw as (?&?&?&_).
  by split_and!.
Qed.

Lemma recv_notifier_wait_run w n l :
  delayed_phase w n → ∃ w' n',
    returns (λ fuel, recv_notifier_wait fuel (mk_sim w n l)) (tt, mk_sim w' n' (tail l)) ∧
    received w' n'.
Proof.
  intros Hw.
  destruct (phase_next running finished ltac:(by intros w0 n2 (?&_)) running_signal w n l Hw)
    as (w1&n1&Hnext&Hw1).
  destruct (sleep_reaches running finished running_signal
    (gets (λ s, notified (s_app s).1)) w1 n1 (tail l)) as (w2&n2&Hsleep&Hw2); [| |done|].
  { intros m w0 n3 l0 Hw0. unfold gets. cbn [s_app]. by rewrite (running_notified m w0 n3). }
  { intros w0 n3 l0 Hw0. unfold gets. cbn [s_app]. by destruct (finished_notified w0 n3 Hw0) as [-> _]. }
  exists w2, (mk_recv_notifier false, n2.2). split.
  - unfold recv_notifier_wait. eapply settles_then; [exact Hnext|].
    eapply settles_then; [exact Hsleep|]. apply settles_const.
    destruct (finished_notified _ _ Hw2) as [Hn _]. destruct n2 as [[b] d]. simpl in Hn. subst b.
    reflexivity.
  - by apply finished_received in Hw2 as (?&?&?&?); split_and!.
Qed.

(** Receiving it. *)
Lemma received_recv w n l buf :
  received w n → ∃ w',
    returns (λ fuel, app_call fuel (Context_recv buf) (mk_sim w n l))
      (recv_result [delayed_packet msg] buf, mk_sim w' n (tail l)) ∧
    halted w' = true ∧ pt_at_deadline (timer_context (w_ctx w')).1 = true.
Proof.
  intros (Hh&Hd&(up&Hrep)&Hn). destruct w as [c p]. cbn [w_ctx] in *.
  destruct (Context_recv_spec c [] up _ buf Hrep) as (c'&Hrun&_&(_&_&Et&_&_&_&_&Ecb)&_).
  exists (mk_world c' p). unfold halted in *. cbn [w_ctx] in *. rewrite Et. split; [|done].
  eapply app_call_returns; [apply settles_always; intros; by apply next_signals_halted|].
  apply (in_world_quiet _ _ (mk_world c' p)); [by apply on_ctx_run|exact Ecb].
Qed.

Lemma recv_exact_result :
  recv_result [delayed_packet msg] (replicate (length msg) x00) =
    (Ok (local_address, remote_vsg_address, msg), msg).
Proof.
  unfold recv_result. simpl. rewrite length_replicate, Nat.leb_refl.
  by rewrite drop_ge, app_nil_r by (by rewrite length_replicate).
Qed.

(** Polling for it. *)
Lemma polling_reaches (cond : M Sim bool) w n l :
  (∀ w n l out up inn, repr (w_ctx w) out up inn →
    cond (mk_sim w n l) = Ret (bool_decide (inn ≠ []), mk_sim w n l)) →
  delayed_phase w n → ∃ w' n',
    returns (λ fuel, app_wait fuel cond (mk_sim w n l))
      (tt, mk_sim w' n' (tail l)) ∧ received w' n'.
Proof.
  intros Hcond Hw.
  destruct (phase_next running finished ltac:(by intros w0 n2 (?&_)) running_signal w n l Hw)
    as (w1&n1&Hnext&Hw1).
  destruct (sleep_reaches running finished running_signal cond w1 n1 (tail l))
    as (w2&n2&Hsleep&Hw2); [| |done|].
  { intros m w0 n3 l0 ((_&out&up&s&(Hr&_)&_)&_). by rewrite (Hcond w0 n3 l0 out up [] Hr). }
  { intros w0 n3 l0 (_&_&(up&Hr)&_). by rewrite (Hcond w0 n3 l0 [] up _ Hr). }
  exists w2, n2. split; [|by apply finished_received]. by eapply settles_then.
Qed.

Lemma delayed_connects_starts :
  ∃ s p, returns (λ fuel, connect fuel (send_one_delayed_msg_actor msg slice delay)) (s, p) ∧
    ∀ t nb c, test_context t nb s c → starts n0 c p (first_deadline slice delay) t delayed_phase.
Proof.
  destruct (delayed_starts_before (Q := Q) n0 msg slice delay Hmsg Hslice Hdelay Hmax
    delay_limit) as (s&p&Hconn&Hst).
  exists s, p. split; [done|]. intros t nb c Hc.
  destruct (Hst t nb c Hc) as (off&w&n&?&?&?&?). exists off, w, n. split_and!; try done. by left.
Qed.
End delayed.
End calls.
