(* ===== verification/ContextTests.v ===== *)
(** * ContextTests: the tests of the context

    [tansiv-client/src/lib.rs], module [test].  A test is a computation that
    panics when an assertion fails; [fuel] bounds its loops and those of the
    actor, [sched] are the signals before its calls. *)
From S2P Require Import Prelude Std BufferPool BytesBuffer Wire FbBuffer Connector.
From S2P Require Import ConnectorPeer OutputMsgSet WaitfreeArrayQueue Chrono Error LibcTimer.
From S2P Require Import Timer TimerProcess TimerProcessSpec Context TestActor TestHelpers.
From S2P Require Import Cosim CosimSpec Config Capi Lifetime TestRun.
From stdpp Require Import base option list numbers strings.
From Stdlib Require Import ZArith Lia Strings.Byte.

(** The arguments of the tests. *)
Definition valid_args : list bytes :=
  bytes_of <$> ["-atiti"; "-n"; "10.0.0.1"; "-t1970-01-01T00:00:00"].
Definition valid_args_h1 : list bytes :=
  bytes_of <$> ["-atiti"; "-n"; "10.0.0.1"; "-t1970-01-01T01:00:00"].
Definition invalid_args : list bytes :=
  bytes_of <$> ["-btiti"; "-n"; "10.0.0.1"; "-t1970-01-01T00:00:00"].

(** The notifiers as the callbacks leave them; a test that passes a dummy
    callback does not look at its notifier. *)
Abbreviation Notifiers := (RecvNotifier * DeadlineNotifier)%type.
Definition notifiers : Notifiers := (RecvNotifier_new, DeadlineNotifier_new).

Section tests.
Context {OS : Type} {Q : Type → Type} `{FB : FlatBuffers, CH : Chrono, LC : Libc}
  `{PX : !Posix OS, LK : !LocalClock OS, AQ : !ArrayQueue Q, PR : Profile}.
Context (from_iter_safe : list bytes → result Config string) (not_found : io_error).
Context (fuel : nat) (child : Z) (os : OS) (sched : list nat).

Abbreviation Sim := (sim OS Q Notifiers).
Abbreviation PCtx := (Context (ProcessTimer (S := OS)) Q).

Definition run (args : list bytes) : script → M Sim unit → outcome unit :=
  run_test from_iter_safe not_found fuel child args os sched notifiers.

(** [expect] and [expect_err] *)
Definition expect {St A E} (r : result A E) : M St A := lift (unwrap_ok r).
Definition expect_err {St A E} (r : result A E) : M St E :=
  match r with Ok _ => panic UnwrapOnErr | Err e => mret e end.

Definition app_start : M Sim CDuration := r ← app_call fuel Context_start; expect r.
Definition app_send (msg : bytes) : M Sim unit :=
  r ← app_call fuel (Context_send remote_vsg_address msg); expect r.

Definition deadline_notifier : M Sim DeadlineNotifier :=
  _ ← next_signals fuel; gets (λ s, (s_app s).2).

Definition init_valid : outcome unit := run valid_args dummy_actor (mret tt).

Definition init_invalid : outcome unit :=
  desc ← TestActorDesc_new "titi" (Ok tt) (Ok tt) (Ok child);
  '(s, _) ← connect fuel dummy_actor;
  r ← test_init (Q := Q) from_iter_safe not_found invalid_args os s;
  '(_, _) ← expect_err r tt;
  _ ← TestActorDesc_drop (Ok tt) desc;
  Ret tt.

Definition start_stop : outcome unit :=
  run valid_args start_actor (
    d ← deadline_notifier;
    _ ← assert (INITIAL_DEADLINE =? dn_deadline d)%Z;
    _ ← assert (0 =? dn_num_called d)%Z;
    offset ← app_start;
    _ ← assert (cd_eqb cd_zero offset);
    app_stop fuel).

Definition start_already : outcome unit :=
  run valid_args start_actor (
    _ ← app_start;
    r ← app_call fuel Context_start;
    e ← expect_err r;
    _ ← match e with AlreadyStarted => mret tt | _ => panic AssertionFailed end;
    d ← deadline_notifier;
    _ ← assert (1 =? dn_num_called d)%Z;
    app_stop fuel).

Definition FOO_MSG : bytes := bytes_of "Foo msg".

Definition send : outcome unit :=
  run valid_args recv_one_msg_actor (
    _ ← app_start;
    _ ← app_send FOO_MSG;
    _ ← app_stop fuel;
    d ← deadline_notifier;
    let num_called := dn_num_called d in
    _ ← assert (0 <? num_called)%Z;
    expected ← lift (Duration_mul RECV_ONE_MSG_ACTOR_SLICE (as_u32 num_called));
    assert (expected =? dn_deadline d)%Z).

Definition send_too_big : outcome unit :=
  run valid_args recv_one_msg_actor (
    _ ← app_start;
    r ← app_call fuel (Context_send remote_vsg_address (replicate (MAX_PACKET_SIZE + 1) x00));
    e ← expect_err r;
    _ ← match e with SizeTooBig => mret tt | _ => panic AssertionFailed end;
    _ ← app_send FOO_MSG;
    app_stop fuel).

(** A packet of the actor, received into a buffer of its size. *)
Definition recv_expected (expected : bytes) : M Sim unit :=
  '(r, _) ← app_call fuel (Context_recv (replicate (length expected) x00));
  '(src, dst, buffer) ← expect r;
  local ← lift local_vsg_address;
  _ ← assert (src =? local)%Z;
  _ ← assert (dst =? remote_vsg_address)%Z;
  assert (bool_decide (buffer = expected)).

Definition recv : outcome unit :=
  run valid_args (send_one_msg_actor FOO_MSG) (
    _ ← app_start;
    _ ← recv_notifier_wait fuel;
    _ ← recv_expected FOO_MSG;
    d ← deadline_notifier;
    _ ← assert (1 =? dn_num_called d)%Z;
    _ ← assert (SEND_ONE_MSG_ACTOR_DELAY =? dn_deadline d)%Z;
    app_stop fuel).

(** The assertion of [recv_one_delay] on the time of the packet; being late is
    only logged. *)
Definition check_delay (delay_micros : Z) (tv : timeval) : outcome unit :=
  secs ← mul_u64 (as_u64 (tv_sec tv)) 1000000;
  total_usec ← add_u64 secs (as_u64 (tv_usec tv));
  _ ← require (delay_micros <=? total_usec)%Z;
  _ ← mul_u64 10 delay_micros;
  Ret tt.

Definition recv_one_delay (slice_micros delay_micros : Z) : outcome unit :=
  run valid_args (send_one_delayed_msg_actor FOO_MSG slice_micros delay_micros) (
    _ ← app_start;
    _ ← recv_notifier_wait fuel;
    '(r, _) ← app_call fuel (Context_recv (replicate (length FOO_MSG) x00));
    '(src, dst, buffer) ← expect r;
    tv ← app_call fuel gettimeofday;
    local ← lift local_vsg_address;
    _ ← assert (src =? local)%Z;
    _ ← assert (dst =? remote_vsg_address)%Z;
    _ ← assert (bool_decide (buffer = FOO_MSG));
    _ ← lift (check_delay delay_micros tv);
    d ← deadline_notifier;
    _ ← assert (delay_micros / slice_micros =? dn_num_called d)%Z;
    _ ← assert (from_micros delay_micros =? dn_deadline d)%Z;
    app_stop fuel).

Definition recv_too_big : outcome unit :=
  let orig_buffer := bytes_of "fOO~MS" in
  run valid_args (send_one_msg_actor FOO_MSG) (
    _ ← app_start;
    _ ← recv_notifier_wait fuel;
    '(r, buffer) ← app_call fuel (Context_recv orig_buffer);
    e ← expect_err r;
    _ ← match e with SizeTooBig => mret tt | _ => panic AssertionFailed end;
    _ ← assert (bool_decide (buffer = orig_buffer));
    app_stop fuel).

Definition poll : outcome unit :=
  run valid_args (send_one_msg_actor FOO_MSG) (
    _ ← app_start;
    _ ← app_wait fuel (o ← in_world (on_ctx Context_poll); mret (bool_decide (o = Some tt)));
    _ ← recv_expected FOO_MSG;
    app_stop fuel).

(** The assertions of the tests of [gettimeofday]: between [lo] and [hi]
    seconds. *)
Definition check_time (lo hi : Z) (tv : timeval) : outcome unit :=
  _ ← require ((lo <=? tv_sec tv)%Z && (tv_sec tv <? hi)%Z);
  require ((0 <=? tv_usec tv)%Z && (tv_usec tv <? 999999)%Z).

Definition test_gettimeofday : outcome unit :=
  run valid_args recv_one_msg_actor (
    _ ← app_start;
    tv ← app_call fuel gettimeofday;
    _ ← lift (check_time 0 10 tv);
    _ ← app_send (bytes_of "This is the end");
    app_stop fuel).

Definition gettimeofday_h1 : outcome unit :=
  run valid_args_h1 recv_one_msg_actor (
    offset ← app_start;
    expected ← lift (cd_hours 1);
    _ ← assert (cd_eqb expected offset);
    tv ← app_call fuel gettimeofday;
    _ ← lift (check_time 3600 3610 tv);
    _ ← app_send (bytes_of "This is the end");
    app_stop fuel).

(** [Connector::recv] until it fails. *)
Fixpoint message_loop_turns (n : nat) : M Sim unit :=
  match n with
  | O => out_of_fuel
  | S n =>
      msg ← in_world (live_recv fuel);
      match msg with
      | Ok msg => _ ← in_world (on_ctx (handle_actor_msg msg)); message_loop_turns n
      | Err e =>
          if bool_decide (io_kind e = Some Interrupted) then message_loop_turns n else mret tt
      end
  end.

Definition message_loop : outcome unit :=
  run valid_args_h1 dummy_actor (message_loop_turns fuel).
End tests.

(** [recv_delayed]: [recv_one_delay] for the delays of 1 to 100 slices; the
    [i]th run has its own signals and clocks. *)
Definition recv_delayed {OS Q} `{FlatBuffers, Chrono, Libc, !Posix OS, !LocalClock OS,
    !ArrayQueue Q, Profile} (from_iter_safe : list bytes → result Config string)
    (not_found : io_error) (fuel : nat) (child : Z) (os : Z → OS) (sched : Z → list nat) :
    outcome unit :=
  foldr (λ delay_slices rest,
      _ ← recv_one_delay (Q := Q) from_iter_safe not_found fuel child (os delay_slices)
            (sched delay_slices) 100 (delay_slices * 100);
      rest) (Ret tt) (seqZ 1 100).
