(* ===== verification/ContextTestsSpec.v ===== *)
(** * ContextTestsSpec: the tests of the context pass

    For every schedule of the signals.  The tests that look at a clock do what
    their assertion on the time says. *)
From S2P Require Import Prelude Std BufferPool BytesBuffer Wire FbBuffer Connector.
From S2P Require Import ConnectorSpec ConnectorPeer OutputMsgSet WaitfreeArrayQueue Chrono.
From S2P Require Import Error LibcTimer Timer TimerProcess TimerProcessSpec TimerProcessLive.
From S2P Require Import Context ContextSpec DeadlineSpec ContextInit HandleDeadline TestActor.
From S2P Require Import ActorSpec TestHelpers ScriptSpec Cosim CosimSpec CosimRun CosimDelayed.
From S2P Require Import Handlers Lifetime Config ConfigSpec Capi TestRun TestRunSpec TestScripts TestBodies.
From S2P Require Import ContextTests.
From stdpp Require Import base option list numbers strings.
From Stdlib Require Import ZArith Lia Strings.Byte.

#[export] Instance DeadlineNotifier_laws : DeadlineCallbacksLaws DeadlineNotifier.
Proof. intros deadline d. by eexists. Qed.

(** The documented behaviour of the parser on the arguments of the tests. *)
Class TestParser `{ChronoLaws} (from_iter_safe : list bytes → result Config string) := {
  parse_valid : ∃ t, from_iter_safe valid_args = Ok (mk_cfg titi local_address t 100) ∧
    ndt_plain t ∧ ndt_ns t = 0%Z;
  parse_valid_h1 : ∃ t, from_iter_safe valid_args_h1 = Ok (mk_cfg titi local_address t 100) ∧
    ndt_plain t ∧ ndt_ns t = (3600 * NANOS_PER_SEC)%Z;
  parse_invalid : ∃ e, from_iter_safe invalid_args = Err e;
}.

(** [Config::from_iter_safe] is such a parser. *)
Section parser.
Context `{DPL : DateParserLaws, CPL : ClapLaws}.

Lemma test_args_config args date t :
  spells [(short_a, titi); (short_n, bytes_of "10.0.0.1"); (short_t, date)] args →
  ndt_from_str date = Some t →
  Config_from_iter_safe args = Ok (mk_cfg titi local_address t 100).
Proof.
  intros Hs Hd.
  pose proof (config_from_args _ _ Hs ltac:(split; apply (bool_decide_unpack _); by vm_compute)) as Hc.
  change (config_of _) with (ndt_from_str date ≫= λ t, Some (mk_cfg titi local_address t 100)) in Hc.
  rewrite Hd in Hc. exact Hc.
Qed.

#[export] Instance Config_TestParser : TestParser Config_from_iter_safe.
Proof.
  split.
  - destruct (ndt_from_str_date 1 0 0 0) as (t&Ht&Hp&Hns); [lia..|]. exists t. split; [|done].
    eapply test_args_config; [|exact Ht]. spell.
  - destruct (ndt_from_str_date 1 1 0 0) as (t&Ht&Hp&Hns); [lia..|]. exists t. split; [|done].
    eapply test_args_config; [|exact Ht]. spell.
  - pose proof (config_from_args [(short_b, titi); (short_n, bytes_of "10.0.0.1");
      (short_t, bytes_of "1970-01-01T00:00:00")] invalid_args ltac:(spell)
      ltac:(split; apply (bool_decide_unpack _); by vm_compute)) as Hc. exact Hc.
Qed.
End parser.

Lemma callback_deadlines_map l : callback_deadlines (DeadlineCallback <$> l) = l.
Proof. induction l as [|d l IH]; [done|]. by apply (f_equal (cons d)). Qed.

Lemma buffers_fit : (Z.of_nat (MAX_PACKET_SIZE * 100) ≤ isize_max)%Z.
Proof. unfold MAX_PACKET_SIZE, isize_max. lia. Qed.
Lemma local_address_u32 : in_u32 local_address.
Proof. split; apply Z.leb_le; by vm_compute. Qed.

Section tests.
Context {OS : Type} {Q : Type → Type} `{FL : FlatBuffersLaws, PV : PosixLive OS}
  `{AQ : ArrayQueueLaws Q, PR : Profile}.
Context (from_iter_safe : list bytes → result Config string) {TP : TestParser from_iter_safe}.
Context (not_found : io_error) (child : Z) (os : OS) (sched : list nat).
Hypotheses (Hos : creates os) (Hsched : budget 0 sched).

Abbreviation PTimer := (ProcessTimer (S := OS)).
Abbreviation World := (world PTimer Q).
Abbreviation Sim := (sim OS Q Notifiers).
Implicit Types (w : World) (n : Notifiers) (l : list nat).

(** A test from its body on. *)
Lemma run_settles args t actor_fn (body : nat → M Sim unit) (P : outcome (unit * Sim) → Prop) :
  from_iter_safe args = Ok (mk_cfg titi local_address t 100) → ndt_plain t →
  (Z.abs (ndt_ns t) ≤ CLOCK_RANGE)%Z →
  (∃ s p, returns (λ fuel, connect fuel actor_fn) (s, p) ∧
    ∀ c, test_context t 100 s c → ends P body (mk_sim (mk_world c p) notifiers sched)) →
  ∃ o, P o ∧ settles (λ fuel, run from_iter_safe not_found fuel child os sched args actor_fn
    (body fuel)) (_ ← o; Ret tt).
Proof.
  intros Hargs Hp Ht (s&p&Hconn&Hbody).
  destruct (test_init_run (Q := Q) from_iter_safe not_found args os s local_address t 100 Hargs)
    as (c&Hc&Hctx); [apply local_address_u32|lia|apply buffers_fit|done|done|done|].
  destruct (Hbody c Hctx) as (o&HP&Ho). exists o. split; [done|]. unfold run.
  by eapply run_test_settles.
Qed.

Lemma run_passes args t actor_fn (body : nat → M Sim unit) :
  from_iter_safe args = Ok (mk_cfg titi local_address t 100) → ndt_plain t →
  (Z.abs (ndt_ns t) ≤ CLOCK_RANGE)%Z →
  (∃ s p, returns (λ fuel, connect fuel actor_fn) (s, p) ∧
    ∀ c, test_context t 100 s c → passes body (mk_sim (mk_world c p) notifiers sched)) →
  returns (λ fuel, run from_iter_safe not_found fuel child os sched args actor_fn (body fuel)) tt.
Proof.
  intros Hargs Hp Ht Hbody.
  by destruct (run_settles args t actor_fn body _ Hargs Hp Ht Hbody) as (o&(st&->)&Ho).
Qed.

(** A test whose outcome is that of an assertion on the time it reads. *)
Abbreviation checked check := (λ o : outcome (unit * Sim), ∃ tv, (_ ← o; Ret tt) = check tv).

Lemma run_checks args t actor_fn (body : nat → M Sim unit) (check : timeval → outcome unit) :
  from_iter_safe args = Ok (mk_cfg titi local_address t 100) → ndt_plain t →
  (Z.abs (ndt_ns t) ≤ CLOCK_RANGE)%Z →
  (∃ s p, returns (λ fuel, connect fuel actor_fn) (s, p) ∧
    ∀ c, test_context t 100 s c →
      ends (checked check) body (mk_sim (mk_world c p) notifiers sched)) →
  ∃ tv, settles (λ fuel, run from_iter_safe not_found fuel child os sched args actor_fn
    (body fuel)) (check tv).
Proof.
  intros Hargs Hp Ht Hbody.
  destruct (run_settles args t actor_fn body _ Hargs Hp Ht Hbody) as (o&(tv&Htv)&Ho).
  exists tv. by rewrite <- Htv.
Qed.

Lemma valid_passes actor_fn (body : nat → M Sim unit) :
  (∃ s p, returns (λ fuel, connect fuel actor_fn) (s, p) ∧
    ∀ t c, ndt_ns t = 0%Z → test_context t 100 s c →
      passes body (mk_sim (mk_world c p) notifiers sched)) →
  returns (λ fuel, run from_iter_safe not_found fuel child os sched valid_args actor_fn
    (body fuel)) tt.
Proof.
  intros (s&p&Hconn&Hbody). destruct parse_valid as (t&Hparse&Hp&Ht).
  eapply run_passes; [exact Hparse|done|by rewrite Ht|].
  exists s, p. split; [done|]. intros c. by apply Hbody.
Qed.

Lemma valid_checks actor_fn (body : nat → M Sim unit) (check : timeval → outcome unit) :
  (∃ s p, returns (λ fuel, connect fuel actor_fn) (s, p) ∧
    ∀ t c, ndt_ns t = 0%Z → test_context t 100 s c →
      ends (checked check) body (mk_sim (mk_world c p) notifiers sched)) →
  ∃ tv, settles (λ fuel, run from_iter_safe not_found fuel child os sched valid_args actor_fn
    (body fuel)) (check tv).
Proof.
  intros (s&p&Hconn&Hbody). destruct parse_valid as (t&Hparse&Hp&Ht).
  eapply run_checks; [exact Hparse|done|by rewrite Ht|].
  exists s, p. split; [done|]. intros c. by apply Hbody.
Qed.

(** The beginning of a body. *)
Lemma app_start_ends P c p d t ph l (k : nat → CDuration → M Sim unit) :
  starts notifiers c p d t ph →
  (∀ off w n, cd_ns off = ndt_ns t →
    app_callbacks [DeadlineCallback d] notifiers = Ret (tt, n) → ph w n →
    ends P (λ fuel, k fuel off) (mk_sim w n (tail l))) →
  ends P (λ fuel, app_start fuel ≫= k fuel) (mk_sim (mk_world c p) notifiers l).
Proof.
  intros (off&w&n&Hrun&Hoff&Hn&Hph) Hk.
  eapply ends_then; [|by eapply Hk]. unfold app_start.
  eapply settles_then; [apply settles_always; intros; apply Hrun|].
  by apply settles_const.
Qed.

(** *** [init] *)
Lemma init_valid_passes :
  returns (λ fuel, init_valid (Q := Q) from_iter_safe not_found fuel child os sched) tt.
Proof.
  apply valid_passes. destruct dummy_connects as (s&p&Hc&_). exists s, p. split; [done|].
  intros t c _ _. eapply passes_returns. by apply settles_const.
Qed.

Lemma init_invalid_passes :
  returns (λ fuel, init_invalid (Q := Q) from_iter_safe not_found fuel child os) tt.
Proof.
  unfold init_invalid. destruct dummy_connects as (s&p&Hc&_).
  change (TestActorDesc_new "titi" _ _ _) with (Ret (mk_desc "titi" (Some child))).
  cbn [mbind outcome_bind]. eapply settles_outcome; [exact Hc|]. cbv beta iota.
  unfold test_init, tansiv_init. destruct parse_invalid as (e&->). by apply settles_const.
Qed.

(** *** [start] *)
Lemma start_phase_passes n1 w n l :
  start_phase DeadlineNotifier_new n1 w n → passes (λ fuel, app_stop fuel) (mk_sim w n l).
Proof.
  intros Hw. destruct (start_phase_stop _ n1 w n l Hw) as (w'&n'&Hs). by eapply passes_returns.
Qed.

Lemma start_stop_passes :
  returns (λ fuel, start_stop (Q := Q) from_iter_safe not_found fuel child os sched) tt.
Proof.
  apply valid_passes. destruct (start_starts (Q := Q) notifiers) as (s&p&Hconn&Hst). exists s, p.
  split; [done|]. intros t c Ht Hc.
  eapply ends_then; [apply read_halted, Hc|]. cbv beta. cbn [s_app].
  do 2 (eapply ends_step; [reflexivity|]; cbv beta).
  eapply app_start_ends; [eapply Hst; [exact Hc|lia]|]. intros off w n Hoff _ Hw.
  eapply ends_step.
  { rewrite cd_eqb_ns, cd_zero_ns, Hoff, Ht. reflexivity. }
  apply start_phase_passes with n. left. by exists 0.
Qed.

Lemma start_already_passes :
  returns (λ fuel, start_already (Q := Q) from_iter_safe not_found fuel child os sched) tt.
Proof.
  apply valid_passes. destruct (start_starts (Q := Q) notifiers) as (s&p&Hconn&Hst). exists s, p.
  split; [done|]. intros t c Ht Hc.
  eapply app_start_ends; [eapply Hst; [exact Hc|lia]|]. intros off w n Hoff Hn Hw.
  destruct (start_next DeadlineNotifier_new n w n (tail sched)) as (w1&Hnext&Hw1); [left; by exists 0|].
  eapply ends_then; [eapply app_call_returns; [exact Hnext|by eapply start_again]|]. cbv beta.
  do 2 (eapply ends_step; [reflexivity|]; cbv beta iota).
  destruct (start_next DeadlineNotifier_new n w1 n (tail (tail sched)) Hw1) as (w2&Hnext2&Hw2).
  eapply ends_then; [apply read_returns, Hnext2|]. cbv beta. cbn [s_app].
  injection Hn as <-. eapply ends_step; [reflexivity|].
  by eapply start_phase_passes.
Qed.

(** *** [send] *)
(** The notifier after [S j] slices. *)
Definition after_slices (j : nat) : DeadlineNotifier :=
  mk_deadline_notifier (Z.of_nat (S j) * RECV_ONE_MSG_ACTOR_SLICE)%Z (Z.of_nat (S j)).

Lemma idle_notifier j w n :
  idle notifiers j w n → (Z.of_nat j ≤ MAX_SIGNALS)%Z → n.2 = after_slices j.
Proof.
  intros ((_&_&_&_&Hdl&_)&_&_&_&Hn) Hj. unfold synced, app_callbacks, Notifiers_callbacks, notifiers in Hn.
  rewrite run_callbacks_spec in Hn by done. injection Hn as <-. simpl.
  fold (deadlines (w_ctx w)). rewrite Hdl, length_fmap, length_seq, fmap_last, (seq_S j 1), last_snoc.
  simpl. unfold after_slices. rewrite as_u64_id; [done|].
  unfold in_u64, u64_max, MAX_SIGNALS in *. lia.
Qed.

Lemma app_send_loaded j w n l msg :
  idle notifiers j w n → budget j l → small msg →
  ∃ j' w' n', returns (λ fuel, app_send fuel msg (mk_sim w n l)) (tt, mk_sim w' n' (tail l)) ∧
    loaded notifiers j' w' n' ∧ (Z.of_nat j' ≤ MAX_SIGNALS)%Z ∧ n'.2 = after_slices j'.
Proof.
  intros Hi Hb Hm.
  destruct (idle_app_send _ j w n l msg Hi Hb Hm) as (j'&w1&w2&n1&Hsend&Hi1&Hl&Hj).
  exists j', w2, n1. split_and!; [|done|done|by eapply idle_notifier].
  unfold app_send. eapply settles_then; [exact Hsend|]. by apply settles_const.
Qed.

(** A message that ends the simulation. *)
Lemma app_send_stop j w n l msg P (k : nat → unit → M Sim unit) :
  idle notifiers j w n → budget j l → small msg →
  (∀ j' w' n', (Z.of_nat j' ≤ MAX_SIGNALS)%Z → n'.2 = after_slices j' → halted w' = true →
    ends P (λ fuel, k fuel tt) (mk_sim w' n' (tail (tail l)))) →
  ends P (λ fuel, _ ← app_send fuel msg; x ← app_stop fuel; k fuel x) (mk_sim w n l).
Proof.
  intros Hi Hb Hm Hk.
  destruct (app_send_loaded j w n l msg Hi Hb Hm) as (j'&w1&n1&Hsend&Hl&Hj&Hn).
  destruct (loaded_stop notifiers j' w1 n1 (tail l) Hj Hl) as (w2&Hstop&Hh).
  eapply ends_then; [exact Hsend|]. eapply ends_then; [exact Hstop|]. by eapply Hk.
Qed.

Lemma app_send_stop_last j w n l msg :
  idle notifiers j w n → budget j l → small msg →
  passes (λ fuel, _ ← app_send fuel msg; app_stop fuel) (mk_sim w n l).
Proof.
  intros Hi Hb Hm.
  destruct (app_send_loaded j w n l msg Hi Hb Hm) as (j'&w1&n1&Hsend&Hl&Hj&Hn).
  destruct (loaded_stop notifiers j' w1 n1 (tail l) Hj Hl) as (w2&Hstop&_).
  eapply ends_then; [exact Hsend|]. by eapply passes_returns.
Qed.

Lemma foo_small : small FOO_MSG.
Proof. apply Nat.leb_le. by vm_compute. Qed.

Lemma send_passes :
  returns (λ fuel, send (Q := Q) from_iter_safe not_found fuel child os sched) tt.
Proof.
  apply valid_passes. destruct (idle_starts (Q := Q) notifiers) as (s&p&Hconn&Hst). exists s, p.
  split; [done|]. intros t c Ht Hc.
  eapply app_start_ends; [eapply Hst; [exact Hc|lia]|]. intros off w n Hoff _ Hw. cbv beta.
  apply budget_tail in Hsched as [Hb _].
  eapply app_send_stop; [exact Hw|exact Hb|apply foo_small|]. intros j w' n' Hj Hn Hh.
  eapply ends_then; [by apply read_halted|]. cbv beta. cbn [s_app]. rewrite Hn. unfold after_slices.
  cbn [dn_num_called dn_deadline].
  unfold MAX_SIGNALS in Hj.
  eapply ends_step; [rewrite (proj2 (Z.ltb_lt _ _)) by lia; reflexivity|]. cbv beta.
  assert (as_u32 (Z.of_nat (S j)) = Z.of_nat (S j)) as -> by (unfold as_u32; rewrite Z.mod_small; lia).
  eapply ends_step.
  { unfold lift, Duration_mul. rewrite (proj2 (Z.leb_le _ _)); [reflexivity|].
    unfold RECV_ONE_MSG_ACTOR_SLICE, from_micros, Duration_MAX, NANOS_PER_SEC. lia. }
  cbv beta. eapply passes_returns. apply settles_const.
  rewrite (proj2 (Z.eqb_eq _ _)) by lia. reflexivity.
Qed.

Lemma send_too_big_passes :
  returns (λ fuel, send_too_big (Q := Q) from_iter_safe not_found fuel child os sched) tt.
Proof.
  apply valid_passes. destruct (idle_starts (Q := Q) notifiers) as (s&p&Hconn&Hst). exists s, p.
  split; [done|]. intros t c Ht Hc.
  eapply app_start_ends; [eapply Hst; [exact Hc|lia]|]. intros off w n Hoff _ Hw. cbv beta.
  apply budget_tail in Hsched as [Hb _].
  destruct (idle_app_send_big _ 0 w n _ (replicate (MAX_PACKET_SIZE + 1) x00) Hw Hb)
    as (j&w1&n1&Hsend&Hi1&Hb1); [by rewrite length_replicate; lia|].
  eapply ends_then; [exact Hsend|]. cbv beta.
  do 2 (eapply ends_step; [reflexivity|]; cbv beta iota).
  by eapply app_send_stop_last, foo_small.
Qed.

(** *** [gettimeofday] *)
Lemma idle_time j w n l P (k : nat → timeval → M Sim unit) :
  idle notifiers j w n → budget j l →
  (∀ j' tv w' n', idle notifiers j' w' n' → budget j' (tail l) →
    ends P (λ fuel, k fuel tv) (mk_sim w' n' (tail l))) →
  ends P (λ fuel, tv ← app_call fuel gettimeofday; k fuel tv) (mk_sim w n l).
Proof.
  intros Hi Hb Hk. destruct (idle_app_time _ j w n l Hi Hb) as (j'&tv&w1&n1&Hrun&_&Hi1&Hb1).
  eapply ends_then; [exact Hrun|]. by eapply Hk.
Qed.

(** The rest of a test after its assertion on the time. *)
Lemma check_ends (o : outcome unit) (P : outcome (unit * Sim) → Prop) (k : nat → M Sim unit) s :
  passes k s → (∀ r, (_ ← r; Ret tt) = o → P r) → ends P (λ fuel, _ ← lift o; k fuel) s.
Proof.
  intros (r&(st&->)&Hk) HP. destruct o as [[]|e|].
  - exists (Ret (tt, st)). split; [by apply HP|]. eapply settles_step; [reflexivity|done].
  - exists (Panic e). split; [by apply HP|]. by apply settles_always.
  - exists OutOfFuel. split; [by apply HP|]. by apply settles_always.
Qed.

Lemma end_small : small (bytes_of "This is the end").
Proof. apply Nat.leb_le. by vm_compute. Qed.

Lemma test_gettimeofday_checks :
  ∃ tv, settles (λ fuel, test_gettimeofday (Q := Q) from_iter_safe not_found fuel child os sched)
    (check_time 0 10 tv).
Proof.
  apply valid_checks.
  destruct (idle_starts (Q := Q) notifiers) as (s&p&Hconn&Hst). exists s, p.
  split; [done|]. intros t c Ht Hc.
  eapply app_start_ends; [eapply Hst; [exact Hc|lia]|]. intros off w n Hoff _ Hw. cbv beta.
  apply budget_tail in Hsched as [Hb _].
  eapply idle_time; [exact Hw|exact Hb|]. intros j tv w' n' Hi Hb'. cbv beta.
  eapply check_ends; [by eapply app_send_stop_last, end_small|]. intros r Hr. by exists tv.
Qed.

Lemma gettimeofday_h1_checks :
  ∃ tv, settles (λ fuel, gettimeofday_h1 (Q := Q) from_iter_safe not_found fuel child os sched)
    (check_time 3600 3610 tv).
Proof.
  destruct parse_valid_h1 as (t&Hparse&Hp&Ht).
  eapply run_checks; [exact Hparse|exact Hp|by rewrite Ht|].
  destruct (idle_starts (Q := Q) notifiers) as (s&p&Hconn&Hst). exists s, p.
  split; [done|]. intros c Hc.
  eapply app_start_ends; [eapply Hst; [exact Hc|lia]|]. intros off w n Hoff _ Hw. cbv beta.
  destruct (cd_hours_Ret 1) as (h&Hh&Hhns); [by vm_compute|].
  eapply ends_step; [unfold lift; by rewrite Hh|]. cbv beta.
  eapply ends_step; [rewrite cd_eqb_ns, Hoff, Ht, Hhns; reflexivity|]. cbv beta.
  apply budget_tail in Hsched as [Hb _].
  eapply idle_time; [exact Hw|exact Hb|]. intros j tv w' n' Hi Hb'. cbv beta.
  eapply check_ends; [by eapply app_send_stop_last, end_small|]. intros r Hr. by exists tv.
Qed.

(** *** [message_loop] *)
Lemma message_loop_passes :
  returns (λ fuel, message_loop (Q := Q) from_iter_safe not_found fuel child os sched) tt.
Proof.
  destruct parse_valid_h1 as (t&Hparse&Hp&Ht).
  eapply run_passes; [exact Hparse|exact Hp|by rewrite Ht|].
  destruct dummy_connects as (s&p&Hconn&Hrx&He). exists s, p. split; [done|]. intros c Hc.
  destruct Hc as ((Hrep&_&Hcb&_&Hs&_)&_).
  pose proof (connector_recv_spec [] [] (in_cap c) c [] [] [] Hrep eq_refl) as Hrecv. rewrite Hs, Hrx, He in Hrecv.
  simpl in Hrecv. destruct Hrecv as (r&c'&Hrun&(_&_&_&_&_&_&Hcb'&_)&_&_&_&_&[-> _]).
  exists (Ret (tt, mk_sim (mk_world c' p) notifiers sched)). split; [by eexists|].
  exists 1. intros [|fuel] Hf; [lia|]. simpl.
  erewrite bind_run.
  2: { apply (in_world_quiet _ _ (mk_world c' p)); [|exact Hcb']. unfold live_recv.
       erewrite on_ctx_run by exact Hrun. reflexivity. }
  reflexivity.
Qed.

(** *** [recv] and [poll] *)
Section delayed.
Context (msg : bytes) (slice delay : Z).
Hypotheses (Hmsg : small msg) (Hslice : (0 < slice)%Z) (Hdelay : (0 ≤ delay)%Z)
  (Hmax : (delay + slice ≤ u64_max)%Z).
Abbreviation delayed_phase := (delayed_phase DeadlineNotifier_new msg slice delay).
Abbreviation received := (received DeadlineNotifier_new msg slice delay).

Definition after_schedule : DeadlineNotifier :=
  mk_deadline_notifier (from_micros delay) (as_u64 (Z.of_nat (length (schedule slice delay)))).

Lemma recorded_notifier d : recorded DeadlineNotifier_new slice delay d → d = after_schedule.
Proof.
  intros (n&Hn&->). rewrite run_callbacks_spec in Hn by done. injection Hn as <-. simpl.
  rewrite callback_deadlines_map. unfold after_schedule, schedule. by rewrite last_snoc.
Qed.

Lemma delayed_body P (k : nat → CDuration → M Sim unit) :
  (∀ off w n l, delayed_phase w n → ends P (λ fuel, k fuel off) (mk_sim w n l)) →
  ∃ s p, returns (λ fuel, connect fuel (send_one_delayed_msg_actor msg slice delay)) (s, p) ∧
    ∀ t c, ndt_ns t = 0%Z → test_context t 100 s c →
      ends P (λ fuel, off ← app_start fuel; k fuel off) (mk_sim (mk_world c p) notifiers sched).
Proof.
  intros Hk.
  destruct (delayed_connects_starts (Q := Q) DeadlineNotifier_new msg slice delay Hmsg Hslice
    Hdelay Hmax) as (s&p&Hconn&Hst).
  exists s, p. split; [done|]. intros t c _ Hc.
  eapply app_start_ends; [by eapply Hst|]. intros off w n _ _ Hw. by apply Hk.
Qed.

(** The body of a test that waits for the packet. *)
Lemma waiting_body P (k : nat → M Sim unit) w n l :
  delayed_phase w n →
  (∀ w' n', received w' n' → ends P k (mk_sim w' n' (tail l))) →
  ends P (λ fuel, _ ← recv_notifier_wait fuel; k fuel) (mk_sim w n l).
Proof.
  intros Hw Hk. destruct (recv_notifier_wait_run _ _ _ _ Hmsg Hslice Hdelay Hmax w n l Hw) as (w'&n'&Hrun&Hrec).
  eapply ends_then; [exact Hrun|]. by apply Hk.
Qed.

Lemma local_vsg_address_run : local_vsg_address = Ret local_address.
Proof. reflexivity. Qed.

Lemma recv_expected_run w n l :
  received w n → ∃ w',
    returns (λ fuel, recv_expected fuel msg (mk_sim w n l)) (tt, mk_sim w' n (tail l)) ∧
    halted w' = true.
Proof.
  intros Hw. destruct (received_recv _ _ _ _ w n l (replicate (length msg) x00) Hw) as (w'&Hrun&Hh&_).
  rewrite (recv_exact_result msg) in Hrun. exists w'. split; [|done]. unfold recv_expected.
  eapply settles_then; [exact Hrun|]. apply settles_const. cbv beta iota.
  do 2 (erewrite bind_run by reflexivity; cbv beta iota).
  rewrite !Z.eqb_refl, bool_decide_true by done. reflexivity.
Qed.
End delayed.

Abbreviation foo_phase := (delayed_phase DeadlineNotifier_new FOO_MSG 100 100).

Lemma foo_body P (k : nat → M Sim unit) :
  (∀ w n l, foo_phase w n → ends P k (mk_sim w n l)) →
  ∃ s p, returns (λ fuel, connect fuel (send_one_msg_actor FOO_MSG)) (s, p) ∧
    ∀ t c, ndt_ns t = 0%Z → test_context t 100 s c →
      ends P (λ fuel, _ ← app_start fuel; k fuel) (mk_sim (mk_world c p) notifiers sched).
Proof.
  intros Hk. apply (delayed_body FOO_MSG 100 100 foo_small); [done..|].
  intros off w n l. apply Hk.
Qed.

Lemma recv_passes :
  returns (λ fuel, recv (Q := Q) from_iter_safe not_found fuel child os sched) tt.
Proof.
  apply valid_passes, foo_body. intros w n l Hw.
  eapply (waiting_body FOO_MSG 100 100 foo_small); [done..|exact Hw|]. clear w n Hw. intros w n Hw.
  destruct (recv_expected_run FOO_MSG 100 100 w n (tail l) Hw) as (w'&Hrun&Hh).
  eapply ends_then; [exact Hrun|]. cbv beta. destruct Hw as (_&_&_&Hn%recorded_notifier).
  eapply ends_then; [by apply read_halted|]. cbv beta. cbn [s_app]. rewrite Hn.
  do 2 (eapply ends_step; [reflexivity|]; cbv beta). by apply halted_passes.
Qed.

Lemma recv_too_big_passes :
  returns (λ fuel, recv_too_big (Q := Q) from_iter_safe not_found fuel child os sched) tt.
Proof.
  apply valid_passes, foo_body. intros w n l Hw.
  eapply (waiting_body FOO_MSG 100 100 foo_small); [done..|exact Hw|]. clear w n Hw. intros w n Hw.
  destruct (received_recv _ FOO_MSG 100 100 w n (tail l) (bytes_of "fOO~MS") Hw) as (w'&Hrun&Hh&_).
  eapply ends_then; [exact Hrun|]. cbv beta iota.
  do 3 (eapply ends_step; [reflexivity|]; cbv beta iota). by apply halted_passes.
Qed.

Lemma poll_cond w n l out up inn :
  repr (w_ctx w) out up inn →
  (o ← in_world (on_ctx Context_poll); mret (bool_decide (o = Some tt))) (mk_sim w n l) =
    Ret (bool_decide (inn ≠ []), mk_sim w n l).
Proof.
  intros Hr. destruct w as [c p].
  rewrite (bind_run _ _ (if decide (inn = []) then None else Some tt) _ (mk_sim (mk_world c p) n l)).
  - destruct inn; by case_decide.
  - apply in_world_quiet; [|done]. apply on_ctx_run. by eapply Context_poll_spec.
Qed.

Lemma poll_passes :
  returns (λ fuel, poll (Q := Q) from_iter_safe not_found fuel child os sched) tt.
Proof.
  apply valid_passes, foo_body. intros w n l Hw.
  destruct (polling_reaches _ FOO_MSG 100 100 foo_small ltac:(done) ltac:(done) ltac:(done)
    _ w n l poll_cond Hw) as (w2&n2&Hpoll&Hrec).
  destruct (recv_expected_run FOO_MSG 100 100 w2 n2 (tail l) Hrec) as (w'&Hrun&Hh).
  eapply ends_then; [exact Hpoll|]. eapply ends_then; [exact Hrun|]. by apply halted_passes.
Qed.

(** *** [recv_delayed] *)
Lemma schedule_length slice k :
  (0 < slice)%Z → (0 < k)%Z → Z.of_nat (length (schedule slice (k * slice))) = k.
Proof.
  intros Hs Hk. unfold schedule, slices. rewrite length_app, length_fmap, length_seq. simpl.
  unfold before_last. assert ((k * slice - 1) / slice = k - 1)%Z as ->; [|lia].
  symmetry. apply Z.div_unique with (slice - 1)%Z; nia.
Qed.

Lemma recv_one_delay_checks slice k :
  (0 < slice)%Z → (0 < k)%Z → (k * slice + slice ≤ u64_max)%Z →
  ∃ tv, settles (λ fuel, recv_one_delay (Q := Q) from_iter_safe not_found fuel child os sched
    slice (k * slice)) (check_delay (k * slice) tv).
Proof.
  intros Hs Hk Hmax. apply valid_checks.
  apply (delayed_body FOO_MSG slice (k * slice) foo_small Hs ltac:(lia) Hmax).
  intros off w n l Hw.
  eapply (waiting_body FOO_MSG slice (k * slice) foo_small Hs ltac:(lia) Hmax); [exact Hw|].
  clear w n Hw. intros w n Hw.
  destruct (received_recv _ FOO_MSG slice (k * slice) w n (tail l) (replicate (length FOO_MSG) x00) Hw)
    as (w1&Hrun&Hh&Hd).
  rewrite recv_exact_result in Hrun. eapply ends_then; [exact Hrun|]. cbv beta iota.
  eapply ends_step; [reflexivity|]. cbv beta iota.
  destruct (gettimeofday_ended w1 n (tail (tail (tail l))) Hd) as (tv&Htv).
  eapply ends_then; [eapply app_call_returns; [|exact Htv]|].
  { apply settles_always. intros. by apply next_signals_halted. }
  cbv beta. do 4 (eapply ends_step; [reflexivity|]; cbv beta).
  eapply check_ends; [|intros r Hr; by exists tv].
  destruct Hw as (_&_&_&Hn%recorded_notifier).
  eapply ends_then; [by apply read_halted|]. cbv beta. cbn [s_app].
  rewrite Hn. unfold after_schedule. cbn [dn_num_called dn_deadline].
  rewrite (schedule_length slice k Hs Hk), Z.div_mul, as_u64_id, !Z.eqb_refl by
    (unfold in_u64; nia).
  do 2 (eapply ends_step; [reflexivity|]; cbv beta). by apply halted_passes.
Qed.
End tests.

(** The outcome of [recv_delayed] whose runs read the times [tvs]. *)
Definition check_delays `{Profile} (tvs : list timeval) : outcome unit :=
  foldr (λ '(i, tv) rest, _ ← check_delay (i * 100) tv; rest) (Ret tt) (zip (seqZ 1 100) tvs).

Lemma recv_delayed_checks {OS Q} `{FL : FlatBuffersLaws, PV : PosixLive OS}
    `{AQ : ArrayQueueLaws Q, PR : Profile} from_iter_safe `{TP : !TestParser from_iter_safe}
    not_found child (os : Z → OS) sched :
  (∀ i, creates (os i)) → (∀ i, budget 0 (sched i)) →
  ∃ tvs, length tvs = 100 ∧ settles
    (λ fuel, recv_delayed (Q := Q) from_iter_safe not_found fuel child os sched)
    (check_delays tvs).
Proof.
  intros Hos Hsched.
  assert (Forall (λ i, 1 ≤ i ≤ 100)%Z (seqZ 1 100)) as Hall by (apply Forall_seqZ; lia).
  rewrite <- (length_seqZ 1 100 : length (seqZ 1 100) = 100). unfold recv_delayed, check_delays.
  induction Hall as [|i l Hi _ (tvs&Hlen&IH)]; [exists []; split; [done|by exists 0]|].
  destruct (recv_one_delay_checks (Q := Q) from_iter_safe not_found child (os i) (sched i)
    (Hos i) 100 i) as [tv Htv]; [lia|lia|unfold u64_max; lia|].
  exists (tv :: tvs). split; [by apply (f_equal S)|]. cbn [foldr zip zip_with].
  destruct (check_delay (i * 100) tv) as [[]|p|] eqn:E.
  - by eapply settles_outcome.
  - destruct Htv as [n Hn]. exists n. intros fuel Hf. by rewrite Hn.
  - destruct Htv as [n Hn]. exists n. intros fuel Hf. by rewrite Hn.
Qed.
