(* ===== verification/ContextTestProps.v ===== *)
(** * ContextTestProps: the tests of the context pass

    [tansiv-client/src/lib.rs], module [test], with every clap, serializer, queue and
    operating system that keep their laws, and every schedule of the deadline
    signals. *)
From S2P Require Import Prelude Std BufferPool BytesBuffer Wire WireRef FbBuffer Connector.
From S2P Require Import ConnectorSpec ConnectorPeer OutputMsgSet WaitfreeArrayQueue Chrono.
From S2P Require Import Error LibcTimer Timer TimerProcess TimerProcessSpec TimerProcessLive.
From S2P Require Import PosixRef Context TestActor TestHelpers Cosim CosimSpec Config Capi Lifetime.
From S2P Require Import ConfigSpec ConfigRef ScriptSpec TestRun TestRunSpec TestScripts ContextTests ContextTestsSpec.
From stdpp Require Import base option list numbers strings.
From Stdlib Require Import ZArith Lia Strings.Byte.

Section tests.
Context {OS : Type} {Q : Type → Type} `{FL : FlatBuffersLaws, PV : PosixLive OS}
  `{AQ : ArrayQueueLaws Q, PR : Profile}.
Context `{DP : !DateParser, DPL : !DateParserLaws, CP : Clap, CPL : !ClapLaws}.

(** C18: the tests of the context pass, whatever deadline signals come before
    each of their calls: no assertion fails, every loop ends, the actor that
    answers is never short of a message and the context is freed.  The tests
    that look at the clock get as far as their assertion on the time and end as
    it does: a failure of theirs is one of that assertion only. *)
Theorem context_tests_pass not_found child (os : OS) sched (oss : Z → OS) scheds :
  creates os → budget 0 sched → (∀ i, creates (oss i)) → (∀ i, budget 0 (scheds i)) →
  Forall (λ test, returns (λ fuel, test fuel child os sched) tt)
    [init_valid (Q := Q) Config_from_iter_safe not_found;
     λ fuel child os _, init_invalid (Q := Q) Config_from_iter_safe not_found fuel child os;
     start_stop (Q := Q) Config_from_iter_safe not_found;
     start_already (Q := Q) Config_from_iter_safe not_found;
     send (Q := Q) Config_from_iter_safe not_found;
     send_too_big (Q := Q) Config_from_iter_safe not_found;
     recv (Q := Q) Config_from_iter_safe not_found;
     recv_too_big (Q := Q) Config_from_iter_safe not_found;
     poll (Q := Q) Config_from_iter_safe not_found;
     message_loop (Q := Q) Config_from_iter_safe not_found] ∧
  (∃ tv, settles
    (λ fuel, test_gettimeofday (Q := Q) Config_from_iter_safe not_found fuel child os sched)
    (check_time 0 10 tv)) ∧
  (∃ tv, settles
    (λ fuel, gettimeofday_h1 (Q := Q) Config_from_iter_safe not_found fuel child os sched)
    (check_time 3600 3610 tv)) ∧
  ∃ tvs, length tvs = 100 ∧ settles
    (λ fuel, recv_delayed (Q := Q) Config_from_iter_safe not_found fuel child oss scheds)
    (check_delays tvs).
Proof.
  intros Hos Hsched Hoss Hscheds.
  assert (TestParser Config_from_iter_safe) as TP by exact _. split_and!.
  - repeat apply Forall_cons_2; [..|constructor].
    + by apply init_valid_passes.
    + by apply init_invalid_passes.
    + by apply start_stop_passes.
    + by apply start_already_passes.
    + by apply send_passes.
    + by apply send_too_big_passes.
    + by apply recv_passes.
    + by apply recv_too_big_passes.
    + by apply poll_passes.
    + by apply message_loop_passes.
  - by apply test_gettimeofday_checks.
  - by apply gettimeofday_h1_checks.
  - by apply recv_delayed_checks.
Qed.
End tests.

(** ** Witness *)
#[local] Instance overflow_checked : Profile := true.

Definition ex_clock : ref_os := mk_ref_os 2000 (replicate 100 500%Z) None.

Lemma context_tests_pass_witness :
  returns (λ fuel, send (Q := list_queue) Config_from_iter_safe eof fuel 7 ex_clock [0; 2]) tt ∧
  returns (λ fuel, poll (Q := list_queue) Config_from_iter_safe eof fuel 7 ex_clock [0; 2]) tt.
Proof.
  destruct (context_tests_pass (Q := list_queue) eof 7 ex_clock [0; 2]
    (λ _, ex_clock) (λ _, [])) as [Hall _].
  - eexists _, _. by split.
  - by vm_compute.
  - intros i. eexists _, _. by split.
  - intros i. by vm_compute.
  - rewrite Forall_lookup in Hall. split; [by apply (Hall 4 _ eq_refl)|].
    by apply (Hall 8 _ eq_refl).
Defined.
