(* ===== verification/CapiTests.v ===== *)
(** * CapiTests: the tests of the C interface

    [client/capi/src/lib.rs], module [test].  As in [ContextTests], a test is a
    computation that panics when an assertion fails; a pointer is an [option].
    Names of the two modules coincide where those of the tests do. *)
From S2P Require Import Prelude Std BufferPool BytesBuffer Wire FbBuffer Connector.
From S2P Require Import ConnectorPeer OutputMsgSet WaitfreeArrayQueue Chrono Error LibcTimer.
From S2P Require Import Timer TimerProcess TimerProcessSpec Context TestActor TestHelpers.
From S2P Require Import Cosim CosimSpec Config Capi Lifetime TestRun ContextTests.
From stdpp Require Import base option list numbers strings pretty.
From Stdlib Require Import ZArith Lia Strings.Byte.

(** ** Arguments

    [CString::new] refuses a string that contains a zero. *)
Definition CString_new (s : string) : result bytes unit :=
  if bool_decide (x00 ∈ bytes_of s) then Err tt else Ok (bytes_of s).

(** [os_args!]: the bytes each pointer of [argv] points to, up to the zero *)
Fixpoint os_args (l : list string) : outcome (list bytes) :=
  match l with
  | [] => Ret []
  | s :: l => arg ← unwrap_ok (CString_new s); args ← os_args l; Ret (arg :: args)
  end.

Definition valid_args : outcome (list bytes) :=
  os_args ["-atiti"; "-n"; "10.0.0.1"; "-t1970-01-01T00:00:00"].
Definition invalid_args : outcome (list bytes) :=
  os_args ["-btiti"; "-n"; "10.0.0.1"; "-t1970-01-01T00:00:00"].

(** ** [parse_os_args] *)

(** [raw_args.iter().zip(args).all(..)]: the value of [count] afterwards, and how
    often it called [next] on [args]. *)
Fixpoint zip_all (raw_args args : list bytes) : Z * nat :=
  match raw_args with
  | [] => (0%Z, 0)
  | r :: raw_args =>
      match args with
      | [] => (0%Z, 1)
      | a :: args =>
          if bool_decide (r = a) then
            let '(count, pulls) := zip_all raw_args args in ((count + 1)%Z, S pulls)
          else (1%Z, 1)
      end
  end.

Definition parse_args_compare (raw_args args : list bytes) (num_required_args : Z) :
    outcome (result unit Error * nat) :=
  _ ← require (num_required_args <=? Z.of_nat (length raw_args))%Z;
  let '(count, pulls) := zip_all raw_args args in
  Ret (if (num_required_args =? count)%Z then Ok tt
       else if (count <? num_required_args)%Z then
         Err (from (Custom InvalidInput
           ("raw_args and args differ at index " +:+ pretty (count - 1)%Z)))
       else
         Err (from (Custom InvalidInput
           ("parse_os_args() iterated " +:+ pretty (count - num_required_args)%Z +:+
            " args too far"))), pulls).

(** Of the arguments [args] all but the last [others] are required, and
    [next_expected] is the index of the next argument. *)
Definition parse_os_args_test (args : list string) (others next_expected : Z) : outcome unit :=
  args ← os_args args;
  let argc := Z.of_nat (length args) in
  let num_required_args := (argc - others)%Z in
  r ← parse_args_compare args (all_args args) num_required_args;
  let res := parse_os_args args (λ _, r) in
  _ ← require (match res with Ok _ => true | Err _ => false end);
  '(_, next) ← unwrap_ok res;
  require (num_required_args + next_expected =? next)%Z.

Definition parse_os_args1 : outcome unit :=
  parse_os_args_test ["-atiti"; "-n10.0.0.1"; "-t1970-01-02T00:00:00"] 0 0.
Definition parse_os_args2 : outcome unit :=
  parse_os_args_test
    ["-a"; "titi"; "-n"; "10.0.0.1"; "-t"; "1970-01-02T00:00:00"] 0 0.
Definition parse_os_args3 : outcome unit :=
  parse_os_args_test ["-atiti"; "-n10.0.0.1"; "-t1970-01-02T00:00:00"; "--"] 1 1.
Definition parse_os_args4 : outcome unit :=
  parse_os_args_test
    ["-atiti"; "-n10.0.0.1"; "-t1970-01-02T00:00:00"; "--"; "other arg"] 2 1.
Definition parse_os_args5 : outcome unit :=
  parse_os_args_test
    ["-atiti"; "-n10.0.0.1"; "-t1970-01-02T00:00:00"; "--"; "--"] 2 1.

(** ** Callbacks

    [simple_deadline_callback] records the time [vsg_init] passes it; the tests
    with a dummy callback do not look at it. *)
#[export] Instance simple_deadline_callback : DeadlineCallbacks timespec := λ deadline,
  modify (λ _, capi_duration_to_timespec deadline).

Definition null_vsg_address : Z := 0.
Definition TIMESPEC_POISON : timespec := mk_timespec i64_max i64_max.
Definition TIMEVAL_POISON : timeval := mk_timeval i64_max i64_max.
Definition START_ACTOR_DEADLINE_TIMESPEC : timespec :=
  mk_timespec (as_i64 (as_secs START_ACTOR_DEADLINE))
    (as_i64 (subsec_nanos START_ACTOR_DEADLINE)).

(** ** Without a context

    These tests pass a null pointer for the context; the state is that of any
    context, which they do not touch. *)
Section null_context.
Context {T : Type} {Q : Type → Type} `{FB : FlatBuffers, CH : Chrono, LC : Libc}
  `{TM : !Timer T, AQ : !ArrayQueue Q}.
Abbreviation Ctx := (Context T Q).

Definition start_no_context : M Ctx unit :=
  '(res, _) ← vsg_start false None; assert (EINVAL =? res)%Z.

Definition stop_no_context (fuel : nat) : M Ctx unit :=
  res ← vsg_stop fuel false; assert (EINVAL =? res)%Z.

Definition send_no_context : M Ctx unit :=
  let buffer := bytes_of "Foo msg" in
  res ← vsg_send false remote_vsg_address (as_u32 (Z.of_nat (length buffer))) (Some buffer);
  assert (EINVAL =? res)%Z.

Definition recv_no_context : M Ctx unit :=
  let ORIG_BUFFER := bytes_of "Foo msg" in
  let len := as_u32 (Z.of_nat (length ORIG_BUFFER)) in
  local ← lift local_vsg_address;
  '(res, o) ← vsg_recv false (Some local) (Some remote_vsg_address) (Some len) (Some ORIG_BUFFER);
  _ ← assert (EINVAL =? res)%Z;
  _ ← assert (bool_decide (ro_src o = Some local));
  _ ← assert (bool_decide (ro_dst o = Some remote_vsg_address));
  _ ← assert (bool_decide (ro_msglen o = Some len));
  assert (bool_decide (ro_msg o = Some ORIG_BUFFER)).

Definition gettimeofday_no_context : M Ctx unit :=
  '(res, tv) ← vsg_gettimeofday false (Some TIMEVAL_POISON);
  _ ← assert (EINVAL =? res)%Z;
  let tv := default (mk_timeval 0 0) tv in
  _ ← assert (tv_sec TIMEVAL_POISON =? tv_sec tv)%Z;
  assert (tv_usec TIMEVAL_POISON =? tv_usec tv)%Z.
End null_context.

Definition cleanup_null {A} (destroy : M A unit) : M (process A) unit := vsg_cleanup destroy None.

(** ** With a context *)
Section tests.
Context {OS : Type} {Q : Type → Type} `{FB : FlatBuffers, CH : Chrono, LC : Libc}
  `{PX : !Posix OS, LK : !LocalClock OS, AQ : !ArrayQueue Q, PR : Profile}.
Context (from_iter_safe : list bytes → result Config string) (not_found : io_error).
Context (fuel : nat) (child : Z) (os : OS) (sched : list nat).

(** How often the parser calls [next] on the arguments. *)
Context (pulls : nat).

Abbreviation Sim := (sim OS Q (RecvNotifier * timespec)).
Abbreviation PCtx := (Context (ProcessTimer (S := OS)) Q).

(** The actor lives from its creation to the end of the test. *)
Definition with_actor (actor_fn : script) (test : UnixStream → actor_process → outcome unit) :
    outcome unit :=
  desc ← TestActorDesc_new "titi" (Ok tt) (Ok tt) (Ok child);
  '(s, p) ← connect fuel actor_fn;
  _ ← test s p;
  _ ← TestActorDesc_drop (Ok tt) desc;
  Ret tt.

(** [vsg_init], the context or a null pointer and [*next_arg_p]. *)
Definition c_init (args : list bytes) (next_arg_p : option Z) (s : UnixStream) :
    outcome (option PCtx * option Z) :=
  r ← test_init from_iter_safe not_found (all_args args) os s;
  Ret (vsg_init args next_arg_p (λ _, (r, pulls))).

Definition not_null (context : option PCtx) : outcome PCtx :=
  match context with Some c => Ret c | None => Panic AssertionFailed end.
Definition is_null (context : option PCtx) : bool :=
  match context with Some _ => false | None => true end.

(** [vsg_cleanup] drops the only reference: the deadline handler upgrades its
    weak one for the time of a signal. *)
Definition c_cleanup (context : PCtx) : outcome unit := '(_, _) ← Context_drop context; Ret tt.

Definition init_valid : outcome unit :=
  with_actor dummy_actor (λ s _,
    args ← valid_args;
    '(context, next_arg) ← c_init args (Some 0%Z) s;
    c ← not_null context;
    _ ← require (bool_decide (next_arg = Some (Z.of_nat (length args))));
    c_cleanup c).

Definition init_valid_no_next_arg : outcome unit :=
  with_actor dummy_actor (λ s _,
    args ← valid_args;
    '(context, _) ← c_init args None s;
    c ← not_null context;
    c_cleanup c).

Definition init_invalid : outcome unit :=
  with_actor dummy_actor (λ s _,
    args ← invalid_args;
    '(context, next_arg) ← c_init args (Some 0%Z) s;
    _ ← require (is_null context);
    require (bool_decide (next_arg = Some 0%Z))).

Definition init_invalid_no_next_arg : outcome unit :=
  with_actor dummy_actor (λ s _,
    args ← invalid_args;
    '(context, _) ← c_init args None s; require (is_null context)).

(** A test that starts with [vsg_init] and ends with [vsg_cleanup]. *)
Definition run (actor_fn : script) (body : M Sim unit) : outcome unit :=
  with_actor actor_fn (λ s p,
    args ← valid_args;
    '(context, _) ← c_init args None s;
    c ← not_null context;
    '(_, st) ← body (mk_sim (mk_world c p) (RecvNotifier_new, mk_timespec 0 0) sched);
    c_cleanup (w_ctx (s_world st))).

(** The calls of the tests, with the assertion on their code. *)
Definition c_start (offset : option timespec) : M Sim (option timespec) :=
  '(res, offset) ← app_call fuel (vsg_start true offset);
  _ ← assert (0 =? res)%Z;
  mret offset.

Definition c_stop : M Sim unit :=
  _ ← next_signals fuel;
  _ ← sleep_until fuel fuel (in_world is_stopped);
  res ← in_world (on_ctx (vsg_stop 1 true));
  assert (0 =? res)%Z.

Definition c_send (code : Z) (msglen : Z) (msg : option bytes) : M Sim unit :=
  res ← app_call fuel (vsg_send true remote_vsg_address msglen msg);
  assert (code =? res)%Z.
Definition c_send_buffer (code : Z) (buffer : bytes) : M Sim unit :=
  c_send code (as_u32 (Z.of_nat (length buffer))) (Some buffer).

Definition c_recv (code : Z) (src dst msglen : option Z) (msg : option bytes) : M Sim recv_out :=
  '(res, o) ← app_call fuel (vsg_recv true src dst msglen msg);
  _ ← assert (code =? res)%Z;
  mret o.

Definition start_stop : outcome unit :=
  run start_actor (
    offset ← c_start (Some TIMESPEC_POISON);
    let offset := default TIMESPEC_POISON offset in
    _ ← assert (0 =? ts_sec offset)%Z;
    _ ← assert (0 =? ts_nsec offset)%Z;
    deadline ← (_ ← next_signals fuel; gets (λ s : Sim, (s_app s).2));
    _ ← assert ((ts_sec START_ACTOR_DEADLINE_TIMESPEC =? ts_sec deadline)%Z &&
                (ts_nsec START_ACTOR_DEADLINE_TIMESPEC =? ts_nsec deadline)%Z);
    c_stop).

Definition start_no_offset : outcome unit :=
  run start_actor (_ ← c_start None; c_stop).

Definition send : outcome unit :=
  run recv_one_msg_actor (
    _ ← c_start None;
    _ ← c_send_buffer 0 (bytes_of "Foo msg");
    c_stop).

Definition send_null_empty : outcome unit :=
  run recv_one_msg_actor (
    _ ← c_start None;
    _ ← c_send 0 0 None;
    c_stop).

Definition send_null_not_empty : outcome unit :=
  run recv_one_msg_actor (
    _ ← c_start None;
    _ ← c_send EINVAL 1 None;
    _ ← c_send_buffer 0 (bytes_of "Foo msg");
    c_stop).

Definition send_too_big : outcome unit :=
  run recv_one_msg_actor (
    _ ← c_start None;
    _ ← c_send_buffer EMSGSIZE (replicate (MAX_PACKET_SIZE + 1) x00);
    _ ← c_send_buffer 0 (bytes_of "Foo msg");
    c_stop).

(** A test that waits for the packet [expected] of the actor. *)
Definition run_recv (expected : bytes) (body : M Sim unit) : outcome unit :=
  run (send_one_msg_actor expected) (
    _ ← c_start None;
    _ ← recv_notifier_wait fuel;
    _ ← body;
    c_stop).

Definition is_local (src : option Z) : M Sim unit :=
  local ← lift local_vsg_address; assert (bool_decide (src = Some local)).
Definition is_remote (dst : option Z) : M Sim unit :=
  assert (bool_decide (dst = Some remote_vsg_address)).
Definition u32_len (l : bytes) : Z := as_u32 (Z.of_nat (length l)).
Definition is_len (l : bytes) (msglen : option Z) : M Sim unit :=
  assert (bool_decide (msglen = Some (u32_len l))).
Definition is_msg (l : bytes) (msg : option bytes) : M Sim unit :=
  assert (bool_decide (msg = Some l)).

(** The memory a packet is received in. *)
Definition zeroed (l : bytes) : bytes := replicate (length l) x00.

Definition recv_all (expected : bytes) : M Sim unit :=
  o ← c_recv 0 (Some null_vsg_address) (Some null_vsg_address) (Some (u32_len (zeroed expected)))
        (Some (zeroed expected));
  _ ← is_local (ro_src o);
  _ ← is_remote (ro_dst o);
  _ ← is_len expected (ro_msglen o);
  is_msg expected (ro_msg o).

Definition EXPECTED_MSG : bytes := bytes_of "Foo msg".

Definition recv : outcome unit := run_recv EXPECTED_MSG (recv_all EXPECTED_MSG).

Definition recv_no_src : outcome unit :=
  run_recv EXPECTED_MSG (
    o ← c_recv 0 None (Some null_vsg_address) (Some (u32_len (zeroed EXPECTED_MSG)))
          (Some (zeroed EXPECTED_MSG));
    _ ← is_remote (ro_dst o);
    _ ← is_len EXPECTED_MSG (ro_msglen o);
    is_msg EXPECTED_MSG (ro_msg o)).

Definition recv_no_dst : outcome unit :=
  run_recv EXPECTED_MSG (
    o ← c_recv 0 (Some null_vsg_address) None (Some (u32_len (zeroed EXPECTED_MSG)))
          (Some (zeroed EXPECTED_MSG));
    _ ← is_local (ro_src o);
    _ ← is_len EXPECTED_MSG (ro_msglen o);
    is_msg EXPECTED_MSG (ro_msg o)).

Definition recv_null_empty : outcome unit :=
  run_recv [] (
    o ← c_recv 0 (Some null_vsg_address) (Some null_vsg_address) None None;
    _ ← is_local (ro_src o);
    is_remote (ro_dst o)).

Definition recv_null_empty2 : outcome unit :=
  run_recv [] (
    o ← c_recv 0 (Some null_vsg_address) (Some null_vsg_address) (Some 0%Z) None;
    _ ← is_local (ro_src o);
    _ ← is_remote (ro_dst o);
    is_len [] (ro_msglen o)).

Definition recv_null_empty3 : outcome unit :=
  run_recv [] (
    o ← c_recv 0 (Some null_vsg_address) (Some null_vsg_address) None (Some []);
    _ ← is_local (ro_src o);
    _ ← is_remote (ro_dst o);
    is_msg [] (ro_msg o)).

Definition recv_null_not_empty : outcome unit :=
  run_recv [] (
    local ← lift local_vsg_address;
    o ← c_recv EINVAL (Some local) (Some remote_vsg_address) (Some 1%Z) None;
    _ ← is_local (ro_src o);
    _ ← is_remote (ro_dst o);
    assert (bool_decide (ro_msglen o = Some 1%Z))).

(** A reception that fails and leaves the memory of its caller alone. *)
Definition recv_fails (code : Z) (ORIG_BUFFER : bytes) : M Sim unit :=
  local ← lift local_vsg_address;
  o ← c_recv code (Some local) (Some remote_vsg_address) (Some (u32_len ORIG_BUFFER))
        (Some ORIG_BUFFER);
  _ ← is_local (ro_src o);
  _ ← is_remote (ro_dst o);
  _ ← is_len ORIG_BUFFER (ro_msglen o);
  is_msg ORIG_BUFFER (ro_msg o).

Definition recv_no_msg : outcome unit :=
  run start_actor (
    _ ← c_start None;
    _ ← recv_fails EAGAIN (bytes_of "Foo msg");
    c_stop).

Definition recv_too_big : outcome unit :=
  run_recv (bytes_of "Foo msg") (recv_fails EMSGSIZE (bytes_of "fOO MS")).

Definition poll : outcome unit :=
  run (send_one_msg_actor EXPECTED_MSG) (
    _ ← c_start None;
    _ ← app_wait fuel (
          res ← in_world (on_ctx (vsg_poll true));
          if (res =? EAGAIN)%Z then mret false else _ ← assert (0 =? res)%Z; mret true);
    _ ← recv_all EXPECTED_MSG;
    c_stop).

Definition c_gettimeofday (tv : option timeval) : M Sim (option timeval) :=
  '(res, tv) ← app_call fuel (vsg_gettimeofday true tv);
  _ ← assert (0 =? res)%Z;
  mret tv.

Definition test_gettimeofday : outcome unit :=
  run recv_one_msg_actor (
    _ ← c_start None;
    tv ← c_gettimeofday (Some TIMEVAL_POISON);
    let tv := default TIMEVAL_POISON tv in
    _ ← assert (negb (tv_sec TIMEVAL_POISON =? tv_sec tv)%Z);
    _ ← assert (negb (tv_usec TIMEVAL_POISON =? tv_usec tv)%Z);
    _ ← c_send_buffer 0 (bytes_of "This is the end");
    c_stop).

Definition gettimeofday_no_tv : outcome unit :=
  run recv_one_msg_actor (
    _ ← c_start None;
    _ ← c_gettimeofday None;
    _ ← c_send_buffer 0 (bytes_of "This is the end");
    c_stop).
End tests.
