(* ===== verification/CapiTestsSpec.v ===== *)
(** * CapiTestsSpec: the tests of the C interface pass

    For every schedule of the signals, and however many arguments the parser
    looks at. *)
From S2P Require Import Prelude Std BufferPool BytesBuffer Wire FbBuffer Connector.
From S2P Require Import ConnectorSpec ConnectorPeer OutputMsgSet WaitfreeArrayQueue Chrono.
From S2P Require Import Error LibcTimer Timer TimerProcess TimerProcessSpec TimerProcessLive.
From S2P Require Import Context ContextSpec DeadlineSpec ContextInit HandleDeadline TestActor.
From S2P Require Import ActorSpec TestHelpers ScriptSpec Cosim CosimSpec CosimRun CosimDelayed.
From S2P Require Import Handlers Lifetime Config Capi TestRun TestRunSpec TestScripts TestBodies.
From S2P Require Import ContextTests ContextTestsSpec CapiTests.
From stdpp Require Import base option list numbers strings.
From Stdlib Require Import ZArith Lia Strings.Byte.

#[export] Instance timespec_laws : DeadlineCallbacksLaws timespec.
Proof. intros deadline d. by eexists. Qed.

Lemma valid_args_plain n : (pull_args n 0 ContextTests.valid_args None).2 = None.
Proof. by destruct n as [|[|[|[|[|n]]]]]. Qed.

Section tests.
Context {OS : Type} {Q : Type → Type} `{FL : FlatBuffersLaws, PV : PosixLive OS}
  `{AQ : ArrayQueueLaws Q, PR : Profile, LL : !LibcLaws}.
Context (from_iter_safe : list bytes → result Config string) {TP : TestParser from_iter_safe}.
Context (not_found : io_error) (child : Z) (os : OS) (sched : list nat) (pulls : nat).
Hypotheses (Hos : creates os) (Hsched : budget 0 sched).

Abbreviation PTimer := (ProcessTimer (S := OS)).
Abbreviation World := (world PTimer Q).
Abbreviation Notes := (RecvNotifier * timespec)%type.
Abbreviation Sim := (sim OS Q Notes).
Abbreviation zero_time := (mk_timespec 0 0).
Abbreviation notes := (RecvNotifier_new, zero_time).
Implicit Types (w : World) (n : Notes) (l : list nat).

(** ** [vsg_init] and [vsg_cleanup] *)
Lemma with_actor_settles actor_fn (test : nat → UnixStream → actor_process → outcome unit) s p o :
  returns (λ fuel, connect fuel actor_fn) (s, p) → settles (λ fuel, test fuel s p) o →
  settles (λ fuel, with_actor fuel child actor_fn (test fuel)) (_ ← o; Ret tt).
Proof.
  intros Hconn [k Hk]. unfold with_actor.
  change (TestActorDesc_new "titi" _ _ _) with (Ret (mk_desc "titi" (Some child))).
  cbn [mbind outcome_bind]. eapply settles_outcome; [exact Hconn|]. cbv beta iota.
  exists k. intros fuel Hf. rewrite (Hk fuel Hf). by destruct o.
Qed.

Lemma valid_args_run : valid_args = Ret ContextTests.valid_args.
Proof. reflexivity. Qed.
Lemma invalid_args_run : invalid_args = Ret ContextTests.invalid_args.
Proof. reflexivity. Qed.

Lemma c_init_valid s next_arg_p :
  ∃ t c, c_init from_iter_safe not_found os pulls ContextTests.valid_args next_arg_p s =
      Ret (Some c, overwrite next_arg_p (Z.of_nat (length ContextTests.valid_args))) ∧
    ndt_ns t = 0%Z ∧ test_context (Q := Q) t 100 s c.
Proof.
  destruct parse_valid as (t&Hparse&Hp&Ht).
  destruct (test_init_run (Q := Q) from_iter_safe not_found ContextTests.valid_args os s local_address t 100
    Hparse) as (c&Hc&Hctx); [apply local_address_u32|lia|apply buffers_fit|done|by rewrite Ht|done|].
  exists t, c. split; [|done]. unfold c_init.
  change (all_args ContextTests.valid_args) with ContextTests.valid_args. rewrite Hc. cbn [mbind outcome_bind].
  unfold vsg_init, parse_os_args. rewrite valid_args_plain. by destruct next_arg_p.
Qed.

Lemma c_init_invalid s next_arg_p :
  c_init (Q := Q) from_iter_safe not_found os pulls ContextTests.invalid_args next_arg_p s = Ret (None, next_arg_p).
Proof.
  unfold c_init. change (all_args ContextTests.invalid_args) with ContextTests.invalid_args.
  unfold test_init, tansiv_init. by destruct parse_invalid as (e&->).
Qed.

Lemma c_cleanup_returns (c : Context PTimer Q) : c_cleanup c = Ret tt.
Proof. unfold c_cleanup. by destruct (Context_drop_returns c) as (c'&->). Qed.

Lemma init_passes (test : UnixStream → outcome unit) :
  (∀ s, test s = Ret tt) → returns (λ fuel, with_actor fuel child dummy_actor (λ s _, test s)) tt.
Proof.
  intros Ht. destruct dummy_connects as (s&p&Hc&_).
  apply (with_actor_settles dummy_actor (λ _ s _, test s) s p (Ret tt) Hc). by apply settles_const.
Qed.

Lemma c_init_tests_pass :
  returns (λ fuel, init_valid (Q := Q) from_iter_safe not_found fuel child os pulls) tt ∧
  returns (λ fuel, init_valid_no_next_arg (Q := Q) from_iter_safe not_found fuel child os pulls) tt ∧
  returns (λ fuel, init_invalid (Q := Q) from_iter_safe not_found fuel child os pulls) tt ∧
  returns (λ fuel, init_invalid_no_next_arg (Q := Q) from_iter_safe not_found fuel child os pulls) tt.
Proof.
  split_and!; apply init_passes; intros s; rewrite ?valid_args_run, ?invalid_args_run;
    cbn [mbind outcome_bind].
  - destruct (c_init_valid s (Some 0%Z)) as (t&c&->&_). simpl. apply c_cleanup_returns.
  - destruct (c_init_valid s None) as (t&c&->&_). simpl. apply c_cleanup_returns.
  - by rewrite c_init_invalid.
  - by rewrite c_init_invalid.
Qed.

(** A test from its body on. *)
Lemma c_run_passes actor_fn (body : nat → M Sim unit) :
  (∃ s p, returns (λ fuel, connect fuel actor_fn) (s, p) ∧
    ∀ t c, ndt_ns t = 0%Z → test_context t 100 s c →
      passes body (mk_sim (mk_world c p) notes sched)) →
  returns (λ fuel, run from_iter_safe not_found fuel child os sched pulls actor_fn (body fuel)) tt.
Proof.
  intros (s&p&Hconn&Hbody). destruct (c_init_valid s None) as (t&c&Hc&Ht&Hctx).
  destruct (Hbody t c Ht Hctx) as (o&(st&->)&[k Hk]).
  eapply (with_actor_settles actor_fn (λ fuel s p, _) s p (Ret tt)); [done|].
  exists k. intros fuel Hf. rewrite valid_args_run. cbn [mbind outcome_bind]. rewrite Hc. cbn [mbind outcome_bind not_null]. rewrite (Hk fuel Hf).
  apply c_cleanup_returns.
Qed.

(** ** Calls *)
Lemma vsg_start_run offset off (c : Context PTimer Q) :
  cd_ns off = 0%Z →
  (secs ← lift (cd_seconds (cd_num_seconds off));
   d ← lift (cd_sub off secs);
   num_subsec_nanos ← lift (unwrap (cd_num_nanoseconds d));
   mret (0%Z, match offset with
              | Some _ => Some (mk_timespec (as_i64 (cd_num_seconds off)) (as_i64 num_subsec_nanos))
              | None => None
              end)) c = Ret ((0%Z, overwrite offset zero_time), c).
Proof.
  intros Hoff. rewrite cd_num_seconds_quot, Hoff. change (Z.quot 0 NANOS_PER_SEC) with 0%Z.
  destruct (cd_seconds_Ret 0) as (s&Hs&Hsn); [done|].
  erewrite bind_run by (unfold lift; by rewrite Hs).
  destruct (cd_sub_Ret off s) as (d&Hd&Hdn); [by rewrite Hoff, Hsn|].
  erewrite bind_run by (unfold lift; by rewrite Hd).
  assert (cd_ns d = 0%Z) as Hd0 by (by rewrite Hdn, Hoff, Hsn).
  erewrite bind_run by (unfold lift; rewrite cd_num_nanoseconds_Some; [done|by rewrite Hd0]).
  rewrite Hd0. by destruct offset.
Qed.

Lemma c_start_ends P offset c p d t ph l (k : nat → option timespec → M Sim unit) :
  ndt_ns t = 0%Z → starts notes c p d t ph →
  (∀ w n, app_callbacks [DeadlineCallback d] notes = Ret (tt, n) → ph w n →
    ends P (λ fuel, k fuel (overwrite offset zero_time)) (mk_sim w n (tail l))) →
  ends P (λ fuel, c_start fuel offset ≫= k fuel) (mk_sim (mk_world c p) notes l).
Proof.
  intros Ht (off&w&n&Hrun&Hoff&Hn&Hph) Hk. eapply ends_then; [|by eapply Hk]. unfold c_start, vsg_start.
  eapply settles_then.
  { eapply app_calls_then; [apply settles_always; intros; apply Hrun|]. intros c0.
    apply vsg_start_run. by rewrite Hoff. }
  by apply settles_const.
Qed.

Lemma c_stop_returns (s s' : Sim) :
  returns (λ fuel, app_stop fuel s) (tt, s') → returns (λ fuel, c_stop fuel s) (tt, s').
Proof.
  intros [k Hk]. exists k. intros fuel Hf. specialize (Hk fuel Hf). unfold app_stop in Hk.
  apply bind_inv in Hk as ([]&s1&Hs1&Hk). apply bind_inv in Hk as ([]&s2&Hs2&Hk).
  unfold c_stop. erewrite bind_run by exact Hs1. erewrite bind_run by exact Hs2.
  revert Hk. unfold in_world. destruct (on_ctx _ _) as [[[] w]| |] eqn:E; [|done..].
  apply zoom_inv in E as (c'&E&->). simpl. intros Hk.
  destruct (app_callbacks _ _) as [[[] n]| |] eqn:Ecb; try done. injection Hk as <-.
  unfold mbind at 1, M_bind at 1. unfold on_ctx at 1.
  erewrite zoom_run by (unfold vsg_stop; by erewrite bind_run by exact E).
  simpl. simpl in Ecb. by rewrite Ecb.
Qed.

Lemma c_stop_passes (s s' : Sim) :
  returns (λ fuel, app_stop fuel s) (tt, s') → passes (λ fuel, c_stop fuel) s.
Proof. intros Hs. eapply passes_returns. by apply c_stop_returns. Qed.

Lemma c_stop_halted w n l : halted w = true → passes (λ fuel, c_stop fuel) (mk_sim w n l).
Proof. intros Hh. eapply c_stop_passes. by apply halted_stop. Qed.

Lemma c_stop_start n1 w n l :
  start_phase zero_time n1 w n → passes (λ fuel, c_stop fuel) (mk_sim w n l).
Proof. intros Hw. destruct (start_phase_stop _ n1 w n l Hw) as (w'&n'&Hs). by eapply c_stop_passes. Qed.

(** ** [start] *)
Lemma c_start_tests_pass :
  returns (λ fuel, start_stop (Q := Q) from_iter_safe not_found fuel child os sched pulls) tt ∧
  returns (λ fuel, start_no_offset (Q := Q) from_iter_safe not_found fuel child os sched pulls) tt.
Proof.
  destruct (start_starts (Q := Q) notes) as (s&p&Hconn&Hst).
  split; apply c_run_passes; exists s, p; (split; [done|]); intros t c Ht Hc;
    (eapply c_start_ends; [done|eapply Hst; [exact Hc|lia]|]); intros w n Hn Hw.
  - do 2 (eapply ends_step; [reflexivity|]; cbv beta).
    destruct (start_next zero_time n w n (tail sched)) as (w1&Hnext&Hw1); [left; by exists 0|].
    eapply ends_then; [apply read_returns, Hnext|]. cbv beta. cbn [s_app].
    injection Hn as <-. eapply ends_step; [reflexivity|]. by eapply c_stop_start.
  - apply c_stop_start with n. left. by exists 0.
Qed.

(** ** [send] *)
Lemma c_send_call fuel dst buffer (s : Sim) r s' :
  (0 < Z.of_nat (length buffer) ≤ u32_max)%Z →
  app_call fuel (Context_send dst buffer) s = Ret (r, s') →
  app_call fuel (vsg_send true dst (as_u32 (Z.of_nat (length buffer))) (Some buffer)) s =
    Ret (send_code r, s').
Proof.
  intros Hlen Hrun. unfold vsg_send. rewrite as_u32_id by (unfold in_u32; lia).
  rewrite (proj2 (Z.eqb_neq _ _)), Nat2Z.id, firstn_all by lia. by eapply app_call_then.
Qed.

(** A message that ends the simulation, then [vsg_stop]. *)
Lemma last_message j w n l msglen msg buffer :
  idle notes j w n → budget j l → small buffer →
  (∀ fuel (s : Sim) r s', app_call fuel (Context_send remote_vsg_address buffer) s = Ret (r, s') →
    app_call fuel (vsg_send true remote_vsg_address msglen msg) s = Ret (send_code r, s')) →
  passes (λ fuel, _ ← c_send fuel 0 msglen msg; c_stop fuel) (mk_sim w n l).
Proof.
  intros Hi Hb Hm Hcall.
  destruct (idle_app_send _ j w n l buffer Hi Hb Hm) as (j'&w1&w2&n1&[k Hsend]&Hi1&Hl&Hj).
  destruct (loaded_stop notes j' w2 n1 (tail l) Hj Hl) as (w3&Hstop&_).
  eapply (ends_then _ _ _ _ tt (mk_sim w2 n1 (tail l))); [|by eapply c_stop_passes].
  exists k. intros fuel Hf. unfold c_send.
  by erewrite bind_run by (apply Hcall, Hsend, Hf).
Qed.

Lemma last_buffer j w n l buffer :
  idle notes j w n → budget j l → small buffer → 0 < length buffer →
  passes (λ fuel, _ ← c_send_buffer fuel 0 buffer; c_stop fuel) (mk_sim w n l).
Proof.
  intros Hi Hb Hm Hlen. eapply last_message; [done..|]. intros fuel s r s' Hs.
  apply c_send_call; [|done]. unfold small, MAX_PACKET_SIZE, u32_max in *. lia.
Qed.

(** A call that does not reach the context. *)
Lemma idle_refused {A} (m : M (Context PTimer Q) A) x j w n l :
  (∀ c, m c = Ret (x, c)) → idle notes j w n → budget j l →
  ∃ j' w' n', returns (λ fuel, app_call fuel m (mk_sim w n l)) (x, mk_sim w' n' (tail l)) ∧
    idle notes j' w' n' ∧ budget j' (tail l).
Proof.
  intros Hm Hi Hb. destruct (idle_next notes j w n l Hi Hb) as (j'&w1&n1&Hnext&Hi1&Hb1).
  exists j', w1, n1. split; [|done]. eapply app_call_returns; [exact Hnext|].
  apply in_world_quiet; [|done]. destruct w1. by apply on_ctx_run.
Qed.

(** A test against [recv_one_msg_actor]. *)
Lemma idle_test_passes (body : nat → M Sim unit) :
  (∀ w n, idle notes 0 w n → passes body (mk_sim w n (tail sched))) →
  returns (λ fuel, run from_iter_safe not_found fuel child os sched pulls recv_one_msg_actor
    (_ ← c_start fuel None; body fuel)) tt.
Proof.
  intros Hbody. apply c_run_passes. destruct (idle_starts (Q := Q) notes) as (s&p&Hconn&Hst).
  exists s, p. split; [done|]. intros t c Ht Hc.
  eapply c_start_ends; [done|eapply Hst; [exact Hc|lia]|]. intros w n _ Hw. by apply Hbody.
Qed.

Lemma sched_tail : budget 0 (tail sched).
Proof. by apply budget_tail in Hsched as [? _]. Qed.

Lemma end_length : 0 < length (bytes_of "This is the end").
Proof. by apply Nat.ltb_lt. Qed.
Lemma foo_length : 0 < length (bytes_of "Foo msg").
Proof. by apply Nat.ltb_lt. Qed.

Lemma c_send_tests_pass :
  returns (λ fuel, send (Q := Q) from_iter_safe not_found fuel child os sched pulls) tt ∧
  returns (λ fuel, send_null_empty (Q := Q) from_iter_safe not_found fuel child os sched pulls) tt ∧
  returns (λ fuel, send_null_not_empty (Q := Q) from_iter_safe not_found fuel child os sched pulls)
    tt ∧
  returns (λ fuel, send_too_big (Q := Q) from_iter_safe not_found fuel child os sched pulls) tt.
Proof.
  pose proof sched_tail as Hb.
  split_and!; apply idle_test_passes; intros w n Hw.
  - eapply last_buffer; [done|done|apply foo_small|apply foo_length].
  - eapply (last_message 0 w n _ 0 None []); [done|done|by apply Nat.leb_le|].
    intros fuel s r s' Hs. by eapply app_call_then.
  - destruct (idle_refused (vsg_send true remote_vsg_address 1 None) EINVAL 0 w n _
      ltac:(done) Hw Hb) as (j&w1&n1&Hrun&Hi1&Hb1).
    eapply (ends_then _ _ _ _ tt (mk_sim w1 n1 _)).
    { eapply settles_then; [exact Hrun|]. apply settles_const. by rewrite Z.eqb_refl. }
    eapply last_buffer; [done|done|apply foo_small|apply foo_length].
  - destruct (idle_app_send_big _ 0 w n _ (replicate (MAX_PACKET_SIZE + 1) x00) Hw Hb)
      as (j&w1&n1&[k Hrun]&Hi1&Hb1); [by rewrite length_replicate; lia|].
    eapply (ends_then _ _ _ _ tt (mk_sim w1 n1 _)).
    { exists k. intros fuel Hf. unfold c_send_buffer, c_send.
      erewrite bind_run.
      2: { apply c_send_call; [|by apply Hrun]. rewrite length_replicate.
           unfold MAX_PACKET_SIZE, u32_max. lia. }
      cbn [send_code]. by rewrite Z.eqb_refl. }
    eapply last_buffer; [done|done|apply foo_small|apply foo_length].
Qed.

(** ** [gettimeofday] *)
Lemma c_time_tests_pass :
  returns (λ fuel, test_gettimeofday (Q := Q) from_iter_safe not_found fuel child os sched pulls)
    tt ∧
  returns (λ fuel, gettimeofday_no_tv (Q := Q) from_iter_safe not_found fuel child os sched pulls)
    tt.
Proof.
  pose proof sched_tail as Hb.
  split; apply idle_test_passes; intros w n Hw.
  - destruct (idle_app_time _ 0 w n _ Hw Hb) as (j&tv&w1&n1&Hrun&Hsane&Hi1&Hb1).
    eapply (ends_then _ _ _ _ (Some tv) (mk_sim w1 n1 _)).
    { eapply settles_then; [by eapply app_calls_then|]. by apply settles_const. }
    cbv beta. cbn [default from_option id]. destruct Hsane as [Hsec Husec].
    unfold TIMEVAL_POISON, i64_max in *. cbn [tv_sec tv_usec].
    do 2 (eapply ends_step; [rewrite (proj2 (Z.eqb_neq _ _)) by lia; reflexivity|]; cbv beta).
    eapply last_buffer; [done|done|apply end_small|apply end_length].
  - destruct (idle_refused (vsg_gettimeofday true None) (0%Z, None) 0 w n _ ltac:(done) Hw Hb)
      as (j&w1&n1&Hrun&Hi1&Hb1).
    eapply (ends_then _ _ _ _ None (mk_sim w1 n1 _)).
    { eapply settles_then; [exact Hrun|]. by apply settles_const. }
    eapply last_buffer; [done|done|apply end_small|apply end_length].
Qed.

(** ** [recv] *)
(** The results of [vsg_recv] on those of [Context::recv]. *)
Definition recv_reply (psrc pdst msglen : option Z) (msg : option bytes)
    (r : result (Z * Z * bytes) Error) (payload : bytes) : Z * recv_out :=
  let msg := match msg with
             | Some m => Some (payload ++ drop (Z.to_nat (default 0%Z msglen)) m)
             | None => None
             end in
  match r with
  | Ok (src, dst, p) =>
      (0%Z, mk_recv_out (overwrite psrc src) (overwrite pdst dst)
              (overwrite msglen (as_u32 (Z.of_nat (length p)))) msg)
  | Err NoMessageAvailable => (EAGAIN, mk_recv_out psrc pdst msglen msg)
  | Err Error.SizeTooBig => (EMSGSIZE, mk_recv_out psrc pdst msglen msg)
  | Err _ => (EIO, mk_recv_out psrc pdst msglen msg)
  end.

Lemma c_recv_call psrc pdst msglen msg (s s' : Sim) r payload :
  negb (default 0 msglen =? 0)%Z && bool_decide (msg = None) = false →
  returns (λ fuel, app_call fuel
    (Context_recv (take (Z.to_nat (default 0%Z msglen)) (default [] msg))) s) ((r, payload), s') →
  returns (λ fuel, app_call fuel (vsg_recv true psrc pdst msglen msg) s)
    (recv_reply psrc pdst msglen msg r payload, s').
Proof.
  intros Hnull Hrun. unfold vsg_recv. rewrite Hnull. eapply app_calls_then; [exact Hrun|].
  intros c. unfold recv_reply. by destruct msg; destruct r as [[[]]|[]].
Qed.

Lemma c_recv_returns code psrc pdst msglen msg o (s s' : Sim) :
  returns (λ fuel, app_call fuel (vsg_recv true psrc pdst msglen msg) s) ((code, o), s') →
  returns (λ fuel, c_recv fuel code psrc pdst msglen msg s) (o, s').
Proof.
  intros Hrun. unfold c_recv. eapply settles_then; [exact Hrun|]. apply settles_const.
  by rewrite Z.eqb_refl.
Qed.

Section delivered.
Context (expected : bytes) (Hsmall : small expected).
Abbreviation phase_of := (delayed_phase zero_time expected 100 100).
Abbreviation received := (received zero_time expected 100 100).

(** A test against [send_one_msg_actor]. *)
Lemma delivered_passes (body : nat → M Sim unit) :
  (∀ w n, phase_of w n → passes body (mk_sim w n (tail sched))) →
  returns (λ fuel, run from_iter_safe not_found fuel child os sched pulls
    (send_one_msg_actor expected) (_ ← c_start fuel None; body fuel)) tt.
Proof.
  intros Hbody. apply c_run_passes.
  destruct (delayed_connects_starts (Q := Q) zero_time expected 100 100 Hsmall) as (s&p&Hconn&Hst);
    [done..|].
  exists s, p. split; [done|]. intros t c Ht Hc.
  eapply c_start_ends; [done|by eapply Hst|]. intros w n _ Hw. by apply Hbody.
Qed.

Lemma run_recv_passes (body : nat → M Sim unit) :
  (∀ w n l, received w n → ∃ w' n' l', halted w' = true ∧
    returns (λ fuel, body fuel (mk_sim w n l)) (tt, mk_sim w' n' l')) →
  returns (λ fuel, run_recv from_iter_safe not_found fuel child os sched pulls expected (body fuel))
    tt.
Proof.
  intros Hbody. apply delivered_passes. intros w n Hw.
  destruct (recv_notifier_wait_run zero_time expected 100 100 Hsmall ltac:(done) ltac:(done)
    ltac:(done) w n (tail sched) Hw) as (w1&n1&Hwait&Hrec).
  eapply ends_then; [exact Hwait|]. destruct (Hbody w1 n1 (tail (tail sched)) Hrec)
    as (w2&n2&l2&Hh&Hrun).
  eapply ends_then; [exact Hrun|]. by apply c_stop_halted.
Qed.

(** Receiving the packet: [vsg_recv] returns what it makes of its result. *)
Lemma received_c_recv code psrc pdst msglen msg o w n l :
  received w n → negb (default 0 msglen =? 0)%Z && bool_decide (msg = None) = false →
  (let '(r, payload) := recv_result [delayed_packet expected]
      (take (Z.to_nat (default 0%Z msglen)) (default [] msg)) in
    recv_reply psrc pdst msglen msg r payload = (code, o)) →
  ∃ w', halted w' = true ∧
    returns (λ fuel, c_recv fuel code psrc pdst msglen msg (mk_sim w n l)) (o, mk_sim w' n (tail l)).
Proof.
  intros Hw Hnull Hreply.
  destruct (received_recv _ _ _ _ w n l (take (Z.to_nat (default 0%Z msglen)) (default [] msg)) Hw)
    as (w'&Hrun&Hh&_).
  exists w'. split; [done|]. apply c_recv_returns.
  destruct (recv_result _ _) as [r payload]. rewrite <- Hreply. by apply c_recv_call.
Qed.
End delivered.

Lemma empty_small : small [].
Proof. by apply Nat.leb_le. Qed.

(** What the tests look at after a reception. *)
Abbreviation looks body o := (∀ s : Sim, body o s = Ret (tt, s)).

(** A test that receives the packet and looks at the result. *)
Lemma recv_test_passes expected code psrc pdst msglen msg o (look : recv_out → M Sim unit) :
  small expected → negb (default 0 msglen =? 0)%Z && bool_decide (msg = None) = false →
  (let '(r, payload) := recv_result [delayed_packet expected]
      (take (Z.to_nat (default 0%Z msglen)) (default [] msg)) in
    recv_reply psrc pdst msglen msg r payload = (code, o)) →
  looks look o →
  returns (λ fuel, run_recv from_iter_safe not_found fuel child os sched pulls expected
    (o ← c_recv fuel code psrc pdst msglen msg; look o)) tt.
Proof.
  intros Hs Hnull Hreply Hlook. apply (run_recv_passes expected Hs). intros w n l Hw.
  destruct (received_c_recv expected code psrc pdst msglen msg o w n l Hw Hnull Hreply)
    as (w'&Hh&Hrun).
  exists w', n, (tail l). split; [done|]. eapply settles_then; [exact Hrun|]. by apply settles_const.
Qed.

Lemma local_address_read : lift (St := Sim) local_vsg_address = mret local_address.
Proof. reflexivity. Qed.

Lemma recv_all_returns w n l :
  received zero_time EXPECTED_MSG 100 100 w n → ∃ w', halted w' = true ∧
    returns (λ fuel, recv_all fuel EXPECTED_MSG (mk_sim w n l)) (tt, mk_sim w' n (tail l)).
Proof.
  intros Hw.
  destruct (received_c_recv EXPECTED_MSG 0 (Some null_vsg_address) (Some null_vsg_address)
    (Some (u32_len (zeroed EXPECTED_MSG))) (Some (zeroed EXPECTED_MSG))
    (mk_recv_out (Some local_address) (Some remote_vsg_address) (Some (u32_len EXPECTED_MSG))
      (Some EXPECTED_MSG)) w n l Hw) as (w'&Hh&Hrun); [reflexivity..|].
  exists w'. split; [done|]. eapply settles_then; [exact Hrun|]. by apply settles_const.
Qed.

Lemma c_recv_tests_pass :
  returns (λ fuel, recv (Q := Q) from_iter_safe not_found fuel child os sched pulls) tt ∧
  returns (λ fuel, recv_no_src (Q := Q) from_iter_safe not_found fuel child os sched pulls) tt ∧
  returns (λ fuel, recv_no_dst (Q := Q) from_iter_safe not_found fuel child os sched pulls) tt ∧
  returns (λ fuel, recv_null_empty (Q := Q) from_iter_safe not_found fuel child os sched pulls) tt ∧
  returns (λ fuel, recv_null_empty2 (Q := Q) from_iter_safe not_found fuel child os sched pulls) tt ∧
  returns (λ fuel, recv_null_empty3 (Q := Q) from_iter_safe not_found fuel child os sched pulls) tt ∧
  returns (λ fuel, recv_too_big (Q := Q) from_iter_safe not_found fuel child os sched pulls) tt.
Proof.
  split_and!.
  - apply (run_recv_passes EXPECTED_MSG foo_small). intros w n l Hw.
    destruct (recv_all_returns w n l Hw) as (w'&Hh&Hrun). by exists w', n, (tail l).
  - by eapply (recv_test_passes EXPECTED_MSG 0 None (Some null_vsg_address)
      (Some (u32_len (zeroed EXPECTED_MSG))) (Some (zeroed EXPECTED_MSG))); [apply foo_small|..].
  - by eapply (recv_test_passes EXPECTED_MSG 0 (Some null_vsg_address) None
      (Some (u32_len (zeroed EXPECTED_MSG))) (Some (zeroed EXPECTED_MSG))); [apply foo_small|..].
  - by eapply (recv_test_passes [] 0 (Some null_vsg_address) (Some null_vsg_address) None None);
      [apply empty_small|..].
  - by eapply (recv_test_passes [] 0 (Some null_vsg_address) (Some null_vsg_address) (Some 0%Z) None);
      [apply empty_small|..].
  - by eapply (recv_test_passes [] 0 (Some null_vsg_address) (Some null_vsg_address) None (Some []));
      [apply empty_small|..].
  - by eapply (recv_test_passes (bytes_of "Foo msg") EMSGSIZE (Some local_address)
      (Some remote_vsg_address) (Some (u32_len (bytes_of "fOO MS"))) (Some (bytes_of "fOO MS")));
      [apply foo_small|..].
Qed.

Lemma c_poll_cond w n l out up inn :
  repr (w_ctx w) out up inn →
  (res ← in_world (on_ctx (vsg_poll true));
   if (res =? EAGAIN)%Z then mret false else _ ← assert (0 =? res)%Z; mret true) (mk_sim w n l) =
    Ret (bool_decide (inn ≠ []), mk_sim w n l).
Proof.
  intros Hr. destruct w as [c p].
  rewrite (bind_run _ _ (if decide (inn = []) then EAGAIN else 0%Z) _ (mk_sim (mk_world c p) n l)).
  - pose proof (errno_ne 0 7 0%Z EAGAIN eq_refl eq_refl ltac:(done)) as Hne.
    destruct inn; case_decide; try done; cbv beta; [by rewrite Z.eqb_refl|].
    by rewrite (proj2 (Z.eqb_neq _ _) Hne).
  - apply in_world_quiet; [|done]. apply on_ctx_run. unfold vsg_poll.
    erewrite bind_run by (by eapply Context_poll_spec). by case_decide.
Qed.

Lemma c_poll_passes :
  returns (λ fuel, poll (Q := Q) from_iter_safe not_found fuel child os sched pulls) tt.
Proof.
  apply (delivered_passes EXPECTED_MSG foo_small). intros w n Hw.
  destruct (polling_reaches zero_time EXPECTED_MSG 100 100 foo_small ltac:(done) ltac:(done)
    ltac:(done) _ w n (tail sched) c_poll_cond Hw) as (w1&n1&Hpoll&Hrec).
  eapply ends_then; [exact Hpoll|].
  destruct (recv_all_returns w1 n1 (tail (tail sched)) Hrec) as (w2&Hh&Hrun).
  eapply ends_then; [exact Hrun|]. by apply c_stop_halted.
Qed.

Lemma c_recv_null_not_empty_passes :
  returns (λ fuel, recv_null_not_empty (Q := Q) from_iter_safe not_found fuel child os sched pulls)
    tt.
Proof.
  apply (run_recv_passes [] empty_small). intros w n l (Hh&_).
  exists w, n, (tail l). split; [done|]. eapply settles_step; [reflexivity|]. cbv beta.
  eapply (settles_then _ _ _
    (mk_recv_out (Some local_address) (Some remote_vsg_address) (Some 1%Z) None)).
  - eapply c_recv_returns, app_call_returns.
    + apply settles_always. intros. by apply next_signals_halted.
    + apply in_world_quiet; [|done]. destruct w. by apply on_ctx_run.
  - by apply settles_const.
Qed.

Lemma c_recv_no_msg_passes :
  returns (λ fuel, recv_no_msg (Q := Q) from_iter_safe not_found fuel child os sched pulls) tt.
Proof.
  apply c_run_passes. destruct (start_starts (Q := Q) notes) as (s&p&Hconn&Hst). exists s, p.
  split; [done|]. intros t c Ht Hc.
  eapply c_start_ends; [done|eapply Hst; [exact Hc|lia]|]. intros w n _ Hw.
  destruct (start_next zero_time n w n (tail sched)) as (w1&Hnext&Hw1); [left; by exists 0|].
  destruct (start_recv notes n w1 n (tail (tail sched)) (bytes_of "Foo msg") Hw1)
    as (w2&Hrecv&Hw2).
  eapply (ends_then _ _ _ _ tt (mk_sim w2 n (tail (tail sched)))); [|by eapply c_stop_start].
  eapply settles_step; [reflexivity|]. cbv beta.
  eapply settles_then; [eapply c_recv_returns|].
  { apply (c_recv_call (Some local_address) (Some remote_vsg_address)
    (Some (u32_len (bytes_of "Foo msg"))) (Some (bytes_of "Foo msg")) _ _
    (Err NoMessageAvailable) (bytes_of "Foo msg") eq_refl).
    by eapply app_call_returns. }
  by apply settles_const.
Qed.
End tests.
