(* ===== verification/Fixtures.v ===== *)
(** * Fixtures: concrete contexts for the witnesses

    A context with two buffers per direction on the reference serializer, the
    list-backed queue and the process timer of [PosixRef], in the middle of its
    first slice, and the bytes a coordinator would send to it. *)
From S2P Require Import Prelude Std BufferPool BytesBuffer Wire WireRef FbBuffer Connector.
From S2P Require Import ConnectorSpec ConnectorPeer OutputMsgSet WaitfreeArrayQueue Chrono.
From S2P Require Import Error LibcTimer Timer TimerProcess TimerProcessSpec PosixRef TimerQemu.
From S2P Require Import TimerKvm Context ContextSpec DeadlineSpec ContextInit HandleDeadline.
From S2P Require Import ContextFine.
From stdpp Require Import base option list numbers.
From Stdlib Require Import ZArith Lia Strings.Byte.

Local Open Scope Z_scope.

(** The bytes that building a message gives. *)
Definition built (m : M Fbb unit) : bytes :=
  match m (fbb_with_capacity 0) with
  | Ret (_, f) => match finished_data f with Ret l => l | _ => [] end
  | _ => []
  end.

Definition ex_goto : bytes := built (create_goto_deadline 2000000).
Definition ex_packet : bytes := built (create_deliver_packet 1 2 [x41]).
Definition ex_large : bytes := built (create_deliver_packet 1 2 (replicate MAX_PACKET_SIZE x41)).
Definition ex_end : bytes := built create_end_simulation.

Lemma built_frame m v :
  (∃ f', m (fbb_with_capacity 0) = Ret (tt, f') ∧ holds_in f' v) → frame_of v (built m).
Proof. intros (f'&Hm&l&Hl&Hf&_). unfold built. by rewrite Hm, Hl. Qed.

Lemma ex_goto_frame : frame_of (VGoto 2000000) ex_goto.
Proof.
  apply built_frame, create_goto_deadline_spec; [apply with_capacity_building|].
  unfold Duration_wf, Duration_MAX, NANOS_PER_SEC. lia.
Qed.
Lemma ex_packet_frame : frame_of (VDeliver 1 2 [x41]) ex_packet.
Proof.
  apply built_frame, create_deliver_packet_spec; [apply with_capacity_building|].
  unfold in_view_wf, in_u32, u32_max, payload_wf. simpl. lia.
Qed.

Lemma ex_large_frame : frame_of (VDeliver 1 2 (replicate MAX_PACKET_SIZE x41)) ex_large.
Proof.
  apply built_frame, create_deliver_packet_spec; [apply with_capacity_building|].
  unfold in_view_wf, in_u32, u32_max, payload_wf. rewrite length_replicate.
  unfold MAX_PACKET_SIZE. lia.
Qed.

(** Clock readings 500 ns apart. *)
Definition ex_os : ref_os := mk_ref_os 2000 (replicate 16 500) (Some 1001000).
Definition ex_timer : ProcessTimer (S := ref_os) :=
  (mk_process_timer 0 (mk_adjusted 0) (mk_adjusted (-1000)) 7 false 0 0 1000000 0 1001000 false,
   ex_os).

(** A guest counter at 1 GHz that reads 100 ticks after the deadline at 5000. *)
Record ref_kvm := mk_ref_kvm { rk_tsc : Z; rk_offset : Z }.
#[export] Instance Kvm_ref : Kvm ref_kvm := {
  kvm_rdtsc s := (rk_tsc s, mk_ref_kvm (rk_tsc s + 1) (rk_offset s));
  kvm_tsc_offset := rk_offset;
  kvm_ioctl_register_deadline _ ns _ s := (rk_tsc s + ns, s);
  kvm_ioctl_init_check _ s := (true, s);
  kvm_open_device s := (3, s);
  kvm_close_device _ s := s;
  kvm_read_tsc_khz _ := None;
}.
#[export] Instance Profile_release : Profile := false.
Definition ex_kvm_timer : KvmTimer (S := ref_kvm) :=
  (mk_kvm_timer 0 1000 0 5000 (f64_of_int 1) 3 1, mk_ref_kvm 5100 0).

(** A virtual clock that advances by 100 ns at each reading. *)
Record ref_qemu := mk_ref_qemu { rq_ns : Z; rq_expiry : option Z }.
Definition ref_qemu_ns (s : ref_qemu) : Z := Z.max 0 (Z.min i64_max (rq_ns s)).
#[export] Instance Qemu_ref : Qemu ref_qemu := {
  qemu_clock_get_ns s :=
    let s' := mk_ref_qemu (rq_ns s + 100) (rq_expiry s) in (ref_qemu_ns s', s');
  qemu_timer_init_full s := s;
  qemu_timer_mod v s := mk_ref_qemu (rq_ns s) (Some v);
  qemu_timer_del s := mk_ref_qemu (rq_ns s) None;
  qemu_timer_deinit s := s;
}.
#[export] Program Instance QemuLaws_ref : QemuLaws ref_qemu := {
  qemu_ns := ref_qemu_ns;
  qemu_expiry := rq_expiry;
}.
Next Obligation. intros s. unfold ref_qemu_ns, i64_max. lia. Qed.
Next Obligation.
  intros s. eexists. split; [done|]. split; [|done]. unfold ref_qemu_ns. simpl. lia.
Qed.
Next Obligation. intros s. simpl. lia. Qed.
Next Obligation. done. Qed.
Next Obligation. intros v s. unfold ref_qemu_ns. simpl. lia. Qed.
Definition ex_qemu_timer : QemuTimer (S := ref_qemu) :=
  (mk_qemu_timer 700 0 1000 2, mk_ref_qemu 1700 (Some 1700)).

Section fixtures.
Context {T : Type} `{!Timer T, !TimerLaws T}.

Definition ex_new (rx : bytes) (tm : T) : outcome (result (Context T list_queue) Error) :=
  Context_new 16777226 2 (Ok (mk_stream rx eof [] [])) (Ok tm) (Ok tt).

Lemma ex_new_spec rx tm :
  ∃ c, ex_new rx tm = Ret (Ok c) ∧ repr c [] [] [] ∧ in_cap c = 2%nat ∧ out_cap c = 2%nat ∧
    address c = 16777226 ∧ actor (connector c) = mk_stream rx eof [] [] ∧
    timer_context c = tm ∧ start_once c = false ∧ callbacks c = [].
Proof.
  apply Context_new_spec; unfold in_u32, u32_max, isize_max, MAX_PACKET_SIZE; lia.
Qed.

Context `{!TimerHandler T, !TimerHandlerLaws T}.

(** A run of that context: the steps [okb] accepts. *)
Definition ex_run (okb : move → fine T list_queue → bool) (acts : list act) (rx : bytes)
    (tm : T) : option (fine T list_queue) :=
  match ex_new rx tm with
  | Ret (Ok c) => acts_exec okb acts (mk_fine c [] [] false)
  | _ => None
  end.

Lemma ex_run_reachable okb (ok : move → fine T list_queue → Prop) acts rx tm s :
  (∀ a s, okb a s = true → ok a s) → tc_inv tm → ex_run okb acts rx tm = Some s →
  reachable_by ok s.
Proof.
  intros Hok Ht. unfold ex_run. destruct (ex_new_spec rx tm) as (c&->&Hr&_&_&_&Ha&Htm&_).
  apply (acts_exec_reachable okb ok _ _ _ Hok). eexists. split; [|done].
  unfold fine_init. simpl. rewrite Htm, Ha. by split_and!.
Qed.

(** A run that leads to a deadline. *)
Definition ex_answer (s : fine T list_queue) : option (option Duration) :=
  match handle_deadline (fine_ctx s) with Ret (o, _) => Some o | _ => None end.

Lemma ex_run_deadline {A} (f : fine T list_queue → A) okb (ok : move → fine T list_queue → Prop)
    acts rx tm x o :
  (∀ a s, okb a s = true → ok a s) → tc_inv tm →
  (λ s, (f s, ex_answer s)) <$> ex_run okb acts rx tm = Some (x, Some o) →
  ∃ s c', reachable_by ok s ∧ f s = x ∧ handle_deadline (fine_ctx s) = Ret (o, c').
Proof.
  intros Hok Ht (s&Hs&[Hf Ha]%pair_eq)%fmap_Some_1. exists s.
  apply (ex_run_reachable _ _ _ _ _ _ Hok Ht) in Hs. unfold ex_answer in Ha.
  destruct (handle_deadline (fine_ctx s)) as [[o' c']| |]; [|done..].
  injection Ha as ->. by exists c'.
Qed.
End fixtures.

Definition ex_msg : bytes := [x41; x42].

(** A first [send], part after part. *)
Definition ex_send : list act := [ASend 7 ex_msg; APart 0; APart 0; APart 0].

Lemma ex_timer_inv : tc_inv ex_timer.
Proof. done. Qed.
Lemma ex_kvm_timer_inv : tc_inv ex_kvm_timer.
Proof. done. Qed.
Lemma ex_qemu_timer_inv : tc_inv ex_qemu_timer.
Proof. unfold tc_inv. simpl. unfold Duration_MAX, NANOS_PER_SEC. lia. Qed.
(** The first deadline of a context that has sent nothing. *)
Definition ex_first_runs {T} `{!Timer T, !TimerHandler T} (rx : bytes) (tm : T) : bool :=
  match ex_new rx tm with
  | Ret (Ok c) =>
      match handle_deadline c with Ret (Some d, _) => d =? 2000000 | _ => false end
  | _ => false
  end.

Lemma ex_first {T} `{!Timer T, !TimerLaws T, !TimerHandler T} rx (tm : T) :
  ex_first_runs rx tm = true →
  ∃ c c', repr c [] [] [] ∧ timer_context c = tm ∧ handle_deadline c = Ret (Some 2000000, c').
Proof.
  unfold ex_first_runs. destruct (ex_new_spec rx tm) as (c&Hc&Hr&_&_&_&_&Ht&_).
  rewrite Hc. destruct (handle_deadline c) as [[[d|] c']| |] eqn:Hrun; [|done..].
  intros ->%Z.eqb_eq. by exists c, c'.
Qed.
