(* ===== verification/ContextProps.v ===== *)
(** * ContextProps: the guarantees of a context, operation by operation

    What each operation of [Context] does in every consistent state: a deadline
    always returns, what the coordinator delivers is read in order, [send],
    [start] and the constructor on every branch.  They hold for every timer of
    [Timer], every serializer and every queue that keep the laws of their
    interfaces. *)
From S2P Require Import Prelude Std BufferPool BytesBuffer Wire WireRef FbBuffer Connector.
From S2P Require Import ConnectorSpec ConnectorPeer OutputMsgSet WaitfreeArrayQueue Chrono.
From S2P Require Import Error LibcTimer Timer TimerProcess TimerProcessSpec PosixRef TimerKvm.
From S2P Require Import Context ContextSpec DeadlineSpec ContextInit HandleDeadline ContextFine.
From S2P Require Import Fixtures.
From stdpp Require Import base option list numbers sorting relations.
From Stdlib Require Import ZArith Lia Strings.Byte.

(** Several calls of [recv] in a row, each with its own buffer. *)
Fixpoint recvs {T Q} `{FlatBuffers, !ArrayQueue Q} (bufs : list bytes) :
    M (Context T Q) (list (result (Z * Z * bytes) Error * bytes)) :=
  match bufs with
  | [] => mret []
  | buf :: bufs => r ← Context_recv buf; rs ← recvs bufs; mret (r :: rs)
  end.

(** What they should give when [inn] waits. *)
Fixpoint recv_results (inn : list packet) (bufs : list bytes) :
    list (result (Z * Z * bytes) Error * bytes) :=
  match bufs with
  | [] => []
  | buf :: bufs => recv_result inn buf :: recv_results (tail inn) bufs
  end.

Lemma recvs_spec {T Q} `{FL : FlatBuffersLaws, CH : Chrono, TM : !Timer T, AQ : ArrayQueueLaws Q}
    (c : Context T Q) out up inn bufs :
  repr c out up inn →
  ∃ c', recvs bufs c = Ret (recv_results inn bufs, c') ∧
    repr c' out up (drop (length bufs) inn) ∧ in_cap c' = in_cap c.
Proof.
  revert c inn. induction bufs as [|buf bufs IH]; intros c inn Hr; [by exists c|].
  destruct (Context_recv_spec c out up inn buf Hr) as (c1&Hrun&Hr1&_&Hc1).
  destruct (IH c1 _ Hr1) as (c2&Hrun2&Hr2&Hc2). exists c2. simpl.
  erewrite bind_run by exact Hrun. erewrite bind_run by exact Hrun2.
  split_and!; [done| |congruence]. by destruct inn; rewrite ?drop_nil in *.
Qed.

(** Reading the frames of packets followed by another message. *)
Definition frames_of `{FlatBuffers} (ps : list packet) (l : bytes) : Prop :=
  ∃ ls, l = concat ls ∧
    Forall2 (λ k f, frame_of (VDeliver (pk_src k) (pk_dst k) (pk_payload k)) f ∧
                    length f ≤ MAX_PACKET_SIZE + 4) ps ls.

Lemma receives_frames `{FlatBuffersLaws} cap e inn ps l g rest d :
  frames_of ps l → frame_of (VGoto d) g → length g ≤ MAX_PACKET_SIZE + 4 →
  length inn ≤ cap →
  if length inn + length ps <? cap then
    receives cap e inn (l ++ g ++ rest) (NextDeadline d) (inn ++ ps) rest
  else ∃ l', receives cap e inn (l ++ g ++ rest) EndSimulation
         (inn ++ take (cap - length inn) ps) l'.
Proof.
  intros (ls&->&HF) Hg Hlen. revert inn. induction HF as [|k f ps ls [Hf Hfl] HF IH]; intros inn Hcap; simpl.
  - rewrite Nat.add_0_r, app_nil_r, take_nil, app_nil_r.
    destruct (Nat.ltb_spec (length inn) cap).
    + constructor. rewrite (proj2 (Nat.eqb_neq _ _)) by lia. by apply recv_spec_frame.
    + destruct (recv_spec_frame_full (VGoto d) g rest MAX_PACKET_SIZE e Hg Hlen) as (l'&Hrun).
      exists l'. eapply receives_error. by rewrite (proj2 (Nat.eqb_eq _ _)) by lia.
  - rewrite <- app_assoc. destruct (decide (length inn = cap)) as [Heq|Hne].
    + rewrite (proj2 (Nat.ltb_ge _ _)) by lia. rewrite Heq, Nat.sub_diag, take_0, app_nil_r.
      destruct (recv_spec_frame_full _ f (concat ls ++ g ++ rest) MAX_PACKET_SIZE e Hf Hfl)
        as (l'&Hrun).
      exists l'. eapply receives_error. by rewrite (proj2 (Nat.eqb_eq _ _)) by lia.
    + specialize (IH (inn ++ [k])). rewrite length_app in IH. simpl in IH.
      specialize (IH ltac:(lia)).
      assert (recv_spec MAX_PACKET_SIZE (length inn =? cap) e (f ++ concat ls ++ g ++ rest) =
        (Ok (VDeliver (pk_src k) (pk_dst k) (pk_payload k)), concat ls ++ g ++ rest)) as Hk.
      { rewrite (proj2 (Nat.eqb_neq _ _)) by lia. by apply recv_spec_frame. }
      replace (length inn + S (length ps)) with (length inn + 1 + length ps) by lia.
      destruct k as [src dst v]. destruct (_ <? _).
      * rewrite <- app_assoc in IH. by eapply receives_deliver.
      * destruct IH as (l'&IH). exists l'. eapply receives_deliver; [exact Hk|].
        rewrite <- app_assoc in IH. replace (cap - length inn) with (S (cap - (length inn + 1))) by lia.
        done.
Qed.

(** A deadline where every write succeeds and no message of the set is late,
    with an answer of the coordinator that [receives] determines. *)
Lemma deadline_answer {T Q} `{FL : FlatBuffersLaws, CH : Chrono} `{TM : !Timer T, TL : !TimerLaws T}
    `{AQ : ArrayQueueLaws Q} (c : Context T Q) out up inn a inn' l :
  repr c out up inn → tc_handling (timer_context c) →
  Duration_wf (tc_prev (timer_context c)) →
  Forall (λ o, o = None) (wr (actor (connector c))) →
  Forall (λ m, pd_time m ≤ tc_next (timer_context c))%Z out →
  receives (in_cap c) (rx_end (actor (connector c))) inn (rx (actor (connector c))) a inn' l →
  ∃ c' up', at_deadline c = Ret (a, c') ∧ repr c' [] up' inn' ∧ in_cap c' = in_cap c ∧
    rx (actor (connector c')) = l ∧
    callbacks c' = callbacks c ++ notify_callbacks inn inn' a.
Proof.
  intros Hr Hh Hp Hw Hout Hrec.
  destruct (at_deadline_spec c out up inn Hr Hh Hp)
    as (a'&c'&out'&up'&inn''&cbs&Hrun&Hr'&(_&_&_&Hic&_)&Hcb&Hspec).
  destruct (deadline_complete _ _ _ _ _ _ _ _ _ _ _ _ _ _ Hspec Hw ltac:(by right))
    as (->&_&_&_&_&->).
  remember (actor (connector c')) as s' eqn:Hs'. remember (notify_callbacks inn inn'' a') as cbs.
  destruct Hspec as [vs rest s' Ho Ht|vs vs' rest s1 s2 Ho Ht1 Hu Ht2|
    vs vs' rest s1 s2 s3 Ho Ht1 Hu Ht2 Hfail _|
    vs vs' rest s1 s2 s3 a' inn'' l' Ho Ht1 Hu Ht2 _ Ht3 Hrec'].
  - pose proof (outgoing_spec_all_ok (address c) (tc_prev (timer_context c)) _ out _ Hw Hout) as Hok.
    by rewrite Ho in Hok.
  - destruct (transmits_tx _ _ _ Ht1 Hw) as (_&_&Hw1&_).
    pose proof (upcoming_spec_all_ok (address c) (tc_next (timer_context c)) up _ Hw1) as Hok.
    by rewrite Hu in Hok.
  - destruct (transmits_tx _ _ _ (transmits_app _ _ _ _ _ Ht1 Ht2) Hw) as (_&_&Hw1&_).
    by destruct Hw1 as [|?? ->].
  - pose proof (transmits_app _ _ _ _ _ Ht1 (transmits_app _ _ _ _ _ Ht2 Ht3)) as Ht.
    destruct (transmits_tx _ _ _ Ht Hw) as (Erx&Eend&_&_). rewrite Erx, Eend in Hrec'.
    destruct (receives_det _ _ _ _ _ _ _ _ _ _ Hrec Hrec') as (->&->&->).
    exists c', rest. rewrite <- Hs'. by split_and!.
Qed.

Section guarantees.
Context {T : Type} {Q : Type → Type} `{FL : FlatBuffersLaws, CH : Chrono}
  `{TM : !Timer T, TL : !TimerLaws T, TH : !TimerHandler T, THL : !TimerHandlerLaws T}
  `{AQ : ArrayQueueLaws Q}.
Implicit Types (c : Context T Q) (out up : list pending) (inn : list packet).

(** C4: [at_deadline] implements its specification in every state of the
    pending messages, of the queue and of the socket, failing writes, early
    ends of the stream and malformed bytes included: it returns, without a
    panic, what [deadline_spec] says, and keeps the context consistent. *)
Theorem at_deadline_refines c out up inn :
  repr c out up inn → tc_handling (timer_context c) →
  Duration_wf (tc_prev (timer_context c)) →
  ∃ a c' out' up' inn' cbs, at_deadline c = Ret (a, c') ∧ repr c' out' up' inn' ∧
    deadline_keeps c c' ∧ callbacks c' = callbacks c ++ cbs ∧
    deadline_spec (address c) (tc_prev (timer_context c)) (tc_next (timer_context c))
      (in_cap c) out up inn (actor (connector c)) a out' up' inn' (actor (connector c')) cbs.
Proof. apply at_deadline_spec. Qed.

(** C8: what the packets that answer a deadline, followed by the next deadline,
    lead to.  When there is a free buffer for each packet and one more, the
    deadline returns that next deadline, the packets are queued behind those
    that waited, in the order they came, no byte beyond the answer is consumed,
    and the application is notified exactly when its queue was empty and
    packets came.  When the packets fill the last buffer, the message that
    follows them cannot be received, be it only the next deadline: the
    simulation ends.  Exactly the packets that found a buffer are queued, so
    the branch of [handle_actor_msg] that drops a packet for lack of a slot in
    the queue is never taken. *)
Theorem deadline_delivers c out up inn ps l g rest d :
  repr c out up inn → tc_handling (timer_context c) →
  Duration_wf (tc_prev (timer_context c)) →
  Forall (λ o, o = None) (wr (actor (connector c))) →
  Forall (λ m, pd_time m ≤ tc_next (timer_context c))%Z out →
  frames_of ps l → frame_of (VGoto d) g → length g ≤ MAX_PACKET_SIZE + 4 →
  rx (actor (connector c)) = l ++ g ++ rest →
  ∃ c' up',
    if length inn + length ps <? in_cap c then
      at_deadline c = Ret (NextDeadline d, c') ∧ repr c' [] up' (inn ++ ps) ∧
      rx (actor (connector c')) = rest ∧
      callbacks c' = callbacks c ++
        (if bool_decide (inn = []) && negb (bool_decide (ps = [])) then [RecvCallback] else []) ++
        [DeadlineCallback d]
    else
      at_deadline c = Ret (EndSimulation, c') ∧
      repr c' [] up' (inn ++ take (in_cap c - length inn) ps).
Proof.
  intros Hr Hh Hp Hw Hout Hl Hg Hlen Hrx.
  assert (length inn ≤ in_cap c) as Hcap.
  { destruct Hr as (_&_&Hpi&_&_&Hin%Forall2_length). apply pool_inv_length in Hpi.
    cbn [app] in Hpi. rewrite length_fmap in Hpi. unfold in_cap. lia. }
  pose proof (receives_frames (in_cap c) (rx_end (actor (connector c))) inn ps l g rest d
    Hl Hg Hlen Hcap) as Hrec. rewrite <- Hrx in Hrec. destruct (_ <? _).
  - destruct (deadline_answer _ _ _ _ _ _ _ Hr Hh Hp Hw Hout Hrec) as (c'&up'&?&?&_&?&Hcb).
    exists c', up'. split_and!; [done..|]. rewrite Hcb. unfold notify_callbacks.
    by destruct inn; [destruct ps|].
  - destruct Hrec as (l'&Hrec).
    destruct (deadline_answer _ _ _ _ _ _ _ Hr Hh Hp Hw Hout Hrec) as (c'&up'&?&?&_).
    by exists c', up'.
Qed.

(** C9: a packet of the largest size that [send] accepts cannot be delivered:
    whatever the serializer adds to it, its frame is longer than the buffer of
    the receiver, and the deadline at which the coordinator delivers it ends
    the simulation with the packet lost. *)
Theorem largest_packet_undeliverable c out up inn src dst v l rest :
  repr c out up inn → tc_handling (timer_context c) →
  Duration_wf (tc_prev (timer_context c)) →
  Forall (λ o, o = None) (wr (actor (connector c))) →
  Forall (λ m, pd_time m ≤ tc_next (timer_context c))%Z out →
  frame_of (VDeliver src dst v) l → length v = MAX_PACKET_SIZE →
  rx (actor (connector c)) = l ++ rest →
  ∃ c' up', at_deadline c = Ret (EndSimulation, c') ∧ repr c' [] up' inn ∧
    callbacks c' = callbacks c.
Proof.
  intros Hr Hh Hp Hw Hout Hl Hlen Hrx.
  destruct (recv_spec_frame_long src dst v l rest MAX_PACKET_SIZE
    (length inn =? in_cap c) (rx_end (actor (connector c))) Hl) as (l'&Hrec); [lia|].
  rewrite <- Hrx in Hrec.
  destruct (deadline_answer _ _ _ _ _ _ _ Hr Hh Hp Hw Hout (receives_error _ _ _ _ _ _ Hrec))
    as (c'&up'&Hrun&Hr'&_&_&Hcb).
  exists c', up'. split_and!; [done..|]. rewrite Hcb. unfold notify_callbacks.
  destruct inn; simpl; by rewrite app_nil_r.
Qed.

(** C10: [send] on every branch.  A message over the maximum size and a message
    without a free buffer are refused and change nothing but the clock;
    otherwise the message is recorded once: in the set, with the time the timer
    gives, when [check_deadline_overrun] finds it in time; behind the messages
    that wait beyond the deadline, with the time that check answers, when it
    finds it late.  No branch panics, and the set never lacks a slot. *)
Theorem send_branches c out up inn dst msg t tm :
  repr c out up inn → in_u32 dst → tc_simulation_now (timer_context c) = Ret (t, tm) →
  ∃ r c', Context_send dst msg c = Ret (r, c') ∧ timer_context c' = tm ∧
    connector c' = connector c ∧ input_queue c' = input_queue c ∧
    if MAX_PACKET_SIZE <? length msg then r = Err SizeTooBig ∧ repr c' out up inn
    else if length out + length up =? out_cap c then
      r = Err NoMemoryAvailable ∧ repr c' out up inn
    else r = Ok tt ∧
      ∃ o, tc_check_deadline_overrun t (upcoming_messages c) tm = Ret (o, tm) ∧
      match o with
      | None => ∃ l1 l2, out = l1 ++ l2 ∧ repr c' (l1 ++ mk_pending t dst msg :: l2) up inn
      | Some t' => (t ≤ t')%Z ∧ (tc_next tm < t')%Z ∧
          repr c' out (up ++ [mk_pending t' dst msg]) inn
      end.
Proof. apply Context_send_spec. Qed.

(** C11: [recv] reads the packets in the order they were queued, each with its
    source, destination and payload, copied to the front of the caller's
    buffer; a packet too long for the buffer is dropped with an error, an
    empty queue is an error, and each packet read frees its buffer. *)
Theorem recv_fifo c out up inn bufs :
  repr c out up inn →
  ∃ c', recvs bufs c = Ret (recv_results inn bufs, c') ∧
    repr c' out up (drop (length bufs) inn) ∧
    Context_poll c' = Ret (if decide (drop (length bufs) inn = []) then None else Some tt, c').
Proof.
  intros Hr. destruct (recvs_spec c out up inn bufs Hr) as (c'&?&Hr'&_).
  exists c'. split_and!; [done..|]. by eapply Context_poll_spec.
Qed.

(** C12: [start] on every branch of what the coordinator sends first: the
    first deadline starts the timer and is announced to the application; any
    other message is a protocol violation, its buffer is freed; a message that
    cannot be read is an I/O error.  In all cases the message is consumed and
    a second [start] is refused and changes nothing, also when the first one
    failed. *)
Theorem start_branches c out up inn v l :
  repr c out up inn → start_once c = false →
  recv_spec MAX_PACKET_SIZE (length inn =? in_cap c) (rx_end (actor (connector c)))
    (rx (actor (connector c))) = (v, l) →
  (∀ d, v = Ok (VGoto d) → ∃ r tm, tc_start d (timer_context c) = Ret (r, tm)) →
  ∃ r c', Context_start c = Ret (r, c') ∧ repr c' out up inn ∧ started l c c' ∧
    Context_start c' = Ret (Err AlreadyStarted, c') ∧
    match v with
    | Ok (VGoto d) => ∃ o, tc_start d (timer_context c) = Ret (o, timer_context c') ∧
        r = map_err IoError o ∧ callbacks c' = callbacks c ++ [DeadlineCallback d]
    | Ok _ => r = Err ProtocolViolation ∧ timer_context c' = timer_context c
    | Err e => r = Err (IoError e) ∧ timer_context c' = timer_context c
    end.
Proof.
  intros Hr Hs Hv Hstart. pose proof (Context_start_spec c out up inn Hr) as Hspec.
  rewrite Hs, Hv in Hspec.
  assert (∀ c', repr c' out up inn → started l c c' →
    Context_start c' = Ret (Err AlreadyStarted, c')) as Hagain.
  { intros c' Hr' (Hs'&_). pose proof (Context_start_spec c' out up inn Hr') as Hspec'.
    by rewrite Hs' in Hspec'. }
  destruct v as [[src dst v|d|]|e].
  2: { destruct (Hstart d eq_refl) as (o&tm&Ho).
       destruct (Hspec o tm Ho) as (c'&?&?&?&Et&?). eexists _, c'.
       split_and!; [done..|by apply Hagain|]. exists o. by rewrite Et. }
  all: destruct Hspec as (c'&?&?&?&?&?); eexists _, c'; by split_and!; [..|apply Hagain| |].
Qed.

(** C13: [Context::new] with a connected socket, a timer and its registration
    gives a context with nothing pending, whose two pools, message set and
    queue all have [num_buffers] slots, not started. *)
Theorem new_context addr n s tm :
  in_u32 addr → 0 < n → (Z.of_nat (MAX_PACKET_SIZE * n) ≤ isize_max)%Z →
  ∃ c, Context_new addr n (Ok s) (Ok tm) (Ok tt) = Ret (Ok c) ∧
    repr c [] [] [] ∧ in_cap c = n ∧ out_cap c = n ∧ address c = addr ∧
    actor (connector c) = s ∧ timer_context c = tm ∧ start_once c = false ∧ callbacks c = [].
Proof. apply Context_new_spec. Qed.
End guarantees.

(** ** The properties above on a context of two buffers *)

Lemma at_deadline_refines_witness :
  ∃ c : Context (KvmTimer (S := ref_kvm)) list_queue,
    ex_new ex_goto ex_kvm_timer = Ret (Ok c) ∧ ∃ a c', at_deadline c = Ret (a, c').
Proof.
  destruct (ex_new_spec ex_goto ex_kvm_timer) as (c&Hc&Hr&_&_&_&_&Ht&_). exists c.
  split; [exact Hc|].
  destruct (at_deadline_refines c [] [] [] Hr) as (a&c'&_&_&_&_&Hrun&_).
  - by rewrite Ht.
  - by rewrite Ht.
  - by exists a, c'.
Defined.

Lemma ex_frames n : frames_of (replicate n (mk_packet 1 2 [x41])) (concat (replicate n ex_packet)).
Proof.
  exists (replicate n ex_packet). split; [done|]. apply Forall2_replicate.
  split; [exact ex_packet_frame|]. apply Nat.leb_le. by vm_compute.
Qed.

Lemma deadline_delivers_witness :
  (∃ c c' : Context (KvmTimer (S := ref_kvm)) list_queue,
    in_cap c = 2 ∧ at_deadline c = Ret (NextDeadline 2000000%Z, c') ∧
    ∃ up', repr c' [] up' [mk_packet 1 2 [x41]]) ∧
  (∃ c c' : Context (KvmTimer (S := ref_kvm)) list_queue,
    in_cap c = 2 ∧ at_deadline c = Ret (EndSimulation, c')).
Proof.
  assert (∀ n, ∃ (c c' : Context (KvmTimer (S := ref_kvm)) list_queue) up', in_cap c = 2 ∧
    if n <? 2 then at_deadline c = Ret (NextDeadline 2000000%Z, c') ∧
      repr c' [] up' (replicate n (mk_packet 1 2 [x41]))
    else at_deadline c = Ret (EndSimulation, c')) as Hn.
  { intros n. destruct (ex_new_spec (concat (replicate n ex_packet) ++ ex_goto) ex_kvm_timer)
      as (c&_&Hr&Hcap&_&_&Ha&Ht&_).
    destruct (deadline_delivers c [] [] [] (replicate n (mk_packet 1 2 [x41]))
      (concat (replicate n ex_packet)) ex_goto [] 2000000%Z Hr) as (c'&up'&Hrun).
    1,2: by rewrite Ht.
    - by rewrite Ha.
    - constructor.
    - exact (ex_frames n).
    - exact ex_goto_frame.
    - apply Nat.leb_le. by vm_compute.
    - by rewrite Ha, app_nil_r.
    - exists c, c', up'. split; [done|]. simpl in Hrun. rewrite Hcap, length_replicate in Hrun.
      destruct (n <? 2); [by destruct Hrun as (?&?&_)|by destruct Hrun]. }
  split.
  - destruct (Hn 1) as (c&c'&up'&?&?&?). exists c, c'. split_and!; [done..|]. by exists up'.
  - destruct (Hn 2) as (c&c'&up'&?&?). by exists c, c'.
Defined.

Lemma largest_packet_undeliverable_witness :
  ∃ c c' : Context (KvmTimer (S := ref_kvm)) list_queue, at_deadline c = Ret (EndSimulation, c').
Proof.
  destruct (ex_new_spec (ex_large ++ ex_goto) ex_kvm_timer) as (c&_&Hr&_&_&_&Ha&Ht&_).
  destruct (largest_packet_undeliverable c [] [] [] 1 2 (replicate MAX_PACKET_SIZE x41)
    ex_large ex_goto Hr) as (c'&up'&Hrun&_).
  - by rewrite Ht.
  - by rewrite Ht.
  - by rewrite Ha.
  - constructor.
  - exact ex_large_frame.
  - apply length_replicate.
  - by rewrite Ha.
  - by exists c, c'.
Defined.

Lemma send_branches_witness :
  ∃ c c' : Context (ProcessTimer (S := ref_os)) list_queue,
    Context_send 7 ex_msg c = Ret (Ok tt, c').
Proof.
  destruct (ex_new_spec [] ex_timer) as (c&_&Hr&_&Hcap&_&_&Ht&_).
  destruct (tc_simulation_now ex_timer) as [[t tm]| |] eqn:Hnow; [|done..].
  destruct (send_branches c [] [] [] 7 ex_msg t tm Hr) as (r&c'&Hrun&_&_&_&Hcase).
  - done.
  - by rewrite Ht.
  - rewrite Hcap in Hcase. change (MAX_PACKET_SIZE <? length ex_msg) with false in Hcase.
    simpl in Hcase. destruct Hcase as [-> _]. by exists c, c'.
Defined.

(** A context that received a packet at a deadline. *)
Lemma ex_delivered :
  ∃ (c : Context (KvmTimer (S := ref_kvm)) list_queue) up, repr c [] up [mk_packet 1 2 [x41]].
Proof.
  destruct (ex_new_spec (ex_packet ++ ex_goto) ex_kvm_timer) as (c&_&Hr&Hcap&_&_&Ha&Ht&_).
  assert (length ex_goto ≤ MAX_PACKET_SIZE + 4) as Hlen by (apply Nat.leb_le; by vm_compute).
  pose proof (receives_frames 2 eof [] [mk_packet 1 2 [x41]] _ _ [] _
    (ex_frames 1) ex_goto_frame Hlen ltac:(simpl; lia)) as Hrec.
  simpl concat in Hrec. rewrite !app_nil_r in Hrec.
  destruct (deadline_answer c [] [] [] (NextDeadline 2000000%Z) [mk_packet 1 2 [x41]] [] Hr)
    as (c'&up'&_&Hr'&_).
  1,2: by rewrite Ht.
  - by rewrite Ha.
  - constructor.
  - rewrite Ha, Hcap. exact Hrec.
  - by exists c', up'.
Qed.

Lemma recv_fifo_witness :
  ∃ c c' : Context (KvmTimer (S := ref_kvm)) list_queue,
    recvs [[x00; x00]; [x07]] c =
      Ret ([(Ok (1%Z, 2%Z, [x41]), [x41; x00]); (Err NoMessageAvailable, [x07])], c').
Proof.
  destruct ex_delivered as (c&up&Hr).
  destruct (recv_fifo c [] up _ [[x00; x00]; [x07]] Hr) as (c'&Hrun&_). by exists c, c'.
Defined.

Lemma start_branches_witness :
  ∃ c c' : Context (ProcessTimer (S := ref_os)) list_queue,
    Context_start c = Ret (Err ProtocolViolation, c') ∧
    Context_start c' = Ret (Err AlreadyStarted, c').
Proof.
  destruct (ex_new_spec ex_packet ex_timer) as (c&_&Hr&Hcap&_&_&Ha&_&Hs&_).
  destruct (start_branches c [] [] [] (Ok (VDeliver 1 2 [x41])) [] Hr Hs)
    as (r&c'&Hrun&_&_&Hagain&->&_).
  - rewrite Ha, Hcap. by vm_compute.
  - done.
  - by exists c, c'.
Defined.

Lemma new_context_witness :
  ∃ c : Context (ProcessTimer (S := ref_os)) list_queue,
    Context_new 16777226 4 (Ok (mk_stream [] eof [] [])) (Ok ex_timer) (Ok tt) = Ret (Ok c) ∧
    in_cap c = 4.
Proof.
  destruct (new_context (Q := list_queue) 16777226 4 (mk_stream [] eof [] []) ex_timer)
    as (c&Hc&_&Hcap&_).
  - done.
  - lia.
  - unfold isize_max, MAX_PACKET_SIZE. lia.
  - by exists c.
Defined.
