(* ===== verification/ContextFineProps.v ===== *)
(** * ContextFineProps: the guarantees of a context, part by part of its calls

    What holds of [send], [recv] and the deadline handler when they interrupt
    one another between any two parts, what holds of orderly runs only, and
    what fails otherwise: with the timer that reports late messages, two sends
    that overlap can leave the late messages out of order. *)
From S2P Require Import Prelude Std BufferPool BytesBuffer Wire WireRef FbBuffer Connector.
From S2P Require Import ConnectorSpec ConnectorPeer OutputMsgSet WaitfreeArrayQueue Chrono.
From S2P Require Import Error LibcTimer Timer TimerProcess TimerProcessSpec PosixRef TimerKvm.
From S2P Require Import Context ContextSpec DeadlineSpec ContextInit HandleDeadline ContextFine.
From S2P Require Import Fixtures.
From stdpp Require Import base option list numbers sorting relations.
From Stdlib Require Import ZArith Lia Strings.Byte.

Lemma times_sorted `{FlatBuffers} (ms : list SendPacketBuilder) :
  StronglySorted (λ m m', SendPacketBuilder_cmp m m' ≠ Gt) ms →
  StronglySorted Z.le (spb_send_time <$> ms).
Proof. induction 1; simpl; constructor; [done|]. by apply Forall_fmap. Qed.

(** Sorted times are messages in the order of [Ord for SendPacketBuilder]. *)
Lemma sorted_by_time `{FlatBuffers} (ms : list SendPacketBuilder) :
  StronglySorted Z.le (spb_send_time <$> ms) →
  StronglySorted (λ m m', SendPacketBuilder_cmp m m' ≠ Gt) ms.
Proof.
  induction ms as [|m ms IH]; [constructor|]. intros [Hs Hm]%StronglySorted_inv.
  constructor; [by apply IH|]. exact (proj1 (Forall_fmap spb_send_time _ ms) Hm).
Qed.

(** The busy flags of a pool are those of the buffers [L], each its own. *)
Definition owns_busy {B Array} (p : InnerBufferPool Array) (L : list (Buffer B)) : Prop :=
  NoDup (index <$> L) ∧ ∀ i, buffer_busy p !! i = Some true ↔ i ∈ index <$> L.

Lemma pool_inv_owns {B Array Content} `{InnerBufferLaws B Array Content}
    (p : InnerBufferPool Array) (L : list (Buffer B)) :
  pool_inv p L → owns_busy p L.
Proof. by intros (_&?&?&_). Qed.

Lemma msgs_at_typed `{FlatBuffersLaws} p addr ms l :
  Forall2 (msg_at p addr) ms l →
  Forall (λ m, spb_src m = addr ∧ in_u32 (spb_dst m) ∧ Duration_wf (spb_send_time m)) ms.
Proof.
  induction 1 as [|m pd ms l (_&?&Hd&Ht&?&_&?&_) _ IH]; constructor; [|done].
  by rewrite Hd, Ht.
Qed.

(** The packet of a message of the slice [prev, cur]. *)
Definition slice_packet (addr : Z) (prev cur : Duration) (w : out_view) : Prop :=
  match w with
  | WSend t src _ _ => src = addr ∧ (prev ≤ t ≤ cur)%Z
  | WAtDeadline => False
  end.

Lemma slice_packets_in_slice addr prev cur out sent :
  (prev ≤ cur)%Z →
  Forall (λ m, pd_time m < prev ∨ pd_time m ≤ cur)%Z out →
  Forall (λ m, prev < pd_time m)%Z sent → Forall (λ m, pd_time m ≤ cur)%Z sent →
  Forall (slice_packet addr prev cur)
    (((λ m, out_view_of addr (clamp prev (pd_time m)) m) <$> out) ++
     ((λ m, out_view_of addr (pd_time m) m) <$> sent)).
Proof.
  intros Hle Ho Hp Hs. apply Forall_app. rewrite !Forall_fmap. split.
  - eapply Forall_impl; [exact Ho|]. intros m Hm. split; [done|]. simpl in Hm. unfold clamp.
    destruct (Z.ltb_spec (pd_time m) prev); lia.
  - rewrite Forall_forall in *. intros m Hm. split; [done|].
    specialize (Hp m Hm). specialize (Hs m Hm). simpl in *. lia.
Qed.

(** The frames of a sequence of messages, the last one perhaps cut short. *)
Definition cut_frames `{FlatBuffers} (ws : list out_view) (l : bytes) : Prop :=
  ∃ vs wt bs cut r, ws = vs ++ wt ∧ length wt ≤ 1 ∧ l = bs ++ cut ∧
    encodes vs bs ∧ encodes wt (cut ++ r).

Section calls.
Context {T : Type} {Q : Type → Type} `{FL : FlatBuffersLaws, CH : Chrono}
  `{TM : !Timer T, TL : !TimerLaws T, TH : !TimerHandler T, THL : !TimerHandlerLaws T}
  `{AQ : ArrayQueueLaws Q}.

(** What a deadline writes when the messages beyond a deadline wait after the
    start of the slice, and what still waits when the simulation goes on. *)
Lemma deadline_writes (s : fine T Q) o c' :
  fine_inv s → tc_inv (timer_context (fine_ctx s)) → late_inv s →
  handle_deadline (fine_ctx s) = Ret (o, c') →
  ∃ ws l, tx (actor (connector c')) = tx (actor (connector (fine_ctx s))) ++ l ∧
    Forall (slice_packet (address (fine_ctx s)) (tc_prev (timer_context (fine_ctx s)))
              (tc_next (timer_context (fine_ctx s)))) ws ∧
    match o with
    | Some d => encodes (ws ++ [WAtDeadline]) l ∧
        tc_prev (timer_context c') = tc_next (timer_context (fine_ctx s)) ∧
        tc_next (timer_context c') = d ∧
        ∃ up' inn', fine_repr c' (fine_calls s) [] up' inn' ∧
          Forall (λ m, tc_next (timer_context (fine_ctx s)) < pd_time m)%Z up'
    | None => ∃ note, (note = [] ∨ note = [WAtDeadline]) ∧ cut_frames (ws ++ note) l
    end.
Proof.
  intros (out&up&inn&ws&bs&cut&lost&Hr&Ht&_) Hinv (Hs&Hp&_) Hrun.
  rewrite (fine_repr_upcoming _ _ _ _ _ Hr) in Hs, Hp. apply (Forall_fmap pd_time) in Hp.
  destruct (fine_deadline_run _ _ _ _ _ _ _ Hr Ht Hrun)
    as (_&Ho&out'&up'&inn'&sent&sent'&lost'&wt&note&bs'&cut'&Hr'&Hsends).
  destruct Hsends as (_&_&_&(x&Hx)&Hsent&Hsent'&Hwt&Hnote&Htx&Henc&(r&Hcut)&Hgo).
  apply tc_inv_ordered in Hinv. rewrite app_assoc in Henc. rewrite Forall_forall in Hp.
  assert (∀ m, m ∈ sent' → m ∈ up) as Hin by (intros; rewrite Hx; apply elem_of_app; by left).
  pose proof (slice_packets_in_slice (address (fine_ctx s)) _ _ sent sent' Hinv Hsent
    ltac:(apply Forall_forall; intros; by apply Hp, Hin) Hsent') as Hws.
  destruct o as [d|].
  - destruct (Hgo ltac:(done)) as (->&->&->&->&Hh). destruct Ho as (_&Ep&En).
    apply encodes_nil_inv, app_nil in Hcut as [-> _]. rewrite app_nil_r in Htx.
    eexists _, bs'. split_and!; [exact Htx|exact Hws|exact Henc|done|done|].
    exists up', inn'. split; [done|].
    rewrite Hx, app_assoc, fmap_app in Hs. apply StronglySorted_app_r in Hs.
    apply (Forall_fmap pd_time (λ t, _ < t)%Z), sorted_suffix; [done|].
    destruct up' as [|m up']; [done|]. intros y [= <-]. by apply Hh.
  - destruct Hwt as [->|[->|[(m&Hm&->)|(m&Hm&Hle&->)]]].
    + eexists _, (bs' ++ cut'). split_and!; [exact Htx|exact Hws|].
      exists note. split; [naive_solver|]. eexists _, [], bs', cut', r. rewrite app_nil_r.
      split_and!; try done. simpl. lia.
    + destruct Hnote as [->|[_ ?]]; [|done]. rewrite app_nil_r in Henc.
      eexists _, (bs' ++ cut'). split_and!; [exact Htx|exact Hws|].
      exists [WAtDeadline]. split; [by right|]. by eexists _, [WAtDeadline], bs', cut', r.
    + destruct Hnote as [->|[_ ?]]; [|done]. rewrite app_nil_r in Henc.
      eexists (_ ++ set_views _ _ [m]), (bs' ++ cut'). split_and!; [exact Htx| |].
      * apply Forall_app. split; [exact Hws|].
        apply (slice_packets_in_slice _ _ _ [m] []); [done|by constructor|constructor..].
      * exists []. split; [by left|]. rewrite app_nil_r. by eexists _, _, bs', cut', r.
    + destruct Hnote as [->|[_ ?]]; [|done]. rewrite app_nil_r in Henc.
      eexists (_ ++ late_views _ [m]), (bs' ++ cut'). split_and!; [exact Htx| |].
      * apply Forall_app. split; [exact Hws|].
        apply (slice_packets_in_slice _ _ _ [] [m]); [done|constructor| |by repeat constructor].
        constructor; [by apply Hp|constructor].
      * exists []. split; [by left|]. rewrite app_nil_r. by eexists _, _, bs', cut', r.
Qed.

(** C1: however the parts of any number of sends and receptions and the
    deadlines interleave, and whichever writes to the socket fail, the messages
    [send] accepted are exactly the packets of the whole frames sent so far,
    the messages that still wait in the set or beyond a deadline, and those
    lost.  As long as no deadline has ended the simulation none is lost and the
    bytes sent are whole frames.  The deadline that ends it loses at most one
    accepted message, and what it sends ends with at most one incomplete frame.
    No message is sent twice.  Every call under way can go on, without a panic,
    and a send that has its buffer does not fail. *)
Theorem messages_accounted (s : fine T Q) :
  fine_reachable s →
  (∃ out up inn ws bs cut lost, fine_repr (fine_ctx s) (fine_calls s) out up inn ∧
    encodes ws bs ∧ tx (actor (connector (fine_ctx s))) = bs ++ cut ∧
    fine_accepted s ≡ₚ carried ws ++ (waiting out ++ waiting up) ++ lost ∧
    (∃ wt r, length wt ≤ 1 ∧ encodes wt (cut ++ r)) ∧ length lost ≤ 1 ∧
    (fine_ended s = false → cut = [] ∧ lost = [])) ∧
  ∀ l1 k l2, fine_calls s = l1 ++ k :: l2 →
    ∃ k' m c', part k (fine_ctx s) k' m c' ∧
      match k with
      | Allocated t dst msg b => ∃ o, k' = Some (Checked t dst msg b o)
      | Checked t dst msg b o => m = Some (dst, msg)
      | _ => True
      end.
Proof.
  intros Hi%fine_inv_reachable. split; [|intros; by eapply fine_calls_return].
  destruct Hi as (out&up&inn&ws&bs&cut&lost&?&_&?). by exists out, up, inn, ws, bs, cut, lost.
Qed.

(** C2: with a timer that reports no message as late, as those of a process and
    of QEMU, and a coordinator whose deadlines do not go back, a deadline sends
    packets of this node only, all with times within the slice that ends,
    wherever it interrupts the calls under way: a time recorded in an earlier
    slice is moved into this one.  When the simulation goes on, the packets
    are followed by one notification, nothing is left to be sent, and the next
    slice begins where this one ended.  When the deadline ends the simulation,
    what has left is the beginning of such a sequence: whole frames, the last
    one perhaps cut short, with or without the notification. *)
Theorem fine_in_slice `{ON : !OverrunNever T} (s : fine T Q) o c' :
  reachable_by forward s → handle_deadline (fine_ctx s) = Ret (o, c') →
  ∃ ws l, tx (actor (connector c')) = tx (actor (connector (fine_ctx s))) ++ l ∧
    Forall (slice_packet (address (fine_ctx s)) (tc_prev (timer_context (fine_ctx s)))
              (tc_next (timer_context (fine_ctx s)))) ws ∧
    match o with
    | Some d => encodes (ws ++ [WAtDeadline]) l ∧
        tc_prev (timer_context c') = tc_next (timer_context (fine_ctx s)) ∧
        tc_next (timer_context c') = d ∧ ∃ inn', fine_repr c' (fine_calls s) [] [] inn'
    | None => ∃ note, (note = [] ∨ note = [WAtDeadline]) ∧ cut_frames (ws ++ note) l
    end.
Proof.
  intros Hreach Hrun. destruct (no_late_reachable _ _ Hreach) as [Hup _].
  pose proof (forward_orderly _ Hreach) as Ho. destruct (orderly_inv _ Ho) as [Ht Hl].
  pose proof (fine_inv_reachable _ _ Hreach) as Hi.
  destruct (deadline_writes s o c' Hi Ht Hl Hrun) as (ws&l&Htx&Hws&Hcase).
  exists ws, l. split_and!; [done..|]. destruct o as [d|]; [|done].
  destruct Hcase as (?&?&?&up'&inn'&Hr'&_). split_and!; [done..|]. exists inn'.
  assert (up' = []) as ->; [|done]. destruct Hi as (out&up&inn&?&?&?&?&Hr&Hwf&_).
  pose proof (fine_repr_upcoming _ _ _ _ _ Hr) as Hu. rewrite Hup in Hu.
  symmetry in Hu. apply fmap_nil_inv in Hu as ->.
  destruct (fine_deadline_run _ _ _ _ _ _ _ Hr Hwf Hrun)
    as (_&_&out'&up1&inn1&?&?&?&?&?&?&?&Hr1&(_&_&_&(z&Hx)&_)).
  symmetry in Hx. apply app_nil in Hx as [_ [_ ->]%app_nil].
  pose proof (fine_repr_upcoming _ _ _ _ _ Hr1) as E1.
  rewrite (fine_repr_upcoming _ _ _ _ _ Hr') in E1. by apply fmap_nil_inv in E1.
Qed.

(** C5: with any timer, a deadline sends packets of this node only, all with
    times within the slice that ends, provided the run so far was orderly: the
    coordinator's deadlines did not go back, and from the moment a message was
    found late until it was queued no other send asked the timer and no
    deadline came ([late_sends_race] shows what may happen otherwise).  When
    the simulation goes on, the packets are followed by one notification, the
    set is empty, the next slice begins where this one ended, and what still
    waits is stamped after that.  When the deadline ends the simulation, what
    has left is the beginning of such a sequence, the last frame perhaps cut
    short. *)
Theorem deadline_in_slice (s : fine T Q) o c' :
  reachable_by orderly s → handle_deadline (fine_ctx s) = Ret (o, c') →
  ∃ ws l, tx (actor (connector c')) = tx (actor (connector (fine_ctx s))) ++ l ∧
    Forall (slice_packet (address (fine_ctx s)) (tc_prev (timer_context (fine_ctx s)))
              (tc_next (timer_context (fine_ctx s)))) ws ∧
    match o with
    | Some d => encodes (ws ++ [WAtDeadline]) l ∧
        tc_prev (timer_context c') = tc_next (timer_context (fine_ctx s)) ∧
        tc_next (timer_context c') = d ∧
        ∃ up' inn', fine_repr c' (fine_calls s) [] up' inn' ∧
          Forall (λ m, tc_next (timer_context (fine_ctx s)) < pd_time m)%Z up'
    | None => ∃ note, (note = [] ∨ note = [WAtDeadline]) ∧ cut_frames (ws ++ note) l
    end.
Proof.
  intros Hreach. destruct (orderly_inv _ Hreach).
  apply deadline_writes; [by eapply fine_inv_reachable|done..].
Qed.

(** C6: with a timer that reports late messages, in a state an orderly run leads
    to and where the socket accepts the writes, no deadline is aborted because
    of a time stamp: whatever the coordinator answers, the handler sends all
    messages of the set, moved to the start of the slice where needed, then
    exactly the waiting messages that are due, in their order, and notifies the
    coordinator.  The messages that go on waiting are those not due. *)
Theorem deadline_sends_all `{OC : !OverrunChecked T} (s : fine T Q) f tm :
  reachable_by orderly s → Forall (λ o, o = None) (wr (actor (connector (fine_ctx s)))) →
  tc_freeze (timer_context (fine_ctx s)) = Ret (f, tm) →
  ∃ out up inn a c' sent up' inn' l, fine_repr (fine_ctx s) (fine_calls s) out up inn ∧
    at_deadline (set_timer_context tm (fine_ctx s)) = Ret (a, c') ∧
    fine_repr c' (fine_calls s) [] up' inn' ∧ up = sent ++ up' ∧
    Forall (λ m, pd_time m ≤ tc_next (timer_context (fine_ctx s)))%Z sent ∧
    Forall (λ m, tc_next (timer_context (fine_ctx s)) < pd_time m)%Z up' ∧
    tx (actor (connector c')) = tx (actor (connector (fine_ctx s))) ++ l ∧
    encodes (set_views (address (fine_ctx s)) (tc_prev (timer_context (fine_ctx s))) out ++
             late_views (address (fine_ctx s)) sent ++ [WAtDeadline]) l.
Proof.
  intros Hreach Hw Hf. destruct (orderly_inv _ Hreach) as [_ (Hs&_)].
  pose proof (in_time_reachable orderly s ltac:(by intros a x [? _]) Hreach) as [Hit _].
  destruct (fine_inv_reachable _ _ Hreach) as (out&up&inn&?&?&?&?&Hr&Ht&_).
  rewrite (fine_repr_upcoming _ _ _ _ _ Hr) in Hs.
  rewrite (fine_repr_outgoing _ _ _ _ _ Hr) in Hit. apply (Forall_fmap pd_time) in Hit.
  destruct (tc_freeze_frame _ _ _ Hf) as (Hh&Ep&En).
  destruct (fine_at_deadline (set_timer_context tm (fine_ctx s)) (fine_calls s) out up inn)
    as (a&c'&cap&out'&up'&inn'&cbs&Had&Hr'&Hspec); [exact Hr|exact Hh|simpl; rewrite Ep; apply Ht|].
  simpl in Hspec. rewrite Ep, En in Hspec.
  destruct (deadline_complete _ _ _ _ _ _ _ _ _ _ _ _ _ _ Hspec Hw ltac:(by right))
    as (->&_&_&(sent&l&->&Hsent&Hh'&Htx&Henc)&_&_).
  exists out, (sent ++ up'), inn, a, c', sent, up', inn', l. split_and!; try done.
  rewrite fmap_app in Hs. apply StronglySorted_app_r in Hs.
  apply (Forall_fmap pd_time (λ t, _ < t)%Z), sorted_suffix; [done|].
  destruct up' as [|m up']; [done|]. intros y [= <-]. by apply Hh'.
Qed.

(** C7: in every reachable state the data of a context is well formed.  The
    address fits 32 bits; each waiting message carries it as its source, a
    destination of 32 bits and a time that is a [Duration].  A busy flag of the
    output pool is set exactly for the buffer of a waiting message or of a send
    under way, one of the input pool exactly for the buffer of a queued packet
    or of a reception under way, and no two of them share a buffer, so that
    neither pool is ever overbooked and no buffer leaks.  Each packet, queued or
    taken by a reception, can be read without a panic.  After an orderly run
    (see [deadline_in_slice]) the messages stamped beyond a deadline wait in the
    order of their times, all of them after the current slice's start, so that
    the second loop of [at_deadline] may stop at the first that is not due. *)
Theorem context_well_formed (s : fine T Q) :
  fine_reachable s →
  let c := fine_ctx s in
  let ms := set_msgs (outgoing_messages c) ++ upcoming_messages c in
  let bs := omap out_held (fine_calls s) ++ (spb_payload <$> ms) in
  let ds := wq_elems (input_queue c) in
  let bs' := omap in_held (fine_calls s) ++ (deliver_inner <$> ds) in
  in_u32 (address c) ∧
  Forall (λ m, spb_src m = address c ∧ in_u32 (spb_dst m) ∧ Duration_wf (spb_send_time m)) ms ∧
  owns_busy (output_buffer_pool c) bs ∧ length bs ≤ out_cap c ∧
  owns_busy (input_buffer_pool (connector c)) bs' ∧ length bs' ≤ in_cap c ∧
  Forall (λ b, ∃ src dst v, let p := input_buffer_pool (connector c) in
    DeliverPacket_src (mk_deliver b) p = Ret (src, p) ∧
    DeliverPacket_dst (mk_deliver b) p = Ret (dst, p) ∧
    DeliverPacket_payload (mk_deliver b) p = Ret (v, p)) bs' ∧
  (reachable_by orderly s →
    StronglySorted (λ m m', SendPacketBuilder_cmp m m' ≠ Gt) (upcoming_messages c) ∧
    Forall (λ m, tc_prev (timer_context c) < spb_send_time m)%Z (upcoming_messages c)).
Proof.
  intros Hreach. destruct (fine_inv_reachable _ _ Hreach) as (out&up&inn&?&?&?&?&Hr&_).
  destruct Hr as [(Ha&(Hp&_&_&_&Ho&Hu)&Hi&_&_&Hd) Hcalls]. simpl.
  split_and!; [done| |by apply pool_inv_owns|exact (pool_inv_length _ _ Hp)
    |by apply pool_inv_owns|exact (pool_inv_length _ _ Hi)| |].
  - apply Forall_app; split; by eapply msgs_at_typed.
  - apply Forall_app. split.
    + apply Forall_forall. intros b (k&Hk&Hb)%list_elem_of_omap.
      rewrite Forall_forall in Hcalls. specialize (Hcalls k Hk).
      destruct k as [| | |[b'] buf]; simplify_eq/=. destruct Hcalls as (p&Hp'%packet_at_accessors).
      by eexists _, _, _.
    + apply Forall_fmap. eapply Forall2_Forall_l; [exact Hd|]. apply Forall_true.
      intros k [b] Hk%packet_at_accessors. by eexists _, _, _.
  - intros Hord. destruct (orderly_inv _ Hord) as [_ (Hs&Hup&_)].
    split; [by apply sorted_by_time|]. exact (proj1 (Forall_fmap spb_send_time _ _) Hup).
Qed.
End calls.

(** A guest counter at half a gigahertz, past the deadline at 5000. *)
Definition late_timer : KvmTimer (S := ref_kvm) :=
  (mk_kvm_timer 0 1000 0 5000 (f64_div (f64_of_int 1) (f64_of_int 2)) 3 1,
   mk_ref_kvm 5100 0)%Z.
Definition late_answers : bytes :=
  concat ((λ d, built (create_goto_deadline d)) <$> [1201; 1300; 1400]%Z).

(** Two sends, the second to begin first to queue, then two deadlines. *)
Definition late_schedule : list act :=
  [ASend 7 ex_msg; ASend 8 ex_msg; APart 1; APart 0; APart 1; APart 0; APart 0; APart 0;
   ADeadline; ADeadline].

Lemma late_timer_inv : tc_inv late_timer.
Proof. repeat split; by vm_compute. Qed.

(** What the schedule leads to. *)
Definition late_summary (s : fine (KvmTimer (S := ref_kvm)) list_queue) :=
  (length (fine_calls s), spb_send_time <$> upcoming_messages (fine_ctx s), fine_accepted s,
   (wr (actor (connector (fine_ctx s))), tc_prev (timer_context (fine_ctx s)), tc_next (timer_context (fine_ctx s))),
   match handle_deadline (fine_ctx s) with Ret (d, _) => d | _ => None end).

Lemma late_schedule_runs :
  (λ s, (late_summary s, fine_ended s)) <$>
    ex_run forwardb late_schedule late_answers late_timer =
  Some (0, [1202; 1200]%Z, [(7%Z, ex_msg); (8%Z, ex_msg)], ([], 1201%Z, 1300%Z),
        Some 1400%Z, false).
Proof. by vm_compute. Qed.

Lemma late_summary_leaves (s : fine (KvmTimer (S := ref_kvm)) list_queue) dsts :
  fine_inv s → fine_ended s = false →
  late_summary s =
    (0, [1202; 1200]%Z, (λ d, (d, ex_msg)) <$> dsts, ([], 1201%Z, 1300%Z), Some 1400%Z) →
  ∃ d c' ws l t dst,
    fine_calls s = [] ∧
    ¬ StronglySorted (λ m m', SendPacketBuilder_cmp m m' ≠ Gt)
        (upcoming_messages (fine_ctx s)) ∧
    handle_deadline (fine_ctx s) = Ret (Some d, c') ∧
    tx (actor (connector c')) = tx (actor (connector (fine_ctx s))) ++ l ∧ encodes ws l ∧
    WSend t (address (fine_ctx s)) dst ex_msg ∈ ws ∧
    (t < tc_prev (timer_context (fine_ctx s)))%Z.
Proof.
  intros (out&up&inn&ws&bs&cut&lost&Hr&Ht&_&_&Hall&_&_&Hgo) He Hsum. unfold late_summary in Hsum.
  destruct (handle_deadline (fine_ctx s)) as [[d c']| |] eqn:Hrun; [|discriminate..].
  injection Hsum as Hcalls%nil_length_inv Hup Hacc Hw Hp Hn Hd. subst d.
  destruct (Hgo He) as [_ ->]. rewrite app_nil_r in Hall.
  pose proof (fine_repr_upcoming _ _ _ _ _ Hr) as Htimes. rewrite Hup in Htimes.
  destruct up as [|m1 [|m2 [|]]]; try done. injection Htimes as Ht1 Ht2.
  destruct (fine_room _ _ _ _ _ Hr) as (cap&Hcap).
  destruct (handle_deadline_with _ _ cap _ _ _ _ _ _ (proj1 Hr) Hcap Ht Hrun)
    as (_&_&out'&up'&inn'&cbs&_&_&Hspec&_).
  destruct (deadline_complete _ _ _ _ _ _ _ _ _ _ _ _ _ _ Hspec ltac:(by rewrite Hw) ltac:(by left))
    as (_&_&_&(sent&l&Heq&_&Hhead&Htx&Henc)&_&_).
  assert (sent = [m1; m2]) as ->.
  { simpl in Hn, Hhead. rewrite Hn in Hhead. destruct sent as [|? [|? sent]]; simplify_eq/=.
    - specialize (Hhead m1 eq_refl). lia.
    - specialize (Hhead m2 eq_refl). lia.
    - by destruct sent. }
  assert (pd_payload m2 = ex_msg) as Hm2.
  { assert ((pd_dst m2, pd_payload m2) ∈ fine_accepted s) as Hin
      by (rewrite Hall, !elem_of_app; right; right; simpl; rewrite !elem_of_cons; auto).
    rewrite Hacc in Hin. apply list_elem_of_fmap in Hin as (?&?&_). by simplify_eq. }
  exists 1400%Z, c'. eexists _, l, 1200%Z, (pd_dst m2).
  split_and!; [done| |done|done|exact Henc| |by simpl; rewrite Hp].
  - intros Hsort%times_sorted. rewrite Hup in Hsort. inversion_clear Hsort as [|??? Hf].
    by inversion Hf.
  - rewrite !elem_of_app. right; left. simpl. unfold out_view_of. rewrite Ht2, Hm2, !elem_of_cons. auto.
Qed.

(** C3: with the timer of KVM the question whether a message is late and its
    queueing are two critical sections, and two sends that overlap may queue in
    the order opposite to that of their questions.  Here they do; no deadline
    falls within a call, and the deadlines of the coordinator do not go back.
    The late messages then wait out of order, the earlier one is not sent at
    the deadline of its own slice, and it leaves a slice later with a time
    before that slice. *)
Theorem late_sends_race :
  ∃ s d c' ws l t dst,
    ex_run forwardb late_schedule late_answers late_timer = Some s ∧ reachable_by forward s ∧
    fine_calls s = [] ∧
    ¬ StronglySorted (λ m m', SendPacketBuilder_cmp m m' ≠ Gt)
        (upcoming_messages (fine_ctx s)) ∧
    handle_deadline (fine_ctx s) = Ret (Some d, c') ∧
    tx (actor (connector c')) = tx (actor (connector (fine_ctx s))) ++ l ∧ encodes ws l ∧
    WSend t (address (fine_ctx s)) dst ex_msg ∈ ws ∧
    (t < tc_prev (timer_context (fine_ctx s)))%Z.
Proof.
  destruct (fmap_Some_1 _ _ _ late_schedule_runs) as (s&Hs&[Hsum He]%pair_eq). symmetry in Hsum.
  pose proof (ex_run_reachable _ _ _ _ late_timer s forwardb_sound late_timer_inv Hs) as Hreach.
  pose proof (fine_inv_reachable _ _ Hreach) as Hi.
  destruct (late_summary_leaves s [7; 8]%Z Hi (eq_sym He) Hsum) as (d&c'&ws&l&t&dst&H).
  exists s, d, c', ws, l, t, dst. exact (conj Hs (conj Hreach H)).
Qed.

(** ** The properties above on a context of two buffers *)

(** Two sends, the first interrupted by a deadline once it has its buffer. *)
Definition ex_interrupted : list act :=
  [ASend 7 ex_msg; ASend 8 ex_msg; APart 1; APart 0; APart 0; APart 0; ADeadline].
Definition ex_progress {T} (s : fine T list_queue) :=
  (length (fine_calls s), length (fine_accepted s), fine_ended s).

Lemma any_move_sound {T} a (s : fine T list_queue) : true = true → any_move a s.
Proof. done. Qed.

Lemma messages_accounted_witness :
  (∃ s : fine (ProcessTimer (S := ref_os)) list_queue,
    ex_progress s = (1, 1, false) ∧ ∃ k k' m c', part k (fine_ctx s) k' m c') ∧
  ∃ s : fine (ProcessTimer (S := ref_os)) list_queue,
    ex_progress s = (0, 1, true) ∧
    ∃ ws bs cut, encodes ws bs ∧ tx (actor (connector (fine_ctx s))) = bs ++ cut.
Proof.
  split.
  - destruct (ex_run_deadline ex_progress (λ _ _, true) any_move ex_interrupted
      (ex_goto ++ built (create_goto_deadline 3000000%Z)) ex_timer (1, 1, false)
      (Some 3000000%Z) any_move_sound ex_timer_inv) as (s&c'&Hr&Hp&_); [by vm_compute|].
    exists s. split; [done|]. injection Hp as Hc _ _.
    destruct (fine_calls s) as [|k l] eqn:Hl; [done|].
    destruct (proj2 (messages_accounted s Hr) [] k l Hl) as (k'&m&c1&?&_). by exists k, k', m, c1.
  - destruct (ex_run_deadline ex_progress (λ _ _, true) any_move (ex_send ++ [ADeadline])
      (ex_end ++ ex_end) ex_timer (0, 1, true) None any_move_sound ex_timer_inv)
      as (s&c'&Hr&Hp&_); [by vm_compute|].
    exists s. split; [done|].
    destruct (messages_accounted s Hr) as [(_&_&_&ws&bs&cut&_&_&?&?&_) _]. by exists ws, bs, cut.
Defined.

Lemma fine_in_slice_witness :
  (∃ (s : fine (ProcessTimer (S := ref_os)) list_queue) c' ws l,
    handle_deadline (fine_ctx s) = Ret (Some 3000000%Z, c') ∧ length (fine_calls s) = 1 ∧
    tx (actor (connector c')) = tx (actor (connector (fine_ctx s))) ++ l ∧
    encodes (ws ++ [WAtDeadline]) l) ∧
  ∃ (s : fine (ProcessTimer (S := ref_os)) list_queue) c' ws l note,
    handle_deadline (fine_ctx s) = Ret (None, c') ∧
    tx (actor (connector c')) = tx (actor (connector (fine_ctx s))) ++ l ∧
    cut_frames (ws ++ note) l.
Proof.
  split.
  - destruct (ex_run_deadline ex_progress forwardb forward ex_interrupted
      (ex_goto ++ built (create_goto_deadline 3000000%Z)) ex_timer (1, 1, false)
      (Some 3000000%Z) forwardb_sound ex_timer_inv) as (s&c'&Hr&Hp&Hrun); [by vm_compute|].
    injection Hp as Hc _ _.
    destruct (fine_in_slice s _ c' Hr Hrun) as (ws&l&?&_&?&_). by exists s, c', ws, l.
  - destruct (ex_run_deadline ex_progress forwardb forward ex_send ex_end ex_timer
      (0, 1, false) None forwardb_sound ex_timer_inv) as (s&c'&Hr&_&Hrun); [by vm_compute|].
    destruct (fine_in_slice s _ c' Hr Hrun) as (ws&l&?&_&note&_&?). by exists s, c', ws, l, note.
Defined.

Lemma deadline_in_slice_witness :
  ∃ (s : fine (KvmTimer (S := ref_kvm)) list_queue) c' ws l,
    handle_deadline (fine_ctx s) = Ret (Some 2000000%Z, c') ∧
    tx (actor (connector c')) = tx (actor (connector (fine_ctx s))) ++ l ∧
    encodes (ws ++ [WAtDeadline]) l.
Proof.
  destruct (ex_run_deadline ex_progress orderlyb orderly ex_send ex_goto ex_kvm_timer
    (0, 1, false) (Some 2000000%Z) orderlyb_sound ex_kvm_timer_inv) as (s&c'&Hr&_&Hrun);
    [by vm_compute|].
  destruct (deadline_in_slice s _ c' Hr Hrun) as (ws&l&?&_&?&_). by exists s, c', ws, l.
Defined.

Lemma deadline_sends_all_witness :
  ∃ (s : fine (KvmTimer (S := ref_kvm)) list_queue) f tm,
    tc_freeze (timer_context (fine_ctx s)) = Ret (f, tm) ∧
    ∃ a c', at_deadline (set_timer_context tm (fine_ctx s)) = Ret (a, c').
Proof.
  destruct (ex_run_deadline (λ s, wr (actor (connector (fine_ctx s)))) orderlyb orderly ex_send
    ex_goto ex_kvm_timer [] (Some 2000000%Z) orderlyb_sound ex_kvm_timer_inv)
    as (s&c'&Hr&Hw&Hrun); [by vm_compute|]. unfold handle_deadline in Hrun.
  apply bind_inv in Hrun as (f&c1&Hf&_). unfold on_timer in Hf. apply zoom_inv in Hf as (tm&Hf&_).
  exists s, f, tm. split; [exact Hf|].
  destruct (deadline_sends_all s f tm Hr) as (_&_&_&a&c2&_&_&_&_&_&Hrun&_);
    [rewrite Hw; constructor|exact Hf|]. by exists a, c2.
Defined.

Lemma context_well_formed_witness :
  ∃ s : fine (ProcessTimer (S := ref_os)) list_queue,
    length (fine_calls s) = 1 ∧
    owns_busy (output_buffer_pool (fine_ctx s))
      (omap out_held (fine_calls s) ++
       (spb_payload <$> set_msgs (outgoing_messages (fine_ctx s)) ++
                        upcoming_messages (fine_ctx s))).
Proof.
  destruct (ex_run_deadline ex_progress (λ _ _, true) any_move ex_interrupted
    (ex_goto ++ built (create_goto_deadline 3000000%Z)) ex_timer (1, 1, false)
    (Some 3000000%Z) any_move_sound ex_timer_inv) as (s&c'&Hr&Hp&_); [by vm_compute|].
  injection Hp as Hc _ _. exists s. split; [exact Hc|].
  destruct (context_well_formed s Hr) as (_&_&Hb&_). exact Hb.
Defined.
