(* ===== verification/CosimProps.v ===== *)
(** * CosimProps: the guarantees of whole simulations

    A client connected to an actor that runs one of the scripts of the tests:
    its deadlines follow the schedule of the script, and the packet of the
    script arrives. *)
From S2P Require Import Prelude Std BufferPool BytesBuffer Wire WireRef FbBuffer Connector.
From S2P Require Import ConnectorSpec ConnectorPeer OutputMsgSet WaitfreeArrayQueue Chrono.
From S2P Require Import Error LibcTimer Timer TimerProcess TimerProcessSpec PosixRef TimerKvm.
From S2P Require Import Context ContextSpec DeadlineSpec ContextInit HandleDeadline.
From S2P Require Import TestActor ActorSpec TestHelpers ScriptSpec Cosim CosimSpec.
From S2P Require Import CosimRun CosimDelayed TimerProcessLive Fixtures.
From stdpp Require Import base option list numbers relations.
From Stdlib Require Import ZArith Lia Strings.Byte.

(** The notifiers of a test before the first callback. *)
Abbreviation notifiers := (RecvNotifier_new, DeadlineNotifier_new).

Section simulations.
Context {T : Type} {Q : Type → Type} `{FL : FlatBuffersLaws, CH : Chrono}
  `{TM : !Timer T, TL : !TimerLaws T, TH : !TimerHandler T, THL : !TimerHandlerLaws T}
  `{AQ : ArrayQueueLaws Q, PR : Profile}.
Implicit Types (c : Context T Q) (w : world T Q).

Context `{TSL : !TimerStartLaws T, TP : !TimerProgress T}.

(** C14: against [recv_one_msg_actor] a client starts, and whatever the
    application receives and sends between the deadlines, where each message
    that [send] does not refuse for its size leaves room for the frame in the
    buffer of the actor (at most [MAX_PACKET_SIZE - 256] bytes), up to the last
    time the timer can take: the deadlines the client is told about are the successive multiples of
    the slice, the test's notifier holds the last of them and their number
    modulo [2^64], the handler of each deadline returns, and that of a deadline
    with messages, all in time, ends the simulation with the script at its
    end. *)
Theorem recv_one_schedule :
  (2 * RECV_ONE_MSG_ACTOR_SLICE ≤ tc_limit)%Z →
  ∃ n s p, (∀ fuel, n ≤ fuel → connect fuel recv_one_msg_actor = Ret (s, p)) ∧
  ∀ c, fresh_client c s → ∃ off c1, Context_start c = Ret (Ok off, c1) ∧
    ∀ w, rtc (wstep answerable (tc_limit - RECV_ONE_MSG_ACTOR_SLICE)%Z) (mk_world c1 p) w →
    ∃ j, deadlines (w_ctx w) = (λ i, Z.of_nat i * RECV_ONE_MSG_ACTOR_SLICE)%Z <$> seq 1 (S j) ∧
      run_callbacks (callbacks (w_ctx w)) notifiers =
        Ret (tt, (mk_recv_notifier (has_recv (callbacks (w_ctx w))),
          mk_deadline_notifier (Z.of_nat (S j) * RECV_ONE_MSG_ACTOR_SLICE)%Z
            (as_u64 (Z.of_nat (S j))))) ∧
      ∃ n o w', (∀ fuel, n ≤ fuel → live_handle_deadline fuel w = Ret (o, w')) ∧
        (set_msgs (outgoing_messages (w_ctx w)) ≠ [] → in_time w →
         o = None ∧ ∃ a, w_proc w' = Draining a).
Proof.
  intros Hlim.
  destruct recv_one_connects as (n&l&p&[Hf Hp]&Hn). exists n. eexists _, p. split; [exact Hn|].
  intros c Hc. destruct (recv_one_starts c l p Hc Hf Hp Hlim) as (off&c1&Hrun&Hinv&Hready).
  exists off, c1. split; [apply Hrun|]. intros w Hw.
  assert (recv_one_inv w ∧ ready w) as [Hi Hr].
  { assert (recv_one_inv (mk_world c1 p)) as Hinv' by (by exists 0, [], []).
    clear Hinv Hrun. revert Hinv' Hready. induction Hw as [|w1 w2 w3 Hstep _ IH]; [done|]. intros Hi1 Hr1.
    apply IH; [by eapply recv_one_inv_step|].
    eapply ready_step; [exact Hstep|done|by apply recv_one_inv_answers|done|].
    by destruct Hi1 as (_&?&?&[? _]&_); eauto. }
  destruct (Hi) as (j&out&up&Hij). destruct (Hij) as ([Hrep _]&_&_&_&Hdl&_). exists j. split; [exact Hdl|]. split.
  - rewrite run_callbacks_spec by done. fold (deadlines (w_ctx w)). rewrite Hdl.
    by rewrite length_fmap, length_seq, fmap_last, (seq_S j 1), last_snoc.
  - destruct (handle_returns _ w (recv_one_inv_answers w Hi) Hr ltac:(done)) as (m&o&w'&Hm&_).
    exists m, o, w'. split; [done|]. intros Hne Hin.
    destruct (recv_one_after_deadline _ _ _ _ _ _ _ Hij (Hm m ltac:(lia))) as (Ho&Hdr).
    assert (out ≠ []) as Hout by (by rewrite <- (repr_no_messages _ _ _ _ Hrep)).
    split; [|by apply Hdr]. destruct o; [by destruct Ho|done].
Qed.

(** C15: against [send_one_delayed_msg_actor] a client starts, and whatever the
    application receives and sends between the deadlines, where each message
    that [send] does not refuse for its size leaves room for the frame in the
    buffer of the actor (at most [MAX_PACKET_SIZE - 256] bytes, as does the
    packet of the script), its deadlines are a prefix of the schedule: the multiples of the slice before the delay, then the delay.  From
    there, if the messages of the set are stamped no later than the next
    deadline, handling the deadlines one after the other comes to an end: the
    client is told the rest of the schedule, then receives exactly the packet of
    the script, which is announced to the application, and the script is at its
    end. *)
Theorem delayed_delivery msg slice delay :
  small msg → (0 < slice)%Z → (0 ≤ delay)%Z → (delay + slice ≤ u64_max)%Z →
  (from_micros delay ≤ tc_limit)%Z →
  ∃ n s p, (∀ fuel, n ≤ fuel →
    connect fuel (send_one_delayed_msg_actor msg slice delay) = Ret (s, p)) ∧
  ∀ c, fresh_client c s →
    ∃ off c1, Context_start c = Ret (Ok off, c1) ∧ in_time (mk_world c1 p) ∧
    ∀ horizon w, rtc (wstep answerable horizon) (mk_world c1 p) w →
      deadlines (w_ctx w) `prefix_of` schedule slice delay ∧
      (in_time w → ∃ n w',
        (∀ k fuel, n ≤ k → n ≤ fuel → handle_deadlines k fuel w = Ret (tt, w')) ∧
        (∃ a, w_proc w' = Draining a) ∧
        callbacks (w_ctx w') = callbacks (w_ctx w) ++
          (DeadlineCallback <$> drop (length (deadlines (w_ctx w))) (schedule slice delay)) ++
          [RecvCallback] ∧
        ∃ up', repr (w_ctx w') [] up' [delayed_packet msg]).
Proof.
  intros Hm Hs Hd Hmax Hlim.
  destruct (delayed_connects msg slice delay Hm Hs Hd Hmax) as (n&l&rest&e&p&Hp&Hn).
  exists n. eexists _, p. split; [exact Hn|]. intros c Hc.
  destruct (delayed_starts msg slice delay Hs Hd c l rest e p Hc Hp Hlim)
    as (off&c1&Hrun&Hinv&Hready&Hin1).
  exists off, c1. split; [apply Hrun|]. split; [done|]. intros horizon w Hw.
  assert (delayed_inv msg slice delay w ∧ ready w) as [Hi Hr].
  { clear Hin1. revert Hinv Hready. induction Hw as [|w1 w2 w3 Hstep _ IH]; [done|]. intros Hi1 Hr1.
    pose proof (delayed_inv_step msg slice delay Hm Hs Hd Hmax horizon w1 w2 Hi1 Hstep) as Hi2.
    apply (IH Hi2). eapply ready_step; [exact Hstep|done| |exact Hlim|].
    - exact (delayed_inv_answers msg slice delay Hm Hs Hd Hmax w1 Hi1).
    - destruct Hi1 as (_&out&up&s&[Hrep _]&_). by exists out, up, []. }
  split; [exact (delayed_inv_prefix msg slice delay w Hi)|]. intros Hin.
  exact (delayed_runs_to_end msg slice delay Hm Hs Hd Hmax w Hi Hr Hin Hlim).
Qed.
End simulations.

(** ** Witnesses

    The process timer as it is created, with clock readings 500 ns apart. *)
Abbreviation Client := (Context (ProcessTimer (S := ref_os)) list_queue).

Definition ex_new_timer : ProcessTimer (S := ref_os) :=
  (mk_process_timer 0 (mk_adjusted 0) (mk_adjusted 0) 7 true 0 0 0 0 0 true,
   mk_ref_os 2000 (replicate 16 500) None)%Z.

Lemma ex_client s : ∃ c : Client, fresh_client c s ∧ timer_context c = ex_new_timer.
Proof.
  destruct (Context_new_spec (Q := list_queue) 16777226 2 s ex_new_timer)
    as (c&_&Hr&Hic&_&_&Hs&Ht&Hst&Hcb); [unfold in_u32, u32_max; lia|lia|done|].
  exists c. split; [|done]. unfold fresh_client. rewrite Ht, Hic. split_and!; (done || lia).
Qed.

Lemma recv_one_schedule_witness :
  ∃ n s p (c c1 : Client) off, connect n recv_one_msg_actor = Ret (s, p) ∧ fresh_client c s ∧
    Context_start c = Ret (Ok off, c1) ∧
    ∃ m o w', live_handle_deadline m (mk_world c1 p) = Ret (o, w').
Proof.
  destruct (recv_one_schedule (T := ProcessTimer (S := ref_os)) (Q := list_queue))
    as (n&s&p&Hn&Hall); [by vm_compute|].
  destruct (ex_client s) as (c&Hc&_).
  destruct (Hall c Hc) as (off&c1&Hrun&Hw).
  destruct (Hw _ (rtc_refl _ _)) as (j&_&_&m&o&w'&Hm&_). exists n, s, p, c, c1, off.
  split_and!; [by apply Hn|done..|]. exists m, o, w'. by apply Hm.
Defined.

Lemma delayed_delivery_witness :
  ∃ n s p (c c1 : Client) off,
    connect n (send_one_delayed_msg_actor [x41] 100 250) = Ret (s, p) ∧ fresh_client c s ∧
    Context_start c = Ret (Ok off, c1) ∧
    ∃ m w', handle_deadlines m m (mk_world c1 p) = Ret (tt, w').
Proof.
  destruct (delayed_delivery (T := ProcessTimer (S := ref_os)) (Q := list_queue) [x41] 100 250)
    as (n&s&p&Hn&Hall).
  - apply Nat.leb_le. by vm_compute.
  - done.
  - done.
  - done.
  - by vm_compute.
  - destruct (ex_client s) as (c&Hc&_).
    destruct (Hall c Hc) as (off&c1&Hrun&Hin&Hw).
    destruct (Hw 0%Z _ (rtc_refl _ _)) as (_&Hend). exists n, s, p, c, c1, off.
    split_and!; [by apply Hn|done..|]. destruct (Hend Hin) as (m&w'&Hm&_).
    exists m, w'. by apply Hm.
Defined.
