(* ===== verification/ConcProps.v ===== *)
(** * ConcProps: the shared structures under every interleaving

    The sequence lock, the buffer pool and the message set are accessed by
    application threads and by the deadline handler at once.  These are the
    guarantees they give in every interleaving of their atomic accesses. *)
From S2P Require Import Prelude Std BufferPool BytesBuffer OutputMsgSet SlotScan SeqLock.
From S2P Require Import BufferPoolConc OutputMsgSetConc.
From stdpp Require Import base option list numbers relations.
From Stdlib Require Import ZArith Lia Strings.Byte.

(** ** The sequence lock *)
Section seq_lock.
Context {W : Type}.
Implicit Types (s : config W) (v : list W).

(** What the invariant says of a thread about to return from a read. *)
Lemma sl_inv_read v0 s i c v l' :
  sl_inv v0 s → threads s !! i = Some (ReadCheck c v) →
  access (the_lock s) (ReadCheck c v) l' (ReadDone v) →
  l' = the_lock s ∧ v = value (the_lock s) ∧ v = applied (log (the_lock s)) v0.
Proof.
  intros (_&_&b&Hc&Hok&Hb) Ht Ha.
  destruct (Hok _ _ Ht) as (Heven&Hle&Hv). inversion Ha; subst. destruct b.
  - rewrite Hc, Z.mul_comm, Z.add_comm, Z.mod_add in Heven by lia. done.
  - destruct Hb as [Hval _]. rewrite Z.add_0_r in Hc. specialize (Hv Hc eq_refl). by subst.
Qed.

(** What it says of the threads that write. *)
Lemma sl_inv_writers v0 s :
  sl_inv v0 s →
  (∀ i j p q, threads s !! i = Some p → threads s !! j = Some q →
    writing p = true → writing q = true → i = j) ∧
  (Forall (λ p, writing p = false) (threads s) →
    value (the_lock s) = applied (log (the_lock s)) v0).
Proof.
  intros (_&_&b&_&_&Hb). destruct b.
  - destruct Hb as (k&p&Hk&Hw%writer_writing&Huniq). split.
    + intros i j p' q' Hp' Hq' Hwp Hwq. by rewrite (Huniq _ _ Hp' Hwp), (Huniq _ _ Hq' Hwq).
    + intros Hall. rewrite Forall_lookup in Hall. specialize (Hall _ _ Hk). congruence.
  - destruct Hb as [Hval Hnone]. split; [|done].
    intros i j p q Hp Hq Hwp. rewrite (Hnone _ _ Hp) in Hwp. done.
Qed.

(** C19: a read returns a value that was the whole value of the lock: at the
    access where [check_concurrent_write] lets a thread return [v], no write
    is under way and [v] is what the completed writes left, applied one after
    the other.  Writers exclude each other and no update is lost: when no
    thread is between entering and leaving a write, the value is the initial
    one with all completed writes applied in the order in which they completed.
    None of the assertions of the lock ever fails, and the words of the value
    are always as many as at the start. *)
Theorem seq_lock_atomic (v0 : list W) s0 s :
  sl_init v0 s0 → rtc sl_step s0 s → (writes s < 2 ^ 63)%Z →
  (∀ i c v l', threads s !! i = Some (ReadCheck c v) →
    access (the_lock s) (ReadCheck c v) l' (ReadDone v) →
    l' = the_lock s ∧ v = value (the_lock s) ∧ v = applied (log (the_lock s)) v0) ∧
  (∀ i j p q, threads s !! i = Some p → threads s !! j = Some q →
    writing p = true → writing q = true → i = j) ∧
  (Forall (λ p, writing p = false) (threads s) →
    value (the_lock s) = applied (log (the_lock s)) v0) ∧
  (Panicked ∉ threads s) ∧ length (value (the_lock s)) = length v0.
Proof.
  intros Hi Hs Hn. pose proof (sl_inv_reachable _ _ _ Hi Hs Hn) as Hinv.
  destruct (sl_inv_writers _ _ Hinv) as [Hex Hval].
  split_and!; [intros i c v l'; by apply sl_inv_read|done|done| |apply Hinv].
  destruct Hinv as (_&_&b&_&Hok&_). intros [i Ht]%list_elem_of_lookup. exact (Hok _ _ Ht).
Qed.

End seq_lock.

(** ** The buffer pool *)
Section pool.
Context {T Array Content : Type} `{InnerBufferLaws T Array Content}.
Implicit Types (s : pool_config (T := T) (Array := Array) (Content := Content)).

(** C20: two threads never own the same slot, the flag of a slot is set exactly
    while a thread owns it, and a thread that holds a buffer reads what it
    last stored there, whatever the others do.  An allocation of a size that
    fits does not fail while the pool has as many slots as there are threads,
    although other threads take and release slots during its scan. *)
Theorem pool_exclusive s0 s :
  pool_conc_init s0 → rtc pool_step s0 s →
  NoDup (index <$> live (pc_threads s)) ∧
  (∀ i, buffer_busy (pc_pool s) !! i = Some true ↔ i ∈ (index <$> live (pc_threads s))) ∧
  (∀ t b c, pc_threads s !! t = Some (PHold b c) →
    Buffer_deref b (pc_pool s) = Ret (c, pc_pool s)) ∧
  (length (pc_threads s0) ≤ length (buffer_busy (pc_pool s0)) → PFailed ∉ pc_threads s).
Proof.
  intros Hi Hs. destruct (pool_conc_inv_reachable _ _ Hi Hs) as ((_&Hnd&Hb&_)&Hh&_).
  split_and!; [done|done| |].
  - intros t b c Ht. apply Buffer_deref_run. by eapply Hh.
  - intros Hlen Hf. destruct (pool_scan_reachable _ _ Hi Hlen Hs) as [_ Hall].
    rewrite Forall_forall in Hall. by apply (Hall _ Hf).
Qed.

End pool.

(** ** The message set *)
Section set.
Context {Msg : Type}.
Implicit Types (c : set_config Msg).

(** C21: the messages whose [insert] returned are exactly those the drain has
    yielded and those that are still in the set.  No slot is accessed by two
    parties: two messages never share a slot, an [insert] that stores its
    message finds the slot empty and overwrites nothing, and the drain finds a
    message in every slot it takes from, the one published there.  An [insert]
    does not fail while the set has as many slots as there are output buffers,
    which [Context::new] ensures. *)
Theorem set_conserves c0 c :
  set_conc_init c0 → rtc set_step c0 c →
  sc_inserted c ≡ₚ sc_sent c ++ messages_in (sc_tokens c) ∧
  (∀ t t' q q' i, sc_tokens c !! t = Some q → sc_tokens c !! t' = Some q' →
    holds_slot q = Some i → holds_slot q' = Some i → t = t') ∧
  (∀ t m i, sc_tokens c !! t = Some (TStore m i) →
    ∃ s', replace_slot i (Some m) (sc_set c) = Ret (None, s')) ∧
  (∀ i, sc_drainer c = DTake i →
    ∃ t m s', sc_tokens c !! t = Some (TIn m i) ∧
      replace_slot i None (sc_set c) = Ret (Some m, s')) ∧
  (length (sc_tokens c0) ≤ length (slots (sc_set c0)) → ∀ m, TFailed m ∉ sc_tokens c).
Proof.
  intros Hi Hs. destruct (set_conc_inv_reachable _ _ Hi Hs) as (_&_&Hown&Huniq&_&Hd&Hcons).
  split_and!.
  - exact Hcons.
  - exact Huniq.
  - intros t m i Ht. destruct (Hown _ _ _ Ht eq_refl) as (_&_&Hsl). unfold replace_slot.
    rewrite Hsl. by eexists.
  - intros i Hdr. rewrite Hdr in Hd, Hown. destruct Hd as (t&m&Ht).
    destruct (Hown _ _ _ Ht eq_refl) as (_&_&Hsl). unfold replace_slot. rewrite Hsl.
    by eexists t, m, _.
  - intros Hlen m Hf. destruct (set_scan_reachable _ _ Hi Hlen Hs) as [_ Hall].
    rewrite Forall_forall in Hall. by apply (Hall _ Hf m).
Qed.

End set.

(** ** The properties on concrete executions *)

(** A thread that increments both words of the value, and a reader. *)
Definition ex_incr (v : list Z) : list Z := Z.succ <$> v.
Definition ex_seq : config Z := mk_config (SeqLock_new [1; 2]%Z) [WriteWait ex_incr; ReadWait].

Lemma ex_seq_init : sl_init [1; 2]%Z ex_seq.
Proof.
  split_and!; [done| |].
  - apply Forall_cons_2; [right; by eexists|by repeat constructor].
  - apply Forall_cons_2; [|by repeat constructor]. intros v Hv. unfold ex_incr. by rewrite length_fmap.
Qed.

(** One access of thread [i] that the constructor [c] of [access] allows. *)
Local Ltac seq_access i c :=
  eapply rtc_l; [eapply (sl_step_thread _ _ _ i); [reflexivity|by eapply c]|]; simpl.

(** The reader starts before the write and finds one word before it and one
    after it: it must retry. *)
Lemma ex_seq_torn :
  rtc sl_step ex_seq
    (mk_config (mk_lock [2; 3]%Z 2 [ex_incr]) [WriteDone; ReadCheck 0 [1; 3]%Z]).
Proof.
  unfold ex_seq, SeqLock_new.
  seq_access 1 @read_wait_released. seq_access 1 @read_word.
  seq_access 0 @write_wait_released. seq_access 0 @write_cas_ok.
  seq_access 0 @write_read_word. seq_access 0 @write_read_word. seq_access 0 @write_apply.
  seq_access 0 @write_store_word. seq_access 0 @write_store_word. seq_access 0 @write_stored.
  seq_access 0 @write_exit_ok. seq_access 1 @read_word. seq_access 1 @read_complete.
  apply rtc_refl.
Qed.

Lemma ex_seq_read :
  rtc sl_step ex_seq
    (mk_config (mk_lock [2; 3]%Z 2 [ex_incr]) [WriteDone; ReadCheck 2 [2; 3]%Z]).
Proof.
  etrans; [exact ex_seq_torn|]. seq_access 1 @read_check_retry.
  seq_access 1 @read_wait_released. seq_access 1 @read_word. seq_access 1 @read_word.
  seq_access 1 @read_complete. apply rtc_refl.
Qed.

Lemma seq_lock_atomic_witness :
  (rtc sl_step ex_seq
     (mk_config (mk_lock [2; 3]%Z 2 [ex_incr]) [WriteDone; ReadCheck 2 [2; 3]%Z]) ∧
   [2; 3]%Z = applied [ex_incr] [1; 2]%Z) ∧
  ∃ c, rtc sl_step ex_seq c ∧ value (the_lock c) = applied (log (the_lock c)) [1; 2]%Z.
Proof.
  split; [split; [exact ex_seq_read|]|].
  - destruct (seq_lock_atomic [1; 2]%Z ex_seq _ ex_seq_init ex_seq_read eq_refl) as [Hread _].
    eapply (Hread 1); [done|]. by apply read_check_ok.
  - eexists. split; [exact ex_seq_torn|].
    apply (seq_lock_atomic [1; 2]%Z ex_seq _ ex_seq_init ex_seq_torn); [done|].
    by repeat constructor.
Defined.

(** Two threads on a pool of two slots of four bytes: the first holds a buffer
    it has written, the second has found that slot busy and taken the other. *)
Definition ex_pool : InnerBufferPool bytes := mk_pool 4 (replicate 8 x00) [false; false].
Definition ex_pool_config : pool_config (T := BytesBuffer) (Content := bytes) :=
  mk_pool_config ex_pool [PIdle; PIdle].

Lemma ex_pool_init : pool_conc_init ex_pool_config.
Proof. split; [by exists 4, 2|by repeat constructor]. Qed.

Local Ltac pool_access i c :=
  eapply rtc_l; [eapply (pool_step_thread _ _ _ i); [reflexivity|by eapply c]|]; simpl.

Definition ex_held (c : bytes) : pool_config (T := BytesBuffer) (Content := bytes) :=
  mk_pool_config (mk_pool 4 (c ++ replicate 6 x00) [true; true])
    [PHold (mk_buffer 0 (mk_bytes_buffer 2)) c; PHold (mk_buffer 1 (mk_bytes_buffer 3)) (replicate 3 x00)].

Lemma ex_pool_run : rtc pool_step ex_pool_config (ex_held [x41; x42]).
Proof.
  unfold ex_pool_config, ex_pool.
  eapply rtc_l; [eapply (pool_step_thread _ _ _ 0); [reflexivity|apply (pool_call _ 2); simpl; lia]|].
  pool_access 0 @pool_claim.
  eapply rtc_l; [eapply (pool_step_thread _ _ _ 1); [reflexivity|apply (pool_call _ 3); simpl; lia]|].
  pool_access 1 @pool_next. pool_access 1 @pool_claim.
  pool_access 0 @pool_reset. pool_access 1 @pool_reset.
  eapply rtc_l; [eapply (pool_step_thread _ _ _ 0);
    [reflexivity|by apply (pool_write _ _ _ _ [x41; x42])]|].
  apply rtc_refl.
Qed.

Lemma pool_exclusive_witness :
  Buffer_deref (mk_buffer 0 (mk_bytes_buffer 2)) (pc_pool (ex_held [x41; x42])) =
    Ret ([x41; x42], pc_pool (ex_held [x41; x42])) ∧
  ¬ (PFailed ∈ pc_threads (ex_held [x41; x42])).
Proof.
  destruct (pool_exclusive _ _ ex_pool_init ex_pool_run) as (_&_&Hread&Hok).
  split; [by apply (Hread 0)|]. apply Hok. simpl. lia.
Defined.

(** A set of one slot: a message is inserted, drained and sent. *)
Definition ex_set : set_config nat := mk_set_config (OutputMsgSet_new 1) [TFree] DIdle [] [].

Lemma ex_set_init : set_conc_init ex_set.
Proof. split_and!; [by exists 1|by repeat constructor|done..]. Qed.

Local Ltac set_access c := eapply rtc_l; [by eapply c|]; simpl.

Lemma ex_set_run :
  rtc set_step ex_set
    (mk_set_config (mk_msg_set [Some 5] [true] [true]) [TIn 5 0] (DTake 0) [5] []).
Proof.
  unfold ex_set, OutputMsgSet_new. simpl.
  eapply rtc_l; [by apply (set_insert _ _ _ _ _ 0 5)|]; simpl.
  eapply rtc_l; [by eapply (set_claim _ _ _ _ _ _ 0)|]; simpl.
  eapply rtc_l; [by eapply (set_store _ _ _ _ _ _ 0)|]; simpl.
  eapply rtc_l; [by eapply (set_publish _ _ _ _ _ _ 0)|]; simpl.
  set_access @drain_start. set_access @drain_valid. apply rtc_refl.
Qed.

Lemma set_conserves_witness :
  [5] ≡ₚ [] ++ messages_in [TIn 5 0] ∧
  (∃ m s', replace_slot 0 None (mk_msg_set [Some 5] [true] [true]) = Ret (Some m, s')) ∧
  ¬ (TFailed 5 ∈ [TIn 5 0]).
Proof.
  destruct (set_conserves _ _ ex_set_init ex_set_run) as (Hcons&_&_&Htake&Hok). split_and!.
  - exact Hcons.
  - destruct (Htake 0 eq_refl) as (_&m&s'&_&Hrun). by exists m, s'.
  - apply Hok. simpl. lia.
Defined.
