(* ===== verification/WireProps.v ===== *)
(** * WireProps: buffers, messages and addresses

    What the buffer pools guarantee to one user, what the bytes on the socket
    stand for, the tests of the connector, and the conversions of addresses. *)
From S2P Require Import Prelude Std BufferPool BytesBuffer Wire WireRef FbBuffer Connector.
From S2P Require Import ConnectorSpec ConnectorPeer VsgAddress ContextInit TestActor ActorSpec.
From S2P Require Import CosimSpec ConnectorTests ConnectorPacketTest Fixtures.
From Stdlib Require Import ZArith Lia Strings.Byte.
From stdpp Require Import base option list numbers strings.

(** ** Buffer pools *)
Section pools.
Context {T Array Content : Type} `{InnerBufferLaws T Array Content}.
Implicit Types (p : InnerBufferPool Array) (b : Buffer T) (L : list (Buffer T)).

(** C29: [allocate_buffer] on every branch, when the buffers [L] are in use.  A
    size over the limit and an exhausted pool are errors that change nothing;
    otherwise the new buffer has the requested size and a slot that none of
    [L] has, its content is zeroed, what is written through it is read back,
    the contents of [L] are never touched, and dropping it frees the slot
    again. *)
Theorem allocate_buffer_branches size p L :
  pool_inv p L →
  if (Z.of_nat (buffer_size p) <? size)%Z then
    allocate_buffer (T := T) size p = Ret (Err SizeTooBig, p)
  else if length L =? length (buffer_busy p) then
    allocate_buffer (T := T) size p = Ret (Err NoBufferAvailable, p)
  else
    ∃ i p' c p'', let b : Buffer T := mk_buffer i (ib_new i (Z.to_nat size)) in
      allocate_buffer (T := T) size p = Ret (Ok b, p') ∧ (i ∉ (index <$> L)) ∧
      pool_inv p' (b :: L) ∧ Buffer_deref b p' = Ret (c, p') ∧ ib_zero (inner b) c ∧
      same_contents L p p' ∧ Buffer_drop b p' = Ret (tt, p'') ∧ pool_inv p'' L ∧
      ∀ c', ib_ok (inner b) c' →
        ∃ p3, Buffer_deref_mut b (modify (λ _, c')) p' = Ret (tt, p3) ∧
          Buffer_deref b p3 = Ret (c', p3) ∧ same_contents L p p3.
Proof.
  intros Hp.
  destruct (allocate_buffer_cases size p L Hp) as [[Hs Ha]|[(Hs&HL&Ha)|(Hs&HL&Ha)]].
  - by rewrite (proj2 (Z.ltb_lt _ _)) by done.
  - rewrite (proj2 (Z.ltb_ge _ _)) by done. by rewrite (proj2 (Nat.eqb_eq _ _)) by done.
  - rewrite (proj2 (Z.ltb_ge _ _)), (proj2 (Nat.eqb_neq _ _)) by (done || lia).
    destruct Ha as (i&p'&c&Ha&Hp'&Hsc&_&_&Hg&_&Hz).
    destruct (Buffer_drop_spec p' _ L Hp') as (p''&Hd&Hp''&_).
    exists i, p', c, p''. split_and!; try done; [|by apply Buffer_deref_run|].
    + destruct Hp' as (_&Hnd&_). by inversion Hnd.
    + intros c' Hok.
      destruct (Buffer_deref_mut_spec p' _ L (modify (λ _, c')) c tt c' Hp' Hg eq_refl Hok)
        as (p3&Hrun&_&Hs3&Hg3&_).
      exists p3. split_and!; [done|by apply Buffer_deref_run|by eapply same_contents_trans].
Qed.

End pools.

(** ** Messages *)
Section messages.
Context `{FlatBuffersLaws}.

(** C30: [MsgIn::recv] on any bytes and any state of the pool: it returns
    without a panic what the reference reader [recv_spec] says, consumes the
    same bytes, takes a buffer exactly when the message is a packet and leaks
    none otherwise. *)
Theorem recv_refines s p L :
  pool_inv p L →
  let '(v, l) := recv_spec (buffer_size p) (length L =? length (buffer_busy p))
                   (rx_end s) (rx s) in
  ∃ r p', MsgIn_recv (s, p) = Ret (r, (set_rx l s, p')) ∧
    same_contents L p p' ∧ same_shape p p' ∧ in_result L v r p'.
Proof. apply MsgIn_recv_spec. Qed.

(** C31: what a coordinator sends with [MsgIn::send] is what a client reads
    with [MsgIn::recv]: the same deadline, end of simulation, or packet with
    the same source, destination and payload, and not a byte more.  A buffer
    has to hold the payload and 256 bytes for the message around it. *)
Theorem from_coordinator_roundtrip msg v w (p : FbPool) q (L : list (Buffer FbBuffer)) LQ :
  pool_inv p L → length L < length (buffer_busy p) → 1 ≤ buffer_size p →
  msg_is q LQ msg v → in_view_wf v → wr w = [] →
  ∃ l p' q', MsgIn_send msg (w, p, q) =
      Ret (Ok tt, (mk_stream (rx w) (rx_end w) (tx w ++ l) [], p', q')) ∧ pool_inv p' L ∧
    ∀ s (cp : BytesPool) CL rest, pool_inv cp CL → length CL < length (buffer_busy cp) →
      rx s = l ++ rest → frame_bound (view_size v) ≤ buffer_size cp + 4 →
      ∃ r cp', MsgIn_recv (s, cp) = Ret (r, (set_rx rest s, cp')) ∧ in_result CL (Ok v) r cp'.
Proof.
  intros Hp Hfree Hbs Hmsg Hwf Hw.
  destruct (MsgIn_send_spec msg v w p q L LQ Hp Hfree Hbs Hmsg Hwf) as (l&p'&q'&Hrun&Hf&Hbound&Hp'&_).
  exists l, p', q'. split_and!; [|done|].
  - unfold write_result, written in Hrun. by rewrite Hw in Hrun.
  - intros s cp CL rest Hcp Hroom Hrx Hlen.
    pose proof (MsgIn_recv_spec s cp CL Hcp) as Hrecv.
    rewrite (proj2 (Nat.eqb_neq _ _)), Hrx in Hrecv by lia.
    rewrite (recv_spec_frame v l rest (buffer_size cp) _ Hf ltac:(lia)) in Hrecv.
    destruct Hrecv as (r&cp'&?&_&_&?). by exists r, cp'.
Qed.

(** C32: a packet built with a first time, finished with the time of the
    deadline and sent is read by the coordinator's [MsgOut::recv] with that
    last time and the source, destination and payload it was built with; its
    buffer is free after the send. *)
Theorem to_coordinator_roundtrip c (p : FbPool) b L src dst t0 t v f :
  pool_inv p (b :: L) → ib_get (inner b) p (index b) = Ret f → fbb_fresh f →
  out_view_wf (WSend t src dst v) → wr (actor c) = [] →
  ∃ m p1 p2 c' p3 l, SendPacketBuilder_new src dst t0 v b p = Ret (Ok m, p1) ∧
    SendPacketBuilder_finish m t p1 = Ret (mk_send_packet b, p2) ∧
    UnixConnector_send (MsgOut_SendPacket (mk_send_packet b)) (c, p2) =
      Ret (Ok tt, (c', p3)) ∧
    tx (actor c') = tx (actor c) ++ l ∧ pool_inv p3 L ∧
    ∀ st (pp : FbPool) (pq : BytesPool) PL (LQ : list (Buffer BytesBuffer)) rest,
      pool_inv pq LQ → length LQ < length (buffer_busy pq) →
      pool_inv pp PL → length PL < length (buffer_busy pp) →
      rx st = l ++ rest → frame_bound (length v) ≤ buffer_size pq + 4 →
      ∃ r pp' pq', MsgOut_recv (st, pp, pq) = Ret (Ok r, (set_rx rest st, pp', pq')) ∧
        out_result PL (WSend t src dst v) r pp' ∧ pool_inv pq' LQ.
Proof.
  intros Hp Hg Hf Hwf Hw.
  destruct (SendPacketBuilder_new_spec p b L src dst t0 v f Hp Hg Hf ltac:(apply Hwf))
    as (o&p1&Hnew&Hb&Hp1&_).
  set (m := mk_send_packet_builder src dst t0 b o) in *.
  destruct (SendPacketBuilder_finish_spec p1 m L v t Hp1 Hb Hwf) as (f'&p2&Hfin&Hg2&Hh&Hp2&_).
  destruct (UnixConnector_send_packet c p2 b L f' _ Hp2 Hg2 Hh)
    as (l&p3&g&Hsend&Henc&Hp3&_).
  unfold write_result, written in Hsend. rewrite Hw in Hsend.
  eexists m, p1, p2, _, p3, l. split_and!; [done|done|exact Hsend|done|done|].
  intros st pp pq PL LQ rest Hpq Hr1 Hpp Hr2 Hrx Hlen.
  destruct (encodes1_length _ _ Henc) as [_ Hl]. simpl in Hl.
  destruct (MsgOut_recv_frame _ l rest st pp pq PL LQ Henc Hwf Hrx ltac:(lia) Hpq Hr1 Hpp Hr2)
    as (r&pp'&pq'&?&?&?&_). by exists r, pp', pq'.
Qed.

(** C33: the times of the wire.  Whatever two 64-bit numbers the coordinator
    sends as seconds and nanoseconds of a deadline, a client reads that deadline
    when the nanoseconds are below a second, and fails with invalid data
    otherwise, without a leaked buffer. *)
Theorem goto_wire_times s n num_buffers :
  in_u64 s → in_u64 n → 0 < num_buffers →
  (Z.of_nat (MAX_PACKET_SIZE * num_buffers) ≤ isize_max)%Z →
  ∃ m st p k k', (∀ fuel, m ≤ fuel → connect fuel (send_go_to_deadline s n) = Ret (st, p)) ∧
    UnixConnector_new (Ok st) num_buffers = Ret (Ok k) ∧
    UnixConnector_recv k =
      Ret (if (n <? NANOS_PER_SEC)%Z then Ok (MsgIn_GoToDeadline (s * NANOS_PER_SEC + n)%Z)
           else Err (Custom InvalidData "Time out of bounds"), k') ∧
    pool_inv (T := BytesBuffer) (input_buffer_pool k') [].
Proof.
  intros Hs Hn Hnb Hmax. destruct (send_go_to_deadline_connects s n Hs Hn) as (l&Hl&m&a&Hc).
  destruct (new_connector_recv num_buffers (mk_stream l eof [] []) Hnb Hmax)
    as (k&Hk&_&_&_&_&r&p'&Hres&Hrun). cbn [rx rx_end] in Hres. rewrite Hl in Hres.
  eexists m, _, _, k, _. split_and!; [exact Hc|exact Hk| |].
  - rewrite Hrun. by destruct (_ <? _)%Z; destruct Hres as [-> _].
  - simpl. by destruct (_ <? _)%Z; destruct Hres as [_ Hp].
Qed.

(** C34: the tests of the connector pass, with every serializer that keeps its
    laws and any number of buffers: none of their assertions fails, no receive
    waits for ever and the actor exits with success. *)
Theorem connector_tests_pass `{MR : !MsgRoot, ML : !MsgRootLaws} num_buffers child not_found :
  0 < num_buffers → (Z.of_nat (MAX_PACKET_SIZE * num_buffers) ≤ isize_max)%Z →
  Forall passes
    [valid_server_path num_buffers;
     λ fuel, invalid_server_path num_buffers fuel not_found;
     valid_input_buffer_size num_buffers;
     recv_go_to_deadline_oob_nseconds num_buffers child;
     recv_go_to_deadline num_buffers child;
     recv_deliver_packet_payload_too_big num_buffers child;
     recv_deliver_packet__ num_buffers child;
     recv_gibberish num_buffers child;
     send_at_deadline num_buffers child;
     send_at_deadline_twice num_buffers child;
     send_send_packet num_buffers child].
Proof.
  intros Hn Hmax. destruct (constructor_passes num_buffers Hn Hmax not_found) as (?&?&?).
  repeat apply Forall_cons_2; try done.
  - by apply oob_nseconds_passes.
  - by apply goto_passes.
  - by apply too_big_passes.
  - by apply packet_passes.
  - by apply gibberish_passes.
  - by apply at_deadline_passes.
  - by apply at_deadline_twice_passes.
  - by apply send_send_packet_passes.
Qed.
End messages.

(** ** Addresses *)

(** C35: the text of an address names a node: parsing what an address displays
    as gives a 32-bit address that converts back to it, and whatever text is
    accepted gives a 32-bit address. *)
Theorem address_roundtrip :
  (∀ ip, Ipv4Addr_wf ip → ∃ a, vsg_from_str (Ipv4Addr_display ip) = Some a ∧
    in_u32 a ∧ to_ipv4addr a = ip) ∧
  (∀ l a, vsg_from_str l = Some a → in_u32 a ∧ Ipv4Addr_from_str l = Some (to_ipv4addr a)).
Proof.
  split.
  - intros ip Hip. exists (swap_bytes (u32_of_ipv4 ip)).
    destruct (to_ipv4addr_swap ip Hip) as [? ?]. split_and!; try done.
    unfold vsg_from_str. by rewrite Ipv4Addr_display_parse.
  - exact vsg_from_str_u32.
Qed.

(** ** The properties on concrete pools and messages *)
Definition ex_bytes_pool : BytesPool := mk_pool 64 (replicate 128 x00) [false; false].

Lemma ex_bytes_pool_inv : pool_inv (T := BytesBuffer) ex_bytes_pool [].
Proof. exact (proj1 (pool_inv_new (T := BytesBuffer) 64 2 ex_bytes_pool eq_refl)). Qed.

Lemma ex_fb_pool :
  ∃ p : FbPool, pool_inv (T := FbBuffer) p [] ∧ length (buffer_busy p) = 2 ∧ buffer_size p = 64.
Proof.
  destruct (FbPool_new_run 64 2 ltac:(lia)) as (l&Hnew).
  destruct (pool_inv_new _ _ _ Hnew) as [Hp _]. by eexists.
Qed.

Lemma allocate_buffer_branches_witness :
  ∃ i p', allocate_buffer (T := BytesBuffer) 5 ex_bytes_pool =
    Ret (Ok (mk_buffer i (ib_new i 5)), p').
Proof.
  destruct (allocate_buffer_branches (T := BytesBuffer) 5 ex_bytes_pool [] ex_bytes_pool_inv)
    as (i&p'&_&_&Ha&_).
  by exists i, p'.
Defined.

Definition ex_buffer : Buffer BytesBuffer := mk_buffer 0 (mk_bytes_buffer 2).
Definition ex_busy_pool : BytesPool := mk_pool 64 (replicate 128 x00) [true; false].

Lemma ex_busy_pool_inv : pool_inv ex_busy_pool [ex_buffer].
Proof.
  destruct (allocate_buffer_cases (T := BytesBuffer) 2 ex_bytes_pool [] ex_bytes_pool_inv)
    as [[? _]|[(_&?&_)|(_&_&i&p'&c&Ha&Hp&_)]]; [done..|].
  assert (allocate_buffer (T := BytesBuffer) 2 ex_bytes_pool = Ret (Ok ex_buffer, ex_busy_pool))
    as Hrun by reflexivity.
  rewrite Hrun in Ha. by simplify_eq.
Qed.

Lemma recv_refines_witness :
  ∃ r p', MsgIn_recv (mk_stream ex_goto eof [] [], ex_bytes_pool) = Ret (r, p') ∧
    r = Ok (MsgIn_GoToDeadline 2000000%Z).
Proof.
  pose proof (recv_refines (mk_stream ex_goto eof [] []) ex_bytes_pool [] ex_bytes_pool_inv) as Hr.
  assert (length ex_goto ≤ buffer_size ex_bytes_pool + 4) as Hlen
    by (apply Nat.leb_le; by vm_compute).
  change (rx (mk_stream ex_goto eof [] [])) with ex_goto in Hr.
  rewrite <- (app_nil_r ex_goto) in Hr.
  rewrite (recv_spec_frame _ ex_goto [] _ _ ex_goto_frame Hlen), app_nil_r in Hr.
  destruct Hr as (r&p'&Hrun&_&_&Hres&_). by eexists r, _.
Defined.

Lemma from_coordinator_roundtrip_witness :
  ∃ (p p' : FbPool) q' l,
    MsgIn_send MsgIn_EndSimulation (mk_stream [] eof [] [], p, ex_bytes_pool) =
      Ret (Ok tt, (mk_stream [] eof l [], p', q')).
Proof.
  destruct ex_fb_pool as (p&Hp&Hlen&Hbs).
  destruct (from_coordinator_roundtrip MsgIn_EndSimulation VEnd (mk_stream [] eof [] []) p
    ex_bytes_pool [] [] Hp) as (l&p'&q'&Hrun&_).
  - rewrite Hlen. simpl. lia.
  - rewrite Hbs. lia.
  - done.
  - done.
  - done.
  - by exists p, p', q', l.
Defined.

Lemma to_coordinator_roundtrip_witness :
  ∃ (p : FbPool) b m p1, SendPacketBuilder_new 1 2 100%Z [x41] b p = Ret (Ok m, p1).
Proof.
  destruct ex_fb_pool as (p&Hp&Hlen&Hbs).
  destruct (allocate_buffer_cases (T := FbBuffer) 1 p [] Hp)
    as [[? _]|[(_&?&_)|(_&_&i&p'&f&_&Hp'&_&_&_&Hg&_&Hf)]]; [lia|simpl in *; lia|].
  destruct (to_coordinator_roundtrip
    (mk_connector (mk_stream [] eof [] []) ex_bytes_pool (fbb_with_capacity 0))
    p' _ [] 1 2 100%Z 200%Z [x41] f Hp' Hg Hf) as (m&p1&_&_&_&_&Hnew&_).
  - split_and!; [done..|]. unfold payload_wf. simpl. lia.
  - done.
  - by eexists p', _, m, p1.
Defined.

Lemma address_roundtrip_witness :
  ∃ a, vsg_from_str (Ipv4Addr_display (mk_ipv4 10 0 0 1)) = Some a ∧
    to_ipv4addr a = mk_ipv4 10 0 0 1.
Proof.
  destruct (proj1 address_roundtrip (mk_ipv4 10 0 0 1)) as (a&Ha&_&Hip); [done|].
  by exists a.
Defined.

Lemma goto_wire_times_witness :
  ∃ k k' : UnixConnector,
    UnixConnector_recv k = Ret (Ok (MsgIn_GoToDeadline 2000100000%Z), k').
Proof.
  destruct (goto_wire_times 2 100000 100) as (m&st&p&k&k'&_&_&Hrun&_).
  - done.
  - done.
  - lia.
  - by vm_compute.
  - by exists k, k'.
Defined.

Lemma connector_tests_pass_witness :
  ∃ n, recv_go_to_deadline 100 7 n = Ret tt ∧ send_send_packet 100 7 n = Ret tt.
Proof.
  assert (0 < 100) as Hpos by lia.
  pose proof (connector_tests_pass 100 7 (Os 2) Hpos ltac:(by vm_compute)) as Hall.
  rewrite Forall_forall in Hall.
  destruct (Hall (recv_go_to_deadline 100 7)) as (n&Hn); [by eapply (list_elem_of_lookup_2 _ 4)|].
  destruct (Hall (send_send_packet 100 7)) as (n'&Hn'); [by eapply (list_elem_of_lookup_2 _ 10)|].
  exists (max n n'). split; [apply Hn|apply Hn']; lia.
Defined.
