(* ===== verification/TimerProps.v ===== *)
(** * TimerProps: what the timers guarantee

    The time the application sees, the alarms that end its slices, and the
    deadline handlers, for each of the three timers. *)
From S2P Require Import Prelude Std BufferPool BytesBuffer Wire WireRef FbBuffer Connector.
From S2P Require Import ConnectorSpec OutputMsgSet WaitfreeArrayQueue Chrono Error LibcTimer.
From S2P Require Import Timer TimerProcess TimerProcessSpec PosixRef TimerQemu TimerKvm.
From S2P Require Import Context ContextSpec DeadlineSpec HandleDeadline Handlers Fixtures.
From stdpp Require Import base option list numbers.
From Stdlib Require Import ZArith Lia Strings.Byte.

Local Open Scope Z_scope.

(** A message stamped in the slice but beyond the deadline stops the first
    loop of [at_deadline]. *)
Lemma outgoing_spec_late addr prev cur out w :
  Exists (λ m, prev ≤ pd_time m ∧ cur < pd_time m) out →
  (outgoing_spec addr prev cur out w).2 = false.
Proof.
  intros Hex. revert w. induction Hex as [m out [Hp Hc]|m out _ IH]; intros w; simpl.
  - by rewrite (proj2 (Z.leb_le _ _)), (proj2 (Z.ltb_lt _ _)).
  - destruct (_ && _); [done|]. destruct (write_ok w); [|done].
    specialize (IH (tail w)). by destruct (outgoing_spec addr prev cur out (tail w)) as [[??]?].
Qed.

(** However the loop ends, it has sent packets only and left the others. *)
Lemma outgoing_spec_rest addr prev cur out w vs rest ok :
  outgoing_spec addr prev cur out w = (vs, rest, ok) →
  (∃ sent, out = sent ++ rest) ∧ (WAtDeadline ∉ vs).
Proof.
  revert w vs rest ok. induction out as [|m out IH]; intros w vs rest ok; simpl.
  { intros [= <- <- _]. split; [by exists []|]. apply not_elem_of_nil. }
  destruct (_ && _). { intros [= <- <- _]. split; [by exists [m]|]. apply not_elem_of_nil. }
  destruct (write_ok w).
  2: { intros [= <- <- _]. split; [by exists [m]|].
       apply not_elem_of_cons. split; [done|]. apply not_elem_of_nil. }
  destruct (outgoing_spec addr prev cur out (tail w)) as [[vs' rest'] ok'] eqn:Ho.
  intros [= <- <- _]. destruct (IH _ _ _ _ Ho) as [(sent&->) Hv].
  split; [by exists (m :: sent)|]. by apply not_elem_of_cons.
Qed.

Section context.
Context {T : Type} {Q : Type → Type} `{FL : FlatBuffersLaws, CH : Chrono}
  `{TM : !Timer T, TL : !TimerLaws T, AQ : ArrayQueueLaws Q}.

(** One message of the set stamped beyond the deadline ends the simulation
    at that deadline: neither the messages after it nor the notification are
    sent, and the coordinator's answer is not read. *)
Lemma late_message_run (c : Context T Q) out up inn :
  repr c out up inn → tc_handling (timer_context c) →
  Duration_wf (tc_prev (timer_context c)) →
  Exists (λ m, tc_prev (timer_context c) ≤ pd_time m ∧
               tc_next (timer_context c) < pd_time m) out →
  ∃ c' vs sent rest, at_deadline c = Ret (EndSimulation, c') ∧ out = sent ++ rest ∧
    repr c' rest up inn ∧ callbacks c' = callbacks c ∧
    transmits vs (actor (connector c)) (actor (connector c')) ∧ (WAtDeadline ∉ vs).
Proof.
  intros Hr Hh Hp Hex.
  destruct (at_deadline_spec c out up inn Hr Hh Hp)
    as (a&c'&out'&up'&inn'&cbs&Hrun&Hr'&_&Hcb&Hspec).
  pose proof (outgoing_spec_late (address c) _ _ _ (wr (actor (connector c))) Hex) as Hlate.
  inversion Hspec as [vs rest s' Ho Ht|????? Ho|?????? Ho|????????? Ho]; subst;
    rewrite Ho in Hlate; try done.
  destruct (outgoing_spec_rest _ _ _ _ _ _ _ _ Ho) as [(sent&->) ?].
  exists c', vs, sent, out'. rewrite app_nil_r in Hcb. by split_and!.
Qed.

End context.

(** ** The process timer *)
Section process.
Context {O : Type} `{FB : FlatBuffers, PL : PosixLaws O}.
Implicit Types (p : ProcessTimer (S := O)).

(** C23: over any number of slices of a simulation the alarm of the first one is
    due exactly on its deadline, and each alarm noticed late shifts all later
    ones: the alarm is then due beyond its deadline, in simulation time, by the
    sum of the delays so far.  Simulation time does not advance while a deadline
    handler works: between a reading before it and one after it simulation time
    advances by exactly the time the monotonic clock ran from the first reading
    up to the one with which the handler freezes the time, and from the one with
    which it thaws it up to the second reading.  Whatever time passes between the
    end of the freeze and the beginning of the thaw is left out; and simulation
    time does not go back. *)
Theorem process_slices_drift t s d o p l p' :
  pt_next_deadline t = 0 → d ≤ CDuration_MAX → Forall (λ x, x.1 ≤ CDuration_MAX) l →
  Process_start d (t, s) = Ret (Ok o, p) → slices p l p' →
  drift p' (foldr (λ x acc, x.2 + acc) 0 l) ∧
  ∀ d1 t1 s1 f t2 s2 s3 dn t4 s4 d2 p5 now s3',
    Process_simulation_now p' = Ret (d1, (t1, s1)) →
    freeze_time (t1, s1) = Ret (f, (t2, s2)) → os_mono s2 ≤ os_mono s3 →
    gettime Monotonic s3 = Ret (Ok now, s3') →
    thaw_time_to_deadline (Some f) dn (t2, s3) = Ret (Ok tt, (t4, s4)) →
    Process_simulation_now (t4, s4) = Ret (d2, p5) →
    d2 - d1 = (f - os_mono s1) + (os_mono p5.2 - now) ∧
    os_mono s1 ≤ f ≤ os_mono s2 ∧ os_mono s3 ≤ now ≤ os_mono p5.2 ∧
    d1 ≤ d2 ≤ d1 + (os_mono p5.2 - os_mono s1) - (os_mono s3 - os_mono s2).
Proof.
  intros Hn Hd Hl Hstart Hs. split.
  - destruct (start_drift _ _ _ _ _ Hn Hd Hstart) as (Hdr&Hn'&_&_&_&_&?).
    rewrite <- (Z.add_0_l (foldr _ _ _)). eapply slices_drift; [done|lia|done|done].
  - intros d1 t1 s1 f t2 s2 s3 dn t4 s4 d2 p5 now s3' H1 Hf Hm Hg Hth H2.
    destruct (turn_time _ _ _ _ _ _ _ _ _ _ _ _ _ H1 Hf Hth H2) as (?&now'&s3''&Hg'&?&?).
    rewrite Hg in Hg'. simplify_eq. split_and!; lia.
Qed.

(** C24: the time of day.  [start] reads the monotonic clock, which makes
    simulation time begin at 0, and then the local clock, which makes the
    application's date the configured one.  With a local clock that runs like
    the monotonic one, the date an application reads is, to the microsecond, the
    configured one plus simulation time, less exactly the time between these two
    readings, and so it stays over any number of slices.  The configured date is
    within [NDT_RANGE] of the origin and not a leap second. *)
Theorem time_of_day_lags {Q} z t s d o p now0 s1 l0 s2 :
  (∀ s l s', local_now s = (l, s') → ndt_ns l = os_mono s' + z) →
  ndt_plain (current_deadline t) → Z.abs (ndt_ns (current_deadline t)) ≤ NDT_RANGE →
  Process_start d (t, s) = Ret (Ok o, p) →
  gettime Monotonic s = Ret (Ok now0, s1) → local_now s1 = (l0, s2) →
  let lag := os_mono s2 - now0 in
  os_mono s ≤ now0 ∧ 0 ≤ lag ∧ os_mono s2 ≤ os_mono p.2 ∧
  ∀ l (c : Context (ProcessTimer (S := O)) Q) now tm tv c',
    slices p l (timer_context c) → Process_simulation_now (timer_context c) = Ret (now, tm) →
    gettimeofday (set_timer_context tm c) = Ret (tv, c') →
    let later := os_mono (timer_context c').2 - os_mono tm.2 in
    0 ≤ later ∧ 0 ≤ tv_usec tv < 1000000 ∧
    tv_sec tv * 1000000 + tv_usec tv =
      (ndt_ns (current_deadline t) + (now + later) - lag) / 1000.
Proof.
  intros Hz Hp Hr Hstart Hg Hl0 lag.
  destruct (start_lags z Hz _ _ _ _ _ _ _ _ _ Hp Hstart Hg Hl0) as (Hlag&Hend&Hl).
  split_and!; [lia..|]. intros l c now tm tv c' Hs Hnow Hrun later.
  pose proof (slices_lag z _ _ _ _ _ Hs Hl) as Hl'.
  destruct (timer_context c) as [t1 s3], tm as [t2 s4].
  destruct (simulation_now_inv _ _ _ _ _ Hnow) as (->&Hd&->&Hmax&?&_).
  unfold gettimeofday in Hrun. apply bind_inv in Hrun as (a&c1&Ha&Hrun).
  apply ret_inv in Hrun as [-> ->]. apply zoom_inv in Ha as (tm&Ha&->).
  destruct (lags_now z Hz _ _ (t1, s4) a tm Hl' Hd Ha) as (_&Hpl&Hle&Hns).
  simpl in *. pose proof (os_mono_range tm.2). pose proof (os_mono_range s4).
  pose proof (os_mono_range s). pose proof (os_mono_range p.2). pose proof (os_mono_range s2).
  rewrite ndt_timestamp_div, ndt_subsec_micros_mod by done.
  replace (_ + (_ + later) - lag) with (ndt_ns a) by (unfold later, lag; lia).
  split; [unfold later; lia|]. apply timeval_split.
  unfold NDT_RANGE, CDuration_MAX, i64_max in *. lia.
Qed.

(** C25: hence, once alarms have been late by [k] in all, a message sent in the
    last [k] nanoseconds before the alarm is accepted with a time beyond the
    deadline of its own slice, and that deadline ends the simulation. *)
Theorem process_jitter_ends_simulation {Q} `{FL : !FlatBuffersLaws, AQ : ArrayQueueLaws Q}
    (c : Context (ProcessTimer (S := O)) Q) out up inn dst msg k a t tm :
  repr c out up inn → in_u32 dst → tc_inv (timer_context c) →
  (length msg ≤ MAX_PACKET_SIZE)%nat → (length out + length up < out_cap c)%nat →
  drift (timer_context c) k → os_alarm (timer_context c).2 = Some a →
  Process_simulation_now (timer_context c) = Ret (t, tm) → a - k < os_mono tm.2 →
  ∃ c', Context_send dst msg c = Ret (Ok tt, c') ∧
    ∀ f tm', freeze_time (timer_context c') = Ret (f, tm') →
      ∃ c'', at_deadline (set_timer_context tm' c') = Ret (EndSimulation, c'').
Proof.
  intros Hr Hdst Ht Hlen Hroom Hdr Ha Hnow Hlate.
  pose proof (late_stamp _ _ _ _ _ Hdr Ha Hnow Hlate) as Hover.
  change (tc_simulation_now (timer_context c) = Ret (t, tm)) in Hnow.
  destruct (tc_now_frame _ _ _ Hnow) as (Hwf&Hprev&Hnext).
  pose proof (send_at_spec (set_timer_context tm c) out up inn t dst msg None Hr Hdst Hwf
    eq_refl Hwf) as Hsend.
  rewrite (proj2 (Nat.ltb_ge _ _) Hlen), (proj2 (Nat.eqb_neq _ _)) in Hsend
    by (change (out_cap (set_timer_context tm c)) with (out_cap c); lia).
  destruct Hsend as (c'&Hrun&(_&_&_&Et&_)&_&l1&l2&_&Hr'). exists c'. split.
  { unfold Context_send, on_timer. by erewrite bind_run by (apply zoom_run; exact Hnow). }
  intros f tm' Hf. rewrite Et in Hf. simpl in Hf.
  pose proof (tc_inv_now _ _ _ Ht Hnow) as Ht1.
  change (tc_freeze tm = Ret (f, tm')) in Hf.
  destruct (tc_freeze_spec _ _ _ Ht1 Hf) as (Hh&Ht2&Ep&En).
  destruct (late_message_run (set_timer_context tm' c') _ up inn Hr' Hh)
    as (c''&_&_&_&Hrun'&_).
  - by apply tc_inv_wf.
  - apply Exists_app. right. constructor. simpl. simpl in *.
    rewrite Ep, En, Hprev, Hnext. apply tc_inv_ordered in Ht. simpl in Ht. lia.
  - by exists c''.
Qed.
End process.

(** ** The deadline handlers *)
Lemma Process_stop_waits {O} `{CH : Chrono} n (p : ProcessTimer (S := O)) :
  stopped p.1 = false → Process_stop n p = OutOfFuel.
Proof.
  intros Hs. induction n as [|n IH]; [done|]. simpl. unfold field, mbind, M_bind, gets.
  by rewrite Hs.
Qed.

Section handlers.
Context {Q : Type → Type} `{FL : FlatBuffersLaws, CL : ChronoLaws, AQ : ArrayQueueLaws Q}.

(** C26: the signal handler of the process timer, which does what
    [handle_deadline] does, on every branch.  The
    deadline is handled with the time frozen.  When the simulation ends,
    [stop], which has waited until then, returns at its next turn.  Otherwise
    the timer goes on to the next deadline; the handler panics when the alarm
    cannot be set and when the coordinator goes back in time. *)
Theorem process_handler_branches {O}
    `{LC : Libc, PX : !Posix O, LK : !LocalClock O, PL : !PosixLaws O}
    (c : Context (ProcessTimer (S := O)) Q) out up inn f tm :
  repr c out up inn → tc_inv (timer_context c) →
  freeze_time (timer_context c) = Ret (f, tm) →
  Process_deadline_handler true c =
    conclude (handle_deadline c) (λ c', Ret (tt, c')) (on_timer (set_stopped true)) ∧
  (stopped (timer_context c).1 = false → ∀ n, Context_stop n c = OutOfFuel) ∧
  ∃ a c2, at_deadline (set_timer_context tm c) = Ret (a, c2) ∧ timer_context c2 = tm ∧
    match a with
    | EndSimulation => ∃ c', Process_deadline_handler true c = Ret (tt, c') ∧
        connector c' = connector c2 ∧ ∀ n, Context_stop (Datatypes.S n) c' = Ret (tt, c')
    | NextDeadline d =>
        (d < tc_next (timer_context c) →
         Process_deadline_handler true c = Panic DurationOverflow) ∧
        ∀ r tm', thaw_time_to_deadline (Some f) d tm = Ret (r, tm') →
          Process_deadline_handler true c =
            if is_ok r then Ret (tt, set_timer_context tm' c2) else Panic UnwrapOnErr
    end.
Proof.
  intros Hr Ht Hf. split; [apply Process_handler_eq|]. split.
  { intros Hs n. unfold Context_stop, on_timer, zoom. simpl. by rewrite Process_stop_waits. }
  change (tc_freeze (timer_context c) = Ret (f, tm)) in Hf.
  destruct (tc_freeze_spec _ _ _ Ht Hf) as (Hh&Ht1&_&Hn).
  destruct (at_deadline_returns (set_timer_context tm c) _ _ _ Hr Hh (proj1 (tc_inv_wf _ Ht1)))
    as (a&c2&Had&Et).
  exists a, c2. split_and!; [done..|]. unfold Process_deadline_handler, on_timer.
  erewrite bind_run by (apply zoom_run; exact Hf). erewrite bind_run by exact Had.
  simpl in Et. destruct a as [d|].
  - split.
    + destruct tm as [t s]. intros Hd. simpl in Hn, Hd. rewrite <- Hn in Hd.
      unfold mbind, M_bind, zoom. by rewrite Et, thaw_back.
    + intros r tm' Hth. erewrite bind_run by (apply zoom_run; rewrite Et; exact Hth).
      by destruct r as [[]|].
  - destruct c2 as [a k q [t s] op om us so cb]. eexists. by split_and!.
Qed.

(** The handler of the emulated machine. *)
Lemma qemu_handler_run {O} `{QM : !Qemu O, QL : !QemuLaws O}
    (c : Context (QemuTimer (S := O)) Q) out up inn :
  repr c out up inn → tc_inv (timer_context c) →
  let t := (timer_context c).1 in
  Qemu_deadline_handler true c =
    conclude (handle_deadline c) (λ c', Ret (tt, c')) (λ c', Ret (tt, c')) ∧
  ∃ a c2, at_deadline c = Ret (a, c2) ∧ timer_context c2 = timer_context c ∧
    match a with
    | EndSimulation => Qemu_deadline_handler true c = Ret (tt, c2)
    | NextDeadline d =>
        0 ≤ cd_ns (q_offset t) → 0 ≤ d → cd_ns (q_offset t) + d ≤ i64_max →
        ∃ s', Qemu_deadline_handler true c = Ret (tt, set_timer_context
            (mk_qemu_timer (q_offset t) (q_next_deadline t) d (q_refs t), s') c2) ∧
          qemu_expiry s' = Some (cd_ns (q_offset t) + d)
    end.
Proof.
  intros Hr Ht t. split; [apply Qemu_handler_eq|].
  assert (tc_handling (timer_context c)) as Hh by done.
  destruct (at_deadline_returns c _ _ _ Hr Hh (proj1 (tc_inv_wf _ Ht))) as (a&c2&Had&Et).
  exists a, c2. split_and!; [done..|]. unfold Qemu_deadline_handler.
  erewrite bind_run by exact Had. destruct a as [d|]; [|done].
  intros Ho Hd Hmax. subst t. destruct (timer_context c) as [t s].
  destruct (Qemu_set_next_deadline_run d t s Ho Hd Hmax) as (s'&Hset&?).
  exists s'. split; [|done]. apply zoom_run. rewrite Et. exact Hset.
Qed.

(** The handler of the hardware-assisted machine. *)
Lemma kvm_handler_run {O} `{KV : !Kvm O, PR : Profile} guest_tsc
    (c : Context (KvmTimer (S := O)) Q) out up inn :
  repr c out up inn → tc_inv (timer_context c) →
  ∃ a c2,
    at_deadline (set_timer_context (set_guest_tsc guest_tsc (timer_context c)) c) = Ret (a, c2) ∧
    match a with
    | EndSimulation => Kvm_deadline_handler true guest_tsc c = Panic ExplicitPanic
    | NextDeadline d =>
        (d < tc_next (timer_context c) →
         Kvm_deadline_handler true guest_tsc c = Panic DurationOverflow) ∧
        (tc_next (timer_context c) ≤ d ≤ u64_max →
         ∃ tm, Kvm_deadline_handler true guest_tsc c =
             Ret (d - tc_next (timer_context c), set_timer_context tm c2) ∧
           tc_prev tm = tc_next (timer_context c) ∧ tc_next tm = d ∧
           k_guest_tsc tm.1 = guest_tsc)
    end.
Proof.
  intros Hr Ht. set (tm1 := set_guest_tsc guest_tsc (timer_context c)).
  assert (tc_handling tm1) as Hh by done.
  destruct (at_deadline_returns (set_timer_context tm1 c) _ _ _ Hr Hh
    (proj1 (tc_inv_wf _ Ht))) as (a&c2&Had&Et).
  exists a, c2. split; [done|].
  rewrite (Kvm_handler_run _ _ _ _ Had Et). fold tm1. destruct a as [d|]; [|done].
  pose proof (Kvm_set_next_deadline_run d tm1.1 tm1.2) as Hset.
  rewrite <- surjective_pairing in Hset. simpl in *.
  destruct (Z.leb_spec (k_next_deadline (timer_context c).1) d).
  - split; [lia|]. intros [_ Hmax]. destruct Hset as (v&s'&->). simpl.
    destruct Ht as [Ht _]. simpl in Ht.
    rewrite !as_u64_id by (unfold in_u64; lia). unfold sub_u64.
    rewrite (proj2 (Z.ltb_ge _ _)), andb_false_r by done. simpl.
    rewrite as_u64_id by (unfold in_u64; lia). eexists. by split.
  - split; [intros _; by rewrite Hset|lia].
Qed.

(** C27: the handlers of the virtual machines, on every branch.  That of the
    emulated machine does what [handle_deadline] does: when the simulation ends
    it leaves the timer alone; when it goes on to [d] the timer of QEMU is armed
    for exactly [d] after the origin of simulation time, whatever happened
    before: delays do not add up.  That of the hardware-assisted machine panics
    when the simulation ends and when the coordinator goes back in time;
    otherwise it returns the length of the slice that begins, for every
    deadline of 64 bits of nanoseconds. *)
Theorem vm_handlers_branches {O O'} `{QM : !Qemu O, QL : !QemuLaws O, KV : !Kvm O', PR : Profile}
    guest_tsc (c : Context (QemuTimer (S := O)) Q) (k : Context (KvmTimer (S := O')) Q)
    out up inn out' up' inn' :
  repr c out up inn → tc_inv (timer_context c) →
  repr k out' up' inn' → tc_inv (timer_context k) →
  (let t := (timer_context c).1 in
  Qemu_deadline_handler true c =
    conclude (handle_deadline c) (λ c', Ret (tt, c')) (λ c', Ret (tt, c')) ∧
  ∃ a c2, at_deadline c = Ret (a, c2) ∧ timer_context c2 = timer_context c ∧
    match a with
    | EndSimulation => Qemu_deadline_handler true c = Ret (tt, c2)
    | NextDeadline d =>
        0 ≤ cd_ns (q_offset t) → 0 ≤ d → cd_ns (q_offset t) + d ≤ i64_max →
        ∃ s', Qemu_deadline_handler true c = Ret (tt, set_timer_context
            (mk_qemu_timer (q_offset t) (q_next_deadline t) d (q_refs t), s') c2) ∧
          qemu_expiry s' = Some (cd_ns (q_offset t) + d)
    end) ∧
  ∃ a c2,
    at_deadline (set_timer_context (set_guest_tsc guest_tsc (timer_context k)) k) = Ret (a, c2) ∧
    match a with
    | EndSimulation => Kvm_deadline_handler true guest_tsc k = Panic ExplicitPanic
    | NextDeadline d =>
        (d < tc_next (timer_context k) →
         Kvm_deadline_handler true guest_tsc k = Panic DurationOverflow) ∧
        (tc_next (timer_context k) ≤ d ≤ u64_max →
         ∃ tm, Kvm_deadline_handler true guest_tsc k =
             Ret (d - tc_next (timer_context k), set_timer_context tm c2) ∧
           tc_prev tm = tc_next (timer_context k) ∧ tc_next tm = d ∧
           k_guest_tsc tm.1 = guest_tsc)
    end.
Proof.
  intros Hc Hct Hk Hkt. split; [by eapply qemu_handler_run|by eapply kvm_handler_run].
Qed.
End handlers.

(** ** References to the shared timers *)

(** C22: [stop] drops one reference to the timer.  The timer of the emulated
    machine gave one to QEMU when it started, so the count is what it was
    before.  The timer of the hardware-assisted machine gave none: after
    [start] and [stop] the reference of the context itself is gone, and the
    timer is freed while the context still points to it. *)
Theorem timer_references {O1 O2} `{CL : ChronoLaws, QM : !Qemu O1, QL : !QemuLaws O1}
    `{KV : !Kvm O2, PR : Profile} (q : QemuTimer (S := O1)) r q1 d (s s0 s1 : O2) k :
  0 ≤ d → Qemu_start d q = Ret (r, q1) →
  KvmTimerContext_new s = (k, s0) → kvm_ioctl_init_check (k_fd k) s0 = (true, s1) →
  (∃ q2, Qemu_stop q1 = Ret (tt, q2) ∧ q_refs q1.1 = (q_refs q.1 + 1)%nat ∧
     q_refs q2.1 = q_refs q.1) ∧
  ∃ k1 k2, Kvm_start d (k, s0) = Ret (Ok cd_zero, k1) ∧ Kvm_stop k1 = Ret (tt, k2) ∧
    k_refs k = 1%nat ∧ k_refs k1.1 = 1%nat ∧ k_refs k2.1 = 0%nat.
Proof.
  intros Hd Hq Hnew Hi. destruct q as [t u]. split.
  - destruct (Qemu_start_inv _ _ _ _ _ Hd Hq) as (_&_&_&_&_&_&_&Hrefs&_).
    destruct q1 as [t1 u1]. eexists. split; [done|]. simpl in *. rewrite Hrefs. split; lia.
  - unfold KvmTimerContext_new in Hnew. destruct (kvm_open_device s) as [fd s'].
    injection Hnew as <- <-.
    destruct (Kvm_start_run d _ _ _ Hi Hd) as (t1&s2&Hrun&_&_&Hrefs).
    eexists _, _. split; [exact Hrun|]. split; [done|]. simpl in *. by rewrite Hrefs.
Qed.

(** ** Simulation time of the hardware-assisted machine *)
Section kvm.
Context {O : Type} `{CL : ChronoLaws, KV : !Kvm O, PR : Profile}.



End kvm.

(** ** The properties on concrete timers *)

(** A running or frozen timer on a clock that advances by [step] at each
    reading. *)
Definition ex_pt (app sim : Z) (frozen : bool) (cur prev next praw nraw : Z) (now step : Z)
    (n : nat) (alarm : option Z) : ProcessTimer (S := ref_os) :=
  (mk_process_timer 0 (mk_adjusted app) (mk_adjusted sim) 7 frozen cur prev next praw nraw false,
   mk_ref_os now (replicate n step) alarm).

(** A new timer is started; its first alarm is noticed 400 ns late. *)
Definition ex_q0 := ex_pt 0 0 true 0 0 0 0 0 2000 700 16 None.
Definition ex_q1 :=
  ex_pt (-3600000003400) (-2700) false 0 0 1000 0 3700 3400 700 14 (Some 3700).
Definition ex_q2 :=
  ex_pt (-3600000003400) (-2700) true 1400 0 1000 0 3700 4800 700 12 (Some 3700).
Definition ex_q3 :=
  ex_pt (-3600000004800) (-4100) false 1400 1000 2000 3700 6500 5500 700 11 (Some 6500).

Lemma ex_slice : slice ex_q1 2000 400 ex_q3.
Proof.
  apply (slice_turn ex_q1.1 ex_q1.2 4100 ex_q2.1 ex_q2.2 ex_q2.2 2000 ex_q3.1 ex_q3.2 3700);
    (reflexivity || by vm_compute).
Qed.

(** A reading before the second alarm, which is also noticed 400 ns late. *)
Definition ex_q4 :=
  ex_pt (-3600000004800) (-4100) false 1400 1000 2000 3700 6500 6200 700 10 (Some 6500).
Definition ex_q5 :=
  ex_pt (-3600000004800) (-4100) true 2800 1000 2000 3700 6500 7600 700 8 (Some 6500).
(** The work of the handler takes 1000 ns: the clock is read again at 8600. *)
Definition ex_worked : ref_os := mk_ref_os 8600 (replicate 8 700) (Some 6500).
Definition ex_q6 :=
  ex_pt (-3600000007200) (-6500) false 2800 2000 3000 6500 10300 9300 700 7 (Some 10300).

Lemma process_slices_drift_witness :
  Process_start 1000 ex_q0 = Ret (Ok 0, ex_q1) ∧ drift ex_q3 400 ∧
  Process_simulation_now ex_q3 = Ret (2100, ex_q4) ∧
  ∃ p, Process_simulation_now ex_q6 = Ret (3500, p) ∧ os_mono p.2 - os_mono ex_q4.2 = 3800 ∧
    2100 ≤ 3500 ≤ 2100 + 3800 - 1000.
Proof.
  split; [reflexivity|].
  destruct (process_slices_drift ex_q0.1 ex_q0.2 1000 0 ex_q1 [(2000, 400)] ex_q3) as [Hd Ht].
  - done.
  - done.
  - by repeat constructor.
  - reflexivity.
  - eapply slices_cons; [exact ex_slice|constructor].
  - split; [exact Hd|]. split; [reflexivity|].
    eexists. split; [reflexivity|]. split; [reflexivity|].
    edestruct (Ht 2100 ex_q4.1 ex_q4.2 6900 ex_q5.1 ex_q5.2 ex_worked 3000 ex_q6.1 ex_q6.2 3500)
      as (_&_&_&Hle);
      [reflexivity|reflexivity|by vm_compute|reflexivity|reflexivity|reflexivity|exact Hle].
Defined.

Lemma time_of_day_lags_witness :
  ∃ now s1 l s2, gettime Monotonic ex_q0.2 = Ret (Ok now, s1) ∧ local_now s1 = (l, s2) ∧
  os_mono s2 - now = 700 ∧ ∃ (c c' : Context (ProcessTimer (S := ref_os)) list_queue) tv,
    gettimeofday (set_timer_context ex_q4 c) = Ret (tv, c') ∧
    tv_sec tv * 1000000 + tv_usec tv = (0 + (2100 + 700) - 700) / 1000.
Proof.
  eexists _, _, _, _. split; [reflexivity|]. split; [reflexivity|]. split; [reflexivity|].
  edestruct (time_of_day_lags (Q := list_queue) (3600 * NANOS_PER_SEC) ex_q0.1 ex_q0.2 1000 0 ex_q1)
    as (_&_&_&Hall).
  - intros s l s' [= <- <-]. reflexivity.
  - done.
  - by vm_compute.
  - reflexivity.
  - reflexivity.
  - reflexivity.
  - destruct (ex_new_spec [] ex_q3) as (c&_&_&_&_&_&_&Ht&_).
    eexists c, _, _. split; [reflexivity|].
    edestruct (Hall [(2000, 400)] c 2100 ex_q4) as (_&_&Heq); [|by rewrite Ht|reflexivity|exact Heq].
    rewrite Ht. eapply slices_cons; [exact ex_slice|constructor].
Defined.

(** A timer whose alarm is due 500 ns beyond its deadline, shortly before. *)
Definition ex_drifted := ex_pt 0 (-500) false 0 0 1000000 0 1001000 1000300 400 16 (Some 1001000).
Definition ex_drifted1 := ex_pt 0 (-500) false 0 0 1000000 0 1001000 1000700 400 15 (Some 1001000).

Lemma process_jitter_ends_simulation_witness :
  ∃ c c' : Context (ProcessTimer (S := ref_os)) list_queue,
    Context_send 7 ex_msg c = Ret (Ok tt, c') ∧
    ∀ f tm', freeze_time (timer_context c') = Ret (f, tm') →
      ∃ c'', at_deadline (set_timer_context tm' c') = Ret (EndSimulation, c'').
Proof.
  destruct (ex_new_spec [] ex_drifted) as (c&_&Hr&_&Hcap&_&_&Ht&_). exists c.
  apply (process_jitter_ends_simulation c [] [] [] 7 ex_msg 500 1001000 1000200 ex_drifted1 Hr).
  - done.
  - by rewrite Ht.
  - by apply Nat.leb_le.
  - rewrite Hcap. simpl. lia.
  - rewrite Ht. by exists 1001000.
  - by rewrite Ht.
  - rewrite Ht. reflexivity.
  - by vm_compute.
Defined.

Lemma process_handler_branches_witness :
  ∃ c c' : Context (ProcessTimer (S := ref_os)) list_queue,
    Process_deadline_handler true c = Ret (tt, c') ∧ Context_stop 3 c = OutOfFuel ∧
    ∃ tm a c2, at_deadline (set_timer_context tm c) = Ret (a, c2) ∧ timer_context c2 = tm.
Proof.
  assert (ex_first_runs ex_goto ex_timer = true) as Hex by (by vm_compute).
  destruct (ex_first ex_goto ex_timer Hex) as (c&c'&Hr&Ht&Hrun).
  assert (∃ f tm, freeze_time ex_timer = Ret (f, tm)) as (f&tm&Hf) by (by eexists _, _).
  destruct (process_handler_branches c [] [] [] f tm Hr) as (Hh&Hs&a&c2&Had&Et&_).
  - rewrite Ht. exact ex_timer_inv.
  - rewrite Ht. exact Hf.
  - exists c, c'. split; [rewrite Hh, Hrun; reflexivity|].
    split; [apply Hs; by rewrite Ht|]. exists tm, a, c2. by split.
Defined.

(** The deadline the coordinator gave is the one [at_deadline] returned. *)
Lemma handle_deadline_next {T Q} `{FlatBuffers, CH : Chrono, TM : !Timer T, !TimerHandler T,
    !ArrayQueue Q} (c c1 c' c2 : Context T Q) f tm a d :
  tc_freeze (timer_context c) = Ret (f, tm) → set_timer_context tm c = c1 →
  at_deadline c1 = Ret (a, c2) → handle_deadline c = Ret (Some d, c') → a = NextDeadline d.
Proof.
  intros Hf <- Had. unfold handle_deadline, on_timer.
  erewrite bind_run by (apply zoom_run; exact Hf). erewrite bind_run by exact Had.
  destruct a as [d'|]; [|done]. intros Hrun.
  apply bind_inv in Hrun as (?&?&_&Hrun). by run_inv.
Qed.

Lemma vm_handlers_branches_witness :
  (∃ c c' : Context (QemuTimer (S := ref_qemu)) list_queue,
    Qemu_deadline_handler true c = Ret (tt, c') ∧
    qemu_expiry (timer_context c').2 = Some (cd_ns (q_offset (timer_context c).1) + 2000000)) ∧
  ∃ c c' : Context (KvmTimer (S := ref_kvm)) list_queue,
    Kvm_deadline_handler true 0 c = Ret (1999000, c').
Proof.
  assert (ex_first_runs ex_goto ex_qemu_timer = true) as Hexq by (by vm_compute).
  destruct (ex_first ex_goto ex_qemu_timer Hexq) as (c&c'&Hr&Ht&Hrun).
  assert (ex_first_runs ex_goto ex_kvm_timer = true) as Hexk by (by vm_compute).
  destruct (ex_first ex_goto ex_kvm_timer Hexk) as (k&k1&Hrk&Htk&Hrunk).
  destruct (vm_handlers_branches 0 c k [] [] [] [] [] [] Hr)
    as [(_&a&c2&Had&_&Ha) (a'&c3&Hadk&Hak)].
  { rewrite Ht. exact ex_qemu_timer_inv. }
  { exact Hrk. }
  { rewrite Htk. exact ex_kvm_timer_inv. }
  assert (a = NextDeadline 2000000) as ->.
  { eapply (handle_deadline_next c c); [done|by destruct c|exact Had|exact Hrun]. }
  assert (a' = NextDeadline 2000000) as ->.
  { eapply (handle_deadline_next k); [done| |exact Hadk|exact Hrunk].
    rewrite Htk. destruct k. simpl in *. by subst. }
  split.
  - destruct Ha as (s'&Hh&He); [rewrite ?Ht; unfold i64_max; simpl; lia..|].
    eexists c, _. split; [exact Hh|exact He].
  - destruct Hak as [_ (tm&Hh&_)]; [rewrite Htk; unfold u64_max; simpl; lia|].
    exists k, (set_timer_context tm c3). rewrite Hh, Htk. reflexivity.
Defined.

(** The timer of QEMU after a start at 100 ns. *)
Definition ex_qemu_started : QemuTimer (S := ref_qemu) :=
  (mk_qemu_timer 100 0 1000 2, mk_ref_qemu 100 (Some 1100)).

Lemma timer_references_witness :
  ∃ k1 k2, Kvm_start 1000 (KvmTimerContext_new (mk_ref_kvm 5100 0)) = Ret (Ok cd_zero, k1) ∧
    Kvm_stop k1 = Ret (tt, k2) ∧ k_refs k2.1 = 0%nat.
Proof.
  destruct (timer_references (CL := ChronoLaws_ref)
    (QemuTimerContext_new, mk_ref_qemu 0 None) (Ok 100) ex_qemu_started 1000 (mk_ref_kvm 5100 0)
    (mk_ref_kvm 5100 0) (mk_ref_kvm 5100 0) (mk_kvm_timer 0 0 0 0 (f64_of_int 0) 3 1)
    ltac:(done) eq_refl eq_refl eq_refl) as [_ (k1&k2&Hstart&Hstop&_&_&Hrefs)].
  exists k1, k2. by split_and!.
Defined.

