(* ===== verification/ConfigProps.v ===== *)
(** * ConfigProps: the configuration of a command line *)
From S2P Require Import Prelude Std Chrono VsgAddress Config ConfigSpec ConfigRef.
From stdpp Require Import base option list numbers strings.
From Stdlib Require Import ZArith Lia Ascii Strings.Byte.

Section config.
Context `{DPL : DateParserLaws, CPL : ClapLaws}.

(** C36: the configuration of arguments that spell options, in any order and with
    values in the same or in the next argument: the values of the four options,
    each as its reader understands it, with 100 buffers when their number is not
    given; the address then is one of 32 bits and the number of buffers is not
    0.  A missing option, a missing value and a value its reader refuses are
    errors.  The tests of the module pass. *)
Theorem config_parsed :
  (∀ opts args, spells opts args → given Config_args opts →
    match config_of opts with
    | Some config => Config_from_iter_safe args = Ok config ∧ in_u32 (cfg_address config) ∧
        (0 < Z.of_nat (num_buffers config) ≤ u64_max)%Z
    | None => ∃ e, Config_from_iter_safe args = Err e
    end) ∧
  (∀ opts args o rest, spells opts args → given Config_args opts →
    o ∈ (arg_short <$> Config_args) →
    (rest = [] ∨
     ∃ o' v rest', rest = (dash :: o' :: v) :: rest' ∧ o' ∈ (arg_short <$> Config_args)) →
    ∃ e, Config_from_iter_safe (args ++ [dash; o] :: rest) = Err e) ∧
  Forall (λ test, test = Ret tt)
    [valid_args1; valid_args2; valid_args3; invalid_args1; invalid_args2; invalid_args3;
     invalid_args4; invalid_args5; invalid_args6; invalid_args7; invalid_args8; invalid_args9].
Proof.
  split_and!.
  - intros opts args Hs Hg. pose proof (config_from_args opts args Hs Hg) as Hc.
    destruct (config_of opts) as [config|] eqn:Ho; [|done]. split; [done|].
    by apply config_of_range in Ho.
  - apply config_no_value.
  - destruct valid_configs_pass as (?&?&?).
    repeat (apply Forall_cons_2; [done|]). apply invalid_configs_pass.
Qed.
End config.

(** ** Witness *)
Lemma config_parsed_witness :
  Config_from_iter_safe (bytes_of <$> ["-b"; "7"; "-t1970-01-31T01:02:03"; "-n10.0.1.1"; "-atoto"]) =
    Ok (mk_cfg (bytes_of "toto") 16842762 (2595723 * NANOS_PER_SEC)%Z 7).
Proof.
  destruct (proj1 config_parsed [(short_b, bytes_of "7"); (short_t, bytes_of "1970-01-31T01:02:03");
    (short_n, bytes_of "10.0.1.1"); (short_a, bytes_of "toto")]
    (bytes_of <$> ["-b"; "7"; "-t1970-01-31T01:02:03"; "-n10.0.1.1"; "-atoto"])) as [Hok _].
  - spell.
  - options.
  - exact Hok.
Defined.
