(* ===== verification/CapiProps.v ===== *)
(** * CapiProps: the contract of the C interface

    The codes and outputs of the [vsg_*] functions, in terms of the abstract
    state of the context, and the argument parsing of [vsg_init]. *)
From S2P Require Import Prelude Std BufferPool BytesBuffer Wire WireRef FbBuffer Connector.
From S2P Require Import ConnectorSpec OutputMsgSet WaitfreeArrayQueue Chrono Error LibcTimer.
From S2P Require Import Timer TimerProcess TimerProcessSpec PosixRef TimerKvm Context.
From S2P Require Import ContextSpec DeadlineSpec ContextInit HandleDeadline Config Capi Fixtures.
From S2P Require Import ContextProps.
From stdpp Require Import base option list numbers.
From Stdlib Require Import ZArith Lia Strings.Byte.

(** ** Arguments *)
Lemma pull_args_found n i args k : (pull_args n i args (Some k)) = ([], Some k).
Proof. revert n i. induction args as [|a args IH]; intros [|n] i; by simpl. Qed.

Lemma pull_args_pre n i pre rest :
  dashes ∉ pre →
  pull_args n i (pre ++ rest) None =
    let '(l, nx) := pull_args (n - length pre) (i + Z.of_nat (length pre)) rest None in
    (take n pre ++ l, nx).
Proof.
  revert n i. induction pre as [|a pre IH]; intros n i Hd.
  { simpl. rewrite Nat.sub_0_r, Z.add_0_r, take_nil. by destruct (pull_args n i rest None). }
  apply not_elem_of_cons in Hd as [Hne Hd]. destruct n as [|n].
  { simpl. by destruct rest. }
  simpl. rewrite (bool_decide_eq_false_2 (a = dashes)) by congruence.
  rewrite IH by done. replace (i + 1 + Z.of_nat (length pre))%Z with (i + Z.of_nat (S (length pre)))%Z
    by lia.
  by destruct (pull_args (n - length pre) _ rest None).
Qed.

(** The iterator stops at the first separator. *)
Lemma all_args_stop pre post : dashes ∉ pre → all_args (pre ++ dashes :: post) = pre.
Proof.
  intros Hd. unfold all_args. rewrite pull_args_pre by done.
  rewrite length_app. destruct (_ - length pre) as [|n] eqn:Hn; [simpl in Hn; lia|].
  simpl. rewrite pull_args_found. simpl. rewrite app_nil_r. apply take_ge. simpl in Hn. lia.
Qed.

Lemma all_args_all args : dashes ∉ args → all_args args = args.
Proof.
  intros Hd. unfold all_args. rewrite <- (app_nil_r args) at 2. rewrite pull_args_pre by done.
  destruct (_ - length args); simpl; rewrite app_nil_r; apply take_ge; lia.
Qed.

(** C37: [parse_os_args], with which [vsg_init] reads the command line, on every
    branch.  The parser sees the arguments before the first ["--"], or all of them
    when there is none, and nothing of what follows.  Its error is returned as it
    is.  With its result comes the index of the caller's next argument: the one
    after the separator when the parser asked for more than the arguments before
    it, and otherwise, also when there is no separator, the number of arguments. *)
Theorem parse_args_next {A E} pre post (parse : list bytes → result A E * nat) :
  dashes ∉ pre →
  parse_os_args (pre ++ dashes :: post) parse =
    match parse pre with
    | (Ok r, pulls) =>
        Ok (r, if (pulls <=? length pre)%nat then Z.of_nat (length (pre ++ dashes :: post))
               else Z.of_nat (length pre) + 1)%Z
    | (Err e, _) => Err e
    end ∧
  parse_os_args pre parse =
    match parse pre with
    | (Ok r, _) => Ok (r, Z.of_nat (length pre))
    | (Err e, _) => Err e
    end.
Proof.
  intros Hd. unfold parse_os_args. rewrite all_args_stop, all_args_all by done. split.
  - destruct (parse pre) as [[r|e] pulls]; [|done]. rewrite pull_args_pre by done.
    destruct (Nat.leb_spec pulls (length pre)) as [Hle|Hgt].
    + by replace (pulls - length pre) with 0 by lia.
    + destruct (pulls - length pre) as [|n] eqn:Hn; [lia|]. simpl.
      by rewrite pull_args_found.
  - destruct (parse pre) as [[r|e] pulls]; [|done].
    pose proof (pull_args_pre pulls 0 pre [] Hd) as Hp. rewrite app_nil_r in Hp. rewrite Hp.
    by destruct (pulls - length pre).
Qed.

Section vsg.
Context {T : Type} {Q : Type → Type} `{FL : FlatBuffersLaws, CL : ChronoLaws, LC : Libc}
  `{TM : !Timer T, TL : !TimerLaws T, AQ : ArrayQueueLaws Q}.
Implicit Types (c : Context T Q) (out up : list pending) (inn : list packet).

(** The errors of [Context::start]. *)
Lemma Context_start_errors c e c' :
  Context_start c = Ret (Err e, c') →
  e = AlreadyStarted ∨ e = ProtocolViolation ∨ ∃ x, e = IoError x.
Proof.
  unfold Context_start. intros Hrun.
  apply bind_inv in Hrun as (b&c1&[-> ->]%gets_inv&Hrun).
  destruct (start_once c). { apply ret_inv in Hrun as [Hr _]. simplify_eq. by left. }
  apply bind_inv in Hrun as (u&c1&->%modify_inv&Hrun). unfold try, mbind, M_bind in Hrun.
  destruct (connector_recv _) as [[[msg|x] c2]| |]; simplify_eq/=;
    [|injection Hrun as <- _; by right; right; eexists].
  destruct msg as [d|d|].
  - apply bind_inv in Hrun as (u1&c3&_&Hrun). apply ret_inv in Hrun as [Hr _].
    simplify_eq. by right; left.
  - apply bind_inv in Hrun as ([o|x]&c3&_&Hrun); apply ret_inv in Hrun as [Hr _]; simplify_eq.
    by right; right; eexists.
  - apply ret_inv in Hrun as [Hr _]. simplify_eq. by right; left.
Qed.

(** The code of each of them. *)
Lemma start_codes `{LL : !LibcLaws} c e c' offset :
  Context_start c = Ret (Err e, c') →
  ∃ code, vsg_start true offset c = Ret ((code, offset), c') ∧
    match e with
    | AlreadyStarted => code = EALREADY
    | ProtocolViolation => code = EPROTO
    | IoError _ => code = EIO
    | _ => False
    end ∧ code ≠ 0%Z ∧ code ≠ EINVAL ∧ code ≠ ENOMEM ∧ code ≠ EMSGSIZE.
Proof.
  intros Hs. exists (start_code e). split.
  { unfold vsg_start. by erewrite bind_run by exact Hs. }
  destruct (Context_start_errors _ _ _ Hs) as [->|[->|[x ->]]]; simpl;
    (split; [done|]); split_and!;
    [apply (errno_ne 2 0)|apply (errno_ne 2 1)|apply (errno_ne 2 3)|apply (errno_ne 2 5)
    |apply (errno_ne 4 0)|apply (errno_ne 4 1)|apply (errno_ne 4 3)|apply (errno_ne 4 5)
    |apply (errno_ne 6 0)|apply (errno_ne 6 1)|apply (errno_ne 6 3)|apply (errno_ne 6 5)]; done.
Qed.

(** The offset [vsg_start] writes back. *)
Lemma start_offset c o c' offset :
  Context_start c = Ret (Ok o, c') → (Z.abs (cd_ns o) ≤ CDuration_MAX)%Z →
  vsg_start true offset c =
    Ret ((0%Z, (λ _, mk_timespec (Z.quot (cd_ns o) NANOS_PER_SEC)
                       (Z.rem (cd_ns o) NANOS_PER_SEC)) <$> offset), c').
Proof.
  intros Hrun Hmax. unfold vsg_start. erewrite bind_run by exact Hrun.
  cbv beta iota zeta. rewrite cd_num_seconds_quot. set (z := cd_ns o) in *.
  pose proof (Z.quot_rem z NANOS_PER_SEC ltac:(done)) as Hqr.
  pose proof (Z.rem_bound_abs z NANOS_PER_SEC ltac:(done)) as Hrem.
  change (Z.abs NANOS_PER_SEC) with NANOS_PER_SEC in Hrem.
  assert (Z.abs (Z.quot z NANOS_PER_SEC * NANOS_PER_SEC) ≤ CDuration_MAX)%Z as Hq.
  { destruct (Z.le_gt_cases 0 z).
    - pose proof (Z.rem_nonneg z NANOS_PER_SEC ltac:(done) ltac:(done)).
      unfold CDuration_MAX, i64_max, NANOS_PER_SEC in *. lia.
    - pose proof (Z.rem_nonpos z NANOS_PER_SEC ltac:(done) ltac:(lia)).
      unfold CDuration_MAX, i64_max, NANOS_PER_SEC in *. lia. }
  destruct (cd_seconds_Ret _ Hq) as (s&Hs&Hsn).
  erewrite bind_run by (unfold lift; by rewrite Hs).
  destruct (cd_sub_Ret o s) as (d&Hd&Hdn).
  { fold z. rewrite Hsn. unfold CDuration_MAX, i64_max, NANOS_PER_SEC in *. lia. }
  erewrite bind_run by (unfold lift; by rewrite Hd).
  assert (cd_ns d = Z.rem z NANOS_PER_SEC) as Hdr by (rewrite Hdn, Hsn; fold z; lia).
  erewrite bind_run.
  2: { unfold lift. rewrite cd_num_nanoseconds_Some; [done|]. rewrite Hdr.
       unfold in_i64, i64_max, NANOS_PER_SEC in *. lia. }
  rewrite Hdr. rewrite !as_i64_id
    by (unfold in_i64, CDuration_MAX, i64_max, NANOS_PER_SEC in *; lia). by destruct offset.
Qed.

(** C38: [vsg_start] on every branch.  Without a context it is [EINVAL], nothing
    happens.  With one, the errors of [start] are [EALREADY] for a second start,
    [EPROTO] for a first message that is not a deadline, and [EIO] for all
    others, the offset staying as it was: an exhausted pool and a message over
    the buffer size reach it as I/O errors, so neither [ENOMEM] nor [EMSGSIZE]
    is ever returned.  On success the offset of [start] is written through the
    pointer if there is one, as the quotient and the remainder of its
    nanoseconds by those of a second, both rounded towards zero: for an offset
    before the origin, [tv_nsec] is not positive, and negative unless the offset
    is a whole number of seconds. *)
Theorem vsg_start_branches `{LL : !LibcLaws} c offset :
  vsg_start false offset c = Ret ((EINVAL, offset), c) ∧
  (∀ e c', Context_start c = Ret (Err e, c') →
    ∃ code, vsg_start true offset c = Ret ((code, offset), c') ∧
      match e with
      | AlreadyStarted => code = EALREADY
      | ProtocolViolation => code = EPROTO
      | IoError _ => code = EIO
      | _ => False
      end ∧ code ≠ 0%Z ∧ code ≠ EINVAL ∧ code ≠ ENOMEM ∧ code ≠ EMSGSIZE) ∧
  (∀ o c', Context_start c = Ret (Ok o, c') → (Z.abs (cd_ns o) ≤ CDuration_MAX)%Z →
    let ts := mk_timespec (Z.quot (cd_ns o) NANOS_PER_SEC) (Z.rem (cd_ns o) NANOS_PER_SEC) in
    vsg_start true offset c = Ret ((0%Z, (λ _, ts) <$> offset), c') ∧
    (ts_sec ts * NANOS_PER_SEC + ts_nsec ts = cd_ns o)%Z ∧
    (Z.abs (ts_nsec ts) < NANOS_PER_SEC)%Z ∧
    (0 ≤ cd_ns o → 0 ≤ ts_nsec ts)%Z ∧
    (cd_ns o < 0 → ts_nsec ts ≤ 0 ∧ (cd_ns o mod NANOS_PER_SEC ≠ 0 → ts_nsec ts < 0))%Z).
Proof.
  split; [done|]. split; [intros; by apply start_codes|]. intros o c' Hs Hmax ts.
  split; [by apply start_offset|]. simpl. set (z := cd_ns o) in *.
  pose proof (Z.quot_rem z NANOS_PER_SEC ltac:(done)) as Hqr.
  pose proof (Z.rem_bound_abs z NANOS_PER_SEC ltac:(done)) as Hrem.
  split_and!; [lia|exact Hrem|intros; by apply Z.rem_nonneg|]. intros Hneg.
  pose proof (Z.rem_nonpos z NANOS_PER_SEC ltac:(done) ltac:(lia)) as Hle.
  split; [done|]. intros Hmod. assert (Z.rem z NANOS_PER_SEC ≠ 0)%Z; [|lia]. intros Hz.
  apply Hmod. rewrite Hz in Hqr. rewrite Hqr, Z.add_0_r, Z.mul_comm. by apply Z.mod_mul.
Qed.

(** [vsg_send] *)
Lemma send_codes c out up inn dst msglen msg t tm :
  repr c out up inn → in_u32 dst → (0 ≤ msglen)%Z →
  (∀ m, msg = Some m → msglen ≤ Z.of_nat (length m))%Z →
  tc_simulation_now (timer_context c) = Ret (t, tm) →
  if negb (msglen =? 0)%Z && bool_decide (msg = None) then
    vsg_send true dst msglen msg c = Ret (EINVAL, c)
  else
    ∃ code c', vsg_send true dst msglen msg c = Ret (code, c') ∧
    if (Z.of_nat MAX_PACKET_SIZE <? msglen)%Z then code = EMSGSIZE ∧ repr c' out up inn
    else if length out + length up =? out_cap c then code = ENOMEM ∧ repr c' out up inn
    else code = 0%Z ∧ ∃ out' up', repr c' out' up' inn ∧
      waiting out' ++ waiting up' ≡ₚ
        (dst, take (Z.to_nat msglen) (default [] msg)) :: waiting out ++ waiting up.
Proof.
  intros Hr Hdst Hlen Hmem Hnow.
  destruct (negb (msglen =? 0)%Z && bool_decide (msg = None)) eqn:Hnull.
  { apply andb_true_iff in Hnull as [Hz%negb_true_iff ->%bool_decide_eq_true].
    unfold vsg_send. by rewrite Hz. }
  set (v := take (Z.to_nat msglen) (default [] msg)).
  assert (Z.of_nat (length v) = msglen) as Hv.
  { unfold v. rewrite length_take. destruct msg as [m|]; simpl.
    - specialize (Hmem m eq_refl). lia.
    - rewrite (bool_decide_eq_true_2 (None = None)), andb_true_r in Hnull by done.
      apply negb_false_iff, Z.eqb_eq in Hnull. lia. }
  assert (vsg_send true dst msglen msg c =
    (r ← Context_send dst v; mret (send_code r)) c) as ->.
  { unfold vsg_send. destruct (Z.eqb_spec msglen 0) as [->|]; [done|]. by destruct msg. }
  destruct (Context_send_spec c out up inn dst v t tm Hr Hdst Hnow)
    as (r&c'&Hrun&_&_&_&Hcase).
  exists (send_code r), c'. split; [by erewrite bind_run by exact Hrun|].
  destruct (Nat.ltb_spec MAX_PACKET_SIZE (length v)).
  { rewrite (proj2 (Z.ltb_lt _ _)) by lia. by destruct Hcase as [-> ?]. }
  rewrite (proj2 (Z.ltb_ge _ _)) by lia. destruct (_ =? _); [by destruct Hcase as [-> ?]|].
  destruct Hcase as (->&[t'|]&_&Hcase); [destruct Hcase as (_&_&Hr')|destruct Hcase as (l1&l2&->&Hr')];
    (split; [done|]); eexists _, _; (split; [exact Hr'|]); unfold waiting; rewrite !fmap_app; simpl.
  - rewrite !app_assoc. symmetry. apply Permutation_cons_append.
  - by rewrite <- (Permutation_middle (_ <$> l1)).
Qed.

(** [vsg_recv] *)
Lemma recv_codes c out up inn psrc pdst msglen msg :
  repr c out up inn → (0 ≤ default 0 msglen)%Z →
  (∀ m, msg = Some m → default 0 msglen ≤ Z.of_nat (length m))%Z →
  let same := mk_recv_out psrc pdst msglen msg in
  if negb (default 0 msglen =? 0)%Z && bool_decide (msg = None) then
    vsg_recv true psrc pdst msglen msg c = Ret ((EINVAL, same), c)
  else
    ∃ c', repr c' out up (tail inn) ∧
    vsg_recv true psrc pdst msglen msg c =
      Ret (match inn with
           | [] => (EAGAIN, same)
           | k :: _ =>
               if (Z.of_nat (length (pk_payload k)) <=? default 0 msglen)%Z then
                 (0%Z, mk_recv_out (overwrite psrc (pk_src k)) (overwrite pdst (pk_dst k))
                         (overwrite msglen (as_u32 (Z.of_nat (length (pk_payload k)))))
                         ((λ m, pk_payload k ++ drop (length (pk_payload k)) m) <$> msg))
               else (EMSGSIZE, same)
           end, c').
Proof.
  intros Hr Hlen Hmem same.
  destruct (negb (default 0 msglen =? 0)%Z && bool_decide (msg = None)) eqn:Hnull.
  { unfold vsg_recv. by rewrite Hnull. }
  set (n := Z.to_nat (default 0%Z msglen)). set (mem := default [] msg).
  destruct (Context_recv_spec c out up inn (take n mem) Hr) as (c'&Hrun&Hr'&_).
  exists c'. split; [done|]. unfold vsg_recv. rewrite Hnull. fold n mem.
  erewrite bind_run by exact Hrun. cbv beta.
  assert (length (take n mem) = n ∨ msg = None ∧ n = 0) as Hn.
  { unfold mem, n. destruct msg as [m|]; simpl.
    - left. rewrite length_take. specialize (Hmem m eq_refl). lia.
    - right. rewrite (bool_decide_eq_true_2 (None = None)), andb_true_r in Hnull by done.
      apply negb_false_iff, Z.eqb_eq in Hnull. by rewrite Hnull. }
  assert (length (take n mem) = n) as Hn' by (destruct Hn as [|[_ ->]]; done).
  assert (match msg with Some _ => Some (take n mem ++ drop n mem) | None => None end = msg) as Hid
    by (unfold mem; destruct msg; [by rewrite take_drop|done]).
  destruct inn as [|k inn]; simpl; [by rewrite Hid|]. rewrite Hn'.
  destruct (Nat.leb_spec (length (pk_payload k)) n), (Z.leb_spec (Z.of_nat (length (pk_payload k))) (default 0 msglen)%Z);
    try (unfold n in *; lia); [|by rewrite Hid].
  unfold mret, M_ret. do 3 f_equal. destruct msg as [m|]; [|done]. simpl. unfold mem. simpl.
  rewrite <- app_assoc. do 2 f_equal. rewrite <- (take_drop n m) at 3.
  change (length (take n m) = n) in Hn'. by rewrite drop_app_le by lia.
Qed.

(** C39: [vsg_send] and [vsg_recv] on every branch.  Without a context both are
    [EINVAL] and change nothing.  [vsg_send]: [EINVAL] for a missing message, [EMSGSIZE] over the maximum size, [ENOMEM] without a
    buffer, each without a trace in the context; otherwise 0, and the first
    [msglen] bytes of the message are what waits to be sent, once.  [vsg_recv]:
    [EINVAL] without memory for a message, [EAGAIN] and nothing changed when no
    packet waits; otherwise the oldest packet is taken and, if it fits, its
    source, destination, length and payload are written through the pointers
    that are not [NULL], the memory beyond the payload staying as it was; if it
    does not fit it is lost and [EMSGSIZE] returned. *)
Theorem vsg_transfer_codes c out up inn :
  repr c out up inn →
  (∀ dst msglen msg, vsg_send false dst msglen msg c = Ret (EINVAL, c)) ∧
  (∀ psrc pdst msglen msg, vsg_recv false psrc pdst msglen msg c =
     Ret ((EINVAL, mk_recv_out psrc pdst msglen msg), c)) ∧
  (∀ dst msglen msg t tm,
    in_u32 dst → (0 ≤ msglen)%Z →
    (∀ m, msg = Some m → msglen ≤ Z.of_nat (length m))%Z →
    tc_simulation_now (timer_context c) = Ret (t, tm) →
    if negb (msglen =? 0)%Z && bool_decide (msg = None) then
      vsg_send true dst msglen msg c = Ret (EINVAL, c)
    else
      ∃ code c', vsg_send true dst msglen msg c = Ret (code, c') ∧
      if (Z.of_nat MAX_PACKET_SIZE <? msglen)%Z then code = EMSGSIZE ∧ repr c' out up inn
      else if length out + length up =? out_cap c then code = ENOMEM ∧ repr c' out up inn
      else code = 0%Z ∧ ∃ out' up', repr c' out' up' inn ∧
        waiting out' ++ waiting up' ≡ₚ
          (dst, take (Z.to_nat msglen) (default [] msg)) :: waiting out ++ waiting up) ∧
  (∀ psrc pdst msglen msg,
    (0 ≤ default 0 msglen)%Z →
    (∀ m, msg = Some m → default 0 msglen ≤ Z.of_nat (length m))%Z →
    let same := mk_recv_out psrc pdst msglen msg in
    if negb (default 0 msglen =? 0)%Z && bool_decide (msg = None) then
      vsg_recv true psrc pdst msglen msg c = Ret ((EINVAL, same), c)
    else
      ∃ c', repr c' out up (tail inn) ∧
      vsg_recv true psrc pdst msglen msg c =
        Ret (match inn with
             | [] => (EAGAIN, same)
             | k :: _ =>
                 if (Z.of_nat (length (pk_payload k)) <=? default 0 msglen)%Z then
                   (0%Z, mk_recv_out (overwrite psrc (pk_src k)) (overwrite pdst (pk_dst k))
                           (overwrite msglen (as_u32 (Z.of_nat (length (pk_payload k)))))
                           ((λ m, pk_payload k ++ drop (length (pk_payload k)) m) <$> msg))
                 else (EMSGSIZE, same)
             end, c')).
Proof.
  intros Hr. split_and!; intros; [done..|by eapply send_codes|by apply recv_codes].
Qed.
End vsg.

(** ** The properties on concrete calls *)

(** A parser that reads all it is given, and one that reads nothing. *)
Lemma parse_args_next_witness :
  parse_os_args (E := unit) [[x41]; [x42]; dashes; [x43]] (λ l, (Ok l, S (length l))) =
    Ok ([[x41]; [x42]], 3%Z) ∧
  parse_os_args (E := unit) [[x41]; [x42]; dashes; [x43]] (λ _, (Ok (), 0)) = Ok ((), 4%Z).
Proof.
  assert (dashes ∉ [[x41]; [x42]]) as Hd by (apply (bool_decide_unpack _); by vm_compute).
  split.
  - exact (proj1 (parse_args_next [[x41]; [x42]] [[x43]] (λ l, (Ok l, S (length l))) Hd)).
  - exact (proj1 (parse_args_next [[x41]; [x42]] [[x43]] (λ _, (Ok (), 0)) Hd)).
Defined.
#[export] Instance LibcLaws_linux : LibcLaws.
Proof. unfold LibcLaws. apply (bool_decide_unpack _). by vm_compute. Qed.

(** A context that starts with an offset of minus half a second. *)
Definition ex_early_timer : ProcessTimer (S := ref_os) :=
  (mk_process_timer (-500000000) (mk_adjusted 0) (mk_adjusted 0) 7 true 0 0 0 0 0 true,
   mk_ref_os 2000 (replicate 16 500) None)%Z.

Lemma vsg_start_branches_witness :
  ∃ c c' : Context (ProcessTimer (S := ref_os)) list_queue,
    vsg_start false (Some timespec_zero) c = Ret ((EINVAL, Some timespec_zero), c) ∧
    vsg_start true (Some timespec_zero) c =
      Ret ((0%Z, Some (mk_timespec 0 (-500000000))), c').
Proof.
  destruct (ex_new_spec ex_goto ex_early_timer) as (c&Hc&_).
  assert (match ex_new ex_goto ex_early_timer with
    | Ret (Ok c) => match Context_start c with Ret (Ok o, _) => (o =? -500000000)%Z | _ => false end
    | _ => false end = true) as Hok by (by vm_compute).
  rewrite Hc in Hok. destruct (Context_start c) as [[[o|] c']| |] eqn:Hs; try done.
  apply Z.eqb_eq in Hok. change (cd_ns o = -500000000)%Z in Hok.
  destruct (vsg_start_branches c (Some timespec_zero)) as (Hnull&_&Hstart).
  destruct (Hstart o c' Hs) as (Hrun&_).
  - rewrite Hok. by vm_compute.
  - exists c, c'. split; [exact Hnull|]. rewrite Hok in Hrun. exact Hrun.
Defined.

Lemma vsg_transfer_codes_witness :
  (∃ c c' : Context (ProcessTimer (S := ref_os)) list_queue,
    vsg_send true 7 2 (Some [x41; x42; x43]) c = Ret (0%Z, c')) ∧
  ∃ c c' : Context (KvmTimer (S := ref_kvm)) list_queue,
    vsg_recv true (Some 0%Z) None (Some 4%Z) (Some [x00; x00; x00; x00]) c =
      Ret ((0%Z, mk_recv_out (Some 1%Z) None (Some 1%Z) (Some [x41; x00; x00; x00])), c').
Proof.
  split.
  - destruct (ex_new_spec [] ex_timer) as (c&_&Hr&_&Hcap&_&_&Ht&_).
    destruct (tc_simulation_now ex_timer) as [[t tm]| |] eqn:Hnow; [|done..].
    destruct (vsg_transfer_codes c [] [] [] Hr) as (_&_&Hsend&_).
    destruct (Hsend 7%Z 2%Z (Some [x41; x42; x43]) t tm) as (code&c'&Hrun&Hcase).
    + done.
    + lia.
    + intros m [= <-]. simpl. lia.
    + by rewrite Ht.
    + rewrite Hcap in Hcase. change (Z.of_nat MAX_PACKET_SIZE <? 2)%Z with false in Hcase.
      simpl in Hcase. destruct Hcase as [-> _]. by exists c, c'.
  - destruct ex_delivered as (c&up&Hr). destruct (vsg_transfer_codes c [] up _ Hr) as (_&_&_&Hrecv).
    destruct (Hrecv (Some 0%Z) None (Some 4%Z) (Some [x00; x00; x00; x00])) as (c'&_&Hrun).
    + done.
    + intros m [= <-]. simpl. lia.
    + by exists c, c'.
Defined.
