(* ===== verification/CapiTestProps.v ===== *)
(** * CapiTestProps: the tests of the C interface pass

    [client/capi/src/lib.rs], module [test], with the same generality as the
    tests of the context. *)
From S2P Require Import Prelude Std BufferPool BytesBuffer Wire WireRef FbBuffer Connector.
From S2P Require Import ConnectorSpec ConnectorPeer OutputMsgSet WaitfreeArrayQueue Chrono.
From S2P Require Import Error LibcTimer Timer TimerProcess TimerProcessSpec TimerProcessLive.
From S2P Require Import PosixRef Context TestActor TestHelpers Cosim CosimSpec Config Capi Lifetime.
From S2P Require Import ConfigSpec ConfigRef ScriptSpec TestRun TestRunSpec TestScripts TestBodies ContextTests.
From S2P Require Import ContextTestsSpec ContextTestProps CapiProps CapiTests CapiTestsSpec.
From stdpp Require Import base option list numbers strings.
From Stdlib Require Import ZArith Lia Strings.Byte.

Section tests.
Context {OS : Type} {Q : Type → Type} `{FL : FlatBuffersLaws, PV : PosixLive OS}
  `{AQ : ArrayQueueLaws Q, PR : Profile, LL : !LibcLaws}.
Context `{DP : !DateParser, DPL : !DateParserLaws, CP : Clap, CPL : !ClapLaws}.

(** C40: the tests of the C interface pass, whatever deadline signals come before
    each of their calls and however many arguments the parser looks at: those of
    the argument iterator; those with a null context, which change nothing; those
    of [vsg_init]; and those that run a simulation, with every combination of
    null pointers they try. *)
Theorem capi_tests_pass not_found child (os : OS) sched pulls :
  creates os → budget 0 sched →
  Forall (λ test, test = Ret tt)
    [parse_os_args1; parse_os_args2; parse_os_args3; parse_os_args4; parse_os_args5] ∧
  (∀ fuel (c : Context (ProcessTimer (S := OS)) Q), Forall (λ test, test c = Ret (tt, c))
    [start_no_context; stop_no_context fuel; send_no_context; recv_no_context;
     gettimeofday_no_context]) ∧
  (∀ A (destroy : M A unit) p, cleanup_null destroy p = Ret (tt, p)) ∧
  Forall (λ test, returns (λ fuel, test fuel child os pulls) tt)
    [init_valid (Q := Q) Config_from_iter_safe not_found;
     init_valid_no_next_arg (Q := Q) Config_from_iter_safe not_found;
     init_invalid (Q := Q) Config_from_iter_safe not_found;
     init_invalid_no_next_arg (Q := Q) Config_from_iter_safe not_found] ∧
  Forall (λ test, returns (λ fuel, test fuel child os sched pulls) tt)
    [start_stop (Q := Q) Config_from_iter_safe not_found;
     start_no_offset (Q := Q) Config_from_iter_safe not_found;
     send (Q := Q) Config_from_iter_safe not_found;
     send_null_empty (Q := Q) Config_from_iter_safe not_found;
     send_null_not_empty (Q := Q) Config_from_iter_safe not_found;
     send_too_big (Q := Q) Config_from_iter_safe not_found;
     recv (Q := Q) Config_from_iter_safe not_found;
     recv_no_src (Q := Q) Config_from_iter_safe not_found;
     recv_no_dst (Q := Q) Config_from_iter_safe not_found;
     recv_null_empty (Q := Q) Config_from_iter_safe not_found;
     recv_null_empty2 (Q := Q) Config_from_iter_safe not_found;
     recv_null_empty3 (Q := Q) Config_from_iter_safe not_found;
     recv_null_not_empty (Q := Q) Config_from_iter_safe not_found;
     recv_no_msg (Q := Q) Config_from_iter_safe not_found;
     recv_too_big (Q := Q) Config_from_iter_safe not_found;
     poll (Q := Q) Config_from_iter_safe not_found;
     test_gettimeofday (Q := Q) Config_from_iter_safe not_found;
     gettimeofday_no_tv (Q := Q) Config_from_iter_safe not_found].
Proof.
  intros Hos Hsched. assert (TestParser Config_from_iter_safe) as TP by exact _. split_and!.
  - by repeat constructor.
  - intros fuel c. repeat constructor;
      unfold start_no_context, stop_no_context, send_no_context, recv_no_context,
        gettimeofday_no_context, mbind, M_bind; simpl; by rewrite ?Z.eqb_refl.
  - done.
  - destruct (c_init_tests_pass (Q := Q) Config_from_iter_safe not_found child os pulls Hos)
      as (?&?&?&?). by repeat constructor.
  - destruct (c_start_tests_pass (Q := Q) Config_from_iter_safe not_found child os sched pulls Hos)
      as (?&?).
    destruct (c_send_tests_pass (Q := Q) Config_from_iter_safe not_found child os sched pulls Hos Hsched)
      as (?&?&?&?).
    destruct (c_recv_tests_pass (Q := Q) Config_from_iter_safe not_found child os sched pulls Hos)
      as (?&?&?&?&?&?&?).
    destruct (c_time_tests_pass (Q := Q) Config_from_iter_safe not_found child os sched pulls Hos Hsched)
      as (?&?).
    repeat (apply Forall_cons_2; [try done|]); [..|constructor].
    + by apply c_recv_null_not_empty_passes.
    + by apply c_recv_no_msg_passes.
    + by apply c_poll_passes.
Qed.
End tests.

(** ** Witness *)
#[local] Instance overflow_checked : Profile := true.

Lemma capi_tests_pass_witness :
  returns (λ fuel, send_null_not_empty (Q := list_queue) Config_from_iter_safe eof fuel 7 ex_clock [0; 2] 3) tt ∧
  returns (λ fuel, recv_too_big (Q := list_queue) Config_from_iter_safe eof fuel 7 ex_clock [0; 2] 3) tt.
Proof.
  destruct (capi_tests_pass (Q := list_queue) eof 7 ex_clock [0; 2] 3)
    as (_&_&_&_&Hall).
  - eexists _, _. by split.
  - by vm_compute.
  - rewrite Forall_lookup in Hall. split; [by apply (Hall 4 _ eq_refl)|].
    by apply (Hall 14 _ eq_refl).
Defined.
